(** * Linear optimal power flow: the model builder of [pypsa/opf.py]

    A shallow embedding of the LOPF model builder, its solver driver and
    its result extraction, followed by the properties of the built model.

    Conventions of the embedding.
    - Python floats are an abstract scalar type [F] with the operations the
      source applies to them (class [Scalar]); nothing is assumed about them
      unless a statement asks for ring laws (class [ScalarRing]).
    - A pandas DataFrame of components is the list of its rows, one record
      per row, in index order; [df.at[name, column]] for a [name] taken from
      that very frame is the field of the row.
    - A Python [dict] is an insertion-ordered association list.
    - Python exceptions are the error side of the [result] monad. *)

From Stdlib Require Import List String ZArith Bool Arith Lia Ring.
Import ListNotations.
Local Open Scope string_scope.
Local Open Scope list_scope.

Set Implicit Arguments.

(** ** Scalars *)

Class Scalar (F : Type) : Type := {
  fzero : F;
  fone : F;
  fadd : F -> F -> F;
  fsub : F -> F -> F;
  fmul : F -> F -> F;
  fdiv : F -> F -> F;
  fopp : F -> F;
  fpow : F -> F -> F;      (* [x ** y] *)
  fabs : F -> F;
  fltb : F -> F -> bool;   (* [x < y] *)
  feqb : F -> F -> bool    (* [x == y] *)
}.

(** Integer scalars, for running the builder on integer-valued networks
    (there [/] is only ever applied where the division is exact). *)
#[export] Instance Scalar_Z : Scalar Z := {
  fzero := 0%Z;
  fone := 1%Z;
  fadd := Z.add;
  fsub := Z.sub;
  fmul := Z.mul;
  fdiv := Z.div;
  fopp := Z.opp;
  fpow := Z.pow;
  fabs := Z.abs;
  fltb := Z.ltb;
  feqb := Z.eqb
}.

(** The commutative-ring laws, for statements about the value of a linear
    expression. *)
Class ScalarRing (F : Type) {SF : Scalar F} : Prop := {
  fadd_0_l : forall x : F, fadd fzero x = x;
  fadd_comm : forall x y : F, fadd x y = fadd y x;
  fadd_assoc : forall x y z : F, fadd x (fadd y z) = fadd (fadd x y) z;
  fmul_1_l : forall x : F, fmul fone x = x;
  fmul_comm : forall x y : F, fmul x y = fmul y x;
  fmul_assoc : forall x y z : F, fmul x (fmul y z) = fmul (fmul x y) z;
  fdistr_l : forall x y z : F, fmul (fadd x y) z = fadd (fmul x z) (fmul y z);
  fsub_def : forall x y : F, fsub x y = fadd x (fopp y);
  fopp_def : forall x : F, fadd x (fopp x) = fzero
}.

Arguments ScalarRing F {SF}.

(** ** Exceptions *)

Inductive exn : Type :=
| KeyError
| IndexError
| AttributeError (attr : string)
| NameError (name : string)
| ValueError (msg : string).

Inductive result (A : Type) : Type :=
| Raise (e : exn)
| Return (a : A).

Arguments Raise {A} e.
Arguments Return {A} a.

Definition bind {A B : Type} (c : result A) (k : A -> result B) : result B :=
  match c with
  | Raise e => Raise e
  | Return a => k a
  end.

Notation "x <- c ;; k" := (bind c (fun x => k))
  (at level 61, c at next level, right associativity).
Notation "c ;;; k" := (bind c (fun _ => k))
  (at level 61, right associativity).

Fixpoint mapM {A B : Type} (f : A -> result B) (l : list A) : result (list B) :=
  match l with
  | [] => Return []
  | x :: l' => y <- f x ;; ys <- mapM f l' ;; Return (y :: ys)
  end.

Fixpoint foldM {A S : Type} (f : S -> A -> result S) (l : list A) (s : S) : result S :=
  match l with
  | [] => Return s
  | x :: l' => s' <- f s x ;; foldM f l' s'
  end.

Definition is_raise {A : Type} (c : result A) : bool :=
  match c with Raise _ => true | Return _ => false end.

(** ** Keys, indices and dictionaries *)

(** A snapshot is an opaque ordered key. *)
Definition snapshot : Type := nat.

(** The components of an index tuple: component and sub-network names and
    component type names, snapshots, and cycle numbers. *)
Inductive key : Type :=
| KName (s : string)
| KSnap (t : snapshot)
| KNum (n : nat).

(** An index is a flat tuple of keys: indexing a component by the pair
    [(type, name)] and a snapshot gives the triple [(type, name, snapshot)]. *)
Definition index : Type := list key.

Definition key_eqb (a b : key) : bool :=
  match a, b with
  | KName s, KName s' => String.eqb s s'
  | KSnap t, KSnap t' => Nat.eqb t t'
  | KNum n, KNum n' => Nat.eqb n n'
  | _, _ => false
  end.

Fixpoint index_eqb (i j : index) : bool :=
  match i, j with
  | [], [] => true
  | a :: i', b :: j' => key_eqb a b && index_eqb i' j'
  | _, _ => false
  end.

Definition dict (V : Type) : Type := list (index * V).

Fixpoint dget {V : Type} (d : dict V) (k : index) : option V :=
  match d with
  | [] => None
  | (k', v) :: d' => if index_eqb k k' then Some v else dget d' k
  end.

(** [d[k] = v]: replaces the value of an existing key in place, appends a
    new key. *)
Fixpoint dset {V : Type} (d : dict V) (k : index) (v : V) : dict V :=
  match d with
  | [] => [(k, v)]
  | (k', v') :: d' =>
      if index_eqb k k' then (k, v) :: d' else (k', v') :: dset d' k v
  end.

(** [d.update(items)], and a dict comprehension as the update of [{}]. *)
Definition dupdate {V : Type} (d : dict V) (items : list (index * V)) : dict V :=
  fold_left (fun d kv => dset d (fst kv) (snd kv)) items d.

Definition dict_of_list {V : Type} (items : list (index * V)) : dict V :=
  dupdate [] items.

Definition dkeys {V : Type} (d : dict V) : list index := map fst d.

(** [d[k]], raising [KeyError] on a missing key. *)
Definition dlookup {V : Type} (d : dict V) (k : index) : result V :=
  match dget d k with
  | Some v => Return v
  | None => Raise KeyError
  end.

(** In-place mutation of the object stored at [d[k]]. *)
Definition dmodify {V : Type} (d : dict V) (k : index) (f : V -> V) : result (dict V) :=
  v <- dlookup d k ;; Return (dset d k (f v)).

Definition mem_index (i : index) (l : list index) : bool :=
  existsb (index_eqb i) l.

(** The index set of a component declared over two index sets: tuples are
    flattened, the first set varies slowest. *)
Definition cross (l1 l2 : list index) : list index :=
  flat_map (fun i => map (fun j => i ++ j) l2) l1.

Definition snap_index (snapshots : list snapshot) : list index :=
  map (fun sn => [KSnap sn]) snapshots.

(** [l[i]] on a Python sequence: a negative [i] counts from the end. *)
Definition py_getitem {A : Type} (l : list A) (i : Z) : result A :=
  let n := Z.of_nat (List.length l) in
  let j := if (i <? 0)%Z then (i + n)%Z else i in
  if (j <? 0)%Z then Raise IndexError
  else match nth_error l (Z.to_nat j) with
       | Some x => Return x
       | None => Raise IndexError
       end.

(** [enumerate(l)] *)
Definition enumerate {A : Type} (l : list A) : list (nat * A) :=
  combine (seq 0 (List.length l)) l.

Fixpoint assoc {V : Type} (name : string) (l : list (string * V)) : option V :=
  match l with
  | [] => None
  | (n, v) :: l' => if String.eqb name n then Some v else assoc name l'
  end.

Section Builder.

Context {F : Type} {SF : Scalar F}.

(** ** LP algebra *)

(** A variable of the model is named by its component and its index:
    [model.generator_p[gen, sn]] is [("generator_p", [gen; sn])]. *)
Definition var : Type := (string * index)%type.

(** Modelled from the spec: the classes [LExpression] and [LConstraint] and
    the function [l_constraint] of [pypsa/opt.py], which is not among the
    sources. A linear expression is a sequence of (coefficient, variable)
    terms and a constant; expressions compose by concatenation of the terms
    and addition of the constants. *)
Record LExpression : Type := mkLExpression {
  variables : list (F * var);
  constant : F
}.

Definition LExpression_empty : LExpression := mkLExpression [] fzero.

Definition LExpression_terms (terms : list (F * var)) : LExpression :=
  mkLExpression terms fzero.

Definition lexpr_add (a b : LExpression) : LExpression :=
  mkLExpression (variables a ++ variables b) (fadd (constant a) (constant b)).

Definition lexpr_scale (c : F) (a : LExpression) : LExpression :=
  mkLExpression (map (fun t => (fmul c (fst t), snd t)) (variables a))
                (fmul c (constant a)).

Definition lexpr_sum (l : list LExpression) : LExpression :=
  fold_left lexpr_add l LExpression_empty.

Inductive sense : Type := LE | EQ | GE.

Record LConstraint : Type := mkLConstraint {
  lhs : LExpression;
  csense : sense;
  rhs : LExpression
}.

(** What the builder stores in a dictionary of constraints: either the list
    [[terms, sense, constant]] or an [LConstraint] object. *)
Inductive cspec : Type :=
| CTriple (terms : list (F * var)) (s : sense) (c : F)
| CObject (c : LConstraint).

(** A constraint of the model: the normal form [sum terms  sense  bound] that
    [l_constraint] registers, or the relation returned by a rule of a pyomo
    [Constraint]. *)
Inductive ConData : Type :=
| Linear (terms : list (F * var)) (s : sense) (bound : F)
| Relational (l : LExpression) (s : sense) (r : LExpression).

(** Modelled from the spec: the normal form of a constraint, the right-hand
    side subtracted from the left-hand side. *)
Definition normalize (c : cspec) : ConData :=
  match c with
  | CTriple terms s k => Linear terms s k
  | CObject c =>
      Linear (variables (lhs c)
                ++ map (fun t => (fopp (fst t), snd t)) (variables (rhs c)))
             (csense c)
             (fsub (constant (rhs c)) (constant (lhs c)))
  end.

(** ** The model *)

Inductive domain : Type := Reals | NonNegativeReals.

Record VarData : Type := mkVarData {
  vd_domain : domain;
  vd_lb : option F;
  vd_ub : option F
}.

(** A flat store of named, indexed variables and constraints, the
    objective, and the suffix that asks the solver for dual values. *)
Record Model : Type := mkModel {
  m_vars : list (string * dict VarData);
  m_cons : list (string * dict ConData);
  m_objective : option LExpression;
  m_dual : bool
}.

(** [ConcreteModel(...)] *)
Definition ConcreteModel : Model := mkModel [] [] None false.

(** [model.name = Var(...)] and [model.name = Constraint(...)] *)
Definition add_var (m : Model) (name : string) (fam : dict VarData) : Model :=
  mkModel ((name, fam) :: m_vars m) (m_cons m) (m_objective m) (m_dual m).

Definition add_con (m : Model) (name : string) (fam : dict ConData) : Model :=
  mkModel (m_vars m) ((name, fam) :: m_cons m) (m_objective m) (m_dual m).

(** [model.name[i]]: the attribute must exist and [i] must be in its index
    set. *)
Definition getvar (m : Model) (name : string) (i : index) : result var :=
  match assoc name (m_vars m) with
  | None => Raise (AttributeError name)
  | Some fam => if mem_index i (dkeys fam) then Return (name, i) else Raise KeyError
  end.

(** [Var(index, domain=..., bounds=rule)]: the rule is called at every
    index. *)
Definition Var (idx : list index) (dom : domain)
    (bounds : index -> result (option F * option F)) : result (dict VarData) :=
  mapM (fun i => b <- bounds i ;; Return (i, mkVarData dom (fst b) (snd b))) idx.

(** [Constraint(index, rule=rule)] *)
Definition Constraint (idx : list index) (rule : index -> result ConData)
  : result (dict ConData) :=
  mapM (fun i => c <- rule i ;; Return (i, c)) idx.

(** Modelled from the spec: [l_constraint(model, name, constraints, *index)]
    registers under [name], at every index of the index set, the normal form
    of the constraint the dictionary holds there. *)
Definition l_constraint (m : Model) (name : string) (constraints : dict cspec)
    (idx : list index) : result Model :=
  fam <- mapM (fun i => c <- dlookup constraints i ;; Return (i, normalize c)) idx ;;
  Return (add_con m name fam).

(** Modelled from the spec: [l_objective(model, objective)] attaches the
    objective. *)
Definition l_objective (m : Model) (objective : LExpression) : Model :=
  mkModel (m_vars m) (m_cons m) (Some objective) (m_dual m).

(** A nested comprehension [for x in l for sn in snapshots]. *)
Definition for2 {A B : Type} (l : list A) (snapshots : list snapshot)
    (f : A -> snapshot -> result B) : result (list B) :=
  mapM (fun p => f (fst p) (snd p)) (list_prod l snapshots).

(** ** The network *)

Record Bus : Type := mkBus {
  bus_name : string;
  bus_carrier : string
}.

Record Carrier : Type := mkCarrier {
  car_name : string;
  car_co2_emissions : F
}.

Record Generator : Type := mkGenerator {
  g_name : string;
  g_bus : string;
  g_carrier : string;
  g_dispatch : string;
  g_p_nom_extendable : bool;
  g_p_nom : F;
  g_p_nom_min : F;
  g_p_nom_max : F;
  g_p_min_pu_fixed : F;
  g_p_max_pu_fixed : F;
  g_marginal_cost : F;
  g_capital_cost : F;
  g_efficiency : F;
  g_sign : F
}.

Record StorageUnit : Type := mkStorageUnit {
  su_name : string;
  su_bus : string;
  su_p_nom_extendable : bool;
  su_p_nom : F;
  su_p_nom_min : F;
  su_p_nom_max : F;
  su_p_min_pu_fixed : F;
  su_p_max_pu_fixed : F;
  su_max_hours : F;
  su_efficiency_store : F;
  su_efficiency_dispatch : F;
  su_standing_loss : F;
  su_cyclic_state_of_charge : bool;
  su_state_of_charge_initial : F;
  su_marginal_cost : F;
  su_capital_cost : F;
  su_sign : F
}.

Record Store : Type := mkStore {
  st_name : string;
  st_bus : string;
  st_e_nom_extendable : bool;
  st_e_nom : F;
  st_e_nom_min : F;
  st_e_nom_max : F;
  st_e_min_pu_fixed : F;
  st_e_max_pu_fixed : F;
  st_standing_loss : F;
  st_e_cyclic : bool;
  st_e_initial : F;
  st_marginal_cost : F;
  st_capital_cost : F;
  st_sign : F
}.

Record Load : Type := mkLoad {
  ld_name : string;
  ld_bus : string;
  ld_sign : F
}.

(** A line or a transformer, identified by the pair (type, name). *)
Record PassiveBranch : Type := mkPassiveBranch {
  pb_type : string;
  pb_name : string;
  pb_bus0 : string;
  pb_bus1 : string;
  pb_sub_network : string;
  pb_s_nom_extendable : bool;
  pb_s_nom : F;
  pb_s_nom_min : F;
  pb_s_nom_max : F;
  pb_capital_cost : F;
  pb_x_pu : F;
  pb_r_pu : F
}.

Record Link : Type := mkLink {
  ln_name : string;
  ln_bus0 : string;
  ln_bus1 : string;
  ln_p_nom_extendable : bool;
  ln_p_nom : F;
  ln_p_nom_min : F;
  ln_p_nom_max : F;
  ln_p_min_pu : F;
  ln_p_max_pu : F;
  ln_efficiency : F;
  ln_marginal_cost : F;
  ln_capital_cost : F
}.

(** A dense or sparse matrix, row by row, with its number of columns. *)
Record Matrix : Type := mkMatrix {
  mat_rows : list (list F);
  mat_ncols : nat
}.

(** A sub-network as the topology functions of [pypsa/pf.py] leave it
    ([find_slack_bus], [find_bus_controls], [find_tree], [find_cycles],
    [calculate_PTDF], [calculate_B_H]), with the results of its accessors
    [buses()] and [branches()]. *)
Record SubNetwork : Type := mkSubNetwork {
  sub_name : string;
  sub_carrier : string;
  sub_slack_bus : string;
  sub_buses_o : list string;
  sub_pvpqs : list string;
  sub_buses : list string;
  sub_branches : list PassiveBranch;
  sub_C : Matrix;
  sub_T : Matrix;
  sub_PTDF : Matrix;
  sub_B : Matrix
}.

Record Network : Type := mkNetwork {
  buses : list Bus;
  carriers : list Carrier;
  generators : list Generator;
  storage_units : list StorageUnit;
  stores : list Store;
  loads : list Load;
  passive_branches : list PassiveBranch;   (* [network.passive_branches()] *)
  links : list Link;
  sub_networks : list SubNetwork;
  snapshots_all : list snapshot;           (* [network.snapshots] *)
  now : snapshot;
  snapshot_weightings : snapshot -> F;
  co2_limit : option F;
  generators_t_p_min_pu : snapshot -> string -> F;
  generators_t_p_max_pu : snapshot -> string -> F;
  storage_units_t_inflow : snapshot -> string -> F;
  storage_units_t_state_of_charge_set : snapshot -> string -> option F;
  loads_t_p_set : snapshot -> string -> F
}.

(** ** Generators: [define_generator_variables_constraints] *)

Definition name_index {A : Type} (name : A -> string) (rows : list A) : list index :=
  map (fun r => [KName (name r)]) rows.

Definition define_generator_variables_constraints (network : Network)
    (snapshots : list snapshot) (model : Model) : result Model :=
  let extendable_gens := filter g_p_nom_extendable (generators network) in
  let fixed_gens := filter (fun g => negb (g_p_nom_extendable g)) (generators network) in
  let fixed_var_gens := filter (fun g => g_dispatch g =? "variable") fixed_gens in
  let fixed_flex_gens := filter (fun g => g_dispatch g =? "flexible") fixed_gens in
  let extendable_var_gens := filter (fun g => g_dispatch g =? "variable") extendable_gens in
  let extendable_flex_gens := filter (fun g => g_dispatch g =? "flexible") extendable_gens in
  (* generator dispatch variables *)
  let gen_p_bounds : dict (option F * option F) :=
    dict_of_list (map (fun p => ([KName (g_name (fst p)); KSnap (snd p)], (None, None)))
                      (list_prod extendable_gens snapshots)) in
  let gen_p_bounds :=
    dupdate gen_p_bounds
      (map (fun p => let gen := fst p in let sn := snd p in
              ([KName (g_name gen); KSnap sn],
               (Some (fmul (generators_t_p_min_pu network sn (g_name gen)) (g_p_nom gen)),
                Some (fmul (generators_t_p_max_pu network sn (g_name gen)) (g_p_nom gen)))))
           (list_prod fixed_var_gens snapshots)) in
  let gen_p_bounds :=
    dupdate gen_p_bounds
      (map (fun p => let gen := fst p in let sn := snd p in
              ([KName (g_name gen); KSnap sn],
               (Some (fmul (g_p_nom gen) (g_p_min_pu_fixed gen)),
                Some (fmul (g_p_nom gen) (g_p_max_pu_fixed gen)))))
           (list_prod fixed_flex_gens snapshots)) in
  generator_p <- Var (cross (name_index g_name (generators network)) (snap_index snapshots))
                     Reals (dlookup gen_p_bounds) ;;
  let model := add_var model "generator_p" generator_p in
  (* generator capacity variables of the extendable generators *)
  let generator_p_nom : dict VarData :=
    map (fun gen => ([KName (g_name gen)],
                     mkVarData NonNegativeReals (Some (g_p_nom_min gen)) (Some (g_p_nom_max gen))))
        extendable_gens in
  let model := add_var model "generator_p_nom" generator_p_nom in
  (* dispatch constraints of the extendable generators *)
  lower_flex <- for2 extendable_flex_gens snapshots (fun gen sn =>
      p <- getvar model "generator_p" [KName (g_name gen); KSnap sn] ;;
      p_nom <- getvar model "generator_p_nom" [KName (g_name gen)] ;;
      Return ([KName (g_name gen); KSnap sn],
              CTriple [(fone, p); (fopp (g_p_min_pu_fixed gen), p_nom)] GE fzero)) ;;
  lower_var <- for2 extendable_var_gens snapshots (fun gen sn =>
      p <- getvar model "generator_p" [KName (g_name gen); KSnap sn] ;;
      p_nom <- getvar model "generator_p_nom" [KName (g_name gen)] ;;
      Return ([KName (g_name gen); KSnap sn],
              CTriple [(fone, p);
                       (fopp (generators_t_p_min_pu network sn (g_name gen)), p_nom)]
                      GE fzero)) ;;
  let gen_p_lower := dupdate (dict_of_list lower_flex) lower_var in
  model <- l_constraint model "generator_p_lower" gen_p_lower
             (cross (name_index g_name extendable_gens) (snap_index snapshots)) ;;
  upper_flex <- for2 extendable_flex_gens snapshots (fun gen sn =>
      p <- getvar model "generator_p" [KName (g_name gen); KSnap sn] ;;
      p_nom <- getvar model "generator_p_nom" [KName (g_name gen)] ;;
      Return ([KName (g_name gen); KSnap sn],
              CTriple [(fone, p); (fopp (g_p_max_pu_fixed gen), p_nom)] LE fzero)) ;;
  upper_var <- for2 extendable_var_gens snapshots (fun gen sn =>
      p <- getvar model "generator_p" [KName (g_name gen); KSnap sn] ;;
      p_nom <- getvar model "generator_p_nom" [KName (g_name gen)] ;;
      Return ([KName (g_name gen); KSnap sn],
              CTriple [(fone, p);
                       (fopp (generators_t_p_max_pu network sn (g_name gen)), p_nom)]
                      LE fzero)) ;;
  let gen_p_upper := dupdate (dict_of_list upper_flex) upper_var in
  l_constraint model "generator_p_upper" gen_p_upper
    (cross (name_index g_name extendable_gens) (snap_index snapshots)).

(** ** Storage units: [define_storage_variables_constraints] *)

(** The state of the loop that builds the state-of-charge constraints: the
    dictionaries [soc] and [fixed_soc] and the local [elapsed_hours], which
    is unbound until the first iteration and keeps its last value after the
    loop. *)
Record soc_state : Type := mkSocState {
  soc : dict cspec;
  fixed_soc : dict cspec;
  elapsed_hours : option F
}.

(** One iteration of [for su in sus.index: for i,sn in enumerate(snapshots)]. *)
Definition soc_step (network : Network) (snapshots : list snapshot) (model : Model)
    (s : soc_state) (x : StorageUnit * (nat * snapshot)) : result soc_state :=
  let su := fst x in
  let i := fst (snd x) in
  let sn := snd (snd x) in
  let k := [KName (su_name su); KSnap sn] in
  let elapsed_hours := snapshot_weightings network sn in
  let decay := fpow (fsub fone (su_standing_loss su)) elapsed_hours in
  prev <- (if (i =? 0)%nat && negb (su_cyclic_state_of_charge su)
           then Return ([], fsub fzero (fmul decay (su_state_of_charge_initial su)))
           else sn_prev <- py_getitem snapshots (Z.of_nat i - 1) ;;
                previous_state_of_charge <-
                  getvar model "state_of_charge" [KName (su_name su); KSnap sn_prev] ;;
                Return ([(decay, previous_state_of_charge)], fzero)) ;;
  cur <- (match storage_units_t_state_of_charge_set network sn (su_name su) with
          | None =>
              state_of_charge <- getvar model "state_of_charge" k ;;
              Return (fst prev ++ [(fopp fone, state_of_charge)], snd prev, fixed_soc s)
          | Some state_of_charge =>
              v <- getvar model "state_of_charge" k ;;
              Return (fst prev, fadd (snd prev) state_of_charge,
                      dset (fixed_soc s) k (CTriple [(fone, v)] EQ state_of_charge))
          end) ;;
  let terms := fst (fst cur) in
  let const := snd (fst cur) in
  p_store <- getvar model "storage_p_store" k ;;
  p_dispatch <- getvar model "storage_p_dispatch" k ;;
  let terms := terms
    ++ [(fmul (su_efficiency_store su) elapsed_hours, p_store)]
    ++ [(fmul (fopp (fdiv fone (su_efficiency_dispatch su))) elapsed_hours, p_dispatch)] in
  let const := fsub const (fmul (storage_units_t_inflow network sn (su_name su)) elapsed_hours) in
  Return (mkSocState (dset (soc s) k (CTriple terms EQ const)) (snd cur) (Some elapsed_hours)).

(** [soc[su,sn][0].append(term)] *)
Definition append_term (term : F * var) (c : cspec) : cspec :=
  match c with
  | CTriple terms s k => CTriple (terms ++ [term]) s k
  | CObject c =>
      CObject (mkLConstraint (mkLExpression (variables (lhs c) ++ [term]) (constant (lhs c)))
                             (csense c) (rhs c))
  end.

(** One iteration of [for su,sn in spill_index]. *)
Definition spill_step (model : Model) (elapsed_hours : option F)
    (soc : dict cspec) (k : index) : result (dict cspec) :=
  storage_p_spill <- getvar model "storage_p_spill" k ;;
  match elapsed_hours with
  | None => Raise (NameError "elapsed_hours")
  | Some elapsed_hours =>
      dmodify soc k (append_term (fmul (fopp fone) elapsed_hours, storage_p_spill))
  end.

(** The bounds of the spillage variables, which exist only for hours with
    inflow > 0, and their index. *)
Definition spill_bounds (network : Network) (snapshots : list snapshot)
  : dict (option F * option F) :=
  let sus := storage_units network in
  let inflow := storage_units_t_inflow network in
  (* skip storage units without any inflow *)
  let spill_sus :=
    filter (fun su => existsb (fun sn => fltb fzero (inflow sn (su_name su)))
                              (snapshots_all network)) sus in
  dict_of_list
    (map (fun p => ([KName (su_name (fst p)); KSnap (snd p)],
                    (Some fzero, Some (inflow (snd p) (su_name (fst p))))))
         (filter (fun p => fltb fzero (inflow (snd p) (su_name (fst p))))
                 (list_prod spill_sus snapshots))).

Definition spill_index (network : Network) (snapshots : list snapshot) : list index :=
  dkeys (spill_bounds network snapshots).

Definition define_storage_variables_constraints (network : Network)
    (snapshots : list snapshot) (model : Model) : result Model :=
  let sus := storage_units network in
  let ext_sus := filter su_p_nom_extendable sus in
  let fix_sus := filter (fun su => negb (su_p_nom_extendable su)) sus in
  let su_index := cross (name_index su_name sus) (snap_index snapshots) in
  (* storage dispatch variables *)
  let bounds : dict (option F * option F) :=
    dict_of_list (map (fun p => ([KName (su_name (fst p)); KSnap (snd p)], (Some fzero, None)))
                      (list_prod ext_sus snapshots)) in
  let bounds :=
    dupdate bounds
      (map (fun p => let su := fst p in
              ([KName (su_name su); KSnap (snd p)],
               (Some fzero, Some (fmul (su_p_nom su) (su_p_max_pu_fixed su)))))
           (list_prod fix_sus snapshots)) in
  storage_p_dispatch <- Var su_index NonNegativeReals (dlookup bounds) ;;
  let model := add_var model "storage_p_dispatch" storage_p_dispatch in
  let bounds : dict (option F * option F) :=
    dict_of_list (map (fun p => ([KName (su_name (fst p)); KSnap (snd p)], (Some fzero, None)))
                      (list_prod ext_sus snapshots)) in
  let bounds :=
    dupdate bounds
      (map (fun p => let su := fst p in
              ([KName (su_name su); KSnap (snd p)],
               (Some fzero, Some (fmul (fopp (su_p_nom su)) (su_p_min_pu_fixed su)))))
           (list_prod fix_sus snapshots)) in
  storage_p_store <- Var su_index NonNegativeReals (dlookup bounds) ;;
  let model := add_var model "storage_p_store" storage_p_store in
  (* spillage variables, only for hours with inflow > 0 *)
  let spill_bounds := spill_bounds network snapshots in
  let spill_index := spill_index network snapshots in
  storage_p_spill <- Var spill_index NonNegativeReals (dlookup spill_bounds) ;;
  let model := add_var model "storage_p_spill" storage_p_spill in
  (* capacity variables of the extendable units *)
  let storage_p_nom : dict VarData :=
    map (fun su => ([KName (su_name su)],
                    mkVarData NonNegativeReals (Some (su_p_nom_min su)) (Some (su_p_nom_max su))))
        ext_sus in
  let model := add_var model "storage_p_nom" storage_p_nom in
  (* dispatch constraints of the extendable units *)
  storage_p_upper <- for2 ext_sus snapshots (fun su sn =>
      p <- getvar model "storage_p_dispatch" [KName (su_name su); KSnap sn] ;;
      p_nom <- getvar model "storage_p_nom" [KName (su_name su)] ;;
      Return ([KName (su_name su); KSnap sn],
              Relational (LExpression_terms [(fone, p)]) LE
                         (LExpression_terms [(su_p_max_pu_fixed su, p_nom)]))) ;;
  let model := add_con model "storage_p_upper" storage_p_upper in
  storage_p_lower <- for2 ext_sus snapshots (fun su sn =>
      p <- getvar model "storage_p_store" [KName (su_name su); KSnap sn] ;;
      p_nom <- getvar model "storage_p_nom" [KName (su_name su)] ;;
      Return ([KName (su_name su); KSnap sn],
              Relational (LExpression_terms [(fone, p)]) LE
                         (LExpression_terms [(fopp (su_p_min_pu_fixed su), p_nom)]))) ;;
  let model := add_con model "storage_p_lower" storage_p_lower in
  (* state of charge *)
  state_of_charge <- Var su_index NonNegativeReals (fun _ => Return (Some fzero, None)) ;;
  let model := add_var model "state_of_charge" state_of_charge in
  upper_ext <- for2 ext_sus snapshots (fun su sn =>
      e <- getvar model "state_of_charge" [KName (su_name su); KSnap sn] ;;
      p_nom <- getvar model "storage_p_nom" [KName (su_name su)] ;;
      Return ([KName (su_name su); KSnap sn],
              CTriple [(fone, e); (fopp (su_max_hours su), p_nom)] LE fzero)) ;;
  upper_fix <- for2 fix_sus snapshots (fun su sn =>
      e <- getvar model "state_of_charge" [KName (su_name su); KSnap sn] ;;
      Return ([KName (su_name su); KSnap sn],
              CTriple [(fone, e)] LE (fmul (su_max_hours su) (su_p_nom su)))) ;;
  let upper := dupdate (dict_of_list upper_ext) upper_fix in
  model <- l_constraint model "state_of_charge_upper" upper su_index ;;
  (* previous_soc + p_store - p_dispatch + inflow - spill == soc *)
  s <- foldM (soc_step network snapshots model)
             (list_prod sus (enumerate snapshots))
             (mkSocState [] [] None) ;;
  soc <- foldM (spill_step model (elapsed_hours s)) spill_index (soc s) ;;
  model <- l_constraint model "state_of_charge_constraint" soc su_index ;;
  l_constraint model "state_of_charge_constraint_fixed" (fixed_soc s) (dkeys (fixed_soc s)).

(** ** Stores: [define_store_variables_constraints] *)

(** One iteration of [for store in stores.index: for i,sn in enumerate(snapshots)]. *)
Definition store_step (network : Network) (snapshots : list snapshot) (model : Model)
    (e : dict cspec) (x : Store * (nat * snapshot)) : result (dict cspec) :=
  let store := fst x in
  let i := fst (snd x) in
  let sn := snd (snd x) in
  let k := [KName (st_name store); KSnap sn] in
  store_e <- getvar model "store_e" k ;;
  let terms := [(fopp fone, store_e)] in
  let elapsed_hours := snapshot_weightings network sn in
  let decay := fpow (fsub fone (st_standing_loss store)) elapsed_hours in
  prev <- (if (i =? 0)%nat && negb (st_e_cyclic store)
           then Return (terms, fadd fzero (fmul decay (st_e_initial store)))
           else sn_prev <- py_getitem snapshots (Z.of_nat i - 1) ;;
                previous_e <- getvar model "store_e" [KName (st_name store); KSnap sn_prev] ;;
                Return (terms ++ [(decay, previous_e)], fzero)) ;;
  store_p <- getvar model "store_p" k ;;
  let terms := fst prev ++ [(fopp elapsed_hours, store_p)] in
  Return (dset e k (CObject (mkLConstraint (mkLExpression terms (snd prev)) EQ
                                           LExpression_empty))).

Definition define_store_variables_constraints (network : Network)
    (snapshots : list snapshot) (model : Model) : result Model :=
  let stores := stores network in
  let ext_stores := filter st_e_nom_extendable stores in
  let fix_stores := filter (fun s => negb (st_e_nom_extendable s)) stores in
  let store_index := cross (name_index st_name stores) (snap_index snapshots) in
  store_p <- Var store_index Reals (fun _ => Return (None, None)) ;;
  let model := add_var model "store_p" store_p in
  let bounds : dict (option F * option F) :=
    dict_of_list (map (fun p => ([KName (st_name (fst p)); KSnap (snd p)], (None, None)))
                      (list_prod ext_stores snapshots)) in
  let bounds :=
    dupdate bounds
      (map (fun p => let store := fst p in
              ([KName (st_name store); KSnap (snd p)],
               (Some (fmul (st_e_nom store) (st_e_min_pu_fixed store)),
                Some (fmul (st_e_nom store) (st_e_max_pu_fixed store)))))
           (list_prod fix_stores snapshots)) in
  store_e <- Var store_index Reals (dlookup bounds) ;;
  let model := add_var model "store_e" store_e in
  let store_e_nom : dict VarData :=
    map (fun store => ([KName (st_name store)],
                       mkVarData Reals (Some (st_e_nom_min store)) (Some (st_e_nom_max store))))
        ext_stores in
  let model := add_var model "store_e_nom" store_e_nom in
  store_e_upper <- for2 ext_stores snapshots (fun store sn =>
      e <- getvar model "store_e" [KName (st_name store); KSnap sn] ;;
      e_nom <- getvar model "store_e_nom" [KName (st_name store)] ;;
      Return ([KName (st_name store); KSnap sn],
              Relational (LExpression_terms [(fone, e)]) LE
                         (LExpression_terms [(st_e_max_pu_fixed store, e_nom)]))) ;;
  let model := add_con model "store_e_upper" store_e_upper in
  store_e_lower <- for2 ext_stores snapshots (fun store sn =>
      e <- getvar model "store_e" [KName (st_name store); KSnap sn] ;;
      e_nom <- getvar model "store_e_nom" [KName (st_name store)] ;;
      Return ([KName (st_name store); KSnap sn],
              Relational (LExpression_terms [(fone, e)]) GE
                         (LExpression_terms [(st_e_min_pu_fixed store, e_nom)]))) ;;
  let model := add_con model "store_e_lower" store_e_lower in
  (* previous_e - p == e *)
  e <- foldM (store_step network snapshots model)
             (list_prod stores (enumerate snapshots)) [] ;;
  l_constraint model "store_constraint" e store_index.

(** ** Extendable branches and links *)

Definition branch_index (rows : list PassiveBranch) : list index :=
  map (fun b => [KName (pb_type b); KName (pb_name b)]) rows.

Definition define_branch_extension_variables (network : Network)
    (snapshots : list snapshot) (model : Model) : result Model :=
  let passive_branches := passive_branches network in
  let extendable_passive_branches := filter pb_s_nom_extendable passive_branches in
  let bounds : dict (option F * option F) :=
    dict_of_list (map (fun b => ([KName (pb_type b); KName (pb_name b)],
                                 (Some (pb_s_nom_min b), Some (pb_s_nom_max b))))
                      extendable_passive_branches) in
  passive_branch_s_nom <- Var (branch_index extendable_passive_branches)
                              NonNegativeReals (dlookup bounds) ;;
  let model := add_var model "passive_branch_s_nom" passive_branch_s_nom in
  let extendable_links := filter ln_p_nom_extendable (links network) in
  let bounds : dict (option F * option F) :=
    dict_of_list (map (fun b => ([KName (ln_name b)],
                                 (Some (ln_p_nom_min b), Some (ln_p_nom_max b))))
                      extendable_links) in
  link_p_nom <- Var (name_index ln_name extendable_links) NonNegativeReals (dlookup bounds) ;;
  Return (add_var model "link_p_nom" link_p_nom).

Definition define_link_flows (network : Network)
    (snapshots : list snapshot) (model : Model) : result Model :=
  let extendable_links := filter ln_p_nom_extendable (links network) in
  let fixed_links := filter (fun l => negb (ln_p_nom_extendable l)) (links network) in
  let bounds : dict (option F * option F) :=
    dict_of_list (map (fun p => let cb := fst p in
                         ([KName (ln_name cb); KSnap (snd p)],
                          (Some (fmul (ln_p_min_pu cb) (ln_p_nom cb)),
                           Some (fmul (ln_p_max_pu cb) (ln_p_nom cb)))))
                      (list_prod fixed_links snapshots)) in
  let bounds :=
    dupdate bounds
      (map (fun p => ([KName (ln_name (fst p)); KSnap (snd p)], (None, None)))
           (list_prod extendable_links snapshots)) in
  link_p <- Var (cross (name_index ln_name (links network)) (snap_index snapshots))
                Reals (dlookup bounds) ;;
  let model := add_var model "link_p" link_p in
  link_p_upper <- for2 extendable_links snapshots (fun cb sn =>
      p <- getvar model "link_p" [KName (ln_name cb); KSnap sn] ;;
      p_nom <- getvar model "link_p_nom" [KName (ln_name cb)] ;;
      Return ([KName (ln_name cb); KSnap sn],
              Relational (LExpression_terms [(fone, p)]) LE
                         (LExpression_terms [(ln_p_max_pu cb, p_nom)]))) ;;
  let model := add_con model "link_p_upper" link_p_upper in
  link_p_lower <- for2 extendable_links snapshots (fun cb sn =>
      p <- getvar model "link_p" [KName (ln_name cb); KSnap sn] ;;
      p_nom <- getvar model "link_p_nom" [KName (ln_name cb)] ;;
      Return ([KName (ln_name cb); KSnap sn],
              Relational (LExpression_terms [(fone, p)]) GE
                         (LExpression_terms [(ln_p_min_pu cb, p_nom)]))) ;;
  Return (add_con model "link_p_lower" link_p_lower).

(** ** Nodal balances: [define_nodal_balances] *)

(** The part of the network object the builder mutates: the model and the
    auxiliary dictionary [network._p_balance], absent until
    [define_nodal_balances] creates it. *)
Record NetState : Type := mkNetState {
  model : Model;
  _p_balance : option (dict LExpression)
}.

(** [network._p_balance] *)
Definition get_p_balance (s : NetState) : result (dict LExpression) :=
  match _p_balance s with
  | Some d => Return d
  | None => Raise (AttributeError "_p_balance")
  end.

(** [balance[k].variables.append(term)], the term being computed after the
    expression at [k] has been fetched. *)
Definition append_variable (balance : dict LExpression) (k : index)
    (term : result (F * var)) : result (dict LExpression) :=
  e <- dlookup balance k ;;
  t <- term ;;
  Return (dset balance k (mkLExpression (variables e ++ [t]) (constant e))).

(** [balance[k].constant += c] *)
Definition add_constant (balance : dict LExpression) (k : index) (c : F)
  : result (dict LExpression) :=
  e <- dlookup balance k ;;
  Return (dset balance k (mkLExpression (variables e) (fadd (constant e) c))).

Definition define_nodal_balances (network : Network)
    (snapshots : list snapshot) (s : NetState) : result NetState :=
  let model := model s in
  let balance : dict LExpression :=
    dict_of_list (map (fun p => ([KName (bus_name (fst p)); KSnap (snd p)], LExpression_empty))
                      (list_prod (buses network) snapshots)) in
  balance <- foldM (fun balance p =>
      let cb := fst p in let sn := snd p in
      balance <- append_variable balance [KName (ln_bus0 cb); KSnap sn]
                   (v <- getvar model "link_p" [KName (ln_name cb); KSnap sn] ;;
                    Return (fopp fone, v)) ;;
      append_variable balance [KName (ln_bus1 cb); KSnap sn]
        (v <- getvar model "link_p" [KName (ln_name cb); KSnap sn] ;;
         Return (ln_efficiency cb, v)))
    (list_prod (links network) snapshots) balance ;;
  balance <- foldM (fun balance p =>
      let gen := fst p in let sn := snd p in
      append_variable balance [KName (g_bus gen); KSnap sn]
        (v <- getvar model "generator_p" [KName (g_name gen); KSnap sn] ;;
         Return (g_sign gen, v)))
    (list_prod (generators network) snapshots) balance ;;
  balance <- foldM (fun balance p =>
      let load := fst p in let sn := snd p in
      add_constant balance [KName (ld_bus load); KSnap sn]
        (fmul (ld_sign load) (loads_t_p_set network sn (ld_name load))))
    (list_prod (loads network) snapshots) balance ;;
  balance <- foldM (fun balance p =>
      let su := fst p in let sn := snd p in
      balance <- append_variable balance [KName (su_bus su); KSnap sn]
                   (v <- getvar model "storage_p_dispatch" [KName (su_name su); KSnap sn] ;;
                    Return (su_sign su, v)) ;;
      append_variable balance [KName (su_bus su); KSnap sn]
        (v <- getvar model "storage_p_store" [KName (su_name su); KSnap sn] ;;
         Return (fopp (su_sign su), v)))
    (list_prod (storage_units network) snapshots) balance ;;
  balance <- foldM (fun balance p =>
      let store := fst p in let sn := snd p in
      append_variable balance [KName (st_bus store); KSnap sn]
        (v <- getvar model "store_p" [KName (st_name store); KSnap sn] ;;
         Return (st_sign store, v)))
    (list_prod (stores network) snapshots) balance ;;
  Return (mkNetState model (Some balance)).

(** ** Passive branch flows *)

Definition mat_nrows (M : Matrix) : nat := List.length (mat_rows M).

Definition mat_entry (M : Matrix) (i j : nat) : F :=
  nth j (nth i (mat_rows M) []) fzero.

(** [M[i,j]] *)
Definition mat_get (M : Matrix) (i j : nat) : result F :=
  if (i <? mat_nrows M)%nat && (j <? mat_ncols M)%nat
  then Return (mat_entry M i j) else Raise IndexError.

(** [M[i,:].nonzero()[1]], in ascending order *)
Definition row_nonzero (M : Matrix) (i : nat) : result (list nat) :=
  if (i <? mat_nrows M)%nat
  then Return (filter (fun j => negb (feqb (mat_entry M i j) fzero)) (seq 0 (mat_ncols M)))
  else Raise IndexError.

(** [M[:,j].nonzero()[0]], in ascending order *)
Definition col_nonzero (M : Matrix) (j : nat) : list nat :=
  filter (fun i => negb (feqb (mat_entry M i j) fzero)) (seq 0 (mat_nrows M)).

(** [l[i]] for a position [i >= 0] *)
Definition at_position {A : Type} (l : list A) (i : nat) : result A :=
  match nth_error l i with
  | Some x => Return x
  | None => Raise IndexError
  end.

(** [network.sub_networks.carrier[sub]] *)
Definition sub_network_carrier (network : Network) (sub : string) : result string :=
  match find (fun s => sub_name s =? sub) (sub_networks network) with
  | Some s => Return (sub_carrier s)
  | None => Raise KeyError
  end.

Definition define_passive_branch_flows_with_angles (network : Network)
    (snapshots : list snapshot) (s : NetState) : result NetState :=
  let model := model s in
  let voltage_angles : dict VarData :=
    map (fun i => (i, mkVarData Reals None None))
        (cross (name_index bus_name (buses network)) (snap_index snapshots)) in
  let model := add_var model "voltage_angles" voltage_angles in
  slack <- for2 (sub_networks network) snapshots (fun sub sn =>
      v <- getvar model "voltage_angles" [KName (sub_slack_bus sub); KSnap sn] ;;
      Return ([KName (sub_name sub); KSnap sn], CTriple [(fone, v)] EQ fzero)) ;;
  model <- l_constraint model "slack_angle" (dict_of_list slack)
             (cross (name_index sub_name (sub_networks network)) (snap_index snapshots)) ;;
  let passive_branches := passive_branches network in
  let passive_branch_p : dict VarData :=
    map (fun i => (i, mkVarData Reals None None))
        (cross (branch_index passive_branches) (snap_index snapshots)) in
  let model := add_var model "passive_branch_p" passive_branch_p in
  flows <- foldM (fun flows branch =>
      let bus0 := pb_bus0 branch in
      let bus1 := pb_bus1 branch in
      let bt := pb_type branch in
      let bn := pb_name branch in
      let sub := pb_sub_network branch in
      carrier <- sub_network_carrier network sub ;;
      let attribute := if carrier =? "DC" then pb_r_pu branch else pb_x_pu branch in
      let y := fdiv fone attribute in
      foldM (fun flows sn =>
          a0 <- getvar model "voltage_angles" [KName bus0; KSnap sn] ;;
          a1 <- getvar model "voltage_angles" [KName bus1; KSnap sn] ;;
          p <- getvar model "passive_branch_p" [KName bt; KName bn; KSnap sn] ;;
          let lhs := LExpression_terms [(y, a0); (fopp y, a1); (fopp fone, p)] in
          Return (dset flows [KName bt; KName bn; KSnap sn]
                       (CObject (mkLConstraint lhs EQ LExpression_empty))))
        snapshots flows)
    passive_branches [] ;;
  model <- l_constraint model "passive_branch_p_def" flows
             (cross (branch_index passive_branches) (snap_index snapshots)) ;;
  Return (mkNetState model (_p_balance s)).

(** [sub_network.PTDF[abs(sub_network.PTDF) < ptdf_tolerance] = 0] *)
Definition kill_small (ptdf_tolerance : F) (M : Matrix) : Matrix :=
  mkMatrix (map (map (fun x => if fltb (fabs x) ptdf_tolerance then fzero else x)) (mat_rows M))
           (mat_ncols M).

Definition define_passive_branch_flows_with_PTDF (network : Network)
    (snapshots : list snapshot) (ptdf_tolerance : F) (s : NetState) : result NetState :=
  let model := model s in
  let passive_branches := passive_branches network in
  let passive_branch_p : dict VarData :=
    map (fun i => (i, mkVarData Reals None None))
        (cross (branch_index passive_branches) (snap_index snapshots)) in
  let model := add_var model "passive_branch_p" passive_branch_p in
  flows <- foldM (fun flows sub_network =>
      let branches_i := sub_branches sub_network in
      let PTDF := if (0 <? List.length branches_i)%nat
                  then kill_small ptdf_tolerance (sub_PTDF sub_network)
                  else sub_PTDF sub_network in
      foldM (fun flows ib =>
          let i := fst ib in
          let bt := pb_type (snd ib) in
          let bn := pb_name (snd ib) in
          foldM (fun flows sn =>
              summands <- mapM (fun jb =>
                  x <- mat_get PTDF i (fst jb) ;;
                  if negb (feqb x fzero)
                  then balance <- get_p_balance s ;;
                       e <- dlookup balance [KName (snd jb); KSnap sn] ;;
                       Return [lexpr_scale x e]
                  else Return [])
                (enumerate (sub_buses_o sub_network)) ;;
              let lhs := lexpr_sum (List.concat summands) in
              p <- getvar model "passive_branch_p" [KName bt; KName bn; KSnap sn] ;;
              let rhs := LExpression_terms [(fone, p)] in
              Return (dset flows [KName bt; KName bn; KSnap sn]
                           (CObject (mkLConstraint lhs EQ rhs))))
            snapshots flows)
        (enumerate branches_i) flows)
    (sub_networks network) [] ;;
  model <- l_constraint model "passive_branch_p_def" flows
             (cross (branch_index passive_branches) (snap_index snapshots)) ;;
  Return (mkNetState model (_p_balance s)).

Definition define_passive_branch_flows_with_cycles (network : Network)
    (snapshots : list snapshot) (s : NetState) : result NetState :=
  let model := model s in
  let cycle_index : list index :=
    flat_map (fun sub_network =>
                map (fun i => [KName (sub_name sub_network); KNum i])
                    (seq 0 (mat_ncols (sub_C sub_network))))
             (sub_networks network) in
  let cycles : dict VarData :=
    map (fun i => (i, mkVarData Reals None None)) (cross cycle_index (snap_index snapshots)) in
  let model := add_var model "cycles" cycles in
  let passive_branches := passive_branches network in
  let passive_branch_p : dict VarData :=
    map (fun i => (i, mkVarData Reals None None))
        (cross (branch_index passive_branches) (snap_index snapshots)) in
  let model := add_var model "passive_branch_p" passive_branch_p in
  flows <- foldM (fun flows sn =>
      let branches := sub_branches sn in
      let buses := sub_buses sn in
      foldM (fun flows ib =>
          let i := fst ib in
          let bt := pb_type (snd ib) in
          let bn := pb_name (snd ib) in
          cycle_is <- row_nonzero (sub_C sn) i ;;
          tree_is <- row_nonzero (sub_T sn) i ;;
          foldM (fun flows snapshot =>
              terms <- mapM (fun j =>
                  c <- getvar model "cycles" [KName (sub_name sn); KNum j; KSnap snapshot] ;;
                  Return (mat_entry (sub_C sn) i j, c)) cycle_is ;;
              let expr := LExpression_terms terms in
              summands <- mapM (fun j =>
                  balance <- get_p_balance s ;;
                  bus <- at_position buses j ;;
                  e <- dlookup balance [KName bus; KSnap snapshot] ;;
                  Return (lexpr_scale (mat_entry (sub_T sn) i j) e)) tree_is ;;
              let lhs := lexpr_add expr (lexpr_sum summands) in
              p <- getvar model "passive_branch_p" [KName bt; KName bn; KSnap snapshot] ;;
              let rhs := LExpression_terms [(fone, p)] in
              Return (dset flows [KName bt; KName bn; KSnap snapshot]
                           (CObject (mkLConstraint lhs EQ rhs))))
            snapshots flows)
        (enumerate branches) flows)
    (sub_networks network) [] ;;
  model <- l_constraint model "passive_branch_p_def" flows
             (cross (branch_index passive_branches) (snap_index snapshots)) ;;
  cycle_constraints <- foldM (fun cycle_constraints sn =>
      let branches := sub_branches sn in
      let attribute := if sub_carrier sn =? "DC" then pb_r_pu else pb_x_pu in
      foldM (fun cycle_constraints j =>
          let cycle_is := col_nonzero (sub_C sn) j in
          foldM (fun cycle_constraints snapshot =>
              terms <- mapM (fun i =>
                  branch <- at_position branches i ;;
                  p <- getvar model "passive_branch_p"
                         [KName (pb_type branch); KName (pb_name branch); KSnap snapshot] ;;
                  Return (fmul (attribute branch) (mat_entry (sub_C sn) i j), p)) cycle_is ;;
              Return (dset cycle_constraints [KName (sub_name sn); KNum j; KSnap snapshot]
                           (CObject (mkLConstraint (LExpression_terms terms) EQ
                                                   LExpression_empty))))
            snapshots cycle_constraints)
        (seq 0 (mat_ncols (sub_C sn))) cycle_constraints)
    (sub_networks network) [] ;;
  model <- l_constraint model "cycle_constraints" cycle_constraints
             (cross cycle_index (snap_index snapshots)) ;;
  Return (mkNetState model (_p_balance s)).

Definition define_passive_branch_flows_with_kirchhoff (network : Network)
    (snapshots : list snapshot) (s : NetState) : result NetState :=
  let model := model s in
  let cycle_index : list index :=
    flat_map (fun sub_network =>
                map (fun i => [KName (sub_name sub_network); KNum i])
                    (seq 0 (mat_ncols (sub_C sub_network))))
             (sub_networks network) in
  let passive_branches := passive_branches network in
  let passive_branch_p : dict VarData :=
    map (fun i => (i, mkVarData Reals None None))
        (cross (branch_index passive_branches) (snap_index snapshots)) in
  let model := add_var model "passive_branch_p" passive_branch_p in
  cycle_constraints <- foldM (fun cycle_constraints sn =>
      let branches := sub_branches sn in
      let attribute := if sub_carrier sn =? "DC" then pb_r_pu else pb_x_pu in
      foldM (fun cycle_constraints j =>
          let cycle_is := col_nonzero (sub_C sn) j in
          foldM (fun cycle_constraints snapshot =>
              terms <- mapM (fun i =>
                  branch <- at_position branches i ;;
                  p <- getvar model "passive_branch_p"
                         [KName (pb_type branch); KName (pb_name branch); KSnap snapshot] ;;
                  Return (fmul (attribute branch) (mat_entry (sub_C sn) i j), p)) cycle_is ;;
              Return (dset cycle_constraints [KName (sub_name sn); KNum j; KSnap snapshot]
                           (CObject (mkLConstraint (LExpression_terms terms) EQ
                                                   LExpression_empty))))
            snapshots cycle_constraints)
        (seq 0 (mat_ncols (sub_C sn))) cycle_constraints)
    (sub_networks network) [] ;;
  model <- l_constraint model "cycle_constraints" cycle_constraints
             (cross cycle_index (snap_index snapshots)) ;;
  Return (mkNetState model (_p_balance s)).

Definition define_passive_branch_flows (network : Network) (snapshots : list snapshot)
    (formulation : string) (ptdf_tolerance : F) (s : NetState) : result NetState :=
  if formulation =? "angles" then
    define_passive_branch_flows_with_angles network snapshots s
  else if formulation =? "ptdf" then
    define_passive_branch_flows_with_PTDF network snapshots ptdf_tolerance s
  else if formulation =? "cycles" then
    define_passive_branch_flows_with_cycles network snapshots s
  else if formulation =? "kirchhoff" then
    define_passive_branch_flows_with_kirchhoff network snapshots s
  else Return s.

(** ** Flow limits: [define_passive_branch_constraints] *)

Definition define_passive_branch_constraints (network : Network)
    (snapshots : list snapshot) (model : Model) : result Model :=
  let passive_branches := passive_branches network in
  let extendable_branches := filter pb_s_nom_extendable passive_branches in
  let fixed_branches := filter (fun b => negb (pb_s_nom_extendable b)) passive_branches in
  upper_fixed <- for2 fixed_branches snapshots (fun b sn =>
      p <- getvar model "passive_branch_p" [KName (pb_type b); KName (pb_name b); KSnap sn] ;;
      Return ([KName (pb_type b); KName (pb_name b); KSnap sn],
              CTriple [(fone, p)] LE (pb_s_nom b))) ;;
  upper_ext <- for2 extendable_branches snapshots (fun b sn =>
      p <- getvar model "passive_branch_p" [KName (pb_type b); KName (pb_name b); KSnap sn] ;;
      s_nom <- getvar model "passive_branch_s_nom" [KName (pb_type b); KName (pb_name b)] ;;
      Return ([KName (pb_type b); KName (pb_name b); KSnap sn],
              CTriple [(fone, p); (fopp fone, s_nom)] LE fzero)) ;;
  let flow_upper := dupdate (dict_of_list upper_fixed) upper_ext in
  model <- l_constraint model "flow_upper" flow_upper
             (cross (branch_index passive_branches) (snap_index snapshots)) ;;
  lower_fixed <- for2 fixed_branches snapshots (fun b sn =>
      p <- getvar model "passive_branch_p" [KName (pb_type b); KName (pb_name b); KSnap sn] ;;
      Return ([KName (pb_type b); KName (pb_name b); KSnap sn],
              CTriple [(fone, p)] GE (fopp (pb_s_nom b)))) ;;
  lower_ext <- for2 extendable_branches snapshots (fun b sn =>
      p <- getvar model "passive_branch_p" [KName (pb_type b); KName (pb_name b); KSnap sn] ;;
      s_nom <- getvar model "passive_branch_s_nom" [KName (pb_type b); KName (pb_name b)] ;;
      Return ([KName (pb_type b); KName (pb_name b); KSnap sn],
              CTriple [(fone, p); (fone, s_nom)] GE fzero)) ;;
  let flow_lower := dupdate (dict_of_list lower_fixed) lower_ext in
  l_constraint model "flow_lower" flow_lower
    (cross (branch_index passive_branches) (snap_index snapshots)).

(** ** Balance constraints *)

Definition define_nodal_balance_constraints (network : Network)
    (snapshots : list snapshot) (s : NetState) : result NetState :=
  let model := model s in
  let passive_branches := passive_branches network in
  balance <- get_p_balance s ;;
  balance <- foldM (fun balance p =>
      let branch := fst p in let sn := snd p in
      let bt := pb_type branch in
      let bn := pb_name branch in
      balance <- append_variable balance [KName (pb_bus0 branch); KSnap sn]
                   (v <- getvar model "passive_branch_p" [KName bt; KName bn; KSnap sn] ;;
                    Return (fopp fone, v)) ;;
      append_variable balance [KName (pb_bus1 branch); KSnap sn]
        (v <- getvar model "passive_branch_p" [KName bt; KName bn; KSnap sn] ;;
         Return (fone, v)))
    (list_prod passive_branches snapshots) balance ;;
  let power_balance : dict cspec :=
    dict_of_list (map (fun kv => (fst kv, CObject (mkLConstraint (snd kv) EQ LExpression_empty)))
                      balance) in
  model <- l_constraint model "power_balance" power_balance
             (cross (name_index bus_name (buses network)) (snap_index snapshots)) ;;
  Return (mkNetState model (Some balance)).

(** [lhs.variables.extend(e.variables); lhs.constant += e.constant] *)
Definition extend_lhs (c : LConstraint) (e : LExpression) : LConstraint :=
  mkLConstraint (mkLExpression (variables (lhs c) ++ variables e)
                               (fadd (constant (lhs c)) (constant e)))
                (csense c) (rhs c).

Definition define_sub_network_balance_constraints (network : Network)
    (snapshots : list snapshot) (s : NetState) : result NetState :=
  let model := model s in
  sn_balance <- foldM (fun sn_balance p =>
      let sub_network := fst p in let sn := snd p in
      c <- foldM (fun c bus =>
               balance <- get_p_balance s ;;
               e <- dlookup balance [KName bus; KSnap sn] ;;
               Return (extend_lhs c e))
             (sub_buses sub_network)
             (mkLConstraint LExpression_empty EQ LExpression_empty) ;;
      Return (dset sn_balance [KName (sub_name sub_network); KSnap sn] (CObject c)))
    (list_prod (sub_networks network) snapshots) [] ;;
  model <- l_constraint model "sub_network_balance_constraint" sn_balance
             (cross (name_index sub_name (sub_networks network)) (snap_index snapshots)) ;;
  Return (mkNetState model (_p_balance s)).

(** ** The CO2 limit: [define_co2_constraint] *)

(** [network.carriers.at[carrier, "co2_emissions"]] *)
Definition co2_emissions (network : Network) (carrier : string) : result F :=
  match find (fun c => car_name c =? carrier) (carriers network) with
  | Some c => Return (car_co2_emissions c)
  | None => Raise KeyError
  end.

(** [network.buses.at[bus, "carrier"]] *)
Definition carrier_of_bus (network : Network) (bus : string) : result string :=
  match find (fun b => bus_name b =? bus) (buses network) with
  | Some b => Return (bus_carrier b)
  | None => Raise KeyError
  end.

Definition define_co2_constraint (network : Network) (snapshots : list snapshot)
    (limit : F) (model : Model) : result Model :=
  (* generators emit by their own carrier *)
  co2_gens <- for2 (generators network) snapshots (fun gen sn =>
      co2 <- co2_emissions network (g_carrier gen) ;;
      p <- getvar model "generator_p" [KName (g_name gen); KSnap sn] ;;
      Return (fmul (fmul co2 (fdiv fone (g_efficiency gen))) (snapshot_weightings network sn),
              p)) ;;
  (* a store inherits the carrier of its bus *)
  co2_stores <- for2 (stores network) snapshots (fun store sn =>
      carrier <- carrier_of_bus network (st_bus store) ;;
      co2 <- co2_emissions network carrier ;;
      p <- getvar model "store_p" [KName (st_name store); KSnap sn] ;;
      Return (fmul co2 (snapshot_weightings network sn), p)) ;;
  Return (add_con model "co2_constraint"
            [([], Relational (LExpression_terms (co2_gens ++ co2_stores)) LE
                             (mkLExpression [] limit))]).

(** ** The objective: [define_linear_objective] *)

(** [series.sum()] *)
Definition fsum (l : list F) : F := fold_left fadd l fzero.

Definition define_linear_objective (network : Network)
    (snapshots : list snapshot) (model : Model) : result Model :=
  let extendable_generators := filter g_p_nom_extendable (generators network) in
  let ext_sus := filter su_p_nom_extendable (storage_units network) in
  let ext_stores := filter st_e_nom_extendable (stores network) in
  let passive_branches := passive_branches network in
  let extendable_passive_branches := filter pb_s_nom_extendable passive_branches in
  let extendable_links := filter ln_p_nom_extendable (links network) in
  let w := snapshot_weightings network in
  let objective := LExpression_empty in
  gens <- for2 (generators network) snapshots (fun gen sn =>
      p <- getvar model "generator_p" [KName (g_name gen); KSnap sn] ;;
      Return (fmul (g_marginal_cost gen) (w sn), p)) ;;
  sus <- for2 (storage_units network) snapshots (fun su sn =>
      p <- getvar model "storage_p_dispatch" [KName (su_name su); KSnap sn] ;;
      Return (fmul (su_marginal_cost su) (w sn), p)) ;;
  sts <- for2 (stores network) snapshots (fun store sn =>
      p <- getvar model "store_p" [KName (st_name store); KSnap sn] ;;
      Return (fmul (st_marginal_cost store) (w sn), p)) ;;
  lks <- for2 (links network) snapshots (fun link sn =>
      p <- getvar model "link_p" [KName (ln_name link); KSnap sn] ;;
      Return (fmul (ln_marginal_cost link) (w sn), p)) ;;
  let objective :=
    mkLExpression (variables objective ++ gens ++ sus ++ sts ++ lks) (constant objective) in
  (* for capital costs the costs of the existing infrastructure are subtracted *)
  gen_nom <- mapM (fun gen =>
      p_nom <- getvar model "generator_p_nom" [KName (g_name gen)] ;;
      Return (g_capital_cost gen, p_nom)) extendable_generators ;;
  let objective :=
    mkLExpression (variables objective ++ gen_nom)
      (fsub (constant objective)
            (fsum (map (fun gen => fmul (g_capital_cost gen) (g_p_nom gen))
                       extendable_generators))) in
  su_nom <- mapM (fun su =>
      p_nom <- getvar model "storage_p_nom" [KName (su_name su)] ;;
      Return (su_capital_cost su, p_nom)) ext_sus ;;
  let objective :=
    mkLExpression (variables objective ++ su_nom)
      (fsub (constant objective)
            (fsum (map (fun su => fmul (su_capital_cost su) (su_p_nom su)) ext_sus))) in
  st_nom <- mapM (fun store =>
      e_nom <- getvar model "store_e_nom" [KName (st_name store)] ;;
      Return (st_capital_cost store, e_nom)) ext_stores ;;
  let objective :=
    mkLExpression (variables objective ++ st_nom)
      (fsub (constant objective)
            (fsum (map (fun store => fmul (st_capital_cost store) (st_e_nom store))
                       ext_stores))) in
  pb_nom <- mapM (fun b =>
      s_nom <- getvar model "passive_branch_s_nom" [KName (pb_type b); KName (pb_name b)] ;;
      Return (pb_capital_cost b, s_nom)) extendable_passive_branches ;;
  let objective :=
    mkLExpression (variables objective ++ pb_nom)
      (fsub (constant objective)
            (fsum (map (fun b => fmul (pb_capital_cost b) (pb_s_nom b))
                       extendable_passive_branches))) in
  ln_nom <- mapM (fun b =>
      p_nom <- getvar model "link_p_nom" [KName (ln_name b)] ;;
      Return (ln_capital_cost b, p_nom)) extendable_links ;;
  let objective :=
    mkLExpression (variables objective ++ ln_nom)
      (fsub (constant objective)
            (fsum (map (fun b => fmul (ln_capital_cost b) (ln_p_nom b)) extendable_links))) in
  Return (l_objective model objective).

(** ** The solver and the results on the network *)

(** What [opt.solve(network.model, suffixes=["dual"], ...)] leaves behind:
    status and termination condition, the lower bound of the problem, the
    value of every variable and the dual value of every constraint ([None]
    where the solver reports none). A constraint is identified by the name of
    its component and its index. *)
Record SolverResults : Type := mkSolverResults {
  sr_status : string;
  sr_termination_condition : string;
  sr_lower_bound : option F;
  sr_value : var -> option F;
  sr_dual : string -> index -> option F
}.

(** A time-dependent frame: a value per snapshot (row) and column, [None]
    for NaN. A static column of a component frame: a value per row. *)
Definition table : Type := snapshot -> index -> option F.
Definition column : Type := index -> option F.

(** The outputs of the optimisation on the network object, by name:
    ["generators_t.p"], ["buses_t.marginal_price"], ["generators.p_nom_opt"],
    ... *)
Record Results : Type := mkResults {
  objective : option F;
  tables : string -> table;
  columns : string -> column
}.

Definition set_table (r : Results) (name : string) (t : table) : Results :=
  mkResults (objective r) (fun n => if n =? name then t else tables r n) (columns r).

Definition set_column (r : Results) (name : string) (c : column) : Results :=
  mkResults (objective r) (tables r) (fun n => if n =? name then c else columns r n).

Definition mem_snapshot (sn : snapshot) (snapshots : list snapshot) : bool :=
  existsb (Nat.eqb sn) snapshots.

(** [df.loc[snapshots] = rows]: only the rows of [snapshots] are written. *)
Definition loc_set (snapshots : list snapshot) (df rows : table) : table :=
  fun sn col => if mem_snapshot sn snapshots then rows sn col else df sn col.

(** [df.loc[snapshots, cols] = rows] *)
Definition loc_set_cols (snapshots : list snapshot) (cols : list index) (df rows : table)
  : table :=
  fun sn col =>
    if mem_snapshot sn snapshots && mem_index col cols then rows sn col else df sn col.

(** A series indexed by the index tuples of a model component. *)
Definition series : Type := index -> option F.

(** [as_series(model.name)], from [indexedvar.get_values()] *)
Definition as_series (model : Model) (sr : SolverResults) (name : string) : result series :=
  match assoc name (m_vars model) with
  | None => Raise (AttributeError name)
  | Some fam =>
      Return (fun i => if mem_index i (dkeys fam) then sr_value sr (name, i) else None)
  end.

(** [set_from_series(df, series)]: the series, indexed by (column, snapshot),
    is unstacked into rows by snapshot and written at the rows of
    [snapshots]. *)
Definition set_from_series (snapshots : list snapshot) (df : table) (sr : series) : table :=
  loc_set snapshots df (fun sn col => sr (col ++ [KSnap sn])).

Definition olift2 (f : F -> F -> F) (a b : option F) : option F :=
  match a, b with
  | Some x, Some y => Some (f x y)
  | _, _ => None
  end.

Definition olift1 (f : F -> F) (a : option F) : option F :=
  match a with
  | Some x => Some (f x)
  | None => None
  end.

(** [.sum()] of a frame: NaN is skipped. *)
Definition osum (l : list (option F)) : F :=
  fold_left (fun acc x => match x with Some v => fadd acc v | None => acc end) l fzero.

(** The components of one type as [iterate_components] hands them to the
    extraction: the name of their frame of dispatch results, and column,
    sign and bus of every component. *)
Definition one_port_components (network : Network) (t : string)
  : option (string * list (index * F * string)) :=
  if t =? "Generator" then
    Some ("generators_t.p",
          map (fun g => ([KName (g_name g)], g_sign g, g_bus g)) (generators network))
  else if t =? "StorageUnit" then
    Some ("storage_units_t.p",
          map (fun u => ([KName (su_name u)], su_sign u, su_bus u)) (storage_units network))
  else if t =? "Store" then
    Some ("stores_t.p",
          map (fun u => ([KName (st_name u)], st_sign u, st_bus u)) (stores network))
  else if t =? "Load" then
    Some ("loads_t.p",
          map (fun u => ([KName (ld_name u)], ld_sign u, ld_bus u)) (loads network))
  else None.

(** [B[1:, 1:]] *)
Definition drop_first (M : Matrix) : Matrix :=
  mkMatrix (map (@tl F) (tl (mat_rows M))) (pred (mat_ncols M)).

(** ** Result extraction: [extract_optimisation_results]

    The function is embedded block by block, in the order of the source.
    Two things it takes from modules that are not among the sources are
    parameters: the list [controllable_one_port_types] of
    [pypsa/components.py] (by type name) and the sparse linear solver
    [spsolve], which maps a matrix and the right-hand sides, one row per bus
    and one column per snapshot, to the solutions in the same layout. *)

Definition nonempty {A : Type} (l : list A) : bool := (0 <? List.length l)%nat.

(** [set_from_series(network.name, series)] *)
Definition set_series (snapshots : list snapshot) (r : Results) (name : string)
    (s : series) : Results :=
  set_table r name (set_from_series snapshots (tables r name) s).

Definition extract_generators (network : Network) (snapshots : list snapshot)
    (model : Model) (sr : SolverResults) (r : Results) : result Results :=
  if nonempty (generators network)
  then p <- as_series model sr "generator_p" ;;
       Return (set_series snapshots r "generators_t.p" p)
  else Return r.

(** [df.fillna(0, inplace=True)], on the whole frame *)
Definition fillna0 (t : table) : table :=
  fun sn col => match t sn col with
                | Some v => Some v
                | None => Some fzero
                end.

Definition extract_storage_units (network : Network) (snapshots : list snapshot)
    (model : Model) (sr : SolverResults) (r : Results) : result Results :=
  if nonempty (storage_units network)
  then dispatch <- as_series model sr "storage_p_dispatch" ;;
       store <- as_series model sr "storage_p_store" ;;
       let r := set_series snapshots r "storage_units_t.p"
                  (fun i => olift2 fsub (dispatch i) (store i)) in
       e <- as_series model sr "state_of_charge" ;;
       let r := set_series snapshots r "storage_units_t.state_of_charge" e in
       r <- (if existsb (fun su =>
                   existsb (fun sn => fltb fzero
                              (storage_units_t_inflow network sn (su_name su)))
                           (snapshots_all network))
                 (storage_units network)
             then spill <- as_series model sr "storage_p_spill" ;;
                  Return (set_series snapshots r "storage_units_t.spill" spill)
             else Return r) ;;
       (* p_spill doesn't exist if inflow=0 *)
       Return (set_table r "storage_units_t.spill"
                 (fillna0 (tables r "storage_units_t.spill")))
  else Return r.

Definition extract_stores (network : Network) (snapshots : list snapshot)
    (model : Model) (sr : SolverResults) (r : Results) : result Results :=
  if nonempty (stores network)
  then p <- as_series model sr "store_p" ;;
       let r := set_series snapshots r "stores_t.p" p in
       e <- as_series model sr "store_e" ;;
       Return (set_series snapshots r "stores_t.e" e)
  else Return r.

Definition extract_loads (network : Network) (snapshots : list snapshot)
    (r : Results) : Results :=
  if nonempty (loads network)
  then set_table r "loads_t.p"
         (loc_set snapshots (tables r "loads_t.p")
            (fun sn col => match col with
                           | [KName load] => Some (loads_t_p_set network sn load)
                           | _ => None
                           end))
  else r.

(** [network.buses_t.p.loc[snapshots] = ...]: per bus, the signed dispatch
    of the controllable one-port components at the bus. *)
Definition extract_bus_injections (controllable_one_port_types : list string)
    (network : Network) (snapshots : list snapshot) (r : Results) : result Results :=
  if nonempty (buses network)
  then let components :=
         filter (fun c => nonempty (snd c))
                (flat_map (fun t => match one_port_components network t with
                                    | Some c => [c]
                                    | None => []
                                    end)
                          controllable_one_port_types) in
       if nonempty components
       then Return (set_table r "buses_t.p"
              (loc_set snapshots (tables r "buses_t.p")
                 (fun sn col =>
                    Some (fsum (map (fun c =>
                            osum (map (fun x => olift1 (fmul (snd (fst x)))
                                                       (tables r (fst c) sn (fst (fst x))))
                                      (filter (fun x => index_eqb [KName (snd x)] col)
                                              (snd c))))
                          components)))))
       else Raise (ValueError "No objects to concatenate")
  else Return r.

Definition extract_passive_branches (network : Network) (snapshots : list snapshot)
    (model : Model) (sr : SolverResults) (r : Results) : result Results :=
  passive <- as_series model sr "passive_branch_p" ;;
  if nonempty (passive_branches network)
  then let r := set_series snapshots r "passive_branches_t.p0" passive in
       Return (set_table r "passive_branches_t.p1"
                 (loc_set snapshots (tables r "passive_branches_t.p1")
                    (fun sn col => olift1 fopp (tables r "passive_branches_t.p0" sn col))))
  else Return r.

Definition extract_links (network : Network) (snapshots : list snapshot)
    (model : Model) (sr : SolverResults) (r : Results) : result Results :=
  if nonempty (links network)
  then p <- as_series model sr "link_p" ;;
       let r := set_series snapshots r "links_t.p0" p in
       let efficiency (col : index) : option F :=
         match find (fun l => index_eqb [KName (ln_name l)] col) (links network) with
         | Some l => Some (ln_efficiency l)
         | None => None
         end in
       let r := set_table r "links_t.p1"
                  (loc_set snapshots (tables r "links_t.p1")
                     (fun sn col =>
                        olift1 fopp (olift2 fmul (tables r "links_t.p0" sn col)
                                                 (efficiency col)))) in
       let r := set_table r "buses_t.p"
                  (loc_set snapshots (tables r "buses_t.p")
                     (fun sn col =>
                        olift2 fsub (tables r "buses_t.p" sn col)
                          (Some (osum (map (fun l => tables r "links_t.p0" sn
                                                       [KName (ln_name l)])
                                           (filter (fun l => index_eqb [KName (ln_bus0 l)] col)
                                                   (links network))))))) in
       Return (set_table r "buses_t.p"
                 (loc_set snapshots (tables r "buses_t.p")
                    (fun sn col =>
                       olift2 fsub (tables r "buses_t.p" sn col)
                         (Some (osum (map (fun l => tables r "links_t.p1" sn
                                                      [KName (ln_name l)])
                                          (filter (fun l => index_eqb [KName (ln_bus1 l)] col)
                                                  (links network))))))))
  else Return r.

(** The columns of the buses of one carrier. *)
Definition buses_of_carrier (network : Network) (c : string) : list index :=
  name_index bus_name (filter (fun b => bus_carrier b =? c) (buses network)).

(** The angles of one sub-network, recovered from the bus injections:
    the slack bus is at 0, the others solve [B[1:,1:] theta = p]. *)
Definition recover_angles
    (spsolve : Matrix -> list (list (option F)) -> list (list (option F)))
    (snapshots : list snapshot) (r : Results) (sn : SubNetwork) : Results :=
  let r := set_table r "buses_t.v_ang"
             (loc_set_cols snapshots [[KName (sub_slack_bus sn)]]
                (tables r "buses_t.v_ang") (fun _ _ => Some fzero)) in
  if nonempty (sub_pvpqs sn)
  then let solution :=
         spsolve (drop_first (sub_B sn))
           (map (fun bus => map (fun t => tables r "buses_t.p" t [KName bus]) snapshots)
                (sub_pvpqs sn)) in
       set_table r "buses_t.v_ang"
         (loc_set_cols snapshots (map (fun bus => [KName bus]) (sub_pvpqs sn))
            (tables r "buses_t.v_ang")
            (fun t col =>
               match find (fun jb => index_eqb col [KName (snd jb)]) (enumerate (sub_pvpqs sn)),
                     find (fun kt => Nat.eqb t (snd kt)) (enumerate snapshots) with
               | Some jb, Some kt => nth (fst kt) (nth (fst jb) solution []) None
               | _, _ => None
               end))
  else r.

(** The block [if len(network.buses)]: voltage angles, marginal prices and
    voltage magnitudes. *)
Definition extract_buses
    (spsolve : Matrix -> list (list (option F)) -> list (list (option F)))
    (network : Network) (snapshots : list snapshot) (formulation : string)
    (model : Model) (sr : SolverResults) (r : Results) : result Results :=
  if nonempty (buses network)
  then r <- (if formulation =? "angles"
             then v_ang <- as_series model sr "voltage_angles" ;;
                  let r := set_series snapshots r "buses_t.v_ang" v_ang in
                  match assoc "power_balance" (m_cons model) with
                  | None => Raise (AttributeError "power_balance")
                  | Some power_balance =>
                      Return (set_series snapshots r "buses_t.marginal_price"
                                (fun k => if mem_index k (dkeys power_balance)
                                          then sr_dual sr "power_balance" k
                                          else None))
                  end
             else if (formulation =? "ptdf") || (formulation =? "cycles")
                     || (formulation =? "kirchhoff")
             then Return (fold_left (recover_angles spsolve snapshots)
                                    (sub_networks network) r)
             else Return r) ;;
       let r := set_table r "buses_t.v_mag_pu"
                  (loc_set_cols snapshots (buses_of_carrier network "AC")
                     (tables r "buses_t.v_mag_pu") (fun _ _ => Some fone)) in
       Return (set_table r "buses_t.v_mag_pu"
                 (loc_set_cols snapshots (buses_of_carrier network "DC")
                    (tables r "buses_t.v_mag_pu")
                    (fun sn col => olift1 (fadd fone) (tables r "buses_t.v_ang" sn col))))
  else Return r.

(** [df.nom_opt = df.nom], then the solver values for the extendable rows. *)
Definition set_nom_opt {A : Type} (r : Results) (name : string) (rows : list A)
    (col : A -> index) (nom : A -> F) (extendable : A -> bool) (opt : series) : Results :=
  set_column r name
    (fun c => match find (fun x => index_eqb (col x) c) rows with
              | Some x => if extendable x then opt c else Some (nom x)
              | None => columns r name c
              end).

Definition extract_nom_opt (network : Network) (model : Model) (sr : SolverResults)
    (r : Results) : result Results :=
  p_nom <- as_series model sr "generator_p_nom" ;;
  let r := set_nom_opt r "generators.p_nom_opt" (generators network)
             (fun g => [KName (g_name g)]) g_p_nom g_p_nom_extendable p_nom in
  p_nom <- as_series model sr "storage_p_nom" ;;
  let r := set_nom_opt r "storage_units.p_nom_opt" (storage_units network)
             (fun u => [KName (su_name u)]) su_p_nom su_p_nom_extendable p_nom in
  e_nom <- as_series model sr "store_e_nom" ;;
  let r := set_nom_opt r "stores.e_nom_opt" (stores network)
             (fun u => [KName (st_name u)]) st_e_nom st_e_nom_extendable e_nom in
  s_nom <- as_series model sr "passive_branch_s_nom" ;;
  let r := set_nom_opt r "passive_branches.s_nom_opt" (passive_branches network)
             (fun b => [KName (pb_type b); KName (pb_name b)]) pb_s_nom pb_s_nom_extendable
             s_nom in
  p_nom <- as_series model sr "link_p_nom" ;;
  Return (set_nom_opt r "links.p_nom_opt" (links network)
            (fun l => [KName (ln_name l)]) ln_p_nom ln_p_nom_extendable p_nom).

Definition extract_optimisation_results
    (controllable_one_port_types : list string)
    (spsolve : Matrix -> list (list (option F)) -> list (list (option F)))
    (network : Network) (snapshots : list snapshot) (formulation : string)
    (model : Model) (sr : SolverResults) (r : Results) : result Results :=
  (* value of the objective function *)
  let r := mkResults (sr_lower_bound sr) (tables r) (columns r) in
  r <- extract_generators network snapshots model sr r ;;
  r <- extract_storage_units network snapshots model sr r ;;
  r <- extract_stores network snapshots model sr r ;;
  let r := extract_loads network snapshots r in
  r <- extract_bus_injections controllable_one_port_types network snapshots r ;;
  r <- extract_passive_branches network snapshots model sr r ;;
  r <- extract_links network snapshots model sr r ;;
  r <- extract_buses spsolve network snapshots formulation model sr r ;;
  (* the angles have been used to calculate the flow: set the DC ones to zero *)
  let r := set_table r "buses_t.v_ang"
             (loc_set_cols snapshots (buses_of_carrier network "DC")
                (tables r "buses_t.v_ang") (fun _ _ => Some fzero)) in
  extract_nom_opt network model sr r.

(** ** The driver: [network_lopf] *)

(** The model building part of [network_lopf], from the creation of the
    model to the declaration of the dual suffix. *)
Definition build_model (network : Network) (snapshots : list snapshot)
    (formulation : string) (ptdf_tolerance : F) : result NetState :=
  let m := ConcreteModel in
  m <- define_generator_variables_constraints network snapshots m ;;
  m <- define_storage_variables_constraints network snapshots m ;;
  m <- define_store_variables_constraints network snapshots m ;;
  m <- define_branch_extension_variables network snapshots m ;;
  m <- define_link_flows network snapshots m ;;
  s <- define_nodal_balances network snapshots (mkNetState m None) ;;
  s <- define_passive_branch_flows network snapshots formulation ptdf_tolerance s ;;
  m <- define_passive_branch_constraints network snapshots (model s) ;;
  let s := mkNetState m (_p_balance s) in
  s <- (if (formulation =? "angles") || (formulation =? "kirchhoff")
        then define_nodal_balance_constraints network snapshots s
        else if (formulation =? "ptdf") || (formulation =? "cycles")
        then define_sub_network_balance_constraints network snapshots s
        else Return s) ;;
  m <- (match co2_limit network with
        | Some limit => define_co2_constraint network snapshots limit (model s)
        | None => Return (model s)
        end) ;;
  m <- define_linear_objective network snapshots m ;;
  (* force the solver to also give the dual prices *)
  let m := mkModel (m_vars m) (m_cons m) (m_objective m) true in
  Return (mkNetState m (_p_balance s)).

(** What can be observed of a run besides its results. *)
Inductive event : Type :=
| EvSolve (model : Model)
| EvWriteResults
| EvPrint (msg : string)
| EvExtract (snapshots : list snapshot) (formulation : string).

Record Outcome : Type := mkOutcome {
  out_model : Model;
  out_solver : SolverResults;
  out_results : Results;
  out_trace : list event
}.

(** The part of [network_lopf] after the solver has returned. *)
Definition after_solve
    (controllable_one_port_types : list string)
    (spsolve : Matrix -> list (list (option F)) -> list (list (option F)))
    (network : Network) (snapshots : list snapshot) (formulation : string)
    (model : Model) (sr : SolverResults) (r : Results) (trace : list event)
  : result Outcome :=
  let status := sr_status sr in
  let termination_condition := sr_termination_condition sr in
  if (status =? "ok") && (termination_condition =? "optimal") then
    r <- extract_optimisation_results controllable_one_port_types spsolve
           network snapshots formulation model sr r ;;
    Return (mkOutcome model sr r (trace ++ [EvExtract snapshots formulation]))
  else if (status =? "warning") && (termination_condition =? "other") then
    let trace :=
      trace ++ [EvPrint "WARNING! Optimization might be sub-optimal. Writing output anyway"] in
    r <- extract_optimisation_results controllable_one_port_types spsolve
           network snapshots formulation model sr r ;;
    Return (mkOutcome model sr r (trace ++ [EvExtract snapshots formulation]))
  else
    Return (mkOutcome model sr r
              (trace ++ [EvPrint ("Optimisation failed with status " ++ status
                                  ++ " and terminal condition " ++ termination_condition)])).

(** [network_lopf]. The network is the network after the preliminary
    topology steps; [opt] is the solver that [SolverFactory(solver_name)]
    returns, with its options; [r] holds the results of earlier runs. *)
Definition network_lopf
    (controllable_one_port_types : list string)
    (spsolve : Matrix -> list (list (option F)) -> list (list (option F)))
    (network : Network) (r : Results) (snapshots : option (list snapshot))
    (opt : Model -> SolverResults) (verbose : bool)
    (extra_functionality : option (list snapshot -> NetState -> result NetState))
    (formulation : string) (ptdf_tolerance : F) : result Outcome :=
  let snapshots := match snapshots with
                   | None => [now network]
                   | Some snapshots => snapshots
                   end in
  s <- build_model network snapshots formulation ptdf_tolerance ;;
  s <- (match extra_functionality with
        | Some f => f snapshots s
        | None => Return s
        end) ;;
  (* tidy up auxiliary expressions: del network._p_balance *)
  _ <- get_p_balance s ;;
  let model := model s in
  let sr := opt model in
  let trace := [EvSolve model] ++ (if verbose then [EvWriteResults] else []) in
  after_solve controllable_one_port_types spsolve network snapshots formulation
    model sr r trace.

(** ** Reading a built model *)

(** [model.name[i]] for a constraint component. *)
Definition con_at (m : Model) (name : string) (i : index) : option ConData :=
  match assoc name (m_cons m) with
  | Some fam => dget fam i
  | None => None
  end.

(** An index mentions only snapshots of the solve window. *)
Definition snap_ok (snapshots : list snapshot) (i : index) : Prop :=
  forall t, In (KSnap t) i -> In t snapshots.

Definition idx_ok (snapshots : list snapshot) (l : list index) : Prop :=
  Forall (snap_ok snapshots) l.

(** All variables and constraints of a model are indexed within the
    solve window. *)
Definition model_in_window (snapshots : list snapshot) (m : Model) : Prop :=
  Forall (fun nf => idx_ok snapshots (dkeys (snd nf))) (m_vars m)
  /\ Forall (fun nf => idx_ok snapshots (dkeys (snd nf))) (m_cons m).

(** [m'] is [m] with the variable components [vs] and the constraint
    components [cs] added (latest first), all indexed within the window. *)
Definition extends (snapshots : list snapshot) (m m' : Model)
    (vs cs : list string) : Prop :=
  exists vfams cfams,
    m_vars m' = vfams ++ m_vars m /\ map fst vfams = vs
    /\ m_cons m' = cfams ++ m_cons m /\ map fst cfams = cs
    /\ Forall (fun nf => idx_ok snapshots (dkeys (snd nf))) vfams
    /\ Forall (fun nf => idx_ok snapshots (dkeys (snd nf))) cfams
    /\ m_objective m' = m_objective m.

(** [m'] is [m] with some of the components [vs] and [cs] added. *)
Definition declares (snapshots : list snapshot) (m m' : Model)
    (vs cs : list string) : Prop :=
  exists vs' cs', extends snapshots m m' vs' cs' /\ incl vs' vs /\ incl cs' cs.

(** ** The claims in closed form *)

(** The two flow limits of a passive branch at a snapshot, in the words of
    the specification. *)
Definition flow_upper_constraint (b : PassiveBranch) (sn : snapshot) : ConData :=
  let p := ("passive_branch_p", [KName (pb_type b); KName (pb_name b); KSnap sn]) in
  let s_nom := ("passive_branch_s_nom", [KName (pb_type b); KName (pb_name b)]) in
  if pb_s_nom_extendable b
  then Linear [(fone, p); (fopp fone, s_nom)] LE fzero
  else Linear [(fone, p)] LE (pb_s_nom b).

Definition flow_lower_constraint (b : PassiveBranch) (sn : snapshot) : ConData :=
  let p := ("passive_branch_p", [KName (pb_type b); KName (pb_name b); KSnap sn]) in
  let s_nom := ("passive_branch_s_nom", [KName (pb_type b); KName (pb_name b)]) in
  if pb_s_nom_extendable b
  then Linear [(fone, p); (fone, s_nom)] GE fzero
  else Linear [(fone, p)] GE (fopp (pb_s_nom b)).

(** The constraint [e = 0] as [l_constraint] registers it. *)
Definition equals_zero (e : LExpression) : ConData :=
  normalize (CObject (mkLConstraint e EQ LExpression_empty)).

(** The names of the components that can be declared before the flow
    limits of the passive branches. *)
Definition base_vars : list string :=
  ["passive_branch_p"; "voltage_angles"; "cycles"; "link_p"; "link_p_nom";
   "passive_branch_s_nom"; "store_e_nom"; "store_e"; "store_p"; "state_of_charge";
   "storage_p_nom"; "storage_p_spill"; "storage_p_store"; "storage_p_dispatch";
   "generator_p_nom"; "generator_p"].

Definition base_cons : list string :=
  ["passive_branch_p_def"; "slack_angle"; "cycle_constraints"; "link_p_lower";
   "link_p_upper"; "store_constraint"; "store_e_lower"; "store_e_upper";
   "state_of_charge_constraint_fixed"; "state_of_charge_constraint";
   "state_of_charge_upper"; "storage_p_lower"; "storage_p_upper";
   "generator_p_upper"; "generator_p_lower"].

(** The index of the cycles of all sub-networks, as both cycle-based
    formulations compute it. *)
Definition cycle_index (network : Network) : list index :=
  flat_map (fun sub_network =>
              map (fun i => [KName (sub_name sub_network); KNum i])
                  (seq 0 (mat_ncols (sub_C sub_network))))
           (sub_networks network).

(** The Kirchhoff voltage law of cycle [j] of a sub-network at a snapshot,
    in the words of the specification: the terms
    [impedance[i] * C[i,j] * passive_branch_p[branch_i, t]] over the branches
    [i] of the cycle, with the impedance taken from [r_pu] for a DC
    sub-network and from [x_pu] otherwise. *)
Definition kvl_terms (sub : SubNetwork) (j : nat) (sn : snapshot)
  : result (list (F * var)) :=
  let impedance := if sub_carrier sub =? "DC" then pb_r_pu else pb_x_pu in
  mapM (fun i =>
          branch <- at_position (sub_branches sub) i ;;
          Return (fmul (impedance branch) (mat_entry (sub_C sub) i j),
                  ("passive_branch_p",
                   [KName (pb_type branch); KName (pb_name branch); KSnap sn])))
       (col_nonzero (sub_C sub) j).

(** The previous state of charge of a storage unit at position [i] of the
    solve window, in the words of the specification: at the first snapshot
    the constant [state_of_charge_initial] unless the unit is cyclic, and
    then the state of charge at the last snapshot of the window; at a later
    snapshot the state of charge at the snapshot before. ([sn] is the
    snapshot at position [i].) *)
Definition soc_prev (snapshots : list snapshot) (su : StorageUnit) (i : nat)
    (sn : snapshot) : F + snapshot :=
  match i with
  | 0 => if su_cyclic_state_of_charge su
         then inr (last snapshots sn)
         else inl (su_state_of_charge_initial su)
  | S i' => inr (nth i' snapshots sn)
  end.

(** The weighting that multiplies the spill variable of every unit and
    snapshot: [elapsed_hours] as the loop over units and snapshots leaves
    it, the weighting of the last snapshot of the window. *)
Definition spill_hours (network : Network) (snapshots : list snapshot)
    (sn : snapshot) : F :=
  snapshot_weightings network (last snapshots sn).

(** The terms of the state of charge constraint of unit [su] at the
    snapshot [sn] at position [i] of the solve window, but for the spill
    term, and its right-hand side. *)
Definition soc_terms (network : Network) (snapshots : list snapshot)
    (su : StorageUnit) (i : nat) (sn : snapshot) : list (F * var) :=
  let k := [KName (su_name su); KSnap sn] in
  let hours := snapshot_weightings network sn in
  let decay := fpow (fsub fone (su_standing_loss su)) hours in
  let prev_terms :=
    match soc_prev snapshots su i sn with
    | inl _ => []
    | inr t => [(decay, ("state_of_charge", [KName (su_name su); KSnap t]))]
    end in
  let own_terms :=
    match storage_units_t_state_of_charge_set network sn (su_name su) with
    | None => [(fopp fone, ("state_of_charge", k))]
    | Some _ => []
    end in
  prev_terms ++ own_terms
    ++ [(fmul (su_efficiency_store su) hours, ("storage_p_store", k));
        (fmul (fopp (fdiv fone (su_efficiency_dispatch su))) hours,
         ("storage_p_dispatch", k))].

Definition soc_bound (network : Network) (snapshots : list snapshot)
    (su : StorageUnit) (i : nat) (sn : snapshot) : F :=
  let hours := snapshot_weightings network sn in
  let decay := fpow (fsub fone (su_standing_loss su)) hours in
  let prev_const :=
    match soc_prev snapshots su i sn with
    | inl initial => fsub fzero (fmul decay initial)
    | inr _ => fzero
    end in
  let const :=
    match storage_units_t_state_of_charge_set network sn (su_name su) with
    | None => prev_const
    | Some fixed => fadd prev_const fixed
    end in
  fsub const (fmul (storage_units_t_inflow network sn (su_name su)) hours).

(** The state of charge constraint of unit [su] at the snapshot [sn] at
    position [i] of the solve window, as the model holds it: the spill
    term is there where the spill variable exists. *)
Definition soc_constraint (network : Network) (snapshots : list snapshot)
    (su : StorageUnit) (i : nat) (sn : snapshot) : ConData :=
  let k := [KName (su_name su); KSnap sn] in
  let spill_terms :=
    if mem_index k (spill_index network snapshots)
    then [(fmul (fopp fone) (spill_hours network snapshots sn), ("storage_p_spill", k))]
    else [] in
  Linear (soc_terms network snapshots su i sn ++ spill_terms) EQ
         (soc_bound network snapshots su i sn).

(** ** The value of the objective *)

(** The value of a linear expression when the variables take the values
    [rho]. *)
Definition terms_value (rho : var -> F) (terms : list (F * var)) : F :=
  fsum (map (fun t => fmul (fst t) (rho (snd t))) terms).

Definition lexpr_value (rho : var -> F) (e : LExpression) : F :=
  fadd (terms_value rho (variables e)) (constant e).

(** The objective in the words of the specification: the marginal cost of
    every dispatch, weighted by the snapshot, ... *)
Definition marginal_costs (network : Network) (snapshots : list snapshot)
    (rho : var -> F) : F :=
  let w := snapshot_weightings network in
  fadd (fadd (fadd
    (fsum (map (fun p => fmul (fmul (g_marginal_cost (fst p)) (w (snd p)))
                              (rho ("generator_p", [KName (g_name (fst p)); KSnap (snd p)])))
               (list_prod (generators network) snapshots)))
    (fsum (map (fun p => fmul (fmul (su_marginal_cost (fst p)) (w (snd p)))
                              (rho ("storage_p_dispatch",
                                    [KName (su_name (fst p)); KSnap (snd p)])))
               (list_prod (storage_units network) snapshots))))
    (fsum (map (fun p => fmul (fmul (st_marginal_cost (fst p)) (w (snd p)))
                              (rho ("store_p", [KName (st_name (fst p)); KSnap (snd p)])))
               (list_prod (stores network) snapshots))))
    (fsum (map (fun p => fmul (fmul (ln_marginal_cost (fst p)) (w (snd p)))
                              (rho ("link_p", [KName (ln_name (fst p)); KSnap (snd p)])))
               (list_prod (links network) snapshots))).

(** ... and the capital cost of every extendable element, on the capacity
    added to the existing one. *)
Definition capital_costs (network : Network) (rho : var -> F) : F :=
  fadd (fadd (fadd (fadd
    (fsum (map (fun g => fmul (g_capital_cost g)
                              (fsub (rho ("generator_p_nom", [KName (g_name g)]))
                                    (g_p_nom g)))
               (filter g_p_nom_extendable (generators network))))
    (fsum (map (fun u => fmul (su_capital_cost u)
                              (fsub (rho ("storage_p_nom", [KName (su_name u)]))
                                    (su_p_nom u)))
               (filter su_p_nom_extendable (storage_units network)))))
    (fsum (map (fun u => fmul (st_capital_cost u)
                              (fsub (rho ("store_e_nom", [KName (st_name u)]))
                                    (st_e_nom u)))
               (filter st_e_nom_extendable (stores network)))))
    (fsum (map (fun b => fmul (pb_capital_cost b)
                              (fsub (rho ("passive_branch_s_nom",
                                          [KName (pb_type b); KName (pb_name b)]))
                                    (pb_s_nom b)))
               (filter pb_s_nom_extendable (passive_branches network)))))
    (fsum (map (fun l => fmul (ln_capital_cost l)
                              (fsub (rho ("link_p_nom", [KName (ln_name l)]))
                                    (ln_p_nom l)))
               (filter ln_p_nom_extendable (links network)))).

(** The capacity variables take the values of the existing capacities. *)
Definition at_existing_capacity (network : Network) (rho : var -> F) : Prop :=
  (forall g, In g (generators network) ->
     rho ("generator_p_nom", [KName (g_name g)]) = g_p_nom g)
  /\ (forall u, In u (storage_units network) ->
        rho ("storage_p_nom", [KName (su_name u)]) = su_p_nom u)
  /\ (forall u, In u (stores network) ->
        rho ("store_e_nom", [KName (st_name u)]) = st_e_nom u)
  /\ (forall b, In b (passive_branches network) ->
        rho ("passive_branch_s_nom", [KName (pb_type b); KName (pb_name b)]) = pb_s_nom b)
  /\ (forall l, In l (links network) ->
        rho ("link_p_nom", [KName (ln_name l)]) = ln_p_nom l).

(** The capital cost of the existing capacities of the extendable
    elements. *)
Definition existing_capital (network : Network) : F :=
  fadd (fadd (fadd (fadd
    (fsum (map (fun g => fmul (g_capital_cost g) (g_p_nom g))
               (filter g_p_nom_extendable (generators network))))
    (fsum (map (fun u => fmul (su_capital_cost u) (su_p_nom u))
               (filter su_p_nom_extendable (storage_units network)))))
    (fsum (map (fun u => fmul (st_capital_cost u) (st_e_nom u))
               (filter st_e_nom_extendable (stores network)))))
    (fsum (map (fun b => fmul (pb_capital_cost b) (pb_s_nom b))
               (filter pb_s_nom_extendable (passive_branches network)))))
    (fsum (map (fun l => fmul (ln_capital_cost l) (ln_p_nom l))
               (filter ln_p_nom_extendable (links network)))).

(** ** The driver in the words of the specification *)

(** Recognized formulations: {"angles", "ptdf", "cycles", "kirchhoff"}. *)
Definition recognized (formulation : string) : bool :=
  (formulation =? "angles") || (formulation =? "ptdf")
  || (formulation =? "cycles") || (formulation =? "kirchhoff").

(** The two outcomes of the solver that yield result extraction. *)
Definition solver_optimal (sr : SolverResults) : bool :=
  (sr_status sr =? "ok") && (sr_termination_condition sr =? "optimal").

Definition solver_suboptimal (sr : SolverResults) : bool :=
  (sr_status sr =? "warning") && (sr_termination_condition sr =? "other").

(** Outside the rows of the solve window the frames of [r'] are those of
    [r], but for the NaN of the spill frame that [fillna(0)] has replaced
    by zero. *)
Definition outside_window (snapshots : list snapshot) (r r' : Results) : Prop :=
  forall name sn col, ~ In sn snapshots ->
    tables r' name sn col = tables r name sn col
    \/ (name = "storage_units_t.spill"
        /\ tables r name sn col = None /\ tables r' name sn col = Some fzero).

End Builder.

(** The scalar type is explicit in the types of the embedding. *)
Arguments LExpression F : clear implicits.
Arguments LConstraint F : clear implicits.
Arguments cspec F : clear implicits.
Arguments ConData F : clear implicits.
Arguments VarData F : clear implicits.
Arguments Model F : clear implicits.
Arguments Carrier F : clear implicits.
Arguments Generator F : clear implicits.
Arguments StorageUnit F : clear implicits.
Arguments Store F : clear implicits.
Arguments Load F : clear implicits.
Arguments PassiveBranch F : clear implicits.
Arguments Link F : clear implicits.
Arguments Matrix F : clear implicits.
Arguments SubNetwork F : clear implicits.
Arguments Network F : clear implicits.
Arguments soc_state F : clear implicits.
Arguments NetState F : clear implicits.
Arguments SolverResults F : clear implicits.
Arguments table F : clear implicits.
Arguments column F : clear implicits.
Arguments Results F : clear implicits.
Arguments series F : clear implicits.
Arguments event F : clear implicits.
Arguments Outcome F : clear implicits.


(** ** Example networks

    Integer-valued networks on which the builder, the driver and the
    extraction are run. *)

Section Examples.

Local Open Scope Z_scope.

Definition example_generator : Generator Z :=
  mkGenerator "g1" "A" "gas" "flexible" true 200 0 500 0 1 10 3 1 1.

(** A storage unit with inflow, so that it has a spill variable. *)
Definition example_storage_unit : StorageUnit Z :=
  mkStorageUnit "s1" "A" false 10 0 0 (-1) 1 4 1 1 0 false 3 0 0 1.

Definition example_line : PassiveBranch Z :=
  mkPassiveBranch "Line" "L1" "A" "B" "0" false 150 0 0 0 1 1.

Definition example_sub_network : SubNetwork Z :=
  mkSubNetwork "0" "AC" "A" ["B"] ["B"] ["A"; "B"] [example_line]
    (mkMatrix [[]] 0) (mkMatrix [[0; 1]] 2) (mkMatrix [[-1]] 1)
    (mkMatrix [[1; -1]; [-1; 1]] 2).

(** Two buses joined by a line, two snapshots with the weightings 1 and 2;
    the storage unit has inflow at the first snapshot only. *)
Definition example_network : Network Z :=
  mkNetwork [mkBus "A" "AC"; mkBus "B" "AC"] [mkCarrier "gas" 1]
    [example_generator] [example_storage_unit] [] [mkLoad "l1" "B" (-1)]
    [example_line] [] [example_sub_network]
    [0%nat; 1%nat] 0%nat
    (fun sn => if Nat.eqb sn 0 then 1 else 2)
    None
    (fun _ _ => 0) (fun _ _ => 1)
    (fun sn _ => if Nat.eqb sn 0 then 5 else 0)
    (fun _ _ => None)
    (fun _ _ => 100).

(** The same network without its line. *)
Definition example_network_no_branches : Network Z :=
  mkNetwork [mkBus "A" "AC"; mkBus "B" "AC"] [mkCarrier "gas" 1]
    [example_generator] [example_storage_unit] [] [mkLoad "l1" "B" (-1)]
    [] [] []
    [0%nat; 1%nat] 0%nat
    (fun sn => if Nat.eqb sn 0 then 1 else 2)
    None
    (fun _ _ => 0) (fun _ _ => 1)
    (fun sn _ => if Nat.eqb sn 0 then 5 else 0)
    (fun _ _ => None)
    (fun _ _ => 100).

(** Three buses on a ring of three lines: one cycle. *)
Definition ring_line (name bus0 bus1 : string) (x : Z) : PassiveBranch Z :=
  mkPassiveBranch "Line" name bus0 bus1 "0" false 150 0 0 0 x 1.

Definition ring_lines : list (PassiveBranch Z) :=
  [ring_line "L1" "A" "B" 1; ring_line "L2" "B" "C" 2; ring_line "L3" "A" "C" 3].

Definition ring_sub_network : SubNetwork Z :=
  mkSubNetwork "0" "AC" "A" ["B"; "C"] ["B"; "C"] ["A"; "B"; "C"] ring_lines
    (mkMatrix [[1]; [1]; [-1]] 1)
    (mkMatrix [[0; 1; 1]; [0; 0; 1]; [0; 0; 0]] 3)
    (mkMatrix [[-1; 0]; [0; -1]; [0; 0]] 2)
    (mkMatrix [[2; -1; -1]; [-1; 2; -1]; [-1; -1; 2]] 3).

Definition ring_network : Network Z :=
  mkNetwork [mkBus "A" "AC"; mkBus "B" "AC"; mkBus "C" "AC"] [mkCarrier "gas" 1]
    [example_generator] [] [] [mkLoad "l1" "C" (-1)]
    ring_lines [] [ring_sub_network]
    [0%nat; 1%nat] 0%nat
    (fun _ => 1)
    None
    (fun _ _ => 0) (fun _ _ => 1)
    (fun _ _ => 0)
    (fun _ _ => None)
    (fun _ _ => 100).

(** The state a successful build returns. *)
Definition built (c : result (NetState Z)) : NetState Z :=
  match c with
  | Return s => s
  | Raise _ => mkNetState ConcreteModel None
  end.

(** The states the builds on the example network return. *)
Definition example_state (formulation : string) : NetState Z :=
  built (build_model example_network [0%nat; 1%nat] formulation 0).

(** A solver that reports an optimal solution: every variable at 0, every
    dual value 7. *)
Definition example_solver (m : Model Z) : SolverResults Z :=
  mkSolverResults "ok" "optimal" (Some 0) (fun _ => Some 0) (fun _ _ => Some 7).

(** A solver that reports failure. *)
Definition failing_solver (m : Model Z) : SolverResults Z :=
  mkSolverResults "warning" "infeasible" None (fun _ => None) (fun _ _ => None).

(** Results before any run: every frame is NaN. *)
Definition no_results : Results Z :=
  mkResults None (fun _ _ _ => None) (fun _ _ => None).

Definition example_types : list string := ["Load"; "Generator"; "StorageUnit"; "Store"].

Definition example_spsolve (B : Matrix Z) (rhs : list (list (option Z)))
  : list (list (option Z)) := rhs.

(** The outcome a run returns. *)
Definition finished (c : result (Outcome Z)) : Outcome Z :=
  match c with
  | Return o => o
  | Raise _ => mkOutcome ConcreteModel (example_solver ConcreteModel) no_results []
  end.

End Examples.

(** A run on an example: no earlier results, not verbose, no extra
    functionality, tolerance 0. *)
Notation example_run network snapshots opt formulation :=
  (network_lopf example_types example_spsolve network no_results snapshots
     opt false None formulation 0%Z).

(** The results of a run on the example network with the solver that
    reports an optimal solution. *)
Definition extracted (formulation : string) : Results Z :=
  out_results (finished (example_run example_network (Some [0%nat; 1%nat])
                                     example_solver formulation)).


(** ** More closed forms *)

Section Forms.

Context {F : Type} {SF : Scalar F}.

(** [model.name[i]] for a variable component: its domain and bounds. *)
Definition var_at (m : Model F) (name : string) (i : index) : option (VarData F) :=
  match assoc name (m_vars m) with
  | Some fam => dget fam i
  | None => None
  end.

(** The bounds of the dispatch of a generator at a snapshot: none for an
    extendable generator, the time series times the capacity for a
    generator with variable dispatch, the fixed per-unit limits times the
    capacity for one with flexible dispatch. *)
Definition generator_p_bounds (network : Network F) (g : Generator F) (sn : snapshot)
  : option F * option F :=
  if g_p_nom_extendable g then (None, None)
  else if g_dispatch g =? "variable"
  then (Some (fmul (generators_t_p_min_pu network sn (g_name g)) (g_p_nom g)),
        Some (fmul (generators_t_p_max_pu network sn (g_name g)) (g_p_nom g)))
  else (Some (fmul (g_p_nom g) (g_p_min_pu_fixed g)),
        Some (fmul (g_p_nom g) (g_p_max_pu_fixed g))).

(** The per-unit limits of an extendable generator at a snapshot. *)
Definition generator_p_min_pu (network : Network F) (g : Generator F) (sn : snapshot) : F :=
  if g_dispatch g =? "variable" then generators_t_p_min_pu network sn (g_name g)
  else g_p_min_pu_fixed g.

Definition generator_p_max_pu (network : Network F) (g : Generator F) (sn : snapshot) : F :=
  if g_dispatch g =? "variable" then generators_t_p_max_pu network sn (g_name g)
  else g_p_max_pu_fixed g.

(** The dispatch limits of an extendable generator:
    [p - p_min_pu * p_nom >= 0] and [p - p_max_pu * p_nom <= 0]. *)
Definition generator_p_lower_constraint (network : Network F) (g : Generator F)
    (sn : snapshot) : ConData F :=
  Linear [(fone, ("generator_p", [KName (g_name g); KSnap sn]));
          (fopp (generator_p_min_pu network g sn), ("generator_p_nom", [KName (g_name g)]))]
         GE fzero.

Definition generator_p_upper_constraint (network : Network F) (g : Generator F)
    (sn : snapshot) : ConData F :=
  Linear [(fone, ("generator_p", [KName (g_name g); KSnap sn]));
          (fopp (generator_p_max_pu network g sn), ("generator_p_nom", [KName (g_name g)]))]
         LE fzero.

(** The variables of a storage unit at a snapshot: dispatch and storing
    power, non-negative and, unless the unit is extendable, limited by the
    capacity times the fixed per-unit limits. *)
Definition storage_p_dispatch_var (su : StorageUnit F) : VarData F :=
  mkVarData NonNegativeReals (Some fzero)
    (if su_p_nom_extendable su then None
     else Some (fmul (su_p_nom su) (su_p_max_pu_fixed su))).

Definition storage_p_store_var (su : StorageUnit F) : VarData F :=
  mkVarData NonNegativeReals (Some fzero)
    (if su_p_nom_extendable su then None
     else Some (fmul (fopp (su_p_nom su)) (su_p_min_pu_fixed su))).

(** The spillage variable of a storage unit at a snapshot: there is one
    where the inflow is positive, limited by the inflow. *)
Definition storage_p_spill_var (network : Network F) (su : StorageUnit F) (sn : snapshot)
  : option (VarData F) :=
  if fltb fzero (storage_units_t_inflow network sn (su_name su))
  then Some (mkVarData NonNegativeReals (Some fzero)
                       (Some (storage_units_t_inflow network sn (su_name su))))
  else None.

(** The upper limit of the state of charge: [max_hours] times the capacity. *)
Definition state_of_charge_upper_constraint (su : StorageUnit F) (sn : snapshot)
  : ConData F :=
  let e := ("state_of_charge", [KName (su_name su); KSnap sn]) in
  if su_p_nom_extendable su
  then Linear [(fone, e); (fopp (su_max_hours su), ("storage_p_nom", [KName (su_name su)]))]
              LE fzero
  else Linear [(fone, e)] LE (fmul (su_max_hours su) (su_p_nom su)).

(** The capacity variable of a passive branch: extendable branches have
    one, bounded by [s_nom_min] and [s_nom_max]. *)
Definition passive_branch_s_nom_var (b : PassiveBranch F) : option (VarData F) :=
  if pb_s_nom_extendable b
  then Some (mkVarData NonNegativeReals (Some (pb_s_nom_min b)) (Some (pb_s_nom_max b)))
  else None.

(** The capacity variable of a link. *)
Definition link_p_nom_var (l : Link F) : option (VarData F) :=
  if ln_p_nom_extendable l
  then Some (mkVarData NonNegativeReals (Some (ln_p_nom_min l)) (Some (ln_p_nom_max l)))
  else None.

(** The flow variable of a link: bounded by the per-unit limits times the
    capacity, unless the link is extendable. *)
Definition link_p_var (l : Link F) : VarData F :=
  if ln_p_nom_extendable l then mkVarData Reals None None
  else mkVarData Reals (Some (fmul (ln_p_min_pu l) (ln_p_nom l)))
                 (Some (fmul (ln_p_max_pu l) (ln_p_nom l))).

(** The flow limits of an extendable link: [p <= p_max_pu * p_nom] and
    [p >= p_min_pu * p_nom]. *)
Definition link_p_upper_constraint (l : Link F) (sn : snapshot) : ConData F :=
  Relational (LExpression_terms [(fone, ("link_p", [KName (ln_name l); KSnap sn]))]) LE
             (LExpression_terms [(ln_p_max_pu l, ("link_p_nom", [KName (ln_name l)]))]).

Definition link_p_lower_constraint (l : Link F) (sn : snapshot) : ConData F :=
  Relational (LExpression_terms [(fone, ("link_p", [KName (ln_name l); KSnap sn]))]) GE
             (LExpression_terms [(ln_p_min_pu l, ("link_p_nom", [KName (ln_name l)]))]).

(** The flow of a passive branch in terms of the voltage angles at its
    ends: [(theta0 - theta1) / x - p = 0], with the resistance in the place
    of the reactance on a DC sub-network. *)
Definition angle_flow_constraint (b : PassiveBranch F) (carrier : string) (sn : snapshot)
  : ConData F :=
  let y := fdiv fone (if carrier =? "DC" then pb_r_pu b else pb_x_pu b) in
  equals_zero
    (LExpression_terms
       [(y, ("voltage_angles", [KName (pb_bus0 b); KSnap sn]));
        (fopp y, ("voltage_angles", [KName (pb_bus1 b); KSnap sn]));
        (fopp fone, ("passive_branch_p", [KName (pb_type b); KName (pb_name b); KSnap sn]))]).

(** The voltage angle at the slack bus of a sub-network is zero. *)
Definition slack_angle_constraint (sub : SubNetwork F) (sn : snapshot) : ConData F :=
  Linear [(fone, ("voltage_angles", [KName (sub_slack_bus sub); KSnap sn]))] EQ fzero.

(** Every entry of the dictionary of the flow definitions is the one of a
    branch and a snapshot. *)
Definition angle_flow_entries (network : Network F) (d : dict (cspec F)) : Prop :=
  forall k c, dget d k = Some c ->
    exists b sn carrier,
      In b (passive_branches network)
      /\ k = [KName (pb_type b); KName (pb_name b); KSnap sn]
      /\ sub_network_carrier network (pb_sub_network b) = Return carrier
      /\ normalize c = angle_flow_constraint b carrier sn.

(** The left-hand side of the CO2 constraint: for every generator and
    snapshot the emissions of its carrier, divided by its efficiency and
    weighted by the snapshot, times its dispatch; for every store and
    snapshot the emissions of the carrier of its bus, weighted by the
    snapshot, times its dispatch. *)
Definition co2_terms (network : Network F) (snapshots : list snapshot)
  : result (list (F * var)) :=
  co2_gens <- for2 (generators network) snapshots (fun gen sn =>
      co2 <- co2_emissions network (g_carrier gen) ;;
      Return (fmul (fmul co2 (fdiv fone (g_efficiency gen))) (snapshot_weightings network sn),
              ("generator_p", [KName (g_name gen); KSnap sn]))) ;;
  co2_stores <- for2 (stores network) snapshots (fun store sn =>
      carrier <- carrier_of_bus network (st_bus store) ;;
      co2 <- co2_emissions network carrier ;;
      Return (fmul co2 (snapshot_weightings network sn),
              ("store_p", [KName (st_name store); KSnap sn]))) ;;
  Return (co2_gens ++ co2_stores).

(** The keys of the nodal balances stay those of the buses. *)
Definition same_keys (keys : list index) (balance : dict (LExpression F)) : Prop :=
  forall k, In k (dkeys balance) <-> In k keys.

(** The previous energy of a store at position [i] of the solve window:
    at the first snapshot the constant [e_initial] unless the store is
    cyclic, and then the energy at the last snapshot of the window; at a
    later snapshot the energy at the snapshot before. *)
Definition store_prev (snapshots : list snapshot) (u : Store F) (i : nat)
    (sn : snapshot) : F + snapshot :=
  match i with
  | 0 => if st_e_cyclic u then inr (last snapshots sn) else inl (st_e_initial u)
  | S i' => inr (nth i' snapshots sn)
  end.

(** The energy balance of a store at the snapshot [sn] at position [i] of
    the solve window: [-e + decay * e_prev - hours * p = 0], with
    [decay = (1 - standing_loss) ** hours]. *)
Definition store_balance (network : Network F) (snapshots : list snapshot)
    (u : Store F) (i : nat) (sn : snapshot) : LExpression F :=
  let k := [KName (st_name u); KSnap sn] in
  let hours := snapshot_weightings network sn in
  let decay := fpow (fsub fone (st_standing_loss u)) hours in
  match store_prev snapshots u i sn with
  | inl initial =>
      mkLExpression [(fopp fone, ("store_e", k)); (fopp hours, ("store_p", k))]
                    (fadd fzero (fmul decay initial))
  | inr t =>
      mkLExpression [(fopp fone, ("store_e", k));
                     (decay, ("store_e", [KName (st_name u); KSnap t]));
                     (fopp hours, ("store_p", k))]
                    fzero
  end.

Definition store_constraint_form (network : Network F) (snapshots : list snapshot)
    (u : Store F) (i : nat) (sn : snapshot) : ConData F :=
  equals_zero (store_balance network snapshots u i sn).

(** Every entry of the dictionary of the energy balances is the one of a
    store and a position of the window. *)
Definition store_entries (network : Network F) (snapshots : list snapshot)
    (d : dict (cspec F)) : Prop :=
  forall k c, dget d k = Some c ->
    exists u i sn,
      In u (stores network) /\ nth_error snapshots i = Some sn
      /\ k = [KName (st_name u); KSnap sn]
      /\ normalize c = store_constraint_form network snapshots u i sn.

(** The energy variable of a store: bounded by the capacity times the
    fixed per-unit limits, unless the store is extendable. *)
Definition store_e_var (u : Store F) : VarData F :=
  if st_e_nom_extendable u then mkVarData Reals None None
  else mkVarData Reals (Some (fmul (st_e_nom u) (st_e_min_pu_fixed u)))
                 (Some (fmul (st_e_nom u) (st_e_max_pu_fixed u))).

(** The capacity variable of an extendable store, and the limits that tie
    its energy to the capacity: [e <= e_max_pu * e_nom] and
    [e >= e_min_pu * e_nom]. *)
Definition store_e_nom_var (u : Store F) : option (VarData F) :=
  if st_e_nom_extendable u
  then Some (mkVarData Reals (Some (st_e_nom_min u)) (Some (st_e_nom_max u)))
  else None.

Definition store_e_upper_constraint (u : Store F) (sn : snapshot) : ConData F :=
  Relational (LExpression_terms [(fone, ("store_e", [KName (st_name u); KSnap sn]))]) LE
             (LExpression_terms [(st_e_max_pu_fixed u, ("store_e_nom", [KName (st_name u)]))]).

Definition store_e_lower_constraint (u : Store F) (sn : snapshot) : ConData F :=
  Relational (LExpression_terms [(fone, ("store_e", [KName (st_name u); KSnap sn]))]) GE
             (LExpression_terms [(st_e_min_pu_fixed u, ("store_e_nom", [KName (st_name u)]))]).

(** The terms that [define_nodal_balances] gathers in the balance at the
    key [k] of a bus and a snapshot: in this order the flows of the links
    that leave the bus (coefficient [-1]) or arrive at it (the efficiency),
    the dispatch of the generators, the dispatch and the storing power of
    the storage units and the power of the stores attached to it, each
    with the sign of the component. *)
Definition at_key (k : index) (bus : string) (t : snapshot) : bool :=
  index_eqb k [KName bus; KSnap t].

Definition balance_link_terms (k : index) (p : Link F * snapshot) : list (F * var) :=
  (if at_key k (ln_bus0 (fst p)) (snd p)
   then [(fopp fone, ("link_p", [KName (ln_name (fst p)); KSnap (snd p)]))] else [])
  ++ (if at_key k (ln_bus1 (fst p)) (snd p)
      then [(ln_efficiency (fst p), ("link_p", [KName (ln_name (fst p)); KSnap (snd p)]))]
      else []).

Definition balance_generator_terms (k : index) (p : Generator F * snapshot)
  : list (F * var) :=
  if at_key k (g_bus (fst p)) (snd p)
  then [(g_sign (fst p), ("generator_p", [KName (g_name (fst p)); KSnap (snd p)]))]
  else [].

Definition balance_storage_terms (k : index) (p : StorageUnit F * snapshot)
  : list (F * var) :=
  if at_key k (su_bus (fst p)) (snd p)
  then [(su_sign (fst p), ("storage_p_dispatch", [KName (su_name (fst p)); KSnap (snd p)]));
        (fopp (su_sign (fst p)),
         ("storage_p_store", [KName (su_name (fst p)); KSnap (snd p)]))]
  else [].

Definition balance_store_terms (k : index) (p : Store F * snapshot) : list (F * var) :=
  if at_key k (st_bus (fst p)) (snd p)
  then [(st_sign (fst p), ("store_p", [KName (st_name (fst p)); KSnap (snd p)]))]
  else [].

Definition balance_variables (network : Network F) (snapshots : list snapshot)
    (k : index) : list (F * var) :=
  flat_map (balance_link_terms k) (list_prod (links network) snapshots)
  ++ flat_map (balance_generator_terms k) (list_prod (generators network) snapshots)
  ++ flat_map (balance_storage_terms k) (list_prod (storage_units network) snapshots)
  ++ flat_map (balance_store_terms k) (list_prod (stores network) snapshots).

Definition append_terms (ts : list (F * var)) (e : LExpression F) : LExpression F :=
  mkLExpression (variables e ++ ts) (constant e).

(** The constant of the balance at the key [k]: the signed set points of
    the loads at the bus, added one after the other to zero. *)
Definition balance_constant (network : Network F) (snapshots : list snapshot)
    (k : index) : F :=
  fold_left (fun c p =>
               if at_key k (ld_bus (fst p)) (snd p)
               then fadd c (fmul (ld_sign (fst p))
                                 (loads_t_p_set network (snd p) (ld_name (fst p))))
               else c)
            (list_prod (loads network) snapshots) fzero.

(** The capacity variable of an extendable storage unit, and the limits
    that tie its power to the capacity: [p_dispatch <= p_max_pu * p_nom]
    and [p_store <= -p_min_pu * p_nom]. *)
Definition storage_p_nom_var (su : StorageUnit F) : option (VarData F) :=
  if su_p_nom_extendable su
  then Some (mkVarData NonNegativeReals (Some (su_p_nom_min su)) (Some (su_p_nom_max su)))
  else None.

Definition storage_p_upper_constraint (su : StorageUnit F) (sn : snapshot) : ConData F :=
  Relational
    (LExpression_terms [(fone, ("storage_p_dispatch", [KName (su_name su); KSnap sn]))]) LE
    (LExpression_terms [(su_p_max_pu_fixed su, ("storage_p_nom", [KName (su_name su)]))]).

Definition storage_p_lower_constraint (su : StorageUnit F) (sn : snapshot) : ConData F :=
  Relational
    (LExpression_terms [(fone, ("storage_p_store", [KName (su_name su); KSnap sn]))]) LE
    (LExpression_terms [(fopp (su_p_min_pu_fixed su),
                         ("storage_p_nom", [KName (su_name su)]))]).

(** The dictionary of the empty balances, one per bus and snapshot. *)
Definition empty_balances (network : Network F) (snapshots : list snapshot)
  : dict (LExpression F) :=
  dict_of_list
    (map (fun p => ([KName (bus_name (fst p)); KSnap (snd p)], LExpression_empty))
         (list_prod (buses network) snapshots)).

Definition nodal_balance (network : Network F) (snapshots : list snapshot)
    (k : index) : LExpression F :=
  mkLExpression (balance_variables network snapshots k)
                (balance_constant network snapshots k).

(** The terms that [define_nodal_balance_constraints] appends to the
    balance at the key [k]: the flow of every passive branch that leaves
    the bus, with coefficient [-1], and of every one that arrives at it,
    with coefficient [1]. *)
Definition balance_branch_terms (k : index) (p : PassiveBranch F * snapshot)
  : list (F * var) :=
  (if at_key k (pb_bus0 (fst p)) (snd p)
   then [(fopp fone,
          ("passive_branch_p",
           [KName (pb_type (fst p)); KName (pb_name (fst p)); KSnap (snd p)]))]
   else [])
  ++ (if at_key k (pb_bus1 (fst p)) (snd p)
      then [(fone,
             ("passive_branch_p",
              [KName (pb_type (fst p)); KName (pb_name (fst p)); KSnap (snd p)]))]
      else []).

(** The nodal balance that the constraint [power_balance] sets to zero:
    the injections of the components at the bus, then the flows of the
    passive branches at the bus. *)
Definition power_balance_expression (network : Network F) (snapshots : list snapshot)
    (k : index) : LExpression F :=
  mkLExpression
    (balance_variables network snapshots k
     ++ flat_map (balance_branch_terms k) (list_prod (passive_branches network) snapshots))
    (balance_constant network snapshots k).

(** The nodal balances of the buses of a sub-network at a snapshot, without
    the passive branches. *)
Definition sub_network_balances (network : Network F) (snapshots : list snapshot)
    (sub : SubNetwork F) (sn : snapshot) : list (LExpression F) :=
  map (fun bus => nodal_balance network snapshots [KName bus; KSnap sn]) (sub_buses sub).

(** The PTDF matrix of a sub-network as the flow definitions use it: with
    the entries below the tolerance set to zero, where the sub-network has
    branches. *)
Definition ptdf_matrix (ptdf_tolerance : F) (sub : SubNetwork F) : Matrix F :=
  if (0 <? List.length (sub_branches sub))%nat
  then kill_small ptdf_tolerance (sub_PTDF sub)
  else sub_PTDF sub.

(** The flow of the branch at position [i] of a sub-network in terms of
    the nodal balances: [sum_j PTDF[i,j] * p_balance[bus_j] = p], over the
    buses whose PTDF entry is not zero. *)
Definition ptdf_flow_summands (network : Network F) (snapshots : list snapshot)
    (ptdf_tolerance : F) (sub : SubNetwork F) (i : nat) (sn : snapshot)
  : list (list (LExpression F)) :=
  map (fun jb =>
         let x := mat_entry (ptdf_matrix ptdf_tolerance sub) i (fst jb) in
         if negb (feqb x fzero)
         then [lexpr_scale x (nodal_balance network snapshots [KName (snd jb); KSnap sn])]
         else [])
      (enumerate (sub_buses_o sub)).

Definition ptdf_flow_constraint (network : Network F) (snapshots : list snapshot)
    (ptdf_tolerance : F) (sub : SubNetwork F) (i : nat) (b : PassiveBranch F)
    (sn : snapshot) : ConData F :=
  normalize
    (CObject
       (mkLConstraint
          (lexpr_sum (List.concat
                        (ptdf_flow_summands network snapshots ptdf_tolerance sub i sn)))
          EQ
          (LExpression_terms
             [(fone, ("passive_branch_p",
                      [KName (pb_type b); KName (pb_name b); KSnap sn]))]))).

Definition ptdf_entries (network : Network F) (snapshots : list snapshot)
    (ptdf_tolerance : F) (d : dict (cspec F)) : Prop :=
  forall k c, dget d k = Some c ->
    exists sub i b sn,
      In sub (sub_networks network) /\ nth_error (sub_branches sub) i = Some b
      /\ k = [KName (pb_type b); KName (pb_name b); KSnap sn]
      /\ normalize c = ptdf_flow_constraint network snapshots ptdf_tolerance sub i b sn.

(** Where the state of charge of a storage unit is set for a snapshot, a
    constraint fixes the variable to the set point. *)
Definition fixed_soc_items (network : Network F)
    (x : StorageUnit F * (nat * snapshot)) : list (index * cspec F) :=
  let k := [KName (su_name (fst x)); KSnap (snd (snd x))] in
  match storage_units_t_state_of_charge_set network (snd (snd x)) (su_name (fst x)) with
  | Some v => [(k, CTriple [(fone, ("state_of_charge", k))] EQ v)]
  | None => []
  end.

Definition state_of_charge_fixed_constraint (network : Network F) (su : StorageUnit F)
    (sn : snapshot) : option (ConData F) :=
  match storage_units_t_state_of_charge_set network sn (su_name su) with
  | Some v => Some (Linear [(fone, ("state_of_charge", [KName (su_name su); KSnap sn]))]
                           EQ v)
  | None => None
  end.

End Forms.

(** ** More example networks *)

Section MoreExamples.

Local Open Scope Z_scope.

(** A generator whose dispatch is neither variable nor flexible. *)
Definition inflexible_generator : Generator Z :=
  mkGenerator "g2" "A" "gas" "inflexible" false 200 0 500 0 1 10 3 1 1.

Definition inflexible_network : Network Z :=
  mkNetwork [mkBus "A" "AC"; mkBus "B" "AC"] [mkCarrier "gas" 1]
    [example_generator; inflexible_generator] [] [] [mkLoad "l1" "B" (-1)]
    [] [] []
    [0%nat; 1%nat] 0%nat
    (fun _ => 1)
    None
    (fun _ _ => 0) (fun _ _ => 1)
    (fun _ _ => 0)
    (fun _ _ => None)
    (fun _ _ => 100).

(** Two buses joined by an extendable link, a store at the second bus and
    a limit on the CO2 emissions. *)
Definition example_link : Link Z :=
  mkLink "k1" "A" "B" true 50 0 80 0 1 1 2 5.

Definition example_store : Store Z :=
  mkStore "t1" "B" false 20 0 0 0 1 0 false 4 1 0 1.

Definition linked_network : Network Z :=
  mkNetwork [mkBus "A" "AC"; mkBus "B" "gas"] [mkCarrier "gas" 1; mkCarrier "AC" 0]
    [example_generator] [] [example_store] [mkLoad "l1" "B" (-1)]
    [] [example_link] []
    [0%nat; 1%nat] 0%nat
    (fun sn => if Nat.eqb sn 0 then 1 else 2)
    (Some 1000)
    (fun _ _ => 0) (fun _ _ => 1)
    (fun _ _ => 0)
    (fun _ _ => None)
    (fun _ _ => 100).

Definition linked_state : NetState Z :=
  built (build_model linked_network [0%nat; 1%nat] "angles" 0).

(** The state of the build on the linked network at the point where the
    nodal balances are set up, and the one after them. *)
Definition linked_declared : NetState Z :=
  built (m <- define_generator_variables_constraints linked_network [0%nat; 1%nat]
                ConcreteModel ;;
         m <- define_storage_variables_constraints linked_network [0%nat; 1%nat] m ;;
         m <- define_store_variables_constraints linked_network [0%nat; 1%nat] m ;;
         m <- define_branch_extension_variables linked_network [0%nat; 1%nat] m ;;
         m <- define_link_flows linked_network [0%nat; 1%nat] m ;;
         Return (mkNetState m None)).

Definition linked_balanced : NetState Z :=
  built (define_nodal_balances linked_network [0%nat; 1%nat] linked_declared).

(** The results of a run on the linked network. *)
Definition linked_extracted : Results Z :=
  out_results (finished (example_run linked_network (Some [0%nat; 1%nat]) example_solver
                                     "angles")).

(** The example network with the state of charge of its storage unit set
    at the second snapshot. *)
Definition fixed_charge_network : Network Z :=
  mkNetwork [mkBus "A" "AC"; mkBus "B" "AC"] [mkCarrier "gas" 1]
    [example_generator] [example_storage_unit] [] [mkLoad "l1" "B" (-1)]
    [example_line] [] [example_sub_network]
    [0%nat; 1%nat] 0%nat
    (fun sn => if Nat.eqb sn 0 then 1 else 2)
    None
    (fun _ _ => 0) (fun _ _ => 1)
    (fun sn _ => if Nat.eqb sn 0 then 5 else 0)
    (fun sn _ => if Nat.eqb sn 1 then Some 2 else None)
    (fun _ _ => 100).

Definition fixed_charge_state : NetState Z :=
  built (build_model fixed_charge_network [0%nat; 1%nat] "angles" 0).

(** An AC bus linked to a DC bus. *)
Definition dc_network : Network Z :=
  mkNetwork [mkBus "A" "AC"; mkBus "B" "DC"] [mkCarrier "gas" 1; mkCarrier "AC" 0]
    [example_generator] [] [example_store] [mkLoad "l1" "B" (-1)]
    [] [example_link] []
    [0%nat; 1%nat] 0%nat
    (fun sn => if Nat.eqb sn 0 then 1 else 2)
    None
    (fun _ _ => 0) (fun _ _ => 1)
    (fun _ _ => 0)
    (fun _ _ => None)
    (fun _ _ => 100).

Definition dc_state : NetState Z :=
  built (build_model dc_network [0%nat; 1%nat] "angles" 0).

Definition dc_extracted : Results Z :=
  out_results (finished (example_run dc_network (Some [0%nat; 1%nat]) example_solver
                                     "angles")).

End MoreExamples.


(** * Properties *)

(** ** Keys and dictionaries *)

Lemma key_eqb_eq (a b : key) : key_eqb a b = true <-> a = b.
Proof.
  destruct a, b; simpl; split; intro H; try discriminate; try congruence.
  - apply String.eqb_eq in H. congruence.
  - inversion H. apply String.eqb_refl.
  - apply Nat.eqb_eq in H. congruence.
  - inversion H. apply Nat.eqb_refl.
  - apply Nat.eqb_eq in H. congruence.
  - inversion H. apply Nat.eqb_refl.
Qed.

Lemma index_eqb_eq (i j : index) : index_eqb i j = true <-> i = j.
Proof.
  revert j. induction i as [|a i IH]; intros [|b j]; simpl; split; intro H;
    try discriminate; try reflexivity.
  - apply andb_true_iff in H. destruct H as [H1 H2].
    apply key_eqb_eq in H1. apply IH in H2. congruence.
  - inversion H; subst. apply andb_true_iff. split.
    + now apply key_eqb_eq.
    + now apply IH.
Qed.

Lemma index_eqb_refl (i : index) : index_eqb i i = true.
Proof. now apply index_eqb_eq. Qed.

Lemma index_eqb_neq (i j : index) : i <> j -> index_eqb i j = false.
Proof.
  intro H. destruct (index_eqb i j) eqn:E; [|reflexivity].
  apply index_eqb_eq in E. contradiction.
Qed.

Lemma index_eq_dec (i j : index) : {i = j} + {i <> j}.
Proof.
  destruct (index_eqb i j) eqn:E.
  - left. now apply index_eqb_eq.
  - right. intro H. apply index_eqb_eq in H. congruence.
Qed.

Lemma mem_index_In (i : index) (l : list index) : mem_index i l = true <-> In i l.
Proof.
  unfold mem_index. rewrite existsb_exists. split.
  - intros [x [Hx E]]. apply index_eqb_eq in E. now subst.
  - intro H. exists i. split; [assumption | apply index_eqb_refl].
Qed.

Lemma dget_dset {V : Type} (d : dict V) (k : index) (v : V) (k' : index) :
  dget (dset d k v) k' = if index_eqb k' k then Some v else dget d k'.
Proof.
  induction d as [|[k0 v0] d IH]; simpl.
  - reflexivity.
  - destruct (index_eqb k k0) eqn:E; simpl.
    + apply index_eqb_eq in E. subst k0.
      destruct (index_eqb k' k); reflexivity.
    + rewrite IH. destruct (index_eqb k' k0) eqn:E0; [|reflexivity].
      apply index_eqb_eq in E0. subst k0.
      destruct (index_eqb k' k) eqn:E1; [|reflexivity].
      apply index_eqb_eq in E1. subst k'. rewrite index_eqb_refl in E. discriminate.
Qed.

Lemma dget_dset_same {V : Type} (d : dict V) (k : index) (v : V) :
  dget (dset d k v) k = Some v.
Proof. rewrite dget_dset, index_eqb_refl. reflexivity. Qed.

Lemma dget_dset_other {V : Type} (d : dict V) (k : index) (v : V) (k' : index) :
  k' <> k -> dget (dset d k v) k' = dget d k'.
Proof. intro H. rewrite dget_dset, index_eqb_neq by assumption. reflexivity. Qed.

Lemma dkeys_dset_In {V : Type} (d : dict V) (k : index) (v : V) (k' : index) :
  In k' (dkeys (dset d k v)) <-> k' = k \/ In k' (dkeys d).
Proof.
  unfold dkeys. induction d as [|[k0 v0] d IH]; simpl.
  - intuition.
  - destruct (index_eqb k k0) eqn:E; simpl.
    + apply index_eqb_eq in E. subst k0. intuition.
    + rewrite IH. intuition.
Qed.

Lemma dkeys_dset_NoDup {V : Type} (d : dict V) (k : index) (v : V) :
  NoDup (dkeys d) -> NoDup (dkeys (dset d k v)).
Proof.
  unfold dkeys. induction d as [|[k0 v0] d IH]; simpl; intro H.
  - constructor; [intros [] | constructor].
  - inversion H as [|? ? Hn Hd]; subst.
    destruct (index_eqb k k0) eqn:E; simpl.
    + apply index_eqb_eq in E. subst k0. now constructor.
    + constructor; [|now apply IH].
      intro Hin. apply (dkeys_dset_In d k v k0) in Hin. destruct Hin as [->|Hin].
      * rewrite index_eqb_refl in E. discriminate.
      * contradiction.
Qed.

Lemma dget_In {V : Type} (d : dict V) (k : index) (v : V) :
  dget d k = Some v -> In (k, v) d.
Proof.
  induction d as [|[k0 v0] d IH]; simpl; [discriminate|].
  destruct (index_eqb k k0) eqn:E.
  - apply index_eqb_eq in E. subst k0. intro H. inversion H. now left.
  - intro H. right. now apply IH.
Qed.

Lemma dget_None_notin {V : Type} (d : dict V) (k : index) :
  dget d k = None <-> ~ In k (dkeys d).
Proof.
  unfold dkeys. induction d as [|[k0 v0] d IH]; simpl.
  - intuition.
  - destruct (index_eqb k k0) eqn:E.
    + apply index_eqb_eq in E. subst k0. split; [discriminate | intro H; exfalso; auto].
    + rewrite IH. split.
      * intros H [H1|H1]; [|contradiction]. subst k0.
        rewrite index_eqb_refl in E. discriminate.
      * intros H H1. apply H. now right.
Qed.

Lemma dget_Some_key {V : Type} (d : dict V) (k : index) (v : V) :
  dget d k = Some v -> In k (dkeys d).
Proof.
  intro H. destruct (in_dec index_eq_dec k (dkeys d)) as [Hin|Hn]; [assumption|].
  apply dget_None_notin in Hn. congruence.
Qed.

Lemma In_dget_NoDup {V : Type} (d : dict V) (k : index) (v : V) :
  NoDup (dkeys d) -> In (k, v) d -> dget d k = Some v.
Proof.
  unfold dkeys. induction d as [|[k0 v0] d IH]; simpl; intros Hnd Hin; [contradiction|].
  inversion Hnd as [|? ? Hn Hd]; subst.
  destruct Hin as [Hin|Hin].
  - inversion Hin; subst. now rewrite index_eqb_refl.
  - destruct (index_eqb k k0) eqn:E.
    + apply index_eqb_eq in E. subst k0. exfalso. apply Hn.
      change k with (fst (k, v)). now apply in_map.
    + now apply IH.
Qed.

(** [d.update(items)] *)

Lemma dupdate_cons {V : Type} (d : dict V) (x : index * V) (items : list (index * V)) :
  dupdate d (x :: items) = dupdate (dset d (fst x) (snd x)) items.
Proof. reflexivity. Qed.

Lemma dget_dupdate_notin {V : Type} (items : list (index * V)) (d : dict V) (k : index) :
  ~ In k (map fst items) -> dget (dupdate d items) k = dget d k.
Proof.
  revert d. induction items as [|[k0 v0] items IH]; intros d Hn; [reflexivity|].
  rewrite dupdate_cons. simpl in *. rewrite IH by tauto.
  apply dget_dset_other. intro E. apply Hn. now left.
Qed.

(** The value at a key after an update is the value of the items at that
    key, when they agree on it. *)
Lemma dget_dupdate_functional {V : Type} (items : list (index * V)) (d : dict V)
    (k : index) (v : V) :
  In (k, v) items ->
  (forall v', In (k, v') items -> v' = v) ->
  dget (dupdate d items) k = Some v.
Proof.
  revert d. induction items as [|[k0 v0] items IH]; intros d Hin Hf; [contradiction|].
  rewrite dupdate_cons. simpl fst. simpl snd.
  destruct (in_dec index_eq_dec k (map fst items)) as [Hk|Hk].
  - apply in_map_iff in Hk. destruct Hk as [[k1 v1] [E Hk]]. simpl in E. subst k1.
    assert (v1 = v) by (apply Hf; now right). subst v1.
    apply IH; [assumption|]. intros v' Hv'. apply Hf. now right.
  - rewrite dget_dupdate_notin by assumption.
    destruct Hin as [Hin|Hin].
    + inversion Hin; subst. apply dget_dset_same.
    + exfalso. apply Hk. change k with (fst (k, v)). now apply in_map.
Qed.

Lemma dkeys_dupdate_In {V : Type} (items : list (index * V)) (d : dict V) (k : index) :
  In k (dkeys (dupdate d items)) <-> In k (dkeys d) \/ In k (map fst items).
Proof.
  revert d. induction items as [|[k0 v0] items IH]; intros d.
  - simpl. intuition.
  - rewrite dupdate_cons, IH. simpl. rewrite dkeys_dset_In. intuition.
Qed.

Lemma dkeys_dupdate_NoDup {V : Type} (items : list (index * V)) (d : dict V) :
  NoDup (dkeys d) -> NoDup (dkeys (dupdate d items)).
Proof.
  revert d. induction items as [|[k0 v0] items IH]; intros d H; [assumption|].
  rewrite dupdate_cons. apply IH. now apply dkeys_dset_NoDup.
Qed.

Lemma dkeys_dict_of_list_NoDup {V : Type} (items : list (index * V)) :
  NoDup (dkeys (dict_of_list items)).
Proof. apply dkeys_dupdate_NoDup. constructor. Qed.

Lemma dkeys_dict_of_list_In {V : Type} (items : list (index * V)) (k : index) :
  In k (dkeys (dict_of_list items)) <-> In k (map fst items).
Proof. unfold dict_of_list. rewrite dkeys_dupdate_In. simpl. intuition. Qed.

Lemma dict_of_list_functional {V : Type} (items : list (index * V)) (k : index) (v : V) :
  In (k, v) items ->
  (forall v', In (k, v') items -> v' = v) ->
  dget (dict_of_list items) k = Some v.
Proof. apply dget_dupdate_functional. Qed.

(** ** The result monad *)

Lemma bind_inv {A B : Type} (c : result A) (k : A -> result B) (r : B) :
  bind c k = Return r -> exists a, c = Return a /\ k a = Return r.
Proof. destruct c as [e|a]; simpl; [discriminate|]. intro H. now exists a. Qed.

Lemma mapM_inv {A B : Type} (f : A -> result B) (l : list A) (r : list B) :
  mapM f l = Return r -> Forall2 (fun x y => f x = Return y) l r.
Proof.
  revert r. induction l as [|x l IH]; simpl; intros r H.
  - inversion H. constructor.
  - apply bind_inv in H. destruct H as [y [Hy H]].
    apply bind_inv in H. destruct H as [ys [Hys H]].
    inversion H; subst. constructor; [assumption | now apply IH].
Qed.

Lemma mapM_ext {A B : Type} (f g : A -> result B) (l : list A) :
  (forall x, In x l -> f x = g x) -> mapM f l = mapM g l.
Proof.
  induction l as [|x l IH]; simpl; intro H; [reflexivity|].
  rewrite H by now left. rewrite IH; [reflexivity|]. intros y Hy. apply H. now right.
Qed.

(** A successful [mapM] of a function whose results are determined is a
    [map]. *)
Lemma mapM_pure {A B : Type} (f : A -> result B) (g : A -> B) (l : list A) (r : list B) :
  (forall x y, In x l -> f x = Return y -> y = g x) ->
  mapM f l = Return r -> r = map g l.
Proof.
  revert r. induction l as [|x l IH]; simpl; intros r Hf H.
  - now inversion H.
  - apply bind_inv in H. destruct H as [y [Hy H]].
    apply bind_inv in H. destruct H as [ys [Hys H]].
    inversion H; subst. f_equal.
    + apply Hf; [now left | assumption].
    + apply IH; [|assumption]. intros x' y' Hx'. apply Hf. now right.
Qed.

Lemma mapM_In {A B : Type} (f : A -> result B) (l : list A) (r : list B) (x : A) :
  mapM f l = Return r -> In x l -> exists y, f x = Return y /\ In y r.
Proof.
  intros H Hin. apply mapM_inv in H. induction H as [|a b l r Hab _ IH]; [contradiction|].
  destruct Hin as [->|Hin].
  - exists b. split; [assumption | now left].
  - destruct (IH Hin) as [y [Hy Hr]]. exists y. split; [assumption | now right].
Qed.

Lemma mapM_In_result {A B : Type} (f : A -> result B) (l : list A) (r : list B) (y : B) :
  mapM f l = Return r -> In y r -> exists x, In x l /\ f x = Return y.
Proof.
  intros H Hin. apply mapM_inv in H. induction H as [|a b l r Hab _ IH]; [contradiction|].
  destruct Hin as [->|Hin].
  - exists a. split; [now left | assumption].
  - destruct (IH Hin) as [x [Hx Hy]]. exists x. split; [now right | assumption].
Qed.

(** An indexed family built at every index of an index set. *)
Lemma family_keys {V : Type} (g : index -> result V) (idx : list index) (fam : dict V) :
  mapM (fun i => c <- g i ;; Return (i, c)) idx = Return fam -> dkeys fam = idx.
Proof.
  revert fam. induction idx as [|i idx IH]; simpl; intros fam H.
  - now inversion H.
  - apply bind_inv in H. destruct H as [y [Hy H]].
    apply bind_inv in H. destruct H as [ys [Hys H]].
    apply bind_inv in Hy. destruct Hy as [c [Hc Hy]].
    inversion H; inversion Hy; subst. simpl. f_equal. now apply IH.
Qed.

Lemma family_dget {V : Type} (g : index -> result V) (idx : list index) (fam : dict V)
    (i : index) :
  mapM (fun i => c <- g i ;; Return (i, c)) idx = Return fam ->
  In i idx ->
  exists c, g i = Return c /\ dget fam i = Some c.
Proof.
  revert fam. induction idx as [|j idx IH]; simpl; intros fam H Hin; [contradiction|].
  apply bind_inv in H. destruct H as [y [Hy H]].
  apply bind_inv in H. destruct H as [ys [Hys H]].
  apply bind_inv in Hy. destruct Hy as [c [Hc Hy]].
  inversion H; inversion Hy; subst. simpl.
  destruct (index_eqb i j) eqn:E.
  - apply index_eqb_eq in E. subst j. now exists c.
  - destruct Hin as [->|Hin]; [rewrite index_eqb_refl in E; discriminate|].
    now apply IH.
Qed.

Lemma foldM_ext {A S : Type} (f g : S -> A -> result S) (l : list A) (s : S) :
  (forall s x, In x l -> f s x = g s x) -> foldM f l s = foldM g l s.
Proof.
  revert s. induction l as [|x l IH]; simpl; intros s H; [reflexivity|].
  rewrite H by now left. destruct (g s x) as [e|s']; simpl; [reflexivity|].
  apply IH. intros s0 y Hy. apply H. now right.
Qed.

Lemma foldM_invariant {A S : Type} (P : S -> Prop) (f : S -> A -> result S)
    (l : list A) (s s' : S) :
  (forall s x s', In x l -> P s -> f s x = Return s' -> P s') ->
  P s -> foldM f l s = Return s' -> P s'.
Proof.
  revert s. induction l as [|x l IH]; simpl; intros s Hf Hs H.
  - inversion H. now subst.
  - apply bind_inv in H. destruct H as [s1 [H1 H]].
    apply IH with s1; [| |assumption].
    + intros s0 y s0' Hy. apply Hf. now right.
    + apply Hf with s x; auto.
Qed.

Lemma foldM_app {A S : Type} (f : S -> A -> result S) (l1 l2 : list A) (s : S) :
  foldM f (l1 ++ l2) s = (s' <- foldM f l1 s ;; foldM f l2 s').
Proof.
  revert s. induction l1 as [|x l1 IH]; simpl; intros s; [reflexivity|].
  destruct (f s x) as [e|s1]; simpl; [reflexivity | apply IH].
Qed.

(** Nested loops as one loop over the pairs. *)
Lemma foldM_nested {A B S : Type} (f : S -> A -> B -> result S) (g : A -> list B)
    (l : list A) (s : S) :
  foldM (fun s x => foldM (fun s y => f s x y) (g x) s) l s
  = foldM (fun s p => f s (fst p) (snd p))
          (flat_map (fun x => map (fun y => (x, y)) (g x)) l) s.
Proof.
  revert s. induction l as [|x l IH]; simpl; intros s; [reflexivity|].
  rewrite foldM_app.
  assert (E : forall s, foldM (fun s y => f s x y) (g x) s
             = foldM (fun s p => f s (fst p) (snd p)) (map (fun y => (x, y)) (g x)) s).
  { intro s0. generalize (g x). intro l0. revert s0.
    induction l0 as [|y l0 IH0]; simpl; intros s0; [reflexivity|].
    destruct (f s0 x y); simpl; [reflexivity | apply IH0]. }
  rewrite E. destruct (foldM _ (map _ (g x)) s); simpl; [reflexivity | apply IH].
Qed.

(** A loop that stores at [key x] a value computed from [x] alone: the
    dictionary holds at every key the value of the items of that key, when
    they agree on it. *)
Lemma foldM_dset_get {A V : Type} (key : A -> index) (val : A -> result V)
    (l : list A) (d d' : dict V) (x : A) :
  foldM (fun d x => v <- val x ;; Return (dset d (key x) v)) l d = Return d' ->
  In x l ->
  (forall y, In y l -> key y = key x -> val y = val x) ->
  exists v, val x = Return v /\ dget d' (key x) = Some v.
Proof.
  revert d x. induction l as [|a l IH]; simpl; intros d x H Hin Hf; [contradiction|].
  apply bind_inv in H. destruct H as [d1 [H1 H]].
  apply bind_inv in H1. destruct H1 as [v [Hv H1]]. inversion H1; subst d1.
  destruct (in_dec index_eq_dec (key x) (map key l)) as [Hk|Hk].
  - apply in_map_iff in Hk. destruct Hk as [y [Ey Hy]].
    destruct (IH _ y H Hy) as [w [Hw Hg]].
    + intros z Hz Ez. rewrite (Hf z) by (auto; congruence).
      symmetry. apply Hf; auto.
    + exists w. rewrite <- Ey. split; [|assumption].
      rewrite <- Hw. symmetry. apply Hf; auto.
  - destruct Hin as [->|Hin]; [|exfalso; apply Hk; now apply in_map].
    exists v. split; [assumption|].
    assert (G : forall l d d', foldM (fun d x => v <- val x ;; Return (dset d (key x) v)) l d
                               = Return d' ->
                ~ In (key x) (map key l) -> dget d' (key x) = dget d (key x)).
    { clear. induction l as [|a l IH]; simpl; intros d d' H Hn.
      - now inversion H.
      - apply bind_inv in H. destruct H as [d1 [H1 H]].
        apply bind_inv in H1. destruct H1 as [v [Hv H1]]. inversion H1; subst d1.
        rewrite (IH _ _ H) by tauto. apply dget_dset_other. intro E. apply Hn. now left. }
    rewrite (G _ _ _ H Hk). apply dget_dset_same.
Qed.

Lemma foldM_dset_keys {A V : Type} (key : A -> index) (val : A -> result V)
    (l : list A) (d d' : dict V) (k : index) :
  foldM (fun d x => v <- val x ;; Return (dset d (key x) v)) l d = Return d' ->
  In k (dkeys d') <-> In k (dkeys d) \/ In k (map key l).
Proof.
  revert d. induction l as [|a l IH]; simpl; intros d H.
  - inversion H. intuition.
  - apply bind_inv in H. destruct H as [d1 [H1 H]].
    apply bind_inv in H1. destruct H1 as [v [Hv H1]]. inversion H1; subst d1.
    rewrite (IH _ H), dkeys_dset_In. intuition.
Qed.

(** ** Comprehensions *)

Lemma for2_pure {A B : Type} (l : list A) (snapshots : list snapshot)
    (f : A -> snapshot -> result B) (g : A -> snapshot -> B) (r : list B) :
  (forall x sn y, In x l -> In sn snapshots -> f x sn = Return y -> y = g x sn) ->
  for2 l snapshots f = Return r ->
  r = map (fun p => g (fst p) (snd p)) (list_prod l snapshots).
Proof.
  intros Hf H. unfold for2 in H.
  apply (mapM_pure (fun p => f (fst p) (snd p)) (fun p => g (fst p) (snd p))
           (list_prod l snapshots)); [|assumption].
  intros [x sn] y Hin. apply in_prod_iff in Hin. destruct Hin. simpl. now apply Hf.
Qed.

Lemma for2_In {A B : Type} (l : list A) (snapshots : list snapshot)
    (f : A -> snapshot -> result B) (r : list B) (x : A) (sn : snapshot) :
  for2 l snapshots f = Return r -> In x l -> In sn snapshots ->
  exists y, f x sn = Return y /\ In y r.
Proof.
  intros H Hx Hsn. unfold for2 in H.
  apply (mapM_In _ _ (x, sn) H). now apply in_prod.
Qed.

Lemma in_cross (l1 l2 : list index) (i j : index) :
  In i l1 -> In j l2 -> In (i ++ j) (cross l1 l2).
Proof.
  intros H1 H2. unfold cross. apply in_flat_map. exists i. split; [assumption|].
  apply in_map_iff. now exists j.
Qed.

Lemma in_cross_inv (l1 l2 : list index) (k : index) :
  In k (cross l1 l2) -> exists i j, In i l1 /\ In j l2 /\ k = i ++ j.
Proof.
  unfold cross. intro H. apply in_flat_map in H. destruct H as [i [Hi H]].
  apply in_map_iff in H. destruct H as [j [E Hj]]. exists i, j. auto.
Qed.

Lemma in_snap_index (snapshots : list snapshot) (sn : snapshot) :
  In sn snapshots -> In [KSnap sn] (snap_index snapshots).
Proof. intro H. unfold snap_index. apply in_map_iff. now exists sn. Qed.

Lemma in_name_index {A : Type} (name : A -> string) (rows : list A) (x : A) :
  In x rows -> In [KName (name x)] (name_index name rows).
Proof. intro H. unfold name_index. apply in_map_iff. now exists x. Qed.

Lemma assoc_app_notin {V : Type} (name : string) (l1 l2 : list (string * V)) :
  ~ In name (map fst l1) -> assoc name (l1 ++ l2) = assoc name l2.
Proof.
  induction l1 as [|[n v] l1 IH]; simpl; intro H; [reflexivity|].
  destruct (String.eqb name n) eqn:E.
  - apply String.eqb_eq in E. subst. exfalso. apply H. now left.
  - apply IH. tauto.
Qed.

Lemma assoc_None_notin {V : Type} (name : string) (l : list (string * V)) :
  ~ In name (map fst l) -> assoc name l = None.
Proof.
  induction l as [|[n v] l IH]; simpl; intro H; [reflexivity|].
  destruct (String.eqb name n) eqn:E.
  - apply String.eqb_eq in E. subst. exfalso. apply H. now left.
  - apply IH. tauto.
Qed.


(** ** What each declarator adds to the model *)

Section Declarators.

Context {F : Type} {SF : Scalar F}.

Lemma l_constraint_inv (m : Model F) (name : string) (constraints : dict (cspec F))
    (idx : list index) (m' : Model F) :
  l_constraint m name constraints idx = Return m' ->
  exists fam,
    m' = add_con m name fam
    /\ mapM (fun i => c <- dlookup constraints i ;; Return (i, normalize c)) idx = Return fam.
Proof.
  unfold l_constraint. intro H. apply bind_inv in H. destruct H as [fam [Hf H]].
  inversion H. now exists fam.
Qed.

Lemma l_constraint_keys (constraints : dict (cspec F)) (idx : list index) (fam : dict (ConData F)) :
  mapM (fun i => c <- dlookup constraints i ;; Return (i, normalize c)) idx = Return fam ->
  dkeys fam = idx.
Proof.
  revert fam. induction idx as [|i idx IH]; simpl; intros fam H.
  - now inversion H.
  - apply bind_inv in H. destruct H as [y [Hy H]].
    apply bind_inv in H. destruct H as [ys [Hys H]].
    apply bind_inv in Hy. destruct Hy as [c [Hc Hy]].
    inversion H; inversion Hy; subst. simpl. f_equal. now apply IH.
Qed.

Lemma l_constraint_dget (constraints : dict (cspec F)) (idx : list index) (fam : dict (ConData F))
    (i : index) :
  mapM (fun i => c <- dlookup constraints i ;; Return (i, normalize c)) idx = Return fam ->
  In i idx ->
  exists c, dget constraints i = Some c /\ dget fam i = Some (normalize c).
Proof.
  revert fam. induction idx as [|j idx IH]; simpl; intros fam H Hin; [contradiction|].
  apply bind_inv in H. destruct H as [y [Hy H]].
  apply bind_inv in H. destruct H as [ys [Hys H]].
  apply bind_inv in Hy. destruct Hy as [c [Hc Hy]].
  inversion H; inversion Hy; subst. simpl.
  destruct (index_eqb i j) eqn:E.
  - apply index_eqb_eq in E. subst j. exists c. split; [|reflexivity].
    unfold dlookup in Hc. destruct (dget constraints i); [now inversion Hc | discriminate].
  - destruct Hin as [->|Hin]; [rewrite index_eqb_refl in E; discriminate|].
    now apply IH.
Qed.

Lemma Var_keys (idx : list index) (dom : domain)
    (bounds : index -> result (option F * option F)) (fam : dict (VarData F)) :
  Var idx dom bounds = Return fam -> dkeys fam = idx.
Proof.
  unfold Var. revert fam. induction idx as [|i idx IH]; simpl; intros fam H.
  - now inversion H.
  - apply bind_inv in H. destruct H as [y [Hy H]].
    apply bind_inv in H. destruct H as [ys [Hys H]].
    apply bind_inv in Hy. destruct Hy as [c [Hc Hy]].
    inversion H; inversion Hy; subst. simpl. f_equal. now apply IH.
Qed.

Lemma getvar_inv (m : Model F) (name : string) (i : index) (v : var) :
  getvar m name i = Return v ->
  v = (name, i) /\ exists fam, assoc name (m_vars m) = Some fam /\ In i (dkeys fam).
Proof.
  unfold getvar. destruct (assoc name (m_vars m)) as [fam|]; [|discriminate].
  destruct (mem_index i (dkeys fam)) eqn:E; [|discriminate].
  intro H. inversion H. split; [reflexivity|]. exists fam. split; [reflexivity|].
  now apply mem_index_In.
Qed.

(** *** Indices within the solve window *)

Lemma snap_ok_app (snapshots : list snapshot) (i j : index) :
  snap_ok snapshots i -> snap_ok snapshots j -> snap_ok snapshots (i ++ j).
Proof. intros Hi Hj t Ht. apply in_app_or in Ht. destruct Ht; auto. Qed.

Lemma idx_ok_cross (snapshots : list snapshot) (l1 l2 : list index) :
  idx_ok snapshots l1 -> idx_ok snapshots l2 -> idx_ok snapshots (cross l1 l2).
Proof.
  unfold idx_ok. rewrite !Forall_forall. intros H1 H2 k Hk.
  apply in_cross_inv in Hk. destruct Hk as [i [j [Hi [Hj ->]]]].
  apply snap_ok_app; auto.
Qed.

Lemma idx_ok_snap_index (snapshots : list snapshot) :
  idx_ok snapshots (snap_index snapshots).
Proof.
  unfold idx_ok, snap_index. rewrite Forall_forall. intros k Hk.
  apply in_map_iff in Hk. destruct Hk as [sn [<- Hsn]].
  intros t [Ht|[]]. now inversion Ht; subst.
Qed.

Lemma idx_ok_name_index {A : Type} (snapshots : list snapshot) (name : A -> string)
    (rows : list A) :
  idx_ok snapshots (name_index name rows).
Proof.
  unfold idx_ok, name_index. rewrite Forall_forall. intros k Hk.
  apply in_map_iff in Hk. destruct Hk as [x [<- Hx]].
  intros t [Ht|[]]. discriminate.
Qed.

Lemma idx_ok_branch_index (snapshots : list snapshot) (rows : list (PassiveBranch F)) :
  idx_ok snapshots (branch_index rows).
Proof.
  unfold idx_ok, branch_index. rewrite Forall_forall. intros k Hk.
  apply in_map_iff in Hk. destruct Hk as [x [<- Hx]].
  intros t [Ht|[Ht|[]]]; discriminate.
Qed.

Lemma idx_ok_map_keys {V : Type} (snapshots : list snapshot) (idx : list index)
    (f : index -> V) :
  idx_ok snapshots idx -> idx_ok snapshots (dkeys (map (fun i => (i, f i)) idx)).
Proof.
  unfold dkeys. rewrite map_map. simpl. now rewrite map_id.
Qed.

(** The keys of a component built by a rule over rows and snapshots. *)
Lemma for2_keys_ok {A V : Type} (snapshots : list snapshot) (l : list A)
    (f : A -> snapshot -> result (index * V)) (r : dict V) :
  (forall x sn y, In sn snapshots -> f x sn = Return y -> snap_ok snapshots (fst y)) ->
  for2 l snapshots f = Return r ->
  idx_ok snapshots (dkeys r).
Proof.
  intros Hf H. unfold idx_ok, dkeys. rewrite Forall_forall. intros k Hk.
  apply in_map_iff in Hk. destruct Hk as [y [<- Hy]].
  unfold for2 in H. destruct (mapM_In_result _ _ _ H Hy) as [[x sn] [Hin Hx]].
  apply in_prod_iff in Hin. destruct Hin as [_ Hsn]. simpl in Hx. eapply Hf; eauto.
Qed.

Lemma mapM_keys_ok {A V : Type} (snapshots : list snapshot) (l : list A)
    (f : A -> result (index * V)) (r : dict V) :
  (forall x y, In x l -> f x = Return y -> snap_ok snapshots (fst y)) ->
  mapM f l = Return r ->
  idx_ok snapshots (dkeys r).
Proof.
  intros Hf H. unfold idx_ok, dkeys. rewrite Forall_forall. intros k Hk.
  apply in_map_iff in Hk. destruct Hk as [y [<- Hy]].
  destruct (mapM_In_result _ _ _ H Hy) as [x [Hin Hx]]. eapply Hf; eauto.
Qed.

Lemma snap_ok_name_snap (snapshots : list snapshot) (n : string) (sn : snapshot) :
  In sn snapshots -> snap_ok snapshots [KName n; KSnap sn].
Proof. intros H t [Ht|[Ht|[]]]; [discriminate|]. now inversion Ht; subst. Qed.

Lemma snap_ok_branch_snap (snapshots : list snapshot) (n n' : string) (sn : snapshot) :
  In sn snapshots -> snap_ok snapshots [KName n; KName n'; KSnap sn].
Proof. intros H t [Ht|[Ht|[Ht|[]]]]; try discriminate. now inversion Ht; subst. Qed.

Lemma snap_ok_name (snapshots : list snapshot) (n : string) :
  snap_ok snapshots [KName n].
Proof. intros t [Ht|[]]. discriminate. Qed.

Lemma extends_refl (snapshots : list snapshot) (m : Model F) :
  extends snapshots m m [] [].
Proof. exists [], []. repeat split; constructor. Qed.

Lemma extends_trans (snapshots : list snapshot) (m1 m2 m3 : Model F)
    (vs1 cs1 vs2 cs2 : list string) :
  extends snapshots m1 m2 vs1 cs1 -> extends snapshots m2 m3 vs2 cs2 ->
  extends snapshots m1 m3 (vs2 ++ vs1) (cs2 ++ cs1).
Proof.
  intros [v1 [c1 [Hv1 [Nv1 [Hc1 [Nc1 [Fv1 [Fc1 O1]]]]]]]]
         [v2 [c2 [Hv2 [Nv2 [Hc2 [Nc2 [Fv2 [Fc2 O2]]]]]]]].
  exists (v2 ++ v1), (c2 ++ c1). repeat split.
  - rewrite Hv2, Hv1. apply app_assoc.
  - rewrite map_app. congruence.
  - rewrite Hc2, Hc1. apply app_assoc.
  - rewrite map_app. congruence.
  - apply Forall_app. auto.
  - apply Forall_app. auto.
  - congruence.
Qed.

End Declarators.

(** Inversion of a successful run of monadic code. *)
Ltac binv :=
  repeat (cbv beta zeta in *;
          match goal with
          | H : bind _ _ = Return _ |- _ =>
              let a := fresh "a" in
              let Ha := fresh "Ha" in
              apply bind_inv in H; destruct H as [a [Ha H]]
          | H : l_constraint _ _ _ _ = Return _ |- _ =>
              let fam := fresh "fam" in
              let Hf := fresh "Hfam" in
              apply l_constraint_inv in H; destruct H as [fam [H Hf]]
          | H : Return _ = Return _ |- _ => inversion H; clear H
          end).


Ltac solve_idx_ok :=
  repeat first
    [ assumption
    | apply idx_ok_cross
    | apply idx_ok_snap_index
    | apply idx_ok_name_index
    | apply idx_ok_branch_index ].

(** Closes the side condition of [for2_keys_ok] and [mapM_keys_ok]: the key
    a rule returns. *)
Ltac solve_rule_key :=
  intros; binv; subst; simpl;
  first [ now apply snap_ok_name_snap
        | now apply snap_ok_branch_snap
        | apply snap_ok_name ].

Ltac solve_fam_ok :=
  match goal with
  | H : Var _ _ _ = Return ?fam |- idx_ok _ (dkeys ?fam) =>
      rewrite (Var_keys _ _ _ H); solve_idx_ok
  | H : mapM (fun i => c <- dlookup _ i ;; Return (i, normalize c)) _ = Return ?fam
    |- idx_ok _ (dkeys ?fam) =>
      rewrite (l_constraint_keys _ _ H); solve_idx_ok
  | H : for2 _ _ _ = Return ?fam |- idx_ok _ (dkeys ?fam) =>
      eapply for2_keys_ok; [| exact H]; solve_rule_key
  | |- idx_ok _ (dkeys (map (fun i => (i, _)) _)) =>
      apply idx_ok_map_keys; solve_idx_ok
  end.

Section Frames.

Context {F : Type} {SF : Scalar F}.

Lemma idx_ok_rows {A V : Type} (snapshots : list snapshot) (rows : list A)
    (name : A -> string) (f : A -> V) :
  idx_ok snapshots (dkeys (map (fun x => ([KName (name x)], f x)) rows)).
Proof.
  unfold idx_ok, dkeys. rewrite map_map. simpl. rewrite Forall_forall. intros k Hk.
  apply in_map_iff in Hk. destruct Hk as [x [<- _]]. apply snap_ok_name.
Qed.

Lemma define_generator_variables_constraints_extends (network : Network F)
    (snapshots : list snapshot) (m m' : Model F) :
  define_generator_variables_constraints network snapshots m = Return m' ->
  extends snapshots m m' ["generator_p_nom"; "generator_p"]
          ["generator_p_upper"; "generator_p_lower"].
Proof.
  unfold define_generator_variables_constraints. intro H. binv. subst.
  eexists [(_, _); (_, _)], [(_, _); (_, _)]. simpl.
  repeat split; try reflexivity; repeat constructor; simpl;
    try solve_fam_ok; try apply idx_ok_rows.
Qed.

Lemma in_enumerate {A : Type} (l : list A) (i : nat) (x : A) :
  In (i, x) (enumerate l) <-> nth_error l i = Some x.
Proof.
  unfold enumerate.
  assert (G : forall (l : list A) (k i : nat) (x : A),
             In (i, x) (combine (seq k (List.length l)) l)
             <-> (k <= i /\ nth_error l (i - k) = Some x)).
  { clear. induction l as [|a l IH]; simpl; intros k i x.
    - split; [intros [] | intros [_ H]]. destruct (i - k); discriminate.
    - rewrite IH. split.
      + intros [H|[H1 H2]].
        * inversion H; subst. split; [lia|]. now rewrite Nat.sub_diag.
        * split; [lia|]. replace (i - k) with (S (i - S k)) by lia. assumption.
      + intros [H1 H2]. destruct (Nat.eq_dec i k) as [->|Hne].
        * rewrite Nat.sub_diag in H2. simpl in H2. inversion H2. now left.
        * right. split; [lia|]. replace (i - k) with (S (i - S k)) in H2 by lia.
          assumption. }
  rewrite G. rewrite Nat.sub_0_r. split; [tauto | split; [lia | assumption]].
Qed.

Lemma in_enumerate_In {A : Type} (l : list A) (i : nat) (x : A) :
  In (i, x) (enumerate l) -> In x l.
Proof. intro H. apply in_enumerate in H. eapply nth_error_In; eauto. Qed.

Lemma in_prod_enumerate {A : Type} (rows : list A) (snapshots : list snapshot)
    (x : A * (nat * snapshot)) :
  In x (list_prod rows (enumerate snapshots)) -> In (snd (snd x)) snapshots.
Proof.
  destruct x as [a [i sn]]. intro H. apply in_prod_iff in H. destruct H as [_ H].
  simpl. eapply in_enumerate_In; eauto.
Qed.

Lemma idx_ok_spill_index (network : Network F) (snapshots : list snapshot) :
  idx_ok snapshots (spill_index network snapshots).
Proof.
  unfold idx_ok, spill_index, spill_bounds. cbv zeta.
  rewrite Forall_forall. intros k Hk.
  apply (proj1 (dkeys_dict_of_list_In _ _)) in Hk. rewrite map_map in Hk. simpl in Hk.
  apply in_map_iff in Hk. destruct Hk as [[su sn] [<- Hin]].
  apply filter_In in Hin. destruct Hin as [Hin _].
  apply in_prod_iff in Hin. destruct Hin as [_ Hsn].
  now apply snap_ok_name_snap.
Qed.

Lemma idx_ok_dset {V : Type} (snapshots : list snapshot) (d : dict V) (k : index) (v : V) :
  idx_ok snapshots (dkeys d) -> snap_ok snapshots k ->
  idx_ok snapshots (dkeys (dset d k v)).
Proof.
  unfold idx_ok. rewrite !Forall_forall. intros Hd Hk i Hi.
  apply dkeys_dset_In in Hi. destruct Hi as [->|Hi]; auto.
Qed.

Lemma soc_step_fixed_keys (network : Network F) (snapshots : list snapshot) (m : Model F)
    (l : list (StorageUnit F * (nat * snapshot))) (s s' : soc_state F) :
  (forall x, In x l -> In (snd (snd x)) snapshots) ->
  idx_ok snapshots (dkeys (fixed_soc s)) ->
  foldM (soc_step network snapshots m) l s = Return s' ->
  idx_ok snapshots (dkeys (fixed_soc s')).
Proof.
  intros Hl Hs H.
  eapply (@foldM_invariant _ _ (fun s => idx_ok snapshots (dkeys (fixed_soc s))));
    [| exact Hs | exact H].
  clear H Hs s s'. intros s x s' Hx Hs H. unfold soc_step in H.
  destruct (storage_units_t_state_of_charge_set network (snd (snd x)) (su_name (fst x)));
    binv; subst; simpl; [|assumption].
  apply idx_ok_dset; [assumption|]. apply snap_ok_name_snap. now apply Hl.
Qed.

Lemma define_storage_variables_constraints_extends (network : Network F)
    (snapshots : list snapshot) (m m' : Model F) :
  define_storage_variables_constraints network snapshots m = Return m' ->
  extends snapshots m m'
    ["state_of_charge"; "storage_p_nom"; "storage_p_spill"; "storage_p_store";
     "storage_p_dispatch"]
    ["state_of_charge_constraint_fixed"; "state_of_charge_constraint";
     "state_of_charge_upper"; "storage_p_lower"; "storage_p_upper"].
Proof.
  unfold define_storage_variables_constraints. intro H. binv. subst.
  match goal with
  | Hs : foldM (soc_step _ _ _) _ _ = Return ?s |- _ =>
      assert (Hfix : idx_ok snapshots (dkeys (fixed_soc s)));
        [ eapply soc_step_fixed_keys; [| | exact Hs];
          [ apply in_prod_enumerate | constructor ] |]
  end.
  eexists [(_, _); (_, _); (_, _); (_, _); (_, _)], [(_, _); (_, _); (_, _); (_, _); (_, _)].
  simpl.
  repeat split; try reflexivity; repeat constructor; simpl;
    try solve_fam_ok; try apply idx_ok_rows; try apply idx_ok_spill_index.
Qed.

Ltac frame_finish :=
  simpl; repeat split; try reflexivity; repeat constructor; simpl;
  try solve_fam_ok; try apply idx_ok_rows; try apply idx_ok_spill_index.

Lemma define_store_variables_constraints_extends (network : Network F)
    (snapshots : list snapshot) (m m' : Model F) :
  define_store_variables_constraints network snapshots m = Return m' ->
  extends snapshots m m' ["store_e_nom"; "store_e"; "store_p"]
          ["store_constraint"; "store_e_lower"; "store_e_upper"].
Proof.
  unfold define_store_variables_constraints. intro H. binv. subst.
  eexists [(_, _); (_, _); (_, _)], [(_, _); (_, _); (_, _)]. frame_finish.
Qed.

Lemma define_branch_extension_variables_extends (network : Network F)
    (snapshots : list snapshot) (m m' : Model F) :
  define_branch_extension_variables network snapshots m = Return m' ->
  extends snapshots m m' ["link_p_nom"; "passive_branch_s_nom"] [].
Proof.
  unfold define_branch_extension_variables. intro H. binv. subst.
  eexists [(_, _); (_, _)], []. frame_finish.
Qed.

Lemma define_link_flows_extends (network : Network F)
    (snapshots : list snapshot) (m m' : Model F) :
  define_link_flows network snapshots m = Return m' ->
  extends snapshots m m' ["link_p"] ["link_p_lower"; "link_p_upper"].
Proof.
  unfold define_link_flows. intro H. binv. subst.
  eexists [(_, _)], [(_, _); (_, _)]. frame_finish.
Qed.

Lemma define_nodal_balances_model (network : Network F)
    (snapshots : list snapshot) (s s' : NetState F) :
  define_nodal_balances network snapshots s = Return s' ->
  model s' = model s /\ exists balance, _p_balance s' = Some balance.
Proof.
  unfold define_nodal_balances. intro H. binv. subst. simpl. eauto.
Qed.

Lemma define_passive_branch_flows_with_angles_extends (network : Network F)
    (snapshots : list snapshot) (s s' : NetState F) :
  define_passive_branch_flows_with_angles network snapshots s = Return s' ->
  extends snapshots (model s) (model s') ["passive_branch_p"; "voltage_angles"]
          ["passive_branch_p_def"; "slack_angle"]
  /\ _p_balance s' = _p_balance s.
Proof.
  unfold define_passive_branch_flows_with_angles. intro H. binv. subst.
  split; [|reflexivity].
  eexists [(_, _); (_, _)], [(_, _); (_, _)]. frame_finish.
Qed.

Lemma define_passive_branch_flows_with_PTDF_extends (network : Network F)
    (snapshots : list snapshot) (tol : F) (s s' : NetState F) :
  define_passive_branch_flows_with_PTDF network snapshots tol s = Return s' ->
  extends snapshots (model s) (model s') ["passive_branch_p"] ["passive_branch_p_def"]
  /\ _p_balance s' = _p_balance s.
Proof.
  unfold define_passive_branch_flows_with_PTDF. intro H. binv. subst.
  split; [|reflexivity].
  eexists [(_, _)], [(_, _)]. frame_finish.
Qed.

Lemma idx_ok_cycle_index (snapshots : list snapshot) (subs : list (SubNetwork F)) :
  idx_ok snapshots
    (flat_map (fun sub_network =>
                 map (fun i => [KName (sub_name sub_network); KNum i])
                     (seq 0 (mat_ncols (sub_C sub_network)))) subs).
Proof.
  unfold idx_ok. rewrite Forall_forall. intros k Hk.
  apply in_flat_map in Hk. destruct Hk as [sub [_ Hk]].
  apply in_map_iff in Hk. destruct Hk as [j [<- _]].
  intros t [Ht|[Ht|[]]]; discriminate.
Qed.

Lemma define_passive_branch_flows_with_cycles_extends (network : Network F)
    (snapshots : list snapshot) (s s' : NetState F) :
  define_passive_branch_flows_with_cycles network snapshots s = Return s' ->
  extends snapshots (model s) (model s') ["passive_branch_p"; "cycles"]
          ["cycle_constraints"; "passive_branch_p_def"]
  /\ _p_balance s' = _p_balance s.
Proof.
  unfold define_passive_branch_flows_with_cycles. intro H. binv. subst.
  split; [|reflexivity].
  eexists [(_, _); (_, _)], [(_, _); (_, _)]. frame_finish;
    try apply idx_ok_cycle_index.
Qed.

Lemma define_passive_branch_flows_with_kirchhoff_extends (network : Network F)
    (snapshots : list snapshot) (s s' : NetState F) :
  define_passive_branch_flows_with_kirchhoff network snapshots s = Return s' ->
  extends snapshots (model s) (model s') ["passive_branch_p"] ["cycle_constraints"]
  /\ _p_balance s' = _p_balance s.
Proof.
  unfold define_passive_branch_flows_with_kirchhoff. intro H. binv. subst.
  split; [|reflexivity].
  eexists [(_, _)], [(_, _)]. frame_finish;
    try apply idx_ok_cycle_index.
Qed.

Lemma define_passive_branch_constraints_extends (network : Network F)
    (snapshots : list snapshot) (m m' : Model F) :
  define_passive_branch_constraints network snapshots m = Return m' ->
  extends snapshots m m' [] ["flow_lower"; "flow_upper"].
Proof.
  unfold define_passive_branch_constraints. intro H. binv. subst.
  eexists [], [(_, _); (_, _)]. frame_finish.
Qed.

Lemma define_nodal_balance_constraints_extends (network : Network F)
    (snapshots : list snapshot) (s s' : NetState F) :
  define_nodal_balance_constraints network snapshots s = Return s' ->
  extends snapshots (model s) (model s') [] ["power_balance"].
Proof.
  unfold define_nodal_balance_constraints. intro H. binv. subst.
  eexists [], [(_, _)]. frame_finish.
Qed.

Lemma define_sub_network_balance_constraints_extends (network : Network F)
    (snapshots : list snapshot) (s s' : NetState F) :
  define_sub_network_balance_constraints network snapshots s = Return s' ->
  extends snapshots (model s) (model s') [] ["sub_network_balance_constraint"]
  /\ _p_balance s' = _p_balance s.
Proof.
  unfold define_sub_network_balance_constraints. intro H. binv. subst.
  split; [|reflexivity].
  eexists [], [(_, _)]. frame_finish.
Qed.

Lemma define_co2_constraint_extends (network : Network F)
    (snapshots : list snapshot) (limit : F) (m m' : Model F) :
  define_co2_constraint network snapshots limit m = Return m' ->
  extends snapshots m m' [] ["co2_constraint"].
Proof.
  unfold define_co2_constraint. intro H. binv. subst.
  eexists [], [(_, _)]. frame_finish.
  intros t [].
Qed.

Lemma define_linear_objective_frame (network : Network F)
    (snapshots : list snapshot) (m m' : Model F) :
  define_linear_objective network snapshots m = Return m' ->
  m_vars m' = m_vars m /\ m_cons m' = m_cons m
  /\ exists objective, m_objective m' = Some objective.
Proof.
  unfold define_linear_objective. intro H. binv. subst. simpl. eauto.
Qed.

(** Looking a component up through a declarator that does not declare it. *)
Lemma extends_assoc_cons (snapshots : list snapshot) (m m' : Model F)
    (vs cs : list string) (name : string) :
  extends snapshots m m' vs cs -> ~ In name cs ->
  assoc name (m_cons m') = assoc name (m_cons m).
Proof.
  intros [v [c [Hv [Nv [Hc [Nc _]]]]]] Hn. rewrite Hc. apply assoc_app_notin.
  now rewrite Nc.
Qed.

Lemma extends_assoc_vars (snapshots : list snapshot) (m m' : Model F)
    (vs cs : list string) (name : string) :
  extends snapshots m m' vs cs -> ~ In name vs ->
  assoc name (m_vars m') = assoc name (m_vars m).
Proof.
  intros [v [c [Hv [Nv _]]]] Hn. rewrite Hv. apply assoc_app_notin.
  now rewrite Nv.
Qed.

Lemma extends_in_window (snapshots : list snapshot) (m m' : Model F)
    (vs cs : list string) :
  extends snapshots m m' vs cs -> model_in_window snapshots m ->
  model_in_window snapshots m'.
Proof.
  intros [v [c [Hv [_ [Hc [_ [Fv [Fc _]]]]]]]] [Wv Wc]. split.
  - rewrite Hv. now apply Forall_app.
  - rewrite Hc. now apply Forall_app.
Qed.

End Frames.


(** ** The build as a whole *)

Ltac not_in_names := simpl; intuition discriminate.

Section Build.

Context {F : Type} {SF : Scalar F}.

Lemma extends_declares (snapshots : list snapshot) (m m' : Model F) (vs cs : list string) :
  extends snapshots m m' vs cs -> declares snapshots m m' vs cs.
Proof. intro H. exists vs, cs. split; [assumption|]. split; apply incl_refl. Qed.

Lemma declares_refl (snapshots : list snapshot) (m : Model F) (vs cs : list string) :
  declares snapshots m m vs cs.
Proof.
  exists [], []. split; [apply extends_refl|]. split; intros x [].
Qed.

Lemma declares_trans (snapshots : list snapshot) (m1 m2 m3 : Model F)
    (vs1 cs1 vs2 cs2 : list string) :
  declares snapshots m1 m2 vs1 cs1 -> declares snapshots m2 m3 vs2 cs2 ->
  declares snapshots m1 m3 (vs2 ++ vs1) (cs2 ++ cs1).
Proof.
  intros [v1 [c1 [H1 [Iv1 Ic1]]]] [v2 [c2 [H2 [Iv2 Ic2]]]].
  exists (v2 ++ v1), (c2 ++ c1). split; [eapply extends_trans; eauto|].
  split; apply incl_app_app; assumption.
Qed.

Lemma declares_weaken (snapshots : list snapshot) (m m' : Model F)
    (vs cs vs' cs' : list string) :
  declares snapshots m m' vs cs -> incl vs vs' -> incl cs cs' ->
  declares snapshots m m' vs' cs'.
Proof.
  intros [v [c [H [Iv Ic]]]] Hv Hc. exists v, c. split; [assumption|].
  split; eapply incl_tran; eauto.
Qed.

Lemma declares_assoc_cons (snapshots : list snapshot) (m m' : Model F)
    (vs cs : list string) (name : string) :
  declares snapshots m m' vs cs -> ~ In name cs ->
  assoc name (m_cons m') = assoc name (m_cons m).
Proof.
  intros [v [c [H [Iv Ic]]]] Hn. eapply extends_assoc_cons; eauto.
Qed.

Lemma declares_assoc_vars (snapshots : list snapshot) (m m' : Model F)
    (vs cs : list string) (name : string) :
  declares snapshots m m' vs cs -> ~ In name vs ->
  assoc name (m_vars m') = assoc name (m_vars m).
Proof.
  intros [v [c [H [Iv Ic]]]] Hn. eapply extends_assoc_vars; eauto.
Qed.

Lemma declares_in_window (snapshots : list snapshot) (m m' : Model F)
    (vs cs : list string) :
  declares snapshots m m' vs cs -> model_in_window snapshots m ->
  model_in_window snapshots m'.
Proof. intros [v [c [H _]]]. eapply extends_in_window; eauto. Qed.

Lemma declares_objective (snapshots : list snapshot) (m m' : Model F)
    (vs cs : list string) :
  declares snapshots m m' vs cs -> m_objective m' = m_objective m.
Proof. intros [v [c [[? [? H]] _]]]. tauto. Qed.

Lemma define_passive_branch_flows_declares (network : Network F)
    (snapshots : list snapshot) (formulation : string) (tol : F) (s s' : NetState F) :
  define_passive_branch_flows network snapshots formulation tol s = Return s' ->
  declares snapshots (model s) (model s')
    ["passive_branch_p"; "voltage_angles"; "cycles"]
    ["passive_branch_p_def"; "slack_angle"; "cycle_constraints"]
  /\ _p_balance s' = _p_balance s.
Proof.
  unfold define_passive_branch_flows. intro H.
  destruct (formulation =? "angles");
    [| destruct (formulation =? "ptdf");
       [| destruct (formulation =? "cycles");
          [| destruct (formulation =? "kirchhoff") ]]].
  - apply define_passive_branch_flows_with_angles_extends in H. destruct H as [H E].
    split; [|assumption]. eapply declares_weaken; [apply extends_declares, H | |];
      intros x Hx; simpl in *; tauto.
  - apply define_passive_branch_flows_with_PTDF_extends in H. destruct H as [H E].
    split; [|assumption]. eapply declares_weaken; [apply extends_declares, H | |];
      intros x Hx; simpl in *; tauto.
  - apply define_passive_branch_flows_with_cycles_extends in H. destruct H as [H E].
    split; [|assumption]. eapply declares_weaken; [apply extends_declares, H | |];
      intros x Hx; simpl in *; tauto.
  - apply define_passive_branch_flows_with_kirchhoff_extends in H. destruct H as [H E].
    split; [|assumption]. eapply declares_weaken; [apply extends_declares, H | |];
      intros x Hx; simpl in *; tauto.
  - inversion H; subst. split; [apply declares_refl | reflexivity].
Qed.

(** The steps of a successful build. *)
Lemma build_model_inv (network : Network F) (snapshots : list snapshot)
    (formulation : string) (tol : F) (s : NetState F) :
  build_model network snapshots formulation tol = Return s ->
  exists m1 m2 m3 m4 m5 s6 s7 m8 s9 m10 m11,
    define_generator_variables_constraints network snapshots ConcreteModel = Return m1
    /\ define_storage_variables_constraints network snapshots m1 = Return m2
    /\ define_store_variables_constraints network snapshots m2 = Return m3
    /\ define_branch_extension_variables network snapshots m3 = Return m4
    /\ define_link_flows network snapshots m4 = Return m5
    /\ define_nodal_balances network snapshots (mkNetState m5 None) = Return s6
    /\ define_passive_branch_flows network snapshots formulation tol s6 = Return s7
    /\ define_passive_branch_constraints network snapshots (model s7) = Return m8
    /\ (if (formulation =? "angles") || (formulation =? "kirchhoff")
        then define_nodal_balance_constraints network snapshots
               (mkNetState m8 (_p_balance s7))
        else if (formulation =? "ptdf") || (formulation =? "cycles")
        then define_sub_network_balance_constraints network snapshots
               (mkNetState m8 (_p_balance s7))
        else Return (mkNetState m8 (_p_balance s7))) = Return s9
    /\ match co2_limit network with
       | Some limit => define_co2_constraint network snapshots limit (model s9)
       | None => Return (model s9)
       end = Return m10
    /\ define_linear_objective network snapshots m10 = Return m11
    /\ s = mkNetState (mkModel (m_vars m11) (m_cons m11) (m_objective m11) true)
                      (_p_balance s9).
Proof.
  unfold build_model. intro H. binv.
  repeat eexists; eauto.
Qed.

End Build.


(** Step-by-step inversion of a successful run, with chosen names. *)
Ltac bstep H x Hx :=
  cbv beta zeta in H; apply bind_inv in H; destruct H as [x [Hx H]].

Ltac lstep H m fam Hfam :=
  cbv beta zeta in H; apply bind_inv in H; destruct H as [m [Hfam H]];
  apply l_constraint_inv in Hfam; destruct Hfam as [fam [-> Hfam]].

(** A rule that only fetches variables returns a determined value. *)
Ltac pure_rule :=
  intros; binv;
  repeat match goal with
         | Hg : getvar _ _ _ = Return _ |- _ =>
             apply getvar_inv in Hg; destruct Hg as [-> _]
         end;
  subst; reflexivity.

(** ** Flow limits of the passive branches *)

Lemma NoDup_map_injective {A B : Type} (f : A -> B) (l : list A) (x y : A) :
  NoDup (map f l) -> In x l -> In y l -> f x = f y -> x = y.
Proof.
  induction l as [|a l IH]; simpl; intros Hnd Hx Hy E; [contradiction|].
  inversion Hnd as [|? ? Hn Hd]; subst.
  destruct Hx as [->|Hx], Hy as [->|Hy]; auto.
  - exfalso. apply Hn. rewrite E. now apply in_map.
  - exfalso. apply Hn. rewrite <- E. now apply in_map.
Qed.

(** A dictionary filled from two disjoint populations of rows, crossed with
    the snapshots, holds at the key of a row and a snapshot the value of
    the population of the row. *)
Lemma dget_two_populations {A V : Type} (rows : list A) (second : A -> bool)
    (key : A -> snapshot -> index) (v1 v2 : A -> snapshot -> V)
    (snapshots : list snapshot) (b : A) (sn : snapshot) :
  (forall a a' t t', In a rows -> In a' rows -> key a t = key a' t' -> a = a' /\ t = t') ->
  In b rows -> In sn snapshots ->
  dget (dupdate
          (dict_of_list
             (map (fun p => (key (fst p) (snd p), v1 (fst p) (snd p)))
                  (list_prod (filter (fun a => negb (second a)) rows) snapshots)))
          (map (fun p => (key (fst p) (snd p), v2 (fst p) (snd p)))
               (list_prod (filter second rows) snapshots)))
       (key b sn)
  = Some (if second b then v2 b sn else v1 b sn).
Proof.
  intros Hinj Hb Hsn. destruct (second b) eqn:Eb.
  - apply dget_dupdate_functional.
    + apply in_map_iff. exists (b, sn). split; [reflexivity|].
      apply in_prod; [|assumption]. apply filter_In. auto.
    + intros v' Hv'. apply in_map_iff in Hv'. destruct Hv' as [[a t] [E Hin]].
      simpl in E. inversion E as [[E1 E2]].
      apply in_prod_iff in Hin. destruct Hin as [Ha _]. apply filter_In in Ha.
      destruct (Hinj a b t sn) as [-> ->]; tauto.
  - rewrite dget_dupdate_notin.
    + apply dict_of_list_functional.
      * apply in_map_iff. exists (b, sn). split; [reflexivity|].
        apply in_prod; [|assumption]. apply filter_In. rewrite Eb. auto.
      * intros v' Hv'. apply in_map_iff in Hv'. destruct Hv' as [[a t] [E Hin]].
        simpl in E. inversion E as [[E1 E2]].
        apply in_prod_iff in Hin. destruct Hin as [Ha _]. apply filter_In in Ha.
        destruct (Hinj a b t sn) as [-> ->]; tauto.
    + intro Hin. rewrite map_map in Hin. simpl in Hin.
      apply in_map_iff in Hin. destruct Hin as [[a t] [E Hin]]. simpl in E.
      apply in_prod_iff in Hin. destruct Hin as [Ha _]. apply filter_In in Ha.
      destruct (Hinj a b t sn) as [-> ->]; try tauto.
      destruct Ha. congruence.
Qed.

Section FlowLimits.

Context {F : Type} {SF : Scalar F}.

Lemma branch_key_injective (rows : list (PassiveBranch F)) :
  NoDup (branch_index rows) ->
  forall a a' t t', In a rows -> In a' rows ->
    [KName (pb_type a); KName (pb_name a); KSnap t]
    = [KName (pb_type a'); KName (pb_name a'); KSnap t'] ->
    a = a' /\ t = t'.
Proof.
  intros Hnd a a' t t' Ha Ha' E. inversion E. split; [|reflexivity].
  apply (NoDup_map_injective (fun b => [KName (pb_type b); KName (pb_name b)]) rows);
    auto. congruence.
Qed.

Lemma in_branch_snap (rows : list (PassiveBranch F)) (snapshots : list snapshot)
    (b : PassiveBranch F) (sn : snapshot) :
  In b rows -> In sn snapshots ->
  In [KName (pb_type b); KName (pb_name b); KSnap sn]
     (cross (branch_index rows) (snap_index snapshots)).
Proof.
  intros Hb Hsn.
  change [KName (pb_type b); KName (pb_name b); KSnap sn]
    with ([KName (pb_type b); KName (pb_name b)] ++ [KSnap sn]).
  apply in_cross; [|now apply in_snap_index].
  unfold branch_index. apply in_map_iff. now exists b.
Qed.

(** What [define_passive_branch_constraints] registers. *)
Lemma define_passive_branch_constraints_spec (network : Network F)
    (snapshots : list snapshot) (m m' : Model F) :
  define_passive_branch_constraints network snapshots m = Return m' ->
  NoDup (branch_index (passive_branches network)) ->
  exists upper lower,
    m_cons m' = ("flow_lower", lower) :: ("flow_upper", upper) :: m_cons m
    /\ m_vars m' = m_vars m
    /\ dkeys upper = cross (branch_index (passive_branches network)) (snap_index snapshots)
    /\ dkeys lower = cross (branch_index (passive_branches network)) (snap_index snapshots)
    /\ forall b sn, In b (passive_branches network) -> In sn snapshots ->
         dget upper [KName (pb_type b); KName (pb_name b); KSnap sn]
         = Some (flow_upper_constraint b sn)
         /\ dget lower [KName (pb_type b); KName (pb_name b); KSnap sn]
            = Some (flow_lower_constraint b sn).
Proof.
  unfold define_passive_branch_constraints. intros H Hnd.
  bstep H upper_fixed Hu1. bstep H upper_ext Hu2. lstep H m1 upper Hupper.
  bstep H lower_fixed Hl1. bstep H lower_ext Hl2.
  apply l_constraint_inv in H. destruct H as [lower [-> Hlower]].
  apply for2_pure with
    (g := fun b sn =>
            ([KName (pb_type b); KName (pb_name b); KSnap sn],
             CTriple [(fone, ("passive_branch_p",
                              [KName (pb_type b); KName (pb_name b); KSnap sn]))]
                     LE (pb_s_nom b))) in Hu1; [|pure_rule].
  apply for2_pure with
    (g := fun b sn =>
            ([KName (pb_type b); KName (pb_name b); KSnap sn],
             CTriple [(fone, ("passive_branch_p",
                              [KName (pb_type b); KName (pb_name b); KSnap sn]));
                      (fopp fone, ("passive_branch_s_nom",
                                   [KName (pb_type b); KName (pb_name b)]))]
                     LE fzero)) in Hu2; [|pure_rule].
  apply for2_pure with
    (g := fun b sn =>
            ([KName (pb_type b); KName (pb_name b); KSnap sn],
             CTriple [(fone, ("passive_branch_p",
                              [KName (pb_type b); KName (pb_name b); KSnap sn]))]
                     GE (fopp (pb_s_nom b)))) in Hl1; [|pure_rule].
  apply for2_pure with
    (g := fun b sn =>
            ([KName (pb_type b); KName (pb_name b); KSnap sn],
             CTriple [(fone, ("passive_branch_p",
                              [KName (pb_type b); KName (pb_name b); KSnap sn]));
                      (fone, ("passive_branch_s_nom",
                              [KName (pb_type b); KName (pb_name b)]))]
                     GE fzero)) in Hl2; [|pure_rule].
  subst. exists upper, lower. simpl.
  split; [reflexivity|]. split; [reflexivity|].
  split; [now apply l_constraint_keys in Hupper|].
  split; [now apply l_constraint_keys in Hlower|].
  intros b sn Hb Hsn.
  pose proof (in_branch_snap _ _ _ _ Hb Hsn) as Hin.
  destruct (l_constraint_dget _ _ _ Hupper Hin) as [cu [Hcu ->]].
  destruct (l_constraint_dget _ _ _ Hlower Hin) as [cl [Hcl ->]].
  pose proof (branch_key_injective _ Hnd) as Hinj.
  rewrite (dget_two_populations (passive_branches network) pb_s_nom_extendable
             (fun b sn => [KName (pb_type b); KName (pb_name b); KSnap sn])
             (fun b sn => CTriple [(fone, ("passive_branch_p",
                                      [KName (pb_type b); KName (pb_name b); KSnap sn]))]
                                  LE (pb_s_nom b))
             (fun b sn => CTriple [(fone, ("passive_branch_p",
                                      [KName (pb_type b); KName (pb_name b); KSnap sn]));
                                   (fopp fone, ("passive_branch_s_nom",
                                      [KName (pb_type b); KName (pb_name b)]))]
                                  LE fzero)
             snapshots b sn Hinj Hb Hsn) in Hcu.
  rewrite (dget_two_populations (passive_branches network) pb_s_nom_extendable
             (fun b sn => [KName (pb_type b); KName (pb_name b); KSnap sn])
             (fun b sn => CTriple [(fone, ("passive_branch_p",
                                      [KName (pb_type b); KName (pb_name b); KSnap sn]))]
                                  GE (fopp (pb_s_nom b)))
             (fun b sn => CTriple [(fone, ("passive_branch_p",
                                      [KName (pb_type b); KName (pb_name b); KSnap sn]));
                                   (fone, ("passive_branch_s_nom",
                                      [KName (pb_type b); KName (pb_name b)]))]
                                  GE fzero)
             snapshots b sn Hinj Hb Hsn) in Hcl.
  inversion Hcu; inversion Hcl; subst.
  unfold flow_upper_constraint, flow_lower_constraint.
  destruct (pb_s_nom_extendable b); split; reflexivity.
Qed.

End FlowLimits.


Section BuildSteps.

Context {F : Type} {SF : Scalar F}.

Lemma balance_step_declares (network : Network F) (snapshots : list snapshot)
    (formulation : string) (s s' : NetState F) :
  (if (formulation =? "angles") || (formulation =? "kirchhoff")
   then define_nodal_balance_constraints network snapshots s
   else if (formulation =? "ptdf") || (formulation =? "cycles")
   then define_sub_network_balance_constraints network snapshots s
   else Return s) = Return s' ->
  declares snapshots (model s) (model s') []
           ["power_balance"; "sub_network_balance_constraint"].
Proof.
  intro H.
  destruct ((formulation =? "angles") || (formulation =? "kirchhoff"));
    [| destruct ((formulation =? "ptdf") || (formulation =? "cycles"))].
  - apply define_nodal_balance_constraints_extends in H.
    eapply declares_weaken; [apply extends_declares, H | |];
      intros x Hx; simpl in *; tauto.
  - apply define_sub_network_balance_constraints_extends in H. destruct H as [H _].
    eapply declares_weaken; [apply extends_declares, H | |];
      intros x Hx; simpl in *; tauto.
  - inversion H. apply declares_refl.
Qed.

Lemma co2_step_declares (network : Network F) (snapshots : list snapshot)
    (m m' : Model F) :
  match co2_limit network with
  | Some limit => define_co2_constraint network snapshots limit m
  | None => Return m
  end = Return m' ->
  declares snapshots m m' [] ["co2_constraint"].
Proof.
  destruct (co2_limit network) as [limit|]; intro H.
  - apply define_co2_constraint_extends in H. now apply extends_declares.
  - inversion H. apply declares_refl.
Qed.

End BuildSteps.

(** Destructs a successful build into its steps. *)
Ltac build_steps H :=
  apply build_model_inv in H;
  destruct H as (m1 & m2 & m3 & m4 & m5 & s6 & s7 & m8 & s9 & m10 & m11
                 & Hgen & Hsu & Hst & Hext & Hlink & Hbal & Hflow & Hlim & Hnodal
                 & Hco2 & Hobj & Hs).

Section FlowLimitsBuild.

Context {F : Type} {SF : Scalar F}.

(** C5. Whatever the formulation, the built model holds for every passive
    branch and every snapshot of the solve window exactly one constraint
    [flow_upper] and one constraint [flow_lower]: for a branch that is not
    extendable [p <= s_nom] and [p >= -s_nom], for an extendable branch
    [p - s_nom_var <= 0] and [p + s_nom_var >= 0]. *)
Theorem passive_branch_flow_limits (network : Network F) (snapshots : list snapshot)
    (formulation : string) (ptdf_tolerance : F) (s : NetState F) :
  build_model network snapshots formulation ptdf_tolerance = Return s ->
  NoDup (branch_index (passive_branches network)) ->
  exists upper lower,
    assoc "flow_upper" (m_cons (model s)) = Some upper
    /\ assoc "flow_lower" (m_cons (model s)) = Some lower
    /\ dkeys upper = cross (branch_index (passive_branches network)) (snap_index snapshots)
    /\ dkeys lower = cross (branch_index (passive_branches network)) (snap_index snapshots)
    /\ forall b sn, In b (passive_branches network) -> In sn snapshots ->
         dget upper [KName (pb_type b); KName (pb_name b); KSnap sn]
         = Some (flow_upper_constraint b sn)
         /\ dget lower [KName (pb_type b); KName (pb_name b); KSnap sn]
            = Some (flow_lower_constraint b sn).
Proof.
  intros H Hnd. build_steps H.
  destruct (define_passive_branch_constraints_spec _ _ _ Hlim Hnd)
    as (upper & lower & Hc & _ & Ku & Kl & Hget).
  exists upper, lower.
  apply define_linear_objective_frame in Hobj. destruct Hobj as (_ & Ec & _).
  apply co2_step_declares in Hco2. apply balance_step_declares in Hnodal.
  simpl in Hnodal.
  assert (E : forall name, name = "flow_upper" \/ name = "flow_lower" ->
                assoc name (m_cons (model s)) = assoc name (m_cons m8)).
  { intros name Hname. subst s. simpl. rewrite Ec.
    rewrite (declares_assoc_cons name Hco2) by (destruct Hname; subst; not_in_names).
    apply (declares_assoc_cons name Hnodal). destruct Hname; subst; not_in_names. }
  rewrite !E by auto. rewrite Hc. simpl. auto.
Qed.

End FlowLimitsBuild.


(** ** Balance constraints *)

Lemma dset_fresh {V : Type} (d : dict V) (k : index) (v : V) :
  ~ In k (dkeys d) -> dset d k v = d ++ [(k, v)].
Proof.
  unfold dkeys. induction d as [|[k0 v0] d IH]; simpl; intro H; [reflexivity|].
  rewrite index_eqb_neq by (intro E; apply H; now left).
  f_equal. apply IH. tauto.
Qed.

Lemma dupdate_fresh {V : Type} (items : list (index * V)) (d : dict V) :
  NoDup (dkeys d ++ map fst items) -> dupdate d items = d ++ items.
Proof.
  revert d. induction items as [|[k v] items IH]; intros d H.
  - simpl. now rewrite app_nil_r.
  - rewrite dupdate_cons. simpl fst. simpl snd.
    simpl in H. pose proof (NoDup_remove_2 _ _ _ H) as Hk.
    rewrite dset_fresh by (intro Hin; apply Hk; apply in_or_app; now left).
    rewrite IH.
    + now rewrite <- app_assoc.
    + unfold dkeys. rewrite map_app. simpl. rewrite <- app_assoc. simpl.
      unfold dkeys in H. assumption.
Qed.

Lemma dict_of_list_fresh {V : Type} (items : list (index * V)) :
  NoDup (map fst items) -> dict_of_list items = items.
Proof. intro H. unfold dict_of_list. now rewrite dupdate_fresh. Qed.

Lemma dget_map_values {V W : Type} (g : V -> W) (d : dict V) (k : index) :
  dget (map (fun kv => (fst kv, g (snd kv))) d) k = option_map g (dget d k).
Proof.
  induction d as [|[k0 v0] d IH]; simpl; [reflexivity|].
  destruct (index_eqb k k0); [reflexivity | apply IH].
Qed.

Section Balance.

Context {F : Type} {SF : Scalar F}.

Lemma append_variable_NoDup (balance balance' : dict (LExpression F)) (k : index)
    (term : result (F * var)) :
  append_variable balance k term = Return balance' ->
  NoDup (dkeys balance) -> NoDup (dkeys balance').
Proof.
  unfold append_variable. intros H Hnd. binv. subst. now apply dkeys_dset_NoDup.
Qed.

Lemma add_constant_NoDup (balance balance' : dict (LExpression F)) (k : index) (c : F) :
  add_constant balance k c = Return balance' ->
  NoDup (dkeys balance) -> NoDup (dkeys balance').
Proof.
  unfold add_constant. intros H Hnd. binv. subst. now apply dkeys_dset_NoDup.
Qed.

Ltac balance_loop H :=
  eapply (@foldM_invariant _ _ (fun d : dict (LExpression F) => NoDup (dkeys d)));
  [| | exact H];
  [ intros; binv;
    repeat match goal with
           | Hx : append_variable _ _ _ = Return _ |- _ =>
               apply append_variable_NoDup in Hx; [|assumption]
           | Hx : add_constant _ _ _ = Return _ |- _ =>
               apply add_constant_NoDup in Hx; [|assumption]
           end; assumption
  | ].

Lemma define_nodal_balances_NoDup (network : Network F) (snapshots : list snapshot)
    (s s' : NetState F) :
  define_nodal_balances network snapshots s = Return s' ->
  model s' = model s
  /\ exists balance, _p_balance s' = Some balance /\ NoDup (dkeys balance).
Proof.
  unfold define_nodal_balances. intro H.
  bstep H b1 H1. bstep H b2 H2. bstep H b3 H3. bstep H b4 H4. bstep H b5 H5.
  inversion H; subst. simpl. split; [reflexivity|]. exists b5. split; [reflexivity|].
  balance_loop H5. balance_loop H4. balance_loop H3. balance_loop H2. balance_loop H1.
  apply dkeys_dict_of_list_NoDup.
Qed.

(** What [define_nodal_balance_constraints] registers: at every bus and
    snapshot the constraint that the nodal balance, passive branches
    included, is zero. *)
Lemma define_nodal_balance_constraints_spec (network : Network F)
    (snapshots : list snapshot) (s s' : NetState F) (balance0 : dict (LExpression F)) :
  define_nodal_balance_constraints network snapshots s = Return s' ->
  _p_balance s = Some balance0 -> NoDup (dkeys balance0) ->
  exists balance fam,
    _p_balance s' = Some balance
    /\ m_cons (model s') = ("power_balance", fam) :: m_cons (model s)
    /\ dkeys fam = cross (name_index bus_name (buses network)) (snap_index snapshots)
    /\ forall bus sn, In bus (buses network) -> In sn snapshots ->
         exists e, dget balance [KName (bus_name bus); KSnap sn] = Some e
                   /\ dget fam [KName (bus_name bus); KSnap sn] = Some (equals_zero e).
Proof.
  unfold define_nodal_balance_constraints. intros H H0 Hnd0.
  bstep H b0 Hb0. unfold get_p_balance in Hb0. rewrite H0 in Hb0. inversion Hb0; subst b0.
  bstep H balance Hb. lstep H m1 fam Hfam. inversion H; subst s'. simpl.
  assert (Hnd : NoDup (dkeys balance)) by (balance_loop Hb; assumption).
  exists balance, fam. split; [reflexivity|]. split; [reflexivity|].
  split; [now apply l_constraint_keys in Hfam|].
  intros bus sn Hbus Hsn.
  assert (Hin : In [KName (bus_name bus); KSnap sn]
                   (cross (name_index bus_name (buses network)) (snap_index snapshots))).
  { change [KName (bus_name bus); KSnap sn] with ([KName (bus_name bus)] ++ [KSnap sn]).
    apply in_cross; [now apply in_name_index | now apply in_snap_index]. }
  destruct (l_constraint_dget _ _ _ Hfam Hin) as [c [Hc ->]].
  rewrite dict_of_list_fresh in Hc.
  - rewrite (dget_map_values
               (fun e => CObject (mkLConstraint e EQ (@LExpression_empty F SF)))) in Hc.
    destruct (dget balance [KName (bus_name bus); KSnap sn]) as [e|]; [|discriminate].
    inversion Hc. exists e. split; reflexivity.
  - rewrite map_map. simpl. exact Hnd.
Qed.

(** The sum of the balances of the buses of a sub-network. *)
Lemma sub_network_sum (s : NetState F) (balance : dict (LExpression F)) (sn : snapshot)
    (buses : list string) (c0 c : LConstraint F) :
  _p_balance s = Some balance ->
  foldM (fun c bus =>
           balance <- get_p_balance s ;;
           e <- dlookup balance [KName bus; KSnap sn] ;;
           Return (extend_lhs c e)) buses c0 = Return c ->
  exists es,
    mapM (fun bus => dlookup balance [KName bus; KSnap sn]) buses = Return es
    /\ c = mkLConstraint (fold_left lexpr_add es (lhs c0)) (csense c0) (rhs c0).
Proof.
  intro Hs. revert c0. induction buses as [|bus buses IH]; simpl; intros c0 H.
  - inversion H. exists []. split; [reflexivity|]. now destruct c.
  - bstep H c1 H1. bstep H1 b Hb. unfold get_p_balance in Hb. rewrite Hs in Hb.
    inversion Hb; subst b. bstep H1 e He. inversion H1; subst c1.
    destruct (IH _ H) as [es [Hes ->]]. exists (e :: es). rewrite He, Hes. simpl.
    split; reflexivity.
Qed.

Lemma sub_key_injective (subs : list (SubNetwork F)) :
  NoDup (name_index sub_name subs) ->
  forall a a', In a subs -> In a' subs -> sub_name a = sub_name a' -> a = a'.
Proof.
  intros Hnd a a' Ha Ha' E.
  apply (NoDup_map_injective (fun r => [KName (sub_name r)]) subs); auto. congruence.
Qed.

(** What [define_sub_network_balance_constraints] registers: for every
    sub-network and snapshot the constraint that the sum of the nodal
    balances of its buses is zero. *)
Lemma define_sub_network_balance_constraints_spec (network : Network F)
    (snapshots : list snapshot) (s s' : NetState F) (balance : dict (LExpression F)) :
  define_sub_network_balance_constraints network snapshots s = Return s' ->
  _p_balance s = Some balance ->
  NoDup (name_index sub_name (sub_networks network)) ->
  exists fam,
    _p_balance s' = Some balance
    /\ m_cons (model s') = ("sub_network_balance_constraint", fam) :: m_cons (model s)
    /\ dkeys fam = cross (name_index sub_name (sub_networks network)) (snap_index snapshots)
    /\ forall sub sn, In sub (sub_networks network) -> In sn snapshots ->
         exists es,
           mapM (fun bus => dlookup balance [KName bus; KSnap sn]) (sub_buses sub)
           = Return es
           /\ dget fam [KName (sub_name sub); KSnap sn] = Some (equals_zero (lexpr_sum es)).
Proof.
  unfold define_sub_network_balance_constraints. intros H Hs Hnd.
  bstep H sn_balance Hd. lstep H m1 fam Hfam. inversion H; subst s'. simpl.
  exists fam. split; [assumption|]. split; [reflexivity|].
  split; [now apply l_constraint_keys in Hfam|].
  intros sub sn Hsub Hsn.
  assert (Hin : In [KName (sub_name sub); KSnap sn]
                   (cross (name_index sub_name (sub_networks network))
                          (snap_index snapshots))).
  { change [KName (sub_name sub); KSnap sn] with ([KName (sub_name sub)] ++ [KSnap sn]).
    apply in_cross; [now apply in_name_index | now apply in_snap_index]. }
  destruct (l_constraint_dget _ _ _ Hfam Hin) as [c [Hc ->]].
  rewrite (foldM_ext _
             (fun d (p : SubNetwork F * snapshot) =>
                v <- (c <- foldM (fun c bus =>
                                    balance <- get_p_balance s ;;
                                    e <- dlookup balance [KName bus; KSnap (snd p)] ;;
                                    Return (extend_lhs c e))
                                 (sub_buses (fst p))
                                 (mkLConstraint LExpression_empty EQ LExpression_empty) ;;
                      Return (CObject c)) ;;
                Return (dset d [KName (sub_name (fst p)); KSnap (snd p)] v))) in Hd.
  2:{ intros d p _. destruct (foldM _ (sub_buses (fst p)) _); reflexivity. }
  destruct (foldM_dset_get
              (fun p : SubNetwork F * snapshot => [KName (sub_name (fst p)); KSnap (snd p)])
              _ _ _ (sub, sn) Hd) as [v [Hv Hget]].
  - now apply in_prod.
  - intros [sub' sn'] Hy E. simpl in E. inversion E; subst sn'.
    apply in_prod_iff in Hy. destruct Hy as [Hy _].
    rewrite (sub_key_injective _ Hnd sub' sub); auto.
  - simpl in Hget. rewrite Hget in Hc. inversion Hc; subst c. clear Hc.
    simpl in Hv. bstep Hv c Hfold. inversion Hv; subst v.
    eapply sub_network_sum in Hfold; [|exact Hs]. destruct Hfold as [es [Hes ->]].
    exists es. split; [assumption | reflexivity].
Qed.

End Balance.


Section BalanceBuild.

Context {F : Type} {SF : Scalar F}.

(** The model and the nodal balances when the flow limits are declared. *)
Lemma build_prefix (network : Network F) (snapshots : list snapshot)
    (formulation : string) (tol : F) (m1 m2 m3 m4 m5 : Model F) (s6 s7 : NetState F) :
  define_generator_variables_constraints network snapshots ConcreteModel = Return m1 ->
  define_storage_variables_constraints network snapshots m1 = Return m2 ->
  define_store_variables_constraints network snapshots m2 = Return m3 ->
  define_branch_extension_variables network snapshots m3 = Return m4 ->
  define_link_flows network snapshots m4 = Return m5 ->
  define_nodal_balances network snapshots (mkNetState m5 None) = Return s6 ->
  define_passive_branch_flows network snapshots formulation tol s6 = Return s7 ->
  declares snapshots ConcreteModel (model s7) base_vars base_cons
  /\ exists balance, _p_balance s7 = Some balance /\ NoDup (dkeys balance).
Proof.
  intros Hgen Hsu Hst Hext Hlink Hbal Hflow.
  apply define_generator_variables_constraints_extends in Hgen.
  apply define_storage_variables_constraints_extends in Hsu.
  apply define_store_variables_constraints_extends in Hst.
  apply define_branch_extension_variables_extends in Hext.
  apply define_link_flows_extends in Hlink.
  apply define_nodal_balances_NoDup in Hbal. destruct Hbal as [Em [balance [Eb Hnd]]].
  apply define_passive_branch_flows_declares in Hflow. destruct Hflow as [Hflow Ep].
  simpl in Em. rewrite Em in Hflow. split.
  - pose proof (extends_trans (extends_trans (extends_trans (extends_trans Hgen Hsu) Hst)
                                             Hext) Hlink) as Hpre.
    apply extends_declares in Hpre.
    exact (declares_trans Hpre Hflow).
  - exists balance. split; [congruence | assumption].
Qed.

(** The families of balance constraints of a built model, in terms of
    the balances that the build leaves in [_p_balance]: per bus with
    "angles" or "kirchhoff", per sub-network with "ptdf" or "cycles". *)
Lemma balance_families (network : Network F) (snapshots : list snapshot)
    (formulation : string) (ptdf_tolerance : F) (s : NetState F) :
  build_model network snapshots formulation ptdf_tolerance = Return s ->
  NoDup (name_index sub_name (sub_networks network)) ->
  exists balance,
    _p_balance s = Some balance
    /\ (formulation = "angles" \/ formulation = "kirchhoff" ->
        (exists fam,
            assoc "power_balance" (m_cons (model s)) = Some fam
            /\ dkeys fam
               = cross (name_index bus_name (buses network)) (snap_index snapshots)
            /\ forall bus sn, In bus (buses network) -> In sn snapshots ->
                 exists e,
                   dget balance [KName (bus_name bus); KSnap sn] = Some e
                   /\ dget fam [KName (bus_name bus); KSnap sn] = Some (equals_zero e))
        /\ assoc "sub_network_balance_constraint" (m_cons (model s)) = None)
    /\ (formulation = "ptdf" \/ formulation = "cycles" ->
        (exists fam,
            assoc "sub_network_balance_constraint" (m_cons (model s)) = Some fam
            /\ dkeys fam
               = cross (name_index sub_name (sub_networks network)) (snap_index snapshots)
            /\ forall sub sn, In sub (sub_networks network) -> In sn snapshots ->
                 exists es,
                   mapM (fun bus => dlookup balance [KName bus; KSnap sn]) (sub_buses sub)
                   = Return es
                   /\ dget fam [KName (sub_name sub); KSnap sn]
                      = Some (equals_zero (lexpr_sum es)))
        /\ assoc "power_balance" (m_cons (model s)) = None).
Proof.
  intros H Hnd. build_steps H.
  destruct (build_prefix _ _ _ _ Hgen Hsu Hst Hext Hlink Hbal Hflow)
    as [Hpre [balance0 [Eb0 Hnd0]]].
  apply define_passive_branch_constraints_extends in Hlim.
  apply define_linear_objective_frame in Hobj. destruct Hobj as (_ & Ec & _).
  apply co2_step_declares in Hco2.
  assert (Hbase : forall name, ~ In name base_cons -> ~ In name ["flow_lower"; "flow_upper"] ->
                    assoc name (m_cons m8) = None).
  { intros name N1 N2. rewrite (extends_assoc_cons name Hlim N2).
    rewrite (declares_assoc_cons name Hpre N1). reflexivity. }
  assert (Hfinal : forall name, name <> "co2_constraint" ->
                     assoc name (m_cons (model s)) = assoc name (m_cons (model s9))).
  { intros name N. subst s. simpl. rewrite Ec.
    apply (declares_assoc_cons name Hco2). simpl. intuition. }
  destruct (((formulation =? "angles") || (formulation =? "kirchhoff"))%bool) eqn:E1;
    [| destruct (((formulation =? "ptdf") || (formulation =? "cycles"))%bool) eqn:E2].
  - destruct (define_nodal_balance_constraints_spec _ _ _ Hnodal Eb0 Hnd0)
      as (balance & fam & Eb & Ecs & Hk & Hget).
    exists balance. split; [subst s; exact Eb|]. split.
    + intros _. split.
      * exists fam. rewrite Hfinal by discriminate. rewrite Ecs. simpl.
        split; [reflexivity|]. split; assumption.
      * rewrite Hfinal by discriminate. rewrite Ecs. simpl.
        apply Hbase; unfold base_cons; not_in_names.
    + intros [->| ->]; discriminate.
  - destruct (define_sub_network_balance_constraints_spec _ _ _ Hnodal Eb0 Hnd)
      as (fam & Eb & Ecs & Hk & Hget).
    exists balance0. split; [subst s; exact Eb|]. split.
    + intros [->| ->]; discriminate.
    + intros _. split.
      * exists fam. rewrite Hfinal by discriminate. rewrite Ecs. simpl.
        split; [reflexivity|]. split; assumption.
      * rewrite Hfinal by discriminate. rewrite Ecs. simpl.
        apply Hbase; unfold base_cons; not_in_names.
  - inversion Hnodal; subst s9. exists balance0. split; [subst s; exact Eb0|].
    split; intros [->| ->]; discriminate.
Qed.

End BalanceBuild.


(** ** The cycle constraints of "kirchhoff" and "cycles" *)

Lemma foldM_dset_get_map {A V W : Type} (key : A -> index) (val : A -> result V)
    (h : A -> V -> W) (l : list A) (d d' : dict W) (x : A) :
  foldM (fun d x => v <- val x ;; Return (dset d (key x) (h x v))) l d = Return d' ->
  In x l ->
  (forall y, In y l -> key y = key x -> y = x) ->
  exists v, val x = Return v /\ dget d' (key x) = Some (h x v).
Proof.
  intros H Hin Hinj.
  rewrite (foldM_ext _ (fun d x => w <- (v <- val x ;; Return (h x v)) ;;
                                   Return (dset d (key x) w))) in H.
  2:{ intros s y _. destruct (val y); reflexivity. }
  destruct (@foldM_dset_get _ _ key _ _ _ _ x H Hin) as [w [Hw Hg]].
  - intros y Hy E. now rewrite (Hinj y Hy E).
  - apply bind_inv in Hw. destruct Hw as [v [Hv Hw]]. inversion Hw; subst w.
    now exists v.
Qed.

Lemma mapM_success_ext {A B : Type} (f g : A -> result B) (l : list A) (r : list B) :
  (forall x y, In x l -> f x = Return y -> g x = Return y) ->
  mapM f l = Return r -> mapM g l = Return r.
Proof.
  revert r. induction l as [|x l IH]; simpl; intros r Hfg H; [assumption|].
  apply bind_inv in H. destruct H as [y [Hy H]].
  apply bind_inv in H. destruct H as [ys [Hys H]]. inversion H; subst r.
  rewrite (Hfg x y) by auto. simpl. rewrite (IH ys); auto.
Qed.

Section Cycles.

Context {F : Type} {SF : Scalar F}.

(** The dictionary of cycle constraints, as both formulations fill it, and
    its content. *)
Lemma cycle_constraints_content (network : Network F) (snapshots : list snapshot)
    (model : Model F) (d : dict (cspec F)) :
  foldM (fun cycle_constraints sn =>
      let branches := sub_branches sn in
      let attribute := if sub_carrier sn =? "DC" then pb_r_pu else pb_x_pu in
      foldM (fun cycle_constraints j =>
          let cycle_is := col_nonzero (sub_C sn) j in
          foldM (fun cycle_constraints snapshot =>
              terms <- mapM (fun i =>
                  branch <- at_position branches i ;;
                  p <- getvar model "passive_branch_p"
                         [KName (pb_type branch); KName (pb_name branch); KSnap snapshot] ;;
                  Return (fmul (attribute branch) (mat_entry (sub_C sn) i j), p)) cycle_is ;;
              Return (dset cycle_constraints [KName (sub_name sn); KNum j; KSnap snapshot]
                           (CObject (mkLConstraint (LExpression_terms terms) EQ
                                                   LExpression_empty))))
            snapshots cycle_constraints)
        (seq 0 (mat_ncols (sub_C sn))) cycle_constraints)
    (sub_networks network) [] = Return d ->
  NoDup (name_index sub_name (sub_networks network)) ->
  forall sub j sn, In sub (sub_networks network) -> j < mat_ncols (sub_C sub) ->
    In sn snapshots ->
    exists terms,
      kvl_terms sub j sn = Return terms
      /\ dget d [KName (sub_name sub); KNum j; KSnap sn]
         = Some (CObject (mkLConstraint (LExpression_terms terms) EQ LExpression_empty)).
Proof.
  intros H Hnd sub j sn Hsub Hj Hin. cbv zeta in H.
  rewrite (foldM_nested
             (fun cc (sn : SubNetwork F) (j : nat) =>
                foldM (fun cycle_constraints snapshot =>
                  terms <- mapM (fun i =>
                      branch <- at_position (sub_branches sn) i ;;
                      p <- getvar model "passive_branch_p"
                             [KName (pb_type branch); KName (pb_name branch);
                              KSnap snapshot] ;;
                      Return (fmul ((if sub_carrier sn =? "DC" then pb_r_pu else pb_x_pu)
                                      branch)
                                   (mat_entry (sub_C sn) i j), p))
                    (col_nonzero (sub_C sn) j) ;;
                  Return (dset cycle_constraints
                               [KName (sub_name sn); KNum j; KSnap snapshot]
                               (CObject (mkLConstraint (LExpression_terms terms) EQ
                                                       LExpression_empty))))
                  snapshots cc)
             (fun sn => seq 0 (mat_ncols (sub_C sn)))) in H.
  rewrite (foldM_nested
             (fun cc (p : SubNetwork F * nat) (snapshot : snapshot) =>
                terms <- mapM (fun i =>
                    branch <- at_position (sub_branches (fst p)) i ;;
                    p0 <- getvar model "passive_branch_p"
                           [KName (pb_type branch); KName (pb_name branch);
                            KSnap snapshot] ;;
                    Return (fmul ((if sub_carrier (fst p) =? "DC" then pb_r_pu else pb_x_pu)
                                    branch)
                                 (mat_entry (sub_C (fst p)) i (snd p)), p0))
                  (col_nonzero (sub_C (fst p)) (snd p)) ;;
                Return (dset cc [KName (sub_name (fst p)); KNum (snd p); KSnap snapshot]
                             (CObject (mkLConstraint (LExpression_terms terms) EQ
                                                     LExpression_empty))))
             (fun _ => snapshots)) in H.
  destruct (@foldM_dset_get_map _ _ _
              (fun x : SubNetwork F * nat * snapshot =>
                 [KName (sub_name (fst (fst x))); KNum (snd (fst x)); KSnap (snd x)])
              (fun x : SubNetwork F * nat * snapshot =>
                 mapM (fun i =>
                    branch <- at_position (sub_branches (fst (fst x))) i ;;
                    p0 <- getvar model "passive_branch_p"
                           [KName (pb_type branch); KName (pb_name branch);
                            KSnap (snd x)] ;;
                    Return (fmul ((if sub_carrier (fst (fst x)) =? "DC"
                                   then pb_r_pu else pb_x_pu) branch)
                                 (mat_entry (sub_C (fst (fst x))) i (snd (fst x))), p0))
                  (col_nonzero (sub_C (fst (fst x))) (snd (fst x))))
              (fun _ terms => CObject (mkLConstraint (LExpression_terms terms) EQ
                                                     (@LExpression_empty F SF)))
              _ _ _ (sub, j, sn) H) as [terms [Ht Hg]].
  - apply in_flat_map. exists (sub, j). split.
    + apply in_flat_map. exists sub. split; [assumption|].
      apply in_map_iff. exists j. split; [reflexivity|]. apply in_seq. lia.
    + apply in_map_iff. now exists sn.
  - intros [[sub' j'] sn'] Hy E. simpl in E. inversion E; subst j' sn'.
    apply in_flat_map in Hy. destruct Hy as [[sub'' j''] [Hy Hy2]].
    apply in_map_iff in Hy2. destruct Hy2 as [t [Et _]]. inversion Et; subst sub'' j'' t.
    apply in_flat_map in Hy. destruct Hy as [sub'' [Hy Hy3]].
    apply in_map_iff in Hy3. destruct Hy3 as [j'' [Ej _]]. inversion Ej; subst sub'' j''.
    rewrite (sub_key_injective _ Hnd sub' sub); auto.
  - simpl in Ht, Hg. exists terms. split; [|assumption].
    unfold kvl_terms. cbv zeta.
    revert Ht. apply mapM_success_ext.
    intros i y _ Hy. binv.
    match goal with
    | Hgv : getvar _ _ _ = Return _ |- _ => apply getvar_inv in Hgv; destruct Hgv as [-> _]
    end.
    subst. rewrite Ha. reflexivity.
Qed.

Lemma in_cycle_index (network : Network F) (snapshots : list snapshot)
    (sub : SubNetwork F) (j : nat) (sn : snapshot) :
  In sub (sub_networks network) -> j < mat_ncols (sub_C sub) -> In sn snapshots ->
  In [KName (sub_name sub); KNum j; KSnap sn]
     (cross (cycle_index network) (snap_index snapshots)).
Proof.
  intros Hsub Hj Hsn.
  change [KName (sub_name sub); KNum j; KSnap sn]
    with ([KName (sub_name sub); KNum j] ++ [KSnap sn]).
  apply in_cross; [|now apply in_snap_index].
  unfold cycle_index. apply in_flat_map. exists sub. split; [assumption|].
  apply in_map_iff. exists j. split; [reflexivity|]. apply in_seq. lia.
Qed.

(** What the two cycle-based formulations register as cycle constraints,
    from the same state: the same component. *)
Lemma cycle_constraints_same (network : Network F) (snapshots : list snapshot)
    (s sk sc : NetState F) :
  define_passive_branch_flows_with_kirchhoff network snapshots s = Return sk ->
  define_passive_branch_flows_with_cycles network snapshots s = Return sc ->
  NoDup (name_index sub_name (sub_networks network)) ->
  exists fam defs flows cycles,
    m_cons (model sk) = ("cycle_constraints", fam) :: m_cons (model s)
    /\ m_cons (model sc)
       = ("cycle_constraints", fam) :: ("passive_branch_p_def", defs) :: m_cons (model s)
    /\ m_vars (model sk) = ("passive_branch_p", flows) :: m_vars (model s)
    /\ m_vars (model sc)
       = ("passive_branch_p", flows) :: ("cycles", cycles) :: m_vars (model s)
    /\ dkeys fam = cross (cycle_index network) (snap_index snapshots)
    /\ forall sub j sn, In sub (sub_networks network) -> j < mat_ncols (sub_C sub) ->
         In sn snapshots ->
         exists terms,
           kvl_terms sub j sn = Return terms
           /\ dget fam [KName (sub_name sub); KNum j; KSnap sn]
              = Some (equals_zero (LExpression_terms terms)).
Proof.
  unfold define_passive_branch_flows_with_kirchhoff,
         define_passive_branch_flows_with_cycles.
  intros Hk Hc Hnd.
  bstep Hk dk Hdk. lstep Hk mk famk Hfamk. inversion Hk; subst sk. clear Hk.
  bstep Hc flows Hflows. lstep Hc mc defs Hdefs.
  bstep Hc dc Hdc. lstep Hc mc' famc Hfamc. inversion Hc; subst sc. clear Hc.
  assert (E : Return dk = Return dc) by (rewrite <- Hdk; exact Hdc).
  inversion E; subst dc. clear E.
  assert (Ef : Return famk = Return famc) by (rewrite <- Hfamk; exact Hfamc).
  inversion Ef; subst famc. clear Ef.
  eexists famk, defs, _, _. simpl.
  split; [reflexivity|]. split; [reflexivity|]. split; [reflexivity|].
  split; [reflexivity|].
  split; [now apply l_constraint_keys in Hfamk|].
  intros sub j sn Hsub Hj Hsn.
  destruct (l_constraint_dget _ _ _ Hfamk
              (@in_cycle_index network snapshots sub j sn Hsub Hj Hsn))
    as [c [Hcget ->]].
  destruct (@cycle_constraints_content network snapshots _ dk Hdk Hnd sub j sn Hsub Hj Hsn)
    as [terms [Ht Hg]].
  exists terms. split; [assumption|]. rewrite Hg in Hcget. inversion Hcget.
  reflexivity.
Qed.

(** C4. The cycle constraints of the formulation "kirchhoff" are those of
    the formulation "cycles": for each sub-network, cycle [j] and snapshot
    the constraint that the sum of
    [impedance[i] * C[i,j] * passive_branch_p[branch_i, t]] over the branches
    of the cycle is zero, the impedance being [r_pu] for a DC sub-network
    and [x_pu] otherwise; and "kirchhoff" declares no variables [cycles],
    which "cycles" does. *)
Theorem kirchhoff_cycle_constraints (network : Network F) (snapshots : list snapshot)
    (ptdf_tolerance : F) (sk sc : NetState F) :
  build_model network snapshots "kirchhoff" ptdf_tolerance = Return sk ->
  build_model network snapshots "cycles" ptdf_tolerance = Return sc ->
  NoDup (name_index sub_name (sub_networks network)) ->
  exists fam,
    assoc "cycle_constraints" (m_cons (model sk)) = Some fam
    /\ assoc "cycle_constraints" (m_cons (model sc)) = Some fam
    /\ dkeys fam = cross (cycle_index network) (snap_index snapshots)
    /\ (forall sub j sn, In sub (sub_networks network) -> j < mat_ncols (sub_C sub) ->
          In sn snapshots ->
          exists terms,
            kvl_terms sub j sn = Return terms
            /\ dget fam [KName (sub_name sub); KNum j; KSnap sn]
               = Some (equals_zero (LExpression_terms terms)))
    /\ assoc "cycles" (m_vars (model sk)) = None
    /\ assoc "cycles" (m_vars (model sc)) <> None.
Proof.
  intros Hk Hc Hnd.
  build_steps Hk.
  apply build_model_inv in Hc.
  destruct Hc as (m1' & m2' & m3' & m4' & m5' & s6' & s7' & m8' & s9' & m10' & m11'
                  & Hgen' & Hsu' & Hst' & Hext' & Hlink' & Hbal' & Hflow' & Hlim' & Hnodal'
                  & Hco2' & Hobj' & Hs').
  rewrite Hgen in Hgen'. inversion Hgen'; subst m1'.
  rewrite Hsu in Hsu'. inversion Hsu'; subst m2'.
  rewrite Hst in Hst'. inversion Hst'; subst m3'.
  rewrite Hext in Hext'. inversion Hext'; subst m4'.
  rewrite Hlink in Hlink'. inversion Hlink'; subst m5'.
  rewrite Hbal in Hbal'. inversion Hbal'; subst s6'.
  clear Hgen' Hsu' Hst' Hext' Hlink' Hbal'.
  assert (Hpre : declares snapshots ConcreteModel (model s6)
                   ["link_p"; "link_p_nom"; "passive_branch_s_nom"; "store_e_nom";
                    "store_e"; "store_p"; "state_of_charge"; "storage_p_nom";
                    "storage_p_spill"; "storage_p_store"; "storage_p_dispatch";
                    "generator_p_nom"; "generator_p"] base_cons).
  { apply define_nodal_balances_model in Hbal. destruct Hbal as [Em _]. rewrite Em.
    simpl.
    apply define_generator_variables_constraints_extends in Hgen.
    apply define_storage_variables_constraints_extends in Hsu.
    apply define_store_variables_constraints_extends in Hst.
    apply define_branch_extension_variables_extends in Hext.
    apply define_link_flows_extends in Hlink.
    pose proof (extends_trans (extends_trans (extends_trans (extends_trans Hgen Hsu) Hst)
                                             Hext) Hlink) as Hpre.
    eapply declares_weaken; [apply extends_declares, Hpre | apply incl_refl |].
    intros x Hx. unfold base_cons. simpl in *. tauto. }
  unfold define_passive_branch_flows in Hflow, Hflow'. simpl in Hflow, Hflow'.
  destruct (@cycle_constraints_same network snapshots s6 s7 s7' Hflow Hflow' Hnd)
    as (fam & defs & flows & cycles & Ek & Ec & Evk & Evc & Hkeys & Hget).
  apply define_passive_branch_constraints_extends in Hlim, Hlim'.
  apply balance_step_declares in Hnodal, Hnodal'. simpl in Hnodal, Hnodal'.
  apply co2_step_declares in Hco2, Hco2'.
  apply define_linear_objective_frame in Hobj, Hobj'.
  destruct Hobj as (Ev & Ecn & _). destruct Hobj' as (Ev' & Ecn' & _).
  exists fam. subst sk sc. simpl. rewrite Ev, Ev', Ecn, Ecn'.
  rewrite (declares_assoc_cons "cycle_constraints" Hco2) by not_in_names.
  rewrite (declares_assoc_cons "cycle_constraints" Hco2') by not_in_names.
  rewrite (declares_assoc_cons "cycle_constraints" Hnodal) by not_in_names.
  rewrite (declares_assoc_cons "cycle_constraints" Hnodal') by not_in_names.
  rewrite (extends_assoc_cons "cycle_constraints" Hlim) by not_in_names.
  rewrite (extends_assoc_cons "cycle_constraints" Hlim') by not_in_names.
  rewrite (declares_assoc_vars "cycles" Hco2) by not_in_names.
  rewrite (declares_assoc_vars "cycles" Hco2') by not_in_names.
  rewrite (declares_assoc_vars "cycles" Hnodal) by not_in_names.
  rewrite (declares_assoc_vars "cycles" Hnodal') by not_in_names.
  rewrite (extends_assoc_vars "cycles" Hlim) by not_in_names.
  rewrite (extends_assoc_vars "cycles" Hlim') by not_in_names.
  rewrite Ek, Ec, Evk, Evc. simpl.
  split; [reflexivity|]. split; [reflexivity|]. split; [assumption|].
  split; [assumption|]. split; [|discriminate].
  rewrite (declares_assoc_vars "cycles" Hpre) by not_in_names. reflexivity.
Qed.

End Cycles.


(** ** The state of charge of the storage units *)

Lemma nth_error_last {A : Type} (l : list A) (z d : A) :
  nth_error l (List.length l - 1) = Some z -> last l d = z.
Proof.
  induction l as [|a l IH]; [discriminate|].
  destruct l as [|b l'].
  - simpl. intro H. now inversion H.
  - intro H. change (last (a :: b :: l') d) with (last (b :: l') d). apply IH.
    simpl in *. now rewrite Nat.sub_0_r in *.
Qed.

Lemma py_getitem_prev {A : Type} (l : list A) (i : nat) (x y : A) :
  nth_error l i = Some x ->
  py_getitem l (Z.of_nat i - 1) = Return y ->
  y = match i with
      | 0 => last l x
      | S i' => nth i' l x
      end.
Proof.
  intros Hx H. unfold py_getitem in H.
  assert (Hlen : i < List.length l) by (apply nth_error_Some; congruence).
  destruct i as [|i'].
  - cbv beta zeta in H. change (Z.of_nat 0 - 1)%Z with (-1)%Z in H.
    change ((-1 <? 0)%Z) with true in H. cbv iota in H.
    replace (-1 + Z.of_nat (List.length l))%Z with (Z.of_nat (List.length l - 1)) in H
      by lia.
    destruct (Z.of_nat (List.length l - 1) <? 0)%Z eqn:E; [discriminate|].
    rewrite Nat2Z.id in H.
    destruct (nth_error l (List.length l - 1)) as [z|] eqn:En; [|discriminate].
    inversion H; subst z. clear H E.
    symmetry. now apply nth_error_last.
  - cbv beta zeta in H.
    replace (Z.of_nat (S i') - 1)%Z with (Z.of_nat i') in H by lia.
    destruct (Z.of_nat i' <? 0)%Z eqn:E; [lia|].
    rewrite E, Nat2Z.id in H.
    destruct (nth_error l i') as [z|] eqn:En; [|discriminate].
    inversion H; subst z. symmetry. now apply nth_error_nth.
Qed.

Lemma fold_left_last_some {A B : Type} (g : A -> B) (l : list A) (init : option B)
    (d : A) :
  fold_left (fun _ x => Some (g x)) l init
  = match l with
    | [] => init
    | _ :: _ => Some (g (last l d))
    end.
Proof.
  revert init. induction l as [|x l IH]; intros init; [reflexivity|].
  simpl fold_left. rewrite IH. destruct l; reflexivity.
Qed.

Lemma list_prod_app_l {A B : Type} (l1 l2 : list A) (l : list B) :
  list_prod (l1 ++ l2) l = list_prod l1 l ++ list_prod l2 l.
Proof.
  induction l1 as [|a l1 IH]; simpl; [reflexivity|].
  now rewrite IH, app_assoc.
Qed.

Lemma list_prod_snoc {A B : Type} (l1 : list A) (l2 : list B) (a : A) (b : B) :
  list_prod (l1 ++ [a]) (l2 ++ [b])
  = (list_prod l1 (l2 ++ [b]) ++ map (fun y => (a, y)) l2) ++ [(a, b)].
Proof.
  rewrite list_prod_app_l.
  change (list_prod [a] (l2 ++ [b])) with (map (fun y => (a, y)) (l2 ++ [b]) ++ []).
  rewrite app_nil_r, map_app. simpl. now rewrite !app_assoc.
Qed.

Lemma last_list_prod {A B : Type} (l1 : list A) (l2 : list B) (d : A * B) :
  l1 <> [] -> l2 <> [] ->
  last (list_prod l1 l2) d = (last l1 (fst d), last l2 (snd d)).
Proof.
  intros H1 H2.
  destruct (exists_last H1) as [l1' [a ->]].
  destruct (exists_last H2) as [l2' [b ->]].
  now rewrite list_prod_snoc, !last_last.
Qed.

Lemma enumerate_app {A : Type} (l : list A) (x : A) :
  enumerate (l ++ [x]) = enumerate l ++ [(List.length l, x)].
Proof.
  unfold enumerate.
  assert (G : forall k, combine (seq k (List.length (l ++ [x]))) (l ++ [x])
                        = combine (seq k (List.length l)) l ++ [(k + List.length l, x)]).
  { induction l as [|a l IH]; intro k; simpl.
    - now rewrite Nat.add_0_r.
    - rewrite IH. now rewrite Nat.add_succ_r. }
  apply G.
Qed.

Lemma last_enumerate {A : Type} (l : list A) (d : nat * A) :
  l <> [] -> snd (last (enumerate l) d) = last l (snd d).
Proof.
  intro H. rewrite (app_removelast_last (snd d) H) at 1.
  rewrite enumerate_app, last_last. reflexivity.
Qed.

Lemma enumerate_nil_iff {A : Type} (l : list A) : enumerate l = [] -> l = [].
Proof. destruct l; [reflexivity | discriminate]. Qed.

Lemma NoDup_nth_error_injective {A : Type} (l : list A) (i j : nat) (x : A) :
  NoDup l -> nth_error l i = Some x -> nth_error l j = Some x -> i = j.
Proof.
  intros Hnd Hi Hj. apply (proj1 (NoDup_nth_error l) Hnd).
  - apply nth_error_Some. congruence.
  - congruence.
Qed.

Section StateOfCharge.

Context {F : Type} {SF : Scalar F}.

Ltac getvars :=
  repeat match goal with
         | Hg : getvar _ _ _ = Return _ |- _ =>
             apply getvar_inv in Hg; destruct Hg as [-> _]
         end.

(** One iteration of the loop stores the constraint, but for its spill
    term, and leaves [elapsed_hours] at the weighting of its snapshot. *)
Lemma soc_step_spec (network : Network F) (snapshots : list snapshot) (m : Model F)
    (s s' : soc_state F) (su : StorageUnit F) (i : nat) (sn : snapshot) :
  soc_step network snapshots m s (su, (i, sn)) = Return s' ->
  nth_error snapshots i = Some sn ->
  soc s' = dset (soc s) [KName (su_name su); KSnap sn]
                (CTriple (soc_terms network snapshots su i sn) EQ
                         (soc_bound network snapshots su i sn))
  /\ elapsed_hours s' = Some (snapshot_weightings network sn).
Proof.
  unfold soc_step. cbv beta zeta. simpl fst. simpl snd. intros H Hi.
  unfold soc_terms, soc_bound, soc_prev. cbv zeta.
  destruct (storage_units_t_state_of_charge_set network sn (su_name su)) as [fixed|];
    destruct i as [|i']; simpl Nat.eqb in H; simpl andb in H;
    try destruct (su_cyclic_state_of_charge su); simpl negb in H; cbv iota in H;
    binv; subst; getvars;
    repeat match goal with
           | Hp : py_getitem _ _ = Return _ |- _ =>
               eapply py_getitem_prev in Hp; [|exact Hi]; simpl in Hp; subst
           end;
    simpl; split; reflexivity.
Qed.

Lemma soc_fold_spec (network : Network F) (snapshots : list snapshot) (m : Model F)
    (l : list (StorageUnit F * (nat * snapshot))) (s s' : soc_state F) :
  foldM (soc_step network snapshots m) l s = Return s' ->
  (forall x, In x l -> nth_error snapshots (fst (snd x)) = Some (snd (snd x))) ->
  soc s' = dupdate (soc s)
             (map (fun x => ([KName (su_name (fst x)); KSnap (snd (snd x))],
                             CTriple (soc_terms network snapshots (fst x) (fst (snd x))
                                                (snd (snd x)))
                                     EQ
                                     (soc_bound network snapshots (fst x) (fst (snd x))
                                                (snd (snd x))))) l)
  /\ elapsed_hours s'
     = fold_left (fun _ x => Some (snapshot_weightings network (snd (snd x)))) l
                 (elapsed_hours s).
Proof.
  revert s. induction l as [|[su [i sn]] l IH]; simpl; intros s H Hl.
  - inversion H. split; reflexivity.
  - apply bind_inv in H. destruct H as [s1 [H1 H]].
    apply soc_step_spec in H1; [|apply (Hl (su, (i, sn))); now left].
    destruct H1 as [E1 E2].
    destruct (IH _ H) as [E3 E4]; [intros x Hx; apply Hl; now right|].
    rewrite E3, E4, E1, E2. split; reflexivity.
Qed.

(** The loop over the spill index appends the spill term where the spill
    variable exists, and nowhere else. *)
Lemma spill_fold_spec (m : Model F) (hours : F) (idx : list index)
    (d d' : dict (cspec F)) :
  foldM (spill_step m (Some hours)) idx d = Return d' ->
  NoDup idx ->
  forall k,
    dget d' k
    = if mem_index k idx
      then option_map (append_term (fmul (fopp fone) hours, ("storage_p_spill", k)))
                      (dget d k)
      else dget d k.
Proof.
  revert d. induction idx as [|k0 idx IH]; simpl; intros d H Hnd k.
  - now inversion H.
  - apply bind_inv in H. destruct H as [d1 [H1 H]].
    inversion Hnd as [|? ? Hn Hnd']; subst.
    unfold spill_step in H1. apply bind_inv in H1. destruct H1 as [v [Hv H1]].
    apply getvar_inv in Hv. destruct Hv as [-> _].
    unfold dmodify in H1. apply bind_inv in H1. destruct H1 as [c [Hc H1]].
    inversion H1; subst d1. clear H1.
    unfold dlookup in Hc. destruct (dget d k0) as [c0|] eqn:E0; [|discriminate].
    inversion Hc; subst c0. clear Hc.
    rewrite (IH _ H Hnd' k).
    destruct (index_eqb k k0) eqn:E.
    + apply index_eqb_eq in E. subst k0. simpl.
      replace (mem_index k idx) with false.
      * rewrite dget_dset_same, E0. reflexivity.
      * symmetry. destruct (mem_index k idx) eqn:Em; [|reflexivity].
        apply mem_index_In in Em. contradiction.
    + simpl. rewrite dget_dset_other; [reflexivity|].
      intro Ek. subst k0. rewrite index_eqb_refl in E. discriminate.
Qed.

Lemma NoDup_spill_index (network : Network F) (snapshots : list snapshot) :
  NoDup (spill_index network snapshots).
Proof. unfold spill_index, spill_bounds. cbv zeta. apply dkeys_dict_of_list_NoDup. Qed.

Lemma su_key_injective (rows : list (StorageUnit F)) :
  NoDup (name_index su_name rows) ->
  forall a a', In a rows -> In a' rows -> su_name a = su_name a' -> a = a'.
Proof.
  intros Hnd a a' Ha Ha' E.
  apply (NoDup_map_injective (fun r => [KName (su_name r)]) rows); auto. congruence.
Qed.

(** What [define_storage_variables_constraints] registers as state of
    charge constraint. *)
Lemma define_storage_variables_constraints_soc (network : Network F)
    (snapshots : list snapshot) (m m' : Model F) (su : StorageUnit F) (i : nat)
    (sn : snapshot) :
  define_storage_variables_constraints network snapshots m = Return m' ->
  NoDup (name_index su_name (storage_units network)) ->
  NoDup snapshots ->
  In su (storage_units network) -> nth_error snapshots i = Some sn ->
  con_at m' "state_of_charge_constraint" [KName (su_name su); KSnap sn]
  = Some (soc_constraint network snapshots su i sn).
Proof.
  unfold define_storage_variables_constraints. intros H Hnd Hsnaps Hsu Hi.
  bstep H dispatch Hdispatch. bstep H store Hstore. bstep H spill Hspill.
  bstep H p_upper Hp_upper. bstep H p_lower Hp_lower. bstep H e He.
  bstep H upper_ext Hue. bstep H upper_fix Huf. lstep H m1 upper Hupper.
  bstep H s Hsoc. bstep H soc1 Hspillfold. lstep H m2 fam Hfam.
  apply l_constraint_inv in H. destruct H as [fixed [-> Hfixed]].
  unfold con_at. simpl m_cons. simpl assoc.
  assert (Hsn : In sn snapshots) by (eapply nth_error_In; eauto).
  assert (Hin : In [KName (su_name su); KSnap sn]
                   (cross (name_index su_name (storage_units network))
                          (snap_index snapshots))).
  { change [KName (su_name su); KSnap sn] with ([KName (su_name su)] ++ [KSnap sn]).
    apply in_cross; [now apply in_name_index | now apply in_snap_index]. }
  destruct (l_constraint_dget _ _ _ Hfam Hin) as [c [Hc ->]]. f_equal.
  assert (Hitems : forall x, In x (list_prod (storage_units network) (enumerate snapshots)) ->
                     nth_error snapshots (fst (snd x)) = Some (snd (snd x))).
  { intros [su' [i' sn']] Hx. apply in_prod_iff in Hx. destruct Hx as [_ Hx].
    now apply in_enumerate. }
  destruct (@soc_fold_spec _ _ _ _ _ _ Hsoc Hitems) as [Esoc Ehours].
  assert (Hx : In (su, (i, sn)) (list_prod (storage_units network) (enumerate snapshots))).
  { apply in_prod; [assumption | now apply in_enumerate]. }
  rewrite (fold_left_last_some (fun x => snapshot_weightings network (snd (snd x))) _ _
             (su, (i, sn))) in Ehours.
  destruct (list_prod (storage_units network) (enumerate snapshots)) as [|x0 l0] eqn:El;
    [contradiction|].
  rewrite <- El in *. clear x0 l0 El.
  rewrite last_list_prod in Ehours.
  2:{ intro E0. rewrite E0 in Hsu. contradiction. }
  2:{ intro E0. apply enumerate_nil_iff in E0. rewrite E0 in Hsn. contradiction. }
  simpl fst in Ehours. simpl snd in Ehours.
  rewrite last_enumerate in Ehours by (intro E0; rewrite E0 in Hsn; contradiction).
  simpl snd in Ehours.
  rewrite Ehours in Hspillfold.
  rewrite (@spill_fold_spec _ _ _ _ _ Hspillfold (NoDup_spill_index network snapshots)) in Hc.
  assert (Hget : dget (soc s) [KName (su_name su); KSnap sn]
                 = Some (CTriple (soc_terms network snapshots su i sn) EQ
                                 (soc_bound network snapshots su i sn))).
  { rewrite Esoc. apply dget_dupdate_functional.
    - apply in_map_iff. exists (su, (i, sn)). split; [reflexivity | assumption].
    - intros v' Hv'. apply in_map_iff in Hv'. destruct Hv' as [[su' [i' sn']] [E Hin']].
      simpl in E. inversion E as [[E1 E2 E3]]. subst sn'.
      pose proof (Hitems _ Hin') as Hi'. simpl in Hi'.
      apply in_prod_iff in Hin'. destruct Hin' as [Hsu' _].
      rewrite (su_key_injective _ Hnd su' su Hsu' Hsu E1).
      rewrite (@NoDup_nth_error_injective _ snapshots i' i sn Hsnaps Hi' Hi).
      reflexivity. }
  rewrite Hget in Hc. unfold soc_constraint. cbv zeta. unfold spill_hours.
  destruct (mem_index [KName (su_name su); KSnap sn] (spill_index network snapshots));
    simpl in Hc; inversion Hc; subst c; simpl; [reflexivity|].
  now rewrite app_nil_r.
Qed.

End StateOfCharge.


Section StateOfChargeBuild.

Context {F : Type} {SF : Scalar F}.

(** The components declared after the storage units. *)
Lemma build_after_storage (network : Network F) (snapshots : list snapshot)
    (formulation : string) (tol : F) (m2 m3 m4 m5 m8 m10 m11 : Model F)
    (s6 s7 s9 : NetState F) :
  define_store_variables_constraints network snapshots m2 = Return m3 ->
  define_branch_extension_variables network snapshots m3 = Return m4 ->
  define_link_flows network snapshots m4 = Return m5 ->
  define_nodal_balances network snapshots (mkNetState m5 None) = Return s6 ->
  define_passive_branch_flows network snapshots formulation tol s6 = Return s7 ->
  define_passive_branch_constraints network snapshots (model s7) = Return m8 ->
  (if (formulation =? "angles") || (formulation =? "kirchhoff")
   then define_nodal_balance_constraints network snapshots (mkNetState m8 (_p_balance s7))
   else if (formulation =? "ptdf") || (formulation =? "cycles")
   then define_sub_network_balance_constraints network snapshots
          (mkNetState m8 (_p_balance s7))
   else Return (mkNetState m8 (_p_balance s7))) = Return s9 ->
  match co2_limit network with
  | Some limit => define_co2_constraint network snapshots limit (model s9)
  | None => Return (model s9)
  end = Return m10 ->
  define_linear_objective network snapshots m10 = Return m11 ->
  forall name,
    ~ In name ["co2_constraint"; "power_balance"; "sub_network_balance_constraint";
               "flow_lower"; "flow_upper"; "passive_branch_p_def"; "slack_angle";
               "cycle_constraints"; "link_p_lower"; "link_p_upper"; "store_constraint";
               "store_e_lower"; "store_e_upper"] ->
    assoc name (m_cons m11) = assoc name (m_cons m2).
Proof.
  intros Hst Hext Hlink Hbal Hflow Hlim Hnodal Hco2 Hobj name Hn.
  apply define_store_variables_constraints_extends in Hst.
  apply define_branch_extension_variables_extends in Hext.
  apply define_link_flows_extends in Hlink.
  apply define_nodal_balances_model in Hbal. destruct Hbal as [Em _]. simpl in Em.
  apply define_passive_branch_flows_declares in Hflow. destruct Hflow as [Hflow _].
  rewrite Em in Hflow.
  apply define_passive_branch_constraints_extends in Hlim.
  apply balance_step_declares in Hnodal. simpl in Hnodal.
  apply co2_step_declares in Hco2.
  apply define_linear_objective_frame in Hobj. destruct Hobj as (_ & Ec & _).
  rewrite Ec.
  rewrite (declares_assoc_cons name Hco2) by (simpl in *; tauto).
  rewrite (declares_assoc_cons name Hnodal) by (simpl in *; tauto).
  rewrite (extends_assoc_cons name Hlim) by (simpl in *; tauto).
  rewrite (declares_assoc_cons name Hflow) by (simpl in *; tauto).
  rewrite (extends_assoc_cons name Hlink) by (simpl in *; tauto).
  rewrite (extends_assoc_cons name Hext) by (simpl in *; tauto).
  rewrite (extends_assoc_cons name Hst) by (simpl in *; tauto).
  reflexivity.
Qed.

(** C2. In the built model the state of charge constraint of a storage unit
    at the snapshot at position [i] of the solve window is [soc_constraint]:
    its previous state of charge [soc_prev] is, at the first snapshot, the
    constant [state_of_charge_initial] (times the decay, on the constant
    side) when the unit is not cyclic and the state of charge variable of
    the last snapshot of the window when it is, and at every later snapshot
    the state of charge variable of the snapshot before. *)
Theorem soc_previous_state (network : Network F) (snapshots : list snapshot)
    (formulation : string) (ptdf_tolerance : F) (s : NetState F)
    (su : StorageUnit F) (i : nat) (sn : snapshot) :
  build_model network snapshots formulation ptdf_tolerance = Return s ->
  NoDup (name_index su_name (storage_units network)) ->
  NoDup snapshots ->
  In su (storage_units network) -> nth_error snapshots i = Some sn ->
  con_at (model s) "state_of_charge_constraint" [KName (su_name su); KSnap sn]
  = Some (soc_constraint network snapshots su i sn).
Proof.
  intros H Hnd Hsnaps Hunit Hi. build_steps H.
  rewrite <- (@define_storage_variables_constraints_soc _ _ network snapshots m1 m2 su i sn
                Hsu Hnd Hsnaps Hunit Hi).
  unfold con_at. subst s. simpl.
  rewrite (@build_after_storage network snapshots formulation ptdf_tolerance
             m2 m3 m4 m5 m8 m10 m11 s6 s7 s9
             Hst Hext Hlink Hbal Hflow Hlim Hnodal Hco2 Hobj)
    by not_in_names.
  reflexivity.
Qed.

End StateOfChargeBuild.


(** ** The objective *)

Section Objective.

Context {F : Type} {SF : Scalar F} {SR : ScalarRing F}.

Lemma scalar_ring_theory : ring_theory fzero fone fadd fmul fsub fopp (@eq F).
Proof.
  constructor.
  - apply fadd_0_l.
  - apply fadd_comm.
  - apply fadd_assoc.
  - apply fmul_1_l.
  - apply fmul_comm.
  - apply fmul_assoc.
  - apply fdistr_l.
  - apply fsub_def.
  - apply fopp_def.
Qed.

Add Ring scalar_ring : scalar_ring_theory.

Lemma fold_left_fadd (l : list F) (init : F) :
  fold_left fadd l init = fadd init (fsum l).
Proof.
  unfold fsum. revert init. induction l as [|x l IH]; simpl; intro init.
  - ring.
  - rewrite IH. rewrite (IH (fadd fzero x)). ring.
Qed.

Lemma fsum_cons (x : F) (l : list F) : fsum (x :: l) = fadd x (fsum l).
Proof. unfold fsum at 1. simpl. rewrite fold_left_fadd. ring. Qed.

Lemma fsum_app (l1 l2 : list F) : fsum (l1 ++ l2) = fadd (fsum l1) (fsum l2).
Proof.
  induction l1 as [|x l1 IH]; simpl.
  - unfold fsum at 2. simpl. ring.
  - rewrite !fsum_cons, IH. ring.
Qed.

Lemma terms_value_app (rho : var -> F) (l1 l2 : list (F * var)) :
  terms_value rho (l1 ++ l2) = fadd (terms_value rho l1) (terms_value rho l2).
Proof. unfold terms_value. now rewrite map_app, fsum_app. Qed.

Lemma terms_value_map {A : Type} (rho : var -> F) (c : A -> F) (v : A -> var)
    (l : list A) :
  terms_value rho (map (fun x => (c x, v x)) l)
  = fsum (map (fun x => fmul (c x) (rho (v x))) l).
Proof. unfold terms_value. now rewrite map_map. Qed.

(** The capital cost of an element type: the cost of the capacity variable
    minus the constant cost of the existing capacity. *)
Lemma fsum_capital {A : Type} (c x e : A -> F) (l : list A) :
  fsub (fsum (map (fun a => fmul (c a) (x a)) l))
       (fsum (map (fun a => fmul (c a) (e a)) l))
  = fsum (map (fun a => fmul (c a) (fsub (x a) (e a))) l).
Proof.
  induction l as [|a l IH]; simpl.
  - unfold fsum. simpl. ring.
  - rewrite !fsum_cons, <- IH. ring.
Qed.

Lemma fsum_zero {A : Type} (f : A -> F) (l : list A) :
  (forall a, In a l -> f a = fzero) -> fsum (map f l) = fzero.
Proof.
  induction l as [|a l IH]; simpl; intro H.
  - reflexivity.
  - rewrite fsum_cons, H, IH by auto. ring.
Qed.

(** The value of the objective that [define_linear_objective] attaches. *)
Lemma define_linear_objective_value (network : Network F) (snapshots : list snapshot)
    (m m' : Model F) :
  define_linear_objective network snapshots m = Return m' ->
  exists objective,
    m_objective m' = Some objective
    /\ constant objective = fopp (existing_capital network)
    /\ forall rho,
         lexpr_value rho objective
         = fadd (marginal_costs network snapshots rho) (capital_costs network rho).
Proof.
  unfold define_linear_objective. intro H.
  bstep H gens Hgens. bstep H sus Hsus. bstep H sts Hsts. bstep H lks Hlks.
  bstep H gen_nom Hgen_nom. bstep H su_nom Hsu_nom. bstep H st_nom Hst_nom.
  bstep H pb_nom Hpb_nom. bstep H ln_nom Hln_nom. cbv beta zeta in H.
  inversion H; subst m'. clear H.
  apply for2_pure with
    (g := fun gen sn => (fmul (g_marginal_cost gen) (snapshot_weightings network sn),
                         ("generator_p", [KName (g_name gen); KSnap sn]))) in Hgens;
    [|pure_rule].
  apply for2_pure with
    (g := fun su sn => (fmul (su_marginal_cost su) (snapshot_weightings network sn),
                        ("storage_p_dispatch", [KName (su_name su); KSnap sn]))) in Hsus;
    [|pure_rule].
  apply for2_pure with
    (g := fun store sn => (fmul (st_marginal_cost store) (snapshot_weightings network sn),
                           ("store_p", [KName (st_name store); KSnap sn]))) in Hsts;
    [|pure_rule].
  apply for2_pure with
    (g := fun link sn => (fmul (ln_marginal_cost link) (snapshot_weightings network sn),
                          ("link_p", [KName (ln_name link); KSnap sn]))) in Hlks;
    [|pure_rule].
  apply mapM_pure with
    (g := fun gen => (g_capital_cost gen, ("generator_p_nom", [KName (g_name gen)])))
    in Hgen_nom; [|pure_rule].
  apply mapM_pure with
    (g := fun su => (su_capital_cost su, ("storage_p_nom", [KName (su_name su)])))
    in Hsu_nom; [|pure_rule].
  apply mapM_pure with
    (g := fun store => (st_capital_cost store, ("store_e_nom", [KName (st_name store)])))
    in Hst_nom; [|pure_rule].
  apply mapM_pure with
    (g := fun b => (pb_capital_cost b,
                    ("passive_branch_s_nom", [KName (pb_type b); KName (pb_name b)])))
    in Hpb_nom; [|pure_rule].
  apply mapM_pure with
    (g := fun b => (ln_capital_cost b, ("link_p_nom", [KName (ln_name b)])))
    in Hln_nom; [|pure_rule].
  subst. eexists. split; [reflexivity|].
  split; [unfold existing_capital; simpl; ring|]. intro rho.
  unfold lexpr_value, marginal_costs, capital_costs. cbv zeta. simpl variables.
  simpl constant. simpl app.
  rewrite !terms_value_app.
  rewrite !(terms_value_map rho
              (fun p : Generator F * snapshot =>
                 fmul (g_marginal_cost (fst p)) (snapshot_weightings network (snd p)))
              (fun p => ("generator_p", [KName (g_name (fst p)); KSnap (snd p)]))).
  rewrite !(terms_value_map rho
              (fun p : StorageUnit F * snapshot =>
                 fmul (su_marginal_cost (fst p)) (snapshot_weightings network (snd p)))
              (fun p => ("storage_p_dispatch", [KName (su_name (fst p)); KSnap (snd p)]))).
  rewrite !(terms_value_map rho
              (fun p : Store F * snapshot =>
                 fmul (st_marginal_cost (fst p)) (snapshot_weightings network (snd p)))
              (fun p => ("store_p", [KName (st_name (fst p)); KSnap (snd p)]))).
  rewrite !(terms_value_map rho
              (fun p : Link F * snapshot =>
                 fmul (ln_marginal_cost (fst p)) (snapshot_weightings network (snd p)))
              (fun p => ("link_p", [KName (ln_name (fst p)); KSnap (snd p)]))).
  rewrite !(terms_value_map rho g_capital_cost
              (fun gen => ("generator_p_nom", [KName (g_name gen)]))).
  rewrite !(terms_value_map rho su_capital_cost
              (fun su => ("storage_p_nom", [KName (su_name su)]))).
  rewrite !(terms_value_map rho st_capital_cost
              (fun store => ("store_e_nom", [KName (st_name store)]))).
  rewrite !(terms_value_map rho pb_capital_cost
              (fun b => ("passive_branch_s_nom", [KName (pb_type b); KName (pb_name b)]))).
  rewrite !(terms_value_map rho ln_capital_cost
              (fun b => ("link_p_nom", [KName (ln_name b)]))).
  rewrite <- !fsum_capital.
  ring.
Qed.

(** C6. The objective of the built model has the constant minus the capital
    cost of the existing capacities of the extendable elements, and its
    value is the sum, over all generators, storage units (dispatch), stores
    and links and all snapshots, of marginal cost times snapshot weighting
    times dispatch, plus, over all extendable elements, capital cost times
    (capacity variable minus existing capacity): at the existing capacities
    the capital cost is zero. *)
Theorem objective_value (network : Network F) (snapshots : list snapshot)
    (formulation : string) (ptdf_tolerance : F) (s : NetState F) :
  build_model network snapshots formulation ptdf_tolerance = Return s ->
  exists objective,
    m_objective (model s) = Some objective
    /\ constant objective = fopp (existing_capital network)
    /\ (forall rho,
          lexpr_value rho objective
          = fadd (marginal_costs network snapshots rho) (capital_costs network rho))
    /\ (forall rho, at_existing_capacity network rho ->
          lexpr_value rho objective = marginal_costs network snapshots rho).
Proof.
  intro H. build_steps H.
  destruct (define_linear_objective_value _ _ _ Hobj) as (objective & Eo & Ec & Hv).
  exists objective. subst s. simpl. split; [assumption|]. split; [assumption|].
  split; [assumption|].
  intros rho (Hg & Hsu' & Hst' & Hpb & Hln). rewrite Hv.
  unfold capital_costs.
  rewrite !fsum_zero.
  - ring.
  - intros l Hl. apply filter_In in Hl. rewrite Hln by tauto. ring.
  - intros b Hb. apply filter_In in Hb. rewrite Hpb by tauto. ring.
  - intros u Hu. apply filter_In in Hu. rewrite Hst' by tauto. ring.
  - intros u Hu. apply filter_In in Hu. rewrite Hsu' by tauto. ring.
  - intros g Hg'. apply filter_In in Hg'. rewrite Hg by tauto. ring.
Qed.

End Objective.


(** ** The driver *)

Section Driver.

Context {F : Type} {SF : Scalar F}.

(** C8. After the solver has returned, [extract_optimisation_results] is
    called if and only if the solver reports status "ok" with termination
    condition "optimal", or status "warning" with termination condition
    "other", the latter after a warning; for every other pair the failure is
    reported, extraction is skipped and the results are left as they were. *)
Theorem extraction_if_optimal_or_suboptimal
    (controllable_one_port_types : list string)
    (spsolve : Matrix F -> list (list (option F)) -> list (list (option F)))
    (network : Network F) (snapshots : list snapshot) (formulation : string)
    (model : Model F) (sr : SolverResults F) (r : Results F) (trace : list (event F)) :
  after_solve controllable_one_port_types spsolve network snapshots formulation
              model sr r trace
  = if solver_optimal sr || solver_suboptimal sr
    then
      r' <- extract_optimisation_results controllable_one_port_types spsolve
              network snapshots formulation model sr r ;;
      Return (mkOutcome model sr r'
                (trace
                   ++ (if solver_suboptimal sr
                       then [EvPrint
                               "WARNING! Optimization might be sub-optimal. Writing output anyway"]
                       else [])
                   ++ [EvExtract snapshots formulation]))
    else
      Return (mkOutcome model sr r
                (trace ++ [EvPrint ("Optimisation failed with status " ++ sr_status sr
                                    ++ " and terminal condition "
                                    ++ sr_termination_condition sr)])).
Proof.
  unfold after_solve, solver_optimal, solver_suboptimal. cbv zeta.
  destruct (sr_status sr =? "ok") eqn:Eok.
  - apply String.eqb_eq in Eok. rewrite Eok. simpl.
    destruct (sr_termination_condition sr =? "optimal"); reflexivity.
  - simpl.
    destruct ((sr_status sr =? "warning") && (sr_termination_condition sr =? "other"));
      [|reflexivity].
    now rewrite <- app_assoc.
Qed.

Lemma recognized_false (formulation : string) :
  recognized formulation = false ->
  (formulation =? "angles") = false /\ (formulation =? "ptdf") = false
  /\ (formulation =? "cycles") = false /\ (formulation =? "kirchhoff") = false.
Proof.
  unfold recognized. intro H.
  apply orb_false_iff in H. destruct H as [H H4].
  apply orb_false_iff in H. destruct H as [H H3].
  apply orb_false_iff in H. destruct H as [H1 H2]. auto.
Qed.

(** The flow limits refer to the flow variables of every passive branch. *)
Lemma define_passive_branch_constraints_needs_flows (network : Network F)
    (snapshots : list snapshot) (m m' : Model F) (b : PassiveBranch F) (sn : snapshot) :
  define_passive_branch_constraints network snapshots m = Return m' ->
  In b (passive_branches network) -> In sn snapshots ->
  assoc "passive_branch_p" (m_vars m) <> None.
Proof.
  unfold define_passive_branch_constraints. intros H Hb Hsn.
  bstep H upper_fixed Hu1. bstep H upper_ext Hu2.
  destruct (pb_s_nom_extendable b) eqn:Eb.
  - assert (Hin : In b (filter pb_s_nom_extendable (passive_branches network)))
      by (apply filter_In; auto).
    destruct (for2_In _ _ _ b sn Hu2 Hin Hsn) as [y [Hy _]].
    binv.
    match goal with
    | Hg : getvar _ "passive_branch_p" _ = Return _ |- _ =>
        apply getvar_inv in Hg; destruct Hg as [_ [vfam [Hg _]]]
    end.
    congruence.
  - assert (Hin : In b (filter (fun b => negb (pb_s_nom_extendable b))
                               (passive_branches network)))
      by (apply filter_In; rewrite Eb; auto).
    destruct (for2_In _ _ _ b sn Hu1 Hin Hsn) as [y [Hy _]].
    binv.
    match goal with
    | Hg : getvar _ "passive_branch_p" _ = Return _ |- _ =>
        apply getvar_inv in Hg; destruct Hg as [_ [vfam [Hg _]]]
    end.
    congruence.
Qed.

(** C7, as the code has it. A formulation outside the recognized set is
    not checked and no error is raised for it before the build: the passive
    branch flow step does nothing, so that a model that gets built has no
    variables [passive_branch_p] and neither nodal nor sub-network balance
    constraints; and when the network has a passive branch and the solve
    window a snapshot, the build ends in an error, raised during the build
    where the flow limits fetch the flow variables. *)
Theorem unrecognized_formulation_unchecked (network : Network F)
    (snapshots : list snapshot) (formulation : string) (ptdf_tolerance : F) :
  recognized formulation = false ->
  (forall s, define_passive_branch_flows network snapshots formulation ptdf_tolerance s
             = Return s)
  /\ (forall s, build_model network snapshots formulation ptdf_tolerance = Return s ->
        assoc "passive_branch_p" (m_vars (model s)) = None
        /\ assoc "power_balance" (m_cons (model s)) = None
        /\ assoc "sub_network_balance_constraint" (m_cons (model s)) = None)
  /\ (passive_branches network <> [] -> snapshots <> [] ->
      is_raise (build_model network snapshots formulation ptdf_tolerance) = true).
Proof.
  intro Hr. apply recognized_false in Hr. destruct Hr as (E1 & E2 & E3 & E4).
  assert (Hflows : forall s, define_passive_branch_flows network snapshots formulation
                               ptdf_tolerance s = Return s).
  { intro s. unfold define_passive_branch_flows. now rewrite E1, E2, E3, E4. }
  assert (Hbuild : forall s, build_model network snapshots formulation ptdf_tolerance
                             = Return s ->
            exists m5 m8,
              define_passive_branch_constraints network snapshots m5 = Return m8
              /\ assoc "passive_branch_p" (m_vars m5) = None
              /\ assoc "passive_branch_p" (m_vars (model s)) = None
              /\ assoc "power_balance" (m_cons (model s)) = None
              /\ assoc "sub_network_balance_constraint" (m_cons (model s)) = None).
  { intros s H. build_steps H.
    rewrite Hflows in Hflow. inversion Hflow; subst s7. clear Hflow.
    rewrite E1, E2, E3, E4 in Hnodal. simpl in Hnodal. inversion Hnodal; subst s9.
    clear Hnodal. simpl in Hco2.
    pose proof Hbal as Hbal'.
    apply define_nodal_balances_model in Hbal'. destruct Hbal' as [Em _]. simpl in Em.
    rewrite Em in Hlim. exists m5, m8. split; [assumption|].
    apply define_generator_variables_constraints_extends in Hgen.
    apply define_storage_variables_constraints_extends in Hsu.
    apply define_store_variables_constraints_extends in Hst.
    apply define_branch_extension_variables_extends in Hext.
    apply define_link_flows_extends in Hlink.
    pose proof (extends_trans (extends_trans (extends_trans (extends_trans Hgen Hsu) Hst)
                                             Hext) Hlink) as Hpre.
    apply define_passive_branch_constraints_extends in Hlim.
    apply co2_step_declares in Hco2.
    apply define_linear_objective_frame in Hobj. destruct Hobj as (Ev & Ec & _).
    assert (Hv5 : assoc "passive_branch_p" (m_vars m5) = None).
    { rewrite (extends_assoc_vars "passive_branch_p" Hpre) by not_in_names. reflexivity. }
    split; [assumption|]. subst s. simpl. rewrite Ev, Ec.
    rewrite (declares_assoc_vars "passive_branch_p" Hco2) by not_in_names.
    rewrite (extends_assoc_vars "passive_branch_p" Hlim) by not_in_names.
    rewrite (declares_assoc_cons "power_balance" Hco2) by not_in_names.
    rewrite (extends_assoc_cons "power_balance" Hlim) by not_in_names.
    rewrite (extends_assoc_cons "power_balance" Hpre) by not_in_names.
    rewrite (declares_assoc_cons "sub_network_balance_constraint" Hco2) by not_in_names.
    rewrite (extends_assoc_cons "sub_network_balance_constraint" Hlim) by not_in_names.
    rewrite (extends_assoc_cons "sub_network_balance_constraint" Hpre) by not_in_names.
    auto. }
  split; [assumption|]. split.
  - intros s H. destruct (Hbuild s H) as (m5 & m8 & _ & _ & H1 & H2 & H3). auto.
  - intros Hb Hsn.
    destruct (build_model network snapshots formulation ptdf_tolerance) as [e|s] eqn:E;
      [reflexivity|].
    exfalso. destruct (Hbuild s eq_refl) as (m5 & m8 & Hlim & Hnone & _).
    destruct (passive_branches network) as [|b bs] eqn:Eb; [contradiction|].
    destruct snapshots as [|sn sns]; [contradiction|].
    apply (@define_passive_branch_constraints_needs_flows network (sn :: sns) m5 m8 b sn);
      auto.
    + rewrite Eb. now left.
    + now left.
Qed.

End Driver.


(** ** Result extraction *)

Section Extraction.

Context {F : Type} {SF : Scalar F}.

Lemma mem_snapshot_In (sn : snapshot) (snapshots : list snapshot) :
  mem_snapshot sn snapshots = true <-> In sn snapshots.
Proof.
  unfold mem_snapshot. rewrite existsb_exists. split.
  - intros [x [Hx E]]. apply Nat.eqb_eq in E. now subst.
  - intro H. exists sn. split; [assumption | apply Nat.eqb_refl].
Qed.

Lemma mem_snapshot_notin (sn : snapshot) (snapshots : list snapshot) :
  ~ In sn snapshots -> mem_snapshot sn snapshots = false.
Proof.
  intro H. destruct (mem_snapshot sn snapshots) eqn:E; [|reflexivity].
  apply mem_snapshot_In in E. contradiction.
Qed.

(** *** Rows outside the solve window *)

Lemma ow_refl (snapshots : list snapshot) (r : Results F) :
  outside_window snapshots r r.
Proof. intros name sn col _. now left. Qed.

Lemma ow_trans (snapshots : list snapshot) (r1 r2 r3 : Results F) :
  outside_window snapshots r1 r2 -> outside_window snapshots r2 r3 ->
  outside_window snapshots r1 r3.
Proof.
  intros H12 H23 name sn col Hsn.
  destruct (H12 name sn col Hsn) as [E12|(En & E1 & E2)];
    destruct (H23 name sn col Hsn) as [E23|(En' & E2' & E3)].
  - left. congruence.
  - right. rewrite <- E12. auto.
  - right. rewrite E23. auto.
  - congruence.
Qed.

Lemma ow_set_loc (snapshots : list snapshot) (r : Results F) (n : string)
    (rows : table F) :
  outside_window snapshots r (set_table r n (loc_set snapshots (tables r n) rows)).
Proof.
  intros name sn col Hsn. left. unfold set_table, loc_set. simpl.
  destruct (name =? n) eqn:E; [|reflexivity].
  apply String.eqb_eq in E. subst n. now rewrite mem_snapshot_notin.
Qed.

Lemma ow_set_loc_cols (snapshots : list snapshot) (r : Results F) (n : string)
    (cols : list index) (rows : table F) :
  outside_window snapshots r
    (set_table r n (loc_set_cols snapshots cols (tables r n) rows)).
Proof.
  intros name sn col Hsn. left. unfold set_table, loc_set_cols. simpl.
  destruct (name =? n) eqn:E; [|reflexivity].
  apply String.eqb_eq in E. subst n. now rewrite mem_snapshot_notin.
Qed.

Lemma ow_set_series (snapshots : list snapshot) (r : Results F) (n : string)
    (s : series F) :
  outside_window snapshots r (set_series snapshots r n s).
Proof. unfold set_series, set_from_series. apply ow_set_loc. Qed.

Lemma ow_fillna (snapshots : list snapshot) (r : Results F) :
  outside_window snapshots r
    (set_table r "storage_units_t.spill" (fillna0 (tables r "storage_units_t.spill"))).
Proof.
  intros name sn col Hsn. unfold set_table, fillna0. simpl.
  destruct (name =? "storage_units_t.spill") eqn:E; [|now left].
  apply String.eqb_eq in E. subst name.
  destruct (tables r "storage_units_t.spill" sn col) eqn:Et; [now left|].
  right. auto.
Qed.

Lemma ow_objective (snapshots : list snapshot) (r : Results F) (o : option F) :
  outside_window snapshots r (mkResults o (tables r) (columns r)).
Proof. intros name sn col _. now left. Qed.

Lemma ow_set_column (snapshots : list snapshot) (r : Results F) (n : string)
    (c : column F) :
  outside_window snapshots r (set_column r n c).
Proof. intros name sn col _. now left. Qed.

Lemma ow_set_nom_opt {A : Type} (snapshots : list snapshot) (r : Results F) (n : string)
    (rows : list A) (col : A -> index) (nom : A -> F) (ext : A -> bool) (opt : series F) :
  outside_window snapshots r (set_nom_opt r n rows col nom ext opt).
Proof. unfold set_nom_opt. apply ow_set_column. Qed.

End Extraction.

(** Peels the writes of an extraction block off, from the last one. *)
Ltac ow :=
  repeat first
    [ apply ow_refl
    | eapply ow_trans;
      [| first [ refine (ow_set_loc _ _ _ _) | refine (ow_set_loc_cols _ _ _ _ _)
               | refine (ow_fillna _ _) | refine (ow_set_series _ _ _ _)
               | refine (ow_objective _ _ _) | refine (ow_set_nom_opt _ _ _ _ _ _ _ _)
               | refine (ow_set_column _ _ _ _) ] ] ].

Section ExtractionBlocks.

Context {F : Type} {SF : Scalar F}.

Lemma ow_extract_generators (network : Network F) (snapshots : list snapshot)
    (m : Model F) (sr : SolverResults F) (r r' : Results F) :
  extract_generators network snapshots m sr r = Return r' ->
  outside_window snapshots r r'.
Proof.
  unfold extract_generators. intro H.
  destruct (nonempty (generators network)); binv; subst; ow.
Qed.

Lemma ow_extract_storage_units (network : Network F) (snapshots : list snapshot)
    (m : Model F) (sr : SolverResults F) (r r' : Results F) :
  extract_storage_units network snapshots m sr r = Return r' ->
  outside_window snapshots r r'.
Proof.
  unfold extract_storage_units. intro H.
  destruct (nonempty (storage_units network)); [|binv; subst; ow].
  bstep H dispatch Hd. bstep H store Hs. bstep H e He. bstep H r1 Hr1.
  inversion H; subst r'. clear H.
  destruct (existsb _ (storage_units network)); binv; subst; ow.
Qed.

Lemma ow_extract_stores (network : Network F) (snapshots : list snapshot)
    (m : Model F) (sr : SolverResults F) (r r' : Results F) :
  extract_stores network snapshots m sr r = Return r' ->
  outside_window snapshots r r'.
Proof.
  unfold extract_stores. intro H.
  destruct (nonempty (stores network)); binv; subst; ow.
Qed.

Lemma ow_extract_loads (network : Network F) (snapshots : list snapshot) (r : Results F) :
  outside_window snapshots r (extract_loads network snapshots r).
Proof. unfold extract_loads. destruct (nonempty (loads network)); ow. Qed.

Lemma ow_extract_bus_injections (types : list string) (network : Network F)
    (snapshots : list snapshot) (r r' : Results F) :
  extract_bus_injections types network snapshots r = Return r' ->
  outside_window snapshots r r'.
Proof.
  unfold extract_bus_injections. cbv zeta. intro H.
  destruct (nonempty (buses network)); [|binv; subst; ow].
  destruct (nonempty (filter _ _)); [|discriminate].
  binv; subst; ow.
Qed.

Lemma ow_extract_passive_branches (network : Network F) (snapshots : list snapshot)
    (m : Model F) (sr : SolverResults F) (r r' : Results F) :
  extract_passive_branches network snapshots m sr r = Return r' ->
  outside_window snapshots r r'.
Proof.
  unfold extract_passive_branches. intro H. bstep H passive Hp.
  destruct (nonempty (passive_branches network)); binv; subst; ow.
Qed.

Lemma ow_extract_links (network : Network F) (snapshots : list snapshot)
    (m : Model F) (sr : SolverResults F) (r r' : Results F) :
  extract_links network snapshots m sr r = Return r' ->
  outside_window snapshots r r'.
Proof.
  unfold extract_links. intro H.
  destruct (nonempty (links network)); binv; subst; ow.
Qed.

Lemma ow_recover_angles
    (spsolve : Matrix F -> list (list (option F)) -> list (list (option F)))
    (snapshots : list snapshot) (subs : list (SubNetwork F)) (r : Results F) :
  outside_window snapshots r (fold_left (recover_angles spsolve snapshots) subs r).
Proof.
  revert r. induction subs as [|sub subs IH]; intro r; simpl; [apply ow_refl|].
  eapply ow_trans; [|apply IH].
  unfold recover_angles. cbv zeta. destruct (nonempty (sub_pvpqs sub)); ow.
Qed.

Lemma ow_extract_buses
    (spsolve : Matrix F -> list (list (option F)) -> list (list (option F)))
    (network : Network F) (snapshots : list snapshot) (formulation : string)
    (m : Model F) (sr : SolverResults F) (r r' : Results F) :
  extract_buses spsolve network snapshots formulation m sr r = Return r' ->
  outside_window snapshots r r'.
Proof.
  unfold extract_buses. intro H.
  destruct (nonempty (buses network)); [|binv; subst; ow].
  bstep H r1 Hr1. inversion H; subst r'. clear H.
  apply ow_trans with r1; [|ow].
  destruct (formulation =? "angles").
  - bstep Hr1 v_ang Hv. destruct (assoc "power_balance" (m_cons m)); [|discriminate].
    inversion Hr1; subst r1. ow.
  - destruct ((formulation =? "ptdf") || (formulation =? "cycles")
              || (formulation =? "kirchhoff")); inversion Hr1; subst r1.
    + apply ow_recover_angles.
    + apply ow_refl.
Qed.

Lemma ow_extract_nom_opt (network : Network F) (snapshots : list snapshot)
    (m : Model F) (sr : SolverResults F) (r r' : Results F) :
  extract_nom_opt network m sr r = Return r' ->
  outside_window snapshots r r'.
Proof.
  unfold extract_nom_opt. intro H. binv; subst.
  intros name sn col _. left. reflexivity.
Qed.

(** The steps of a successful extraction. *)
Lemma extract_optimisation_results_inv (types : list string)
    (spsolve : Matrix F -> list (list (option F)) -> list (list (option F)))
    (network : Network F) (snapshots : list snapshot) (formulation : string)
    (m : Model F) (sr : SolverResults F) (r r' : Results F) :
  extract_optimisation_results types spsolve network snapshots formulation m sr r
  = Return r' ->
  exists r1 r2 r3 r5 r6 r7 r8,
    extract_generators network snapshots m sr
      (mkResults (sr_lower_bound sr) (tables r) (columns r)) = Return r1
    /\ extract_storage_units network snapshots m sr r1 = Return r2
    /\ extract_stores network snapshots m sr r2 = Return r3
    /\ extract_bus_injections types network snapshots (extract_loads network snapshots r3)
       = Return r5
    /\ extract_passive_branches network snapshots m sr r5 = Return r6
    /\ extract_links network snapshots m sr r6 = Return r7
    /\ extract_buses spsolve network snapshots formulation m sr r7 = Return r8
    /\ extract_nom_opt network m sr
         (set_table r8 "buses_t.v_ang"
            (loc_set_cols snapshots (buses_of_carrier network "DC")
               (tables r8 "buses_t.v_ang") (fun _ _ => Some fzero))) = Return r'.
Proof.
  unfold extract_optimisation_results. intro H. binv.
  repeat eexists; eauto.
Qed.

(** Extraction writes rows of the solve window only. *)
Lemma extraction_in_window (types : list string)
    (spsolve : Matrix F -> list (list (option F)) -> list (list (option F)))
    (network : Network F) (snapshots : list snapshot) (formulation : string)
    (m : Model F) (sr : SolverResults F) (r r' : Results F) :
  extract_optimisation_results types spsolve network snapshots formulation m sr r
  = Return r' ->
  outside_window snapshots r r'.
Proof.
  intro H. apply extract_optimisation_results_inv in H.
  destruct H as (r1 & r2 & r3 & r5 & r6 & r7 & r8 & H1 & H2 & H3 & H5 & H6 & H7 & H8 & H9).
  apply ow_extract_generators in H1. apply ow_extract_storage_units in H2.
  apply ow_extract_stores in H3. apply ow_extract_bus_injections in H5.
  apply ow_extract_passive_branches in H6. apply ow_extract_links in H7.
  apply ow_extract_buses in H8. apply (ow_extract_nom_opt _ snapshots) in H9.
  eapply ow_trans; [apply ow_objective|].
  eapply ow_trans; [exact H1|]. eapply ow_trans; [exact H2|].
  eapply ow_trans; [exact H3|]. eapply ow_trans; [apply ow_extract_loads|].
  eapply ow_trans; [exact H5|]. eapply ow_trans; [exact H6|].
  eapply ow_trans; [exact H7|]. eapply ow_trans; [exact H8|].
  eapply ow_trans; [|exact H9]. ow.
Qed.

End ExtractionBlocks.


(** ** Marginal prices *)

Section MarginalPrices.

Context {F : Type} {SF : Scalar F}.

(** The blocks of the extraction other than the one for the buses leave the
    marginal prices alone. *)
Lemma mp_extract_generators (network : Network F) (snapshots : list snapshot)
    (m : Model F) (sr : SolverResults F) (r r' : Results F) :
  extract_generators network snapshots m sr r = Return r' ->
  tables r' "buses_t.marginal_price" = tables r "buses_t.marginal_price".
Proof.
  unfold extract_generators. intro H.
  destruct (nonempty (generators network)); binv; subst; reflexivity.
Qed.

Lemma mp_extract_storage_units (network : Network F) (snapshots : list snapshot)
    (m : Model F) (sr : SolverResults F) (r r' : Results F) :
  extract_storage_units network snapshots m sr r = Return r' ->
  tables r' "buses_t.marginal_price" = tables r "buses_t.marginal_price".
Proof.
  unfold extract_storage_units. intro H.
  destruct (nonempty (storage_units network)); [|binv; subst; reflexivity].
  bstep H dispatch Hd. bstep H store Hs. bstep H e He. bstep H r1 Hr1.
  inversion H; subst r'. clear H.
  destruct (existsb _ (storage_units network)); binv; subst; reflexivity.
Qed.

Lemma mp_extract_stores (network : Network F) (snapshots : list snapshot)
    (m : Model F) (sr : SolverResults F) (r r' : Results F) :
  extract_stores network snapshots m sr r = Return r' ->
  tables r' "buses_t.marginal_price" = tables r "buses_t.marginal_price".
Proof.
  unfold extract_stores. intro H.
  destruct (nonempty (stores network)); binv; subst; reflexivity.
Qed.

Lemma mp_extract_loads (network : Network F) (snapshots : list snapshot) (r : Results F) :
  tables (extract_loads network snapshots r) "buses_t.marginal_price"
  = tables r "buses_t.marginal_price".
Proof. unfold extract_loads. destruct (nonempty (loads network)); reflexivity. Qed.

Lemma mp_extract_bus_injections (types : list string) (network : Network F)
    (snapshots : list snapshot) (r r' : Results F) :
  extract_bus_injections types network snapshots r = Return r' ->
  tables r' "buses_t.marginal_price" = tables r "buses_t.marginal_price".
Proof.
  unfold extract_bus_injections. cbv zeta. intro H.
  destruct (nonempty (buses network)); [|binv; subst; reflexivity].
  destruct (nonempty (filter _ _)); [|discriminate].
  binv; subst; reflexivity.
Qed.

Lemma mp_extract_passive_branches (network : Network F) (snapshots : list snapshot)
    (m : Model F) (sr : SolverResults F) (r r' : Results F) :
  extract_passive_branches network snapshots m sr r = Return r' ->
  tables r' "buses_t.marginal_price" = tables r "buses_t.marginal_price".
Proof.
  unfold extract_passive_branches. intro H. bstep H passive Hp.
  destruct (nonempty (passive_branches network)); binv; subst; reflexivity.
Qed.

Lemma mp_extract_links (network : Network F) (snapshots : list snapshot)
    (m : Model F) (sr : SolverResults F) (r r' : Results F) :
  extract_links network snapshots m sr r = Return r' ->
  tables r' "buses_t.marginal_price" = tables r "buses_t.marginal_price".
Proof.
  unfold extract_links. intro H.
  destruct (nonempty (links network)); binv; subst; reflexivity.
Qed.

Lemma mp_extract_nom_opt (network : Network F) (m : Model F) (sr : SolverResults F)
    (r r' : Results F) :
  extract_nom_opt network m sr r = Return r' ->
  tables r' "buses_t.marginal_price" = tables r "buses_t.marginal_price".
Proof. unfold extract_nom_opt. intro H. binv; subst; reflexivity. Qed.

Lemma mp_recover_angles
    (spsolve : Matrix F -> list (list (option F)) -> list (list (option F)))
    (snapshots : list snapshot) (subs : list (SubNetwork F)) (r : Results F) :
  tables (fold_left (recover_angles spsolve snapshots) subs r) "buses_t.marginal_price"
  = tables r "buses_t.marginal_price".
Proof.
  revert r. induction subs as [|sub subs IH]; intro r; simpl; [reflexivity|].
  rewrite IH. unfold recover_angles. cbv zeta.
  destruct (nonempty (sub_pvpqs sub)); reflexivity.
Qed.

(** The block for the buses writes the marginal prices with the formulation
    "angles": the dual values of the constraints [power_balance]. *)
Lemma mp_extract_buses_angles
    (spsolve : Matrix F -> list (list (option F)) -> list (list (option F)))
    (network : Network F) (snapshots : list snapshot)
    (m : Model F) (sr : SolverResults F) (r r' : Results F)
    (power_balance : dict (ConData F)) :
  extract_buses spsolve network snapshots "angles" m sr r = Return r' ->
  buses network <> [] ->
  assoc "power_balance" (m_cons m) = Some power_balance ->
  tables r' "buses_t.marginal_price"
  = set_from_series snapshots (tables r "buses_t.marginal_price")
      (fun k => if mem_index k (dkeys power_balance)
                then sr_dual sr "power_balance" k else None).
Proof.
  unfold extract_buses. intros H Hb Hpb.
  destruct (buses network) as [|b bs] eqn:Eb; [contradiction|].
  unfold nonempty in H. simpl in H. rewrite Hpb in H. binv. subst. reflexivity.
Qed.

(** With every other formulation it leaves them alone. *)
Lemma mp_extract_buses_other
    (spsolve : Matrix F -> list (list (option F)) -> list (list (option F)))
    (network : Network F) (snapshots : list snapshot) (formulation : string)
    (m : Model F) (sr : SolverResults F) (r r' : Results F) :
  extract_buses spsolve network snapshots formulation m sr r = Return r' ->
  (formulation =? "angles") = false ->
  tables r' "buses_t.marginal_price" = tables r "buses_t.marginal_price".
Proof.
  unfold extract_buses. intros H Hf. rewrite Hf in H.
  destruct (nonempty (buses network)); [|binv; subst; reflexivity].
  destruct ((formulation =? "ptdf") || (formulation =? "cycles")
            || (formulation =? "kirchhoff")); binv; subst; simpl.
  - apply mp_recover_angles.
  - reflexivity.
Qed.

End MarginalPrices.


Section Runs.

Context {F : Type} {SF : Scalar F}.

(** Every component of a built model is indexed within the solve window. *)
Lemma build_in_window (network : Network F) (snapshots : list snapshot)
    (formulation : string) (tol : F) (s : NetState F) :
  build_model network snapshots formulation tol = Return s ->
  model_in_window snapshots (model s).
Proof.
  intro H. build_steps H.
  destruct (build_prefix _ _ _ _ Hgen Hsu Hst Hext Hlink Hbal Hflow) as [Hpre _].
  apply define_passive_branch_constraints_extends in Hlim.
  apply balance_step_declares in Hnodal. simpl in Hnodal.
  apply co2_step_declares in Hco2.
  apply define_linear_objective_frame in Hobj. destruct Hobj as (Ev & Ec & _).
  assert (W0 : model_in_window snapshots (@ConcreteModel F)) by (split; constructor).
  pose proof (declares_in_window Hpre W0) as W7.
  pose proof (extends_in_window Hlim W7) as W8.
  pose proof (declares_in_window Hnodal W8) as W9.
  pose proof (declares_in_window Hco2 W9) as W10.
  subst s. unfold model_in_window. simpl. rewrite Ev, Ec. exact W10.
Qed.

(** The per-bus balance constraints of a model built with "angles". *)
Lemma build_power_balance_angles (network : Network F) (snapshots : list snapshot)
    (tol : F) (s : NetState F) :
  build_model network snapshots "angles" tol = Return s ->
  exists fam,
    assoc "power_balance" (m_cons (model s)) = Some fam
    /\ dkeys fam = cross (name_index bus_name (buses network)) (snap_index snapshots).
Proof.
  intro H. build_steps H.
  destruct (build_prefix _ _ _ _ Hgen Hsu Hst Hext Hlink Hbal Hflow)
    as [_ [balance0 [Eb0 Hnd0]]].
  apply define_linear_objective_frame in Hobj. destruct Hobj as (_ & Ec & _).
  apply co2_step_declares in Hco2.
  simpl in Hnodal.
  destruct (define_nodal_balance_constraints_spec _ _ _ Hnodal Eb0 Hnd0)
    as (balance & fam & _ & Ecs & Hk & _).
  exists fam. split; [|assumption].
  subst s. simpl. rewrite Ec.
  rewrite (declares_assoc_cons "power_balance" Hco2) by not_in_names.
  rewrite Ecs. reflexivity.
Qed.

(** A model built with "ptdf" or "cycles" has no per-bus balance
    constraints. *)
Lemma build_no_power_balance (network : Network F) (snapshots : list snapshot)
    (formulation : string) (tol : F) (s : NetState F) :
  build_model network snapshots formulation tol = Return s ->
  formulation = "ptdf" \/ formulation = "cycles" ->
  assoc "power_balance" (m_cons (model s)) = None.
Proof.
  intros H Hf. build_steps H.
  destruct (build_prefix _ _ _ _ Hgen Hsu Hst Hext Hlink Hbal Hflow) as [Hpre _].
  apply define_passive_branch_constraints_extends in Hlim.
  apply define_linear_objective_frame in Hobj. destruct Hobj as (_ & Ec & _).
  apply co2_step_declares in Hco2.
  assert (Hsub : define_sub_network_balance_constraints network snapshots
                   (mkNetState m8 (_p_balance s7)) = Return s9)
    by (destruct Hf; subst formulation; exact Hnodal).
  apply define_sub_network_balance_constraints_extends in Hsub.
  destruct Hsub as [Hsub _]. simpl in Hsub.
  subst s. simpl. rewrite Ec.
  rewrite (declares_assoc_cons "power_balance" Hco2) by not_in_names.
  rewrite (extends_assoc_cons "power_balance" Hsub) by not_in_names.
  rewrite (extends_assoc_cons "power_balance" Hlim) by not_in_names.
  rewrite (declares_assoc_cons "power_balance" Hpre)
    by (unfold base_cons; not_in_names).
  reflexivity.
Qed.

(** The marginal prices after the extraction, by formulation. *)
Lemma extraction_marginal_price (types : list string)
    (spsolve : Matrix F -> list (list (option F)) -> list (list (option F)))
    (network : Network F) (snapshots : list snapshot) (formulation : string)
    (m : Model F) (sr : SolverResults F) (r r' : Results F) :
  extract_optimisation_results types spsolve network snapshots formulation m sr r
  = Return r' ->
  ((formulation =? "angles") = false ->
   tables r' "buses_t.marginal_price" = tables r "buses_t.marginal_price")
  /\ (forall power_balance,
        formulation = "angles" -> buses network <> [] ->
        assoc "power_balance" (m_cons m) = Some power_balance ->
        tables r' "buses_t.marginal_price"
        = set_from_series snapshots (tables r "buses_t.marginal_price")
            (fun k => if mem_index k (dkeys power_balance)
                      then sr_dual sr "power_balance" k else None)).
Proof.
  intro H. apply extract_optimisation_results_inv in H.
  destruct H as (r1 & r2 & r3 & r5 & r6 & r7 & r8 & H1 & H2 & H3 & H5 & H6 & H7 & H8 & H9).
  apply mp_extract_generators in H1. apply mp_extract_storage_units in H2.
  apply mp_extract_stores in H3. apply mp_extract_bus_injections in H5.
  apply mp_extract_passive_branches in H6. apply mp_extract_links in H7.
  apply mp_extract_nom_opt in H9. simpl in H1, H9.
  rewrite mp_extract_loads in H5.
  assert (E7 : tables r7 "buses_t.marginal_price" = tables r "buses_t.marginal_price")
    by congruence.
  split.
  - intro Hf. apply mp_extract_buses_other in H8; [|assumption]. congruence.
  - intros pb -> Hb Hpb.
    rewrite H9.
    rewrite (@mp_extract_buses_angles F SF spsolve network snapshots m sr r7 r8 pb
               H8 Hb Hpb).
    rewrite E7. reflexivity.
Qed.

(** C9, as the code has it. After a successful solve the extraction
    writes, with the formulation "angles", for every bus and every snapshot
    of the solve window the dual value that the solver reports for the
    constraint [power_balance] of that bus and snapshot into
    [buses_t.marginal_price]; with "ptdf" and "cycles" the model has no
    per-bus balance constraints and [buses_t.marginal_price] is left as it
    was. *)
Theorem marginal_prices (types : list string)
    (spsolve : Matrix F -> list (list (option F)) -> list (list (option F)))
    (network : Network F) (snapshots : list snapshot) (formulation : string)
    (ptdf_tolerance : F) (s : NetState F) (sr : SolverResults F) (r r' : Results F) :
  build_model network snapshots formulation ptdf_tolerance = Return s ->
  extract_optimisation_results types spsolve network snapshots formulation
    (model s) sr r = Return r' ->
  (formulation = "angles" ->
   forall bus sn, In bus (buses network) -> In sn snapshots ->
     con_at (model s) "power_balance" [KName (bus_name bus); KSnap sn] <> None
     /\ tables r' "buses_t.marginal_price" sn [KName (bus_name bus)]
        = sr_dual sr "power_balance" [KName (bus_name bus); KSnap sn])
  /\ (formulation = "ptdf" \/ formulation = "cycles" ->
      assoc "power_balance" (m_cons (model s)) = None
      /\ forall sn col,
           tables r' "buses_t.marginal_price" sn col
           = tables r "buses_t.marginal_price" sn col).
Proof.
  intros Hb He. apply extraction_marginal_price in He. destruct He as [Hother Hangles].
  split.
  - intros -> bus sn Hbus Hsn.
    destruct (build_power_balance_angles _ _ _ Hb) as (fam & Ef & Hk).
    assert (Hin : In [KName (bus_name bus); KSnap sn] (dkeys fam)).
    { rewrite Hk. change [KName (bus_name bus); KSnap sn]
        with ([KName (bus_name bus)] ++ [KSnap sn]).
      apply in_cross; [now apply in_name_index | now apply in_snap_index]. }
    split.
    + unfold con_at. rewrite Ef. intro Hn.
      apply (proj1 (dget_None_notin fam _)) in Hn. contradiction.
    + assert (Hne : buses network <> []) by (intro E; rewrite E in Hbus; exact Hbus).
      rewrite (Hangles fam eq_refl Hne Ef).
      unfold set_from_series, loc_set.
      rewrite (proj2 (mem_snapshot_In sn snapshots) Hsn). simpl.
      rewrite (proj2 (mem_index_In _ _) Hin). reflexivity.
  - intros Hf. split.
    + revert Hb Hf. apply build_no_power_balance.
    + intros sn col. rewrite Hother; [reflexivity|].
      destruct Hf; subst formulation; reflexivity.
Qed.


End Runs.


(** ** The example networks *)

#[export] Instance ScalarRing_Z : ScalarRing Z.
Proof.
  constructor; intros; cbn.
  - apply Z.add_0_l.
  - apply Z.add_comm.
  - apply Z.add_assoc.
  - apply Z.mul_1_l.
  - apply Z.mul_comm.
  - apply Z.mul_assoc.
  - apply Z.mul_add_distr_r.
  - apply Z.add_opp_r.
  - apply Z.add_opp_diag_r.
Qed.

(** Runs the code on an example, one conjunct at a time. *)
Ltac run_example :=
  repeat match goal with |- _ /\ _ => split end; vm_compute; reflexivity.

(** Decides the side conditions on the names of an example. *)
Ltac distinct_names := repeat constructor; simpl; intuition discriminate.

(** The state of charge constraint of the example storage unit at the
    second snapshot. *)
Lemma soc_previous_state_witness :
  build_model example_network [0; 1] "angles" 0%Z = Return (example_state "angles")
  /\ NoDup (name_index su_name (storage_units example_network))
  /\ NoDup [0; 1]
  /\ In example_storage_unit (storage_units example_network)
  /\ nth_error [0; 1] 1 = Some 1
  /\ con_at (model (example_state "angles")) "state_of_charge_constraint"
            [KName (su_name example_storage_unit); KSnap 1]
     = Some (soc_constraint example_network [0; 1] example_storage_unit 1 1).
Proof.
  assert (Hb : build_model example_network [0; 1] "angles" 0%Z
               = Return (example_state "angles")) by (vm_compute; reflexivity).
  assert (Hnd : NoDup (name_index su_name (storage_units example_network)))
    by distinct_names.
  assert (Hsn : NoDup [0; 1]) by distinct_names.
  assert (Hin : In example_storage_unit (storage_units example_network))
    by (left; reflexivity).
  assert (Hi : nth_error [0; 1] 1 = Some 1) by reflexivity.
  repeat (split; [assumption|]).
  exact (@soc_previous_state Z Scalar_Z example_network [0; 1] "angles" 0%Z
           (example_state "angles") example_storage_unit 1 1 Hb Hnd Hsn Hin Hi).
Defined.

(** C3, on the code. On the example network, whose two snapshots have
    the weightings 1 and 2 and whose storage unit has a spill variable at
    the first snapshot only, the spill variable of the first snapshot
    enters the state of charge constraint with the coefficient -2, minus the
    weighting of the last snapshot of the window, where the weighting of
    its own snapshot is 1. *)
Theorem spill_coefficient_last_weighting :
  build_model example_network [0; 1] "angles" 0%Z = Return (example_state "angles")
  /\ snapshot_weightings example_network 0 = 1%Z
  /\ snapshot_weightings example_network 1 = 2%Z
  /\ spill_index example_network [0; 1] = [[KName "s1"; KSnap 0]]
  /\ con_at (model (example_state "angles")) "state_of_charge_constraint"
            [KName "s1"; KSnap 0]
     = Some (Linear [((-1)%Z, ("state_of_charge", [KName "s1"; KSnap 0]));
                     (1%Z, ("storage_p_store", [KName "s1"; KSnap 0]));
                     ((-1)%Z, ("storage_p_dispatch", [KName "s1"; KSnap 0]));
                     ((-2)%Z, ("storage_p_spill", [KName "s1"; KSnap 0]))]
                    EQ (-8)%Z).
Proof. run_example. Qed.

(** The cycle constraints of the ring network. *)
Lemma kirchhoff_cycle_constraints_witness :
  build_model ring_network [0; 1] "kirchhoff" 0%Z
  = Return (built (build_model ring_network [0; 1] "kirchhoff" 0%Z))
  /\ build_model ring_network [0; 1] "cycles" 0%Z
     = Return (built (build_model ring_network [0; 1] "cycles" 0%Z))
  /\ NoDup (name_index sub_name (sub_networks ring_network))
  /\ exists fam,
       assoc "cycle_constraints"
             (m_cons (model (built (build_model ring_network [0; 1] "kirchhoff" 0%Z))))
       = Some fam
       /\ assoc "cycle_constraints"
                (m_cons (model (built (build_model ring_network [0; 1] "cycles" 0%Z))))
          = Some fam
       /\ dkeys fam = cross (cycle_index ring_network) (snap_index [0; 1])
       /\ (forall sub j sn, In sub (sub_networks ring_network) ->
             j < mat_ncols (sub_C sub) -> In sn [0; 1] ->
             exists terms,
               kvl_terms sub j sn = Return terms
               /\ dget fam [KName (sub_name sub); KNum j; KSnap sn]
                  = Some (equals_zero (LExpression_terms terms)))
       /\ assoc "cycles"
                (m_vars (model (built (build_model ring_network [0; 1] "kirchhoff" 0%Z))))
          = None
       /\ assoc "cycles"
                (m_vars (model (built (build_model ring_network [0; 1] "cycles" 0%Z))))
          <> None.
Proof.
  assert (Hk : build_model ring_network [0; 1] "kirchhoff" 0%Z
               = Return (built (build_model ring_network [0; 1] "kirchhoff" 0%Z)))
    by (vm_compute; reflexivity).
  assert (Hc : build_model ring_network [0; 1] "cycles" 0%Z
               = Return (built (build_model ring_network [0; 1] "cycles" 0%Z)))
    by (vm_compute; reflexivity).
  assert (Hnd : NoDup (name_index sub_name (sub_networks ring_network)))
    by distinct_names.
  repeat (split; [assumption|]).
  exact (@kirchhoff_cycle_constraints Z Scalar_Z ring_network [0; 1] 0%Z _ _ Hk Hc Hnd).
Defined.

(** The flow limits of the line of the example network. *)
Lemma passive_branch_flow_limits_witness :
  build_model example_network [0; 1] "ptdf" 0%Z = Return (example_state "ptdf")
  /\ NoDup (branch_index (passive_branches example_network))
  /\ exists upper lower,
       assoc "flow_upper" (m_cons (model (example_state "ptdf"))) = Some upper
       /\ assoc "flow_lower" (m_cons (model (example_state "ptdf"))) = Some lower
       /\ dkeys upper
          = cross (branch_index (passive_branches example_network)) (snap_index [0; 1])
       /\ dkeys lower
          = cross (branch_index (passive_branches example_network)) (snap_index [0; 1])
       /\ forall b sn, In b (passive_branches example_network) -> In sn [0; 1] ->
            dget upper [KName (pb_type b); KName (pb_name b); KSnap sn]
            = Some (flow_upper_constraint b sn)
            /\ dget lower [KName (pb_type b); KName (pb_name b); KSnap sn]
               = Some (flow_lower_constraint b sn).
Proof.
  assert (Hb : build_model example_network [0; 1] "ptdf" 0%Z
               = Return (example_state "ptdf")) by (vm_compute; reflexivity).
  assert (Hnd : NoDup (branch_index (passive_branches example_network)))
    by distinct_names.
  repeat (split; [assumption|]).
  exact (@passive_branch_flow_limits Z Scalar_Z example_network [0; 1] "ptdf" 0%Z
           (example_state "ptdf") Hb Hnd).
Defined.

(** The objective of the example network, whose generator is extendable. *)
Lemma objective_value_witness :
  build_model example_network [0; 1] "angles" 0%Z = Return (example_state "angles")
  /\ exists objective,
       m_objective (model (example_state "angles")) = Some objective
       /\ constant objective = fopp (existing_capital example_network)
       /\ (forall rho,
             lexpr_value rho objective
             = fadd (marginal_costs example_network [0; 1] rho)
                    (capital_costs example_network rho))
       /\ (forall rho, at_existing_capacity example_network rho ->
             lexpr_value rho objective = marginal_costs example_network [0; 1] rho).
Proof.
  assert (Hb : build_model example_network [0; 1] "angles" 0%Z
               = Return (example_state "angles")) by (vm_compute; reflexivity).
  split; [exact Hb|].
  exact (@objective_value Z Scalar_Z ScalarRing_Z example_network [0; 1] "angles" 0%Z
           (example_state "angles") Hb).
Defined.

(** C7, as the specification has it, fails. With the formulation "foo",
    which is not recognized, the model of the example network without its
    line is built, and a run with a solver that reports failure hands the
    model to the solver and returns; on the example network the error is
    an [AttributeError], raised during the build. *)
Lemma unrecognized_formulation_builds :
  recognized "foo" = false
  /\ is_raise (build_model example_network_no_branches [0; 1] "foo" 0%Z) = false
  /\ (exists o,
        example_run example_network_no_branches (Some [0; 1]) failing_solver "foo"
        = Return o
        /\ out_trace o
           = [EvSolve (out_model o);
              EvPrint "Optimisation failed with status warning and terminal condition infeasible"])
  /\ build_model example_network [0; 1] "foo" 0%Z
     = Raise (AttributeError "passive_branch_p").
Proof.
  split; [reflexivity|]. split; [vm_compute; reflexivity|]. split.
  - exists (finished (example_run example_network_no_branches (Some [0; 1])
                        failing_solver "foo")).
    split; vm_compute; reflexivity.
  - vm_compute. reflexivity.
Qed.

(** The formulation "foo" on the example network. *)
Lemma unrecognized_formulation_unchecked_witness :
  recognized "foo" = false
  /\ (forall s, define_passive_branch_flows example_network [0; 1] "foo" 0%Z s = Return s)
  /\ (forall s, build_model example_network [0; 1] "foo" 0%Z = Return s ->
        assoc "passive_branch_p" (m_vars (model s)) = None
        /\ assoc "power_balance" (m_cons (model s)) = None
        /\ assoc "sub_network_balance_constraint" (m_cons (model s)) = None)
  /\ (passive_branches example_network <> [] -> [0; 1] <> [] ->
      is_raise (build_model example_network [0; 1] "foo" 0%Z) = true).
Proof.
  assert (Hr : recognized "foo" = false) by reflexivity.
  split; [exact Hr|].
  exact (@unrecognized_formulation_unchecked Z Scalar_Z example_network [0; 1] "foo" 0%Z Hr).
Defined.

(** C9, as the specification has it, fails. With the formulation "ptdf"
    the run on the example network ends in the extraction, the model has no
    balance constraint for the bus A at the first snapshot, and the marginal
    price of the bus stays NaN although the solver reports the dual value 7
    for every constraint. *)
Lemma marginal_price_not_written_with_ptdf :
  recognized "ptdf" = true
  /\ exists o,
       example_run example_network (Some [0; 1]) example_solver "ptdf" = Return o
       /\ In (EvExtract [0; 1] "ptdf") (out_trace o)
       /\ con_at (out_model o) "power_balance" [KName "A"; KSnap 0] = None
       /\ sr_dual (out_solver o) "power_balance" [KName "A"; KSnap 0] = Some 7%Z
       /\ tables (out_results o) "buses_t.marginal_price" 0 [KName "A"] = None.
Proof.
  split; [reflexivity|].
  exists (finished (example_run example_network (Some [0; 1]) example_solver "ptdf")).
  split; [vm_compute; reflexivity|].
  split; [vm_compute; auto|].
  run_example.
Qed.

(** The marginal prices of the example network with "angles". *)
Lemma marginal_prices_witness :
  build_model example_network [0; 1] "angles" 0%Z = Return (example_state "angles")
  /\ extract_optimisation_results example_types example_spsolve example_network [0; 1]
       "angles" (model (example_state "angles"))
       (example_solver (model (example_state "angles"))) no_results
     = Return (extracted "angles")
  /\ ("angles" = "angles" ->
      forall bus sn, In bus (buses example_network) -> In sn [0; 1] ->
        con_at (model (example_state "angles")) "power_balance"
               [KName (bus_name bus); KSnap sn] <> None
        /\ tables (extracted "angles") "buses_t.marginal_price" sn [KName (bus_name bus)]
           = sr_dual (example_solver (model (example_state "angles"))) "power_balance"
                     [KName (bus_name bus); KSnap sn])
  /\ ("angles" = "ptdf" \/ "angles" = "cycles" ->
      assoc "power_balance" (m_cons (model (example_state "angles"))) = None
      /\ forall sn col,
           tables (extracted "angles") "buses_t.marginal_price" sn col
           = tables no_results "buses_t.marginal_price" sn col).
Proof.
  assert (Hb : build_model example_network [0; 1] "angles" 0%Z
               = Return (example_state "angles")) by (vm_compute; reflexivity).
  assert (He : extract_optimisation_results example_types example_spsolve
                 example_network [0; 1] "angles" (model (example_state "angles"))
                 (example_solver (model (example_state "angles"))) no_results
               = Return (extracted "angles")) by (vm_compute; reflexivity).
  split; [exact Hb|]. split; [exact He|].
  exact (@marginal_prices Z Scalar_Z example_types example_spsolve example_network [0; 1]
           "angles" 0%Z (example_state "angles")
           (example_solver (model (example_state "angles"))) no_results
           (extracted "angles") Hb He).
Defined.



(** ** Runs over any solve window *)

Section AnyWindow.

Context {F : Type} {SF : Scalar F}.

(** A run without extra functionality that returns: the model is the built
    one, the solver was given it, and the results are those of the
    extraction or, when the solver reports failure, the earlier ones. *)
Lemma network_lopf_inv (types : list string)
    (spsolve : Matrix F -> list (list (option F)) -> list (list (option F)))
    (network : Network F) (r : Results F) (snapshots : list snapshot)
    (opt : Model F -> SolverResults F) (verbose : bool) (formulation : string)
    (tol : F) (o : Outcome F) :
  network_lopf types spsolve network r (Some snapshots) opt verbose None formulation tol
  = Return o ->
  exists s,
    build_model network snapshots formulation tol = Return s
    /\ out_model o = model s
    /\ out_solver o = opt (model s)
    /\ (if solver_optimal (opt (model s)) || solver_suboptimal (opt (model s))
        then extract_optimisation_results types spsolve network snapshots formulation
               (model s) (opt (model s)) r = Return (out_results o)
        else out_results o = r).
Proof.
  unfold network_lopf. cbv zeta. intro H.
  bstep H s Hs. simpl in H. bstep H b Hb.
  exists s. split; [assumption|].
  unfold after_solve in H. cbv zeta in H.
  unfold solver_optimal, solver_suboptimal.
  destruct ((sr_status (opt (model s)) =? "ok")
            && (sr_termination_condition (opt (model s)) =? "optimal")).
  - bstep H r' Hr. inversion H; subst o; simpl. auto.
  - destruct ((sr_status (opt (model s)) =? "warning")
              && (sr_termination_condition (opt (model s)) =? "other")).
    + bstep H r' Hr. inversion H; subst o; simpl. auto.
    + inversion H; subst o; simpl. auto.
Qed.

(** A built model asks the solver for dual values, has an objective, and
    comes with the nodal balance expressions. *)
Lemma build_complete (network : Network F) (snapshots : list snapshot)
    (formulation : string) (tol : F) (s : NetState F) :
  build_model network snapshots formulation tol = Return s ->
  m_dual (model s) = true
  /\ m_objective (model s) <> None
  /\ _p_balance s <> None.
Proof.
  intro H. build_steps H.
  destruct (build_prefix _ _ _ _ Hgen Hsu Hst Hext Hlink Hbal Hflow)
    as [_ [balance0 [Eb0 _]]].
  apply define_linear_objective_frame in Hobj. destruct Hobj as (_ & _ & [ob Eo]).
  assert (Eb9 : _p_balance s9 <> None).
  { destruct ((formulation =? "angles") || (formulation =? "kirchhoff")).
    - unfold define_nodal_balance_constraints in Hnodal. simpl in Hnodal.
      rewrite Eb0 in Hnodal. binv. subst. simpl. congruence.
    - destruct ((formulation =? "ptdf") || (formulation =? "cycles")).
      + apply define_sub_network_balance_constraints_extends in Hnodal.
        destruct Hnodal as [_ E]. rewrite E. simpl. congruence.
      + inversion Hnodal. simpl. congruence. }
  subst s. simpl. rewrite Eo. repeat split; [discriminate | assumption].
Qed.

(** The components of the built model that the first five steps declare
    are as those steps left them. *)
Lemma build_keeps (network : Network F) (snapshots : list snapshot)
    (formulation : string) (tol : F) (s : NetState F) :
  build_model network snapshots formulation tol = Return s ->
  exists m1 m2 m3 m4 m5,
    define_generator_variables_constraints network snapshots ConcreteModel = Return m1
    /\ define_storage_variables_constraints network snapshots m1 = Return m2
    /\ define_store_variables_constraints network snapshots m2 = Return m3
    /\ define_branch_extension_variables network snapshots m3 = Return m4
    /\ define_link_flows network snapshots m4 = Return m5
    /\ (forall name, In name ["generator_p"; "generator_p_nom"] ->
          assoc name (m_vars (model s)) = assoc name (m_vars m1))
    /\ (forall name, In name ["generator_p_lower"; "generator_p_upper"] ->
          assoc name (m_cons (model s)) = assoc name (m_cons m1))
    /\ (forall name, In name ["storage_p_dispatch"; "storage_p_store"; "storage_p_spill";
                              "storage_p_nom"; "state_of_charge"] ->
          assoc name (m_vars (model s)) = assoc name (m_vars m2))
    /\ (forall name, In name ["storage_p_upper"; "storage_p_lower"; "state_of_charge_upper";
                              "state_of_charge_constraint";
                              "state_of_charge_constraint_fixed"] ->
          assoc name (m_cons (model s)) = assoc name (m_cons m2))
    /\ (forall name, In name ["store_p"; "store_e"; "store_e_nom"] ->
          assoc name (m_vars (model s)) = assoc name (m_vars m3))
    /\ (forall name, In name ["store_e_upper"; "store_e_lower"; "store_constraint"] ->
          assoc name (m_cons (model s)) = assoc name (m_cons m3))
    /\ (forall name, In name ["passive_branch_s_nom"; "link_p_nom"] ->
          assoc name (m_vars (model s)) = assoc name (m_vars m4))
    /\ (forall name, In name ["link_p"] ->
          assoc name (m_vars (model s)) = assoc name (m_vars m5))
    /\ (forall name, In name ["link_p_upper"; "link_p_lower"] ->
          assoc name (m_cons (model s)) = assoc name (m_cons m5)).
Proof.
  intro H. build_steps H. exists m1, m2, m3, m4, m5.
  repeat (split; [assumption|]).
  apply define_storage_variables_constraints_extends in Hsu.
  apply define_store_variables_constraints_extends in Hst.
  apply define_branch_extension_variables_extends in Hext.
  apply define_link_flows_extends in Hlink.
  apply define_nodal_balances_model in Hbal. destruct Hbal as [Em _]. simpl in Em.
  apply define_passive_branch_flows_declares in Hflow. destruct Hflow as [Hflow _].
  rewrite Em in Hflow.
  apply define_passive_branch_constraints_extends in Hlim.
  apply balance_step_declares in Hnodal. simpl in Hnodal.
  apply co2_step_declares in Hco2.
  apply define_linear_objective_frame in Hobj. destruct Hobj as (Ev & Ec & _).
  assert (V5 : forall name, ~ In name ["passive_branch_p"; "voltage_angles"; "cycles"] ->
                 assoc name (m_vars (model s)) = assoc name (m_vars m5)).
  { intros name Hn. subst s. simpl. rewrite Ev.
    rewrite (declares_assoc_vars name Hco2) by (simpl; tauto).
    rewrite (declares_assoc_vars name Hnodal) by (simpl; tauto).
    rewrite (extends_assoc_vars name Hlim) by (simpl; tauto).
    apply (declares_assoc_vars name Hflow). simpl in *. tauto. }
  assert (C5 : forall name,
                 ~ In name ["co2_constraint"; "power_balance";
                            "sub_network_balance_constraint"; "flow_lower"; "flow_upper";
                            "passive_branch_p_def"; "slack_angle"; "cycle_constraints"] ->
                 assoc name (m_cons (model s)) = assoc name (m_cons m5)).
  { intros name Hn. subst s. simpl. rewrite Ec.
    rewrite (declares_assoc_cons name Hco2) by (simpl in *; tauto).
    rewrite (declares_assoc_cons name Hnodal) by (simpl in *; tauto).
    rewrite (extends_assoc_cons name Hlim) by (simpl in *; tauto).
    apply (declares_assoc_cons name Hflow). simpl in *. tauto. }
  repeat split; intros name Hin; simpl in Hin;
    repeat (destruct Hin as [<-|Hin]; [|]); try contradiction;
    first [ rewrite V5 by not_in_names | rewrite C5 by not_in_names ];
    repeat first
      [ reflexivity
      | rewrite (extends_assoc_vars _ Hlink) by not_in_names
      | rewrite (extends_assoc_cons _ Hlink) by not_in_names
      | rewrite (extends_assoc_vars _ Hext) by not_in_names
      | rewrite (extends_assoc_cons _ Hext) by not_in_names
      | rewrite (extends_assoc_vars _ Hst) by not_in_names
      | rewrite (extends_assoc_cons _ Hst) by not_in_names
      | rewrite (extends_assoc_vars _ Hsu) by not_in_names
      | rewrite (extends_assoc_cons _ Hsu) by not_in_names ].
Qed.

End AnyWindow.


(** ** The frames a block of the extraction writes *)

(** Closes a goal on a frame [n] that is none of the frames written. *)
Ltac other_table Hn :=
  unfold set_series, set_table; simpl;
  repeat match goal with
         | |- context [String.eqb ?n ?s] =>
             let E := fresh "E" in
             destruct (String.eqb_spec n s) as [E|E];
             [exfalso; apply Hn; rewrite E; simpl; tauto|]
         end;
  reflexivity.

Section ExtractionFrames.

Context {F : Type} {SF : Scalar F}.

Lemma frame_extract_generators (network : Network F) (snapshots : list snapshot)
    (m : Model F) (sr : SolverResults F) (r r' : Results F) :
  extract_generators network snapshots m sr r = Return r' ->
  (forall n, ~ In n ["generators_t.p"] -> tables r' n = tables r n)
  /\ objective r' = objective r.
Proof.
  unfold extract_generators. intro H.
  destruct (nonempty (generators network)); binv; subst;
    (split; [intros n Hn; other_table Hn | reflexivity]).
Qed.

Lemma frame_extract_storage_units (network : Network F) (snapshots : list snapshot)
    (m : Model F) (sr : SolverResults F) (r r' : Results F) :
  extract_storage_units network snapshots m sr r = Return r' ->
  (forall n, ~ In n ["storage_units_t.p"; "storage_units_t.state_of_charge";
                     "storage_units_t.spill"] -> tables r' n = tables r n)
  /\ objective r' = objective r.
Proof.
  unfold extract_storage_units. intro H.
  destruct (nonempty (storage_units network));
    [|binv; subst; split; [intros n Hn; other_table Hn | reflexivity]].
  bstep H dispatch Hd. bstep H store Hs. bstep H e He. bstep H r1 Hr1.
  inversion H; subst r'. clear H.
  destruct (existsb _ (storage_units network)); binv; subst;
    (split; [intros n Hn; other_table Hn | reflexivity]).
Qed.

Lemma frame_extract_stores (network : Network F) (snapshots : list snapshot)
    (m : Model F) (sr : SolverResults F) (r r' : Results F) :
  extract_stores network snapshots m sr r = Return r' ->
  (forall n, ~ In n ["stores_t.p"; "stores_t.e"] -> tables r' n = tables r n)
  /\ objective r' = objective r.
Proof.
  unfold extract_stores. intro H.
  destruct (nonempty (stores network)); binv; subst;
    (split; [intros n Hn; other_table Hn | reflexivity]).
Qed.

Lemma frame_extract_loads (network : Network F) (snapshots : list snapshot)
    (r : Results F) :
  (forall n, ~ In n ["loads_t.p"] ->
     tables (extract_loads network snapshots r) n = tables r n)
  /\ objective (extract_loads network snapshots r) = objective r.
Proof.
  unfold extract_loads.
  destruct (nonempty (loads network));
    (split; [intros n Hn; other_table Hn | reflexivity]).
Qed.

Lemma frame_extract_bus_injections (types : list string) (network : Network F)
    (snapshots : list snapshot) (r r' : Results F) :
  extract_bus_injections types network snapshots r = Return r' ->
  (forall n, ~ In n ["buses_t.p"] -> tables r' n = tables r n)
  /\ objective r' = objective r.
Proof.
  unfold extract_bus_injections. cbv zeta. intro H.
  destruct (nonempty (buses network));
    [|binv; subst; split; [intros n Hn; other_table Hn | reflexivity]].
  destruct (nonempty (filter _ _)); [|discriminate].
  binv; subst. split; [intros n Hn; other_table Hn | reflexivity].
Qed.

Lemma frame_extract_passive_branches (network : Network F) (snapshots : list snapshot)
    (m : Model F) (sr : SolverResults F) (r r' : Results F) :
  extract_passive_branches network snapshots m sr r = Return r' ->
  (forall n, ~ In n ["passive_branches_t.p0"; "passive_branches_t.p1"] ->
     tables r' n = tables r n)
  /\ objective r' = objective r.
Proof.
  unfold extract_passive_branches. intro H. bstep H passive Hp.
  destruct (nonempty (passive_branches network)); binv; subst;
    (split; [intros n Hn; other_table Hn | reflexivity]).
Qed.

Lemma frame_extract_links (network : Network F) (snapshots : list snapshot)
    (m : Model F) (sr : SolverResults F) (r r' : Results F) :
  extract_links network snapshots m sr r = Return r' ->
  (forall n, ~ In n ["links_t.p0"; "links_t.p1"; "buses_t.p"] ->
     tables r' n = tables r n)
  /\ objective r' = objective r.
Proof.
  unfold extract_links. intro H.
  destruct (nonempty (links network)); binv; subst;
    (split; [intros n Hn; other_table Hn | reflexivity]).
Qed.

Lemma frame_recover_angles
    (spsolve : Matrix F -> list (list (option F)) -> list (list (option F)))
    (snapshots : list snapshot) (subs : list (SubNetwork F)) (r : Results F) :
  (forall n, ~ In n ["buses_t.v_ang"] ->
     tables (fold_left (recover_angles spsolve snapshots) subs r) n = tables r n)
  /\ objective (fold_left (recover_angles spsolve snapshots) subs r) = objective r.
Proof.
  revert r. induction subs as [|sub subs IH]; intro r; simpl; [auto|].
  destruct (IH (recover_angles spsolve snapshots r sub)) as [IHt IHo].
  split.
  - intros n Hn. rewrite (IHt n Hn). unfold recover_angles. cbv zeta.
    destruct (nonempty (sub_pvpqs sub)); other_table Hn.
  - rewrite IHo. unfold recover_angles. cbv zeta.
    destruct (nonempty (sub_pvpqs sub)); reflexivity.
Qed.

Lemma frame_extract_buses
    (spsolve : Matrix F -> list (list (option F)) -> list (list (option F)))
    (network : Network F) (snapshots : list snapshot) (formulation : string)
    (m : Model F) (sr : SolverResults F) (r r' : Results F) :
  extract_buses spsolve network snapshots formulation m sr r = Return r' ->
  (forall n, ~ In n ["buses_t.v_ang"; "buses_t.marginal_price"; "buses_t.v_mag_pu"] ->
     tables r' n = tables r n)
  /\ objective r' = objective r.
Proof.
  unfold extract_buses. intro H.
  destruct (nonempty (buses network)); [|binv; subst; auto].
  bstep H r1 H1. inversion H; subst r'. clear H.
  assert (H1' : (forall n, ~ In n ["buses_t.v_ang"; "buses_t.marginal_price";
                                   "buses_t.v_mag_pu"] -> tables r1 n = tables r n)
                /\ objective r1 = objective r).
  { destruct (formulation =? "angles").
    - bstep H1 v_ang Hv.
      destruct (assoc "power_balance" (m_cons m)); [|discriminate].
      inversion H1; subst r1.
      split; [intros n Hn; other_table Hn | reflexivity].
    - destruct ((formulation =? "ptdf") || (formulation =? "cycles")
                || (formulation =? "kirchhoff")); inversion H1; subst r1; [|auto].
      destruct (frame_recover_angles spsolve snapshots (sub_networks network) r)
        as [Ht Ho].
      split; [|assumption]. intros n Hn. apply Ht. simpl in *. tauto. }
  destruct H1' as [Ht Ho]. split.
  - intros n Hn. rewrite <- (Ht n Hn). other_table Hn.
  - simpl. assumption.
Qed.

Lemma frame_extract_nom_opt (network : Network F) (m : Model F) (sr : SolverResults F)
    (r r' : Results F) :
  extract_nom_opt network m sr r = Return r' ->
  tables r' = tables r /\ objective r' = objective r.
Proof. unfold extract_nom_opt. intro H. binv; subst. split; reflexivity. Qed.

End ExtractionFrames.


(** ** Variables and their bounds *)

Lemma dupdate_app {V : Type} (d : dict V) (l1 l2 : list (index * V)) :
  dupdate (dupdate d l1) l2 = dupdate d (l1 ++ l2).
Proof. unfold dupdate. now rewrite fold_left_app. Qed.

(** A dictionary filled by a comprehension and updates holds at a key the
    value that every item with the key has. *)
Lemma dget_items {V : Type} (items : list (index * V)) (k : index) (v : V) :
  In (k, v) items -> (forall v', In (k, v') items -> v' = v) ->
  dget (dupdate [] items) k = Some v.
Proof. apply dict_of_list_functional. Qed.

Lemma dlookup_inv {V : Type} (d : dict V) (k : index) (v : V) :
  dlookup d k = Return v -> dget d k = Some v.
Proof. unfold dlookup. destruct (dget d k); intro H; inversion H. reflexivity. Qed.

(** A key of a dictionary filled by a comprehension and updates is the key
    of one of the items. *)
Lemma dget_items_inv {V : Type} (items : list (index * V)) (k : index) (v : V) :
  dget (dupdate [] items) k = Some v -> In k (map fst items).
Proof.
  intro H. apply dget_Some_key in H.
  apply (proj1 (dkeys_dupdate_In items [] k)) in H. destruct H as [[]|H]. exact H.
Qed.

Lemma In_dset {V : Type} (d : dict V) (k0 : index) (v0 : V) (kv : index * V) :
  In kv (dset d k0 v0) -> kv = (k0, v0) \/ In kv d.
Proof.
  induction d as [|[k1 v1] d IH]; simpl.
  - intros [H|[]]. now left.
  - destruct (index_eqb k0 k1); simpl; intros [H|H]; auto.
    destruct (IH H); auto.
Qed.

Lemma In_dupdate {V : Type} (items : list (index * V)) (d : dict V) (kv : index * V) :
  In kv (dupdate d items) -> In kv d \/ In kv items.
Proof.
  revert d. induction items as [|[k0 v0] items IH]; intros d H; [now left|].
  rewrite dupdate_cons in H. apply IH in H. simpl in *.
  destruct H as [H|H]; [|auto].
  apply In_dset in H. destruct H as [H|H]; auto.
Qed.

(** An entry of a dictionary filled by a comprehension and updates is one
    of the items. *)
Lemma dget_items_In {V : Type} (items : list (index * V)) (k : index) (v : V) :
  dget (dupdate [] items) k = Some v -> In (k, v) items.
Proof.
  intro H. apply dget_In in H. apply In_dupdate in H. destruct H as [[]|H]. exact H.
Qed.

Section Variables.

Context {F : Type} {SF : Scalar F}.

Lemma Var_dget (idx : list index) (dom : domain)
    (bounds : index -> result (option F * option F)) (fam : dict (VarData F)) (i : index) :
  Var idx dom bounds = Return fam -> In i idx ->
  exists b, bounds i = Return b /\ dget fam i = Some (mkVarData dom (fst b) (snd b)).
Proof.
  unfold Var. revert fam. induction idx as [|j idx IH]; simpl; intros fam H Hin;
    [contradiction|].
  apply bind_inv in H. destruct H as [y [Hy H]].
  apply bind_inv in H. destruct H as [ys [Hys H]].
  apply bind_inv in Hy. destruct Hy as [b [Hb Hy]].
  inversion H; inversion Hy; subst. simpl.
  destruct (index_eqb i j) eqn:E.
  - apply index_eqb_eq in E. subst j. exists b. auto.
  - destruct Hin as [->|Hin]; [now rewrite index_eqb_refl in E|].
    now apply IH.
Qed.

Lemma name_key_injective {A : Type} (name : A -> string) (rows : list A) :
  NoDup (name_index name rows) ->
  forall a a' t t', In a rows -> In a' rows ->
    [KName (name a); KSnap t] = [KName (name a'); KSnap t'] -> a = a' /\ t = t'.
Proof.
  intros Hnd a a' t t' Ha Ha' E. inversion E. split; [|reflexivity].
  apply (NoDup_map_injective (fun r => [KName (name r)]) rows); auto. congruence.
Qed.

Lemma in_name_snap {A : Type} (name : A -> string) (rows : list A)
    (snapshots : list snapshot) (x : A) (sn : snapshot) :
  In x rows -> In sn snapshots ->
  In [KName (name x); KSnap sn] (cross (name_index name rows) (snap_index snapshots)).
Proof.
  intros Hx Hsn.
  change [KName (name x); KSnap sn] with ([KName (name x)] ++ [KSnap sn]).
  apply in_cross; [now apply in_name_index | now apply in_snap_index].
Qed.

End Variables.

(** ** Generators *)

Section Generators.

Context {F : Type} {SF : Scalar F}.

Variable network : Network F.
Variable snapshots : list snapshot.

(** The dictionary of the bounds of the generator dispatch, as
    [define_generator_variables_constraints] fills it. *)
Let gen_p_bounds : dict (option F * option F) :=
  dupdate
    (dupdate
       (dict_of_list
          (map (fun p => ([KName (g_name (fst p)); KSnap (snd p)], (None, None)))
               (list_prod (filter g_p_nom_extendable (generators network)) snapshots)))
       (map (fun p => let gen := fst p in let sn := snd p in
               ([KName (g_name gen); KSnap sn],
                (Some (fmul (generators_t_p_min_pu network sn (g_name gen)) (g_p_nom gen)),
                 Some (fmul (generators_t_p_max_pu network sn (g_name gen)) (g_p_nom gen)))))
            (list_prod (filter (fun g => g_dispatch g =? "variable")
                          (filter (fun g => negb (g_p_nom_extendable g))
                                  (generators network))) snapshots)))
    (map (fun p => let gen := fst p in let sn := snd p in
            ([KName (g_name gen); KSnap sn],
             (Some (fmul (g_p_nom gen) (g_p_min_pu_fixed gen)),
              Some (fmul (g_p_nom gen) (g_p_max_pu_fixed gen)))))
         (list_prod (filter (fun g => g_dispatch g =? "flexible")
                       (filter (fun g => negb (g_p_nom_extendable g))
                               (generators network))) snapshots)).

Hypothesis names_distinct : NoDup (name_index g_name (generators network)).

Lemma gen_p_bounds_dget (g : Generator F) (sn : snapshot) (b : option F * option F) :
  In g (generators network) -> In sn snapshots ->
  dget gen_p_bounds [KName (g_name g); KSnap sn] = Some b ->
  b = generator_p_bounds network g sn
  /\ (g_p_nom_extendable g = true \/ g_dispatch g = "variable"
      \/ g_dispatch g = "flexible").
Proof.
  intros Hg Hsn H. unfold gen_p_bounds, dict_of_list in H.
  rewrite !dupdate_app in H. apply dget_items_In in H.
  pose proof (name_key_injective g_name (generators network) names_distinct) as Hinj.
  unfold generator_p_bounds.
  repeat (apply in_app_or in H; destruct H as [H|H]);
    apply in_map_iff in H; destruct H as [[a t] [E Hin]]; simpl in E;
    apply in_prod_iff in Hin; destruct Hin as [Ha _];
    repeat (apply filter_In in Ha; let C := fresh "C" in destruct Ha as [Ha C]);
    assert (Ek : [KName (g_name a); KSnap t] = [KName (g_name g); KSnap sn])
      by (inversion E; reflexivity);
    destruct (Hinj a g t sn Ha Hg Ek) as [Ea Et]; subst a t;
    inversion E; subst b.
  - rewrite C. auto.
  - apply negb_true_iff in C0. rewrite C0, C. apply String.eqb_eq in C. auto.
  - apply negb_true_iff in C0. rewrite C0.
    apply String.eqb_eq in C. rewrite C. simpl. auto.
Qed.

(** The dictionary of a dispatch limit of the extendable generators, from
    the fixed per-unit limit [fx] or the time series [ts]. *)
Lemma gen_limit_dget (fx : Generator F -> F) (ts : snapshot -> string -> F) (sense : sense)
    (g : Generator F) (sn : snapshot) (c : cspec F) :
  In g (generators network) -> In sn snapshots ->
  dget (dupdate
          (dict_of_list
             (map (fun p =>
                     ([KName (g_name (fst p)); KSnap (snd p)],
                      CTriple [(fone, ("generator_p", [KName (g_name (fst p)); KSnap (snd p)]));
                               (fopp (fx (fst p)),
                                ("generator_p_nom", [KName (g_name (fst p))]))]
                              sense fzero))
                  (list_prod (filter (fun g => g_dispatch g =? "flexible")
                                (filter g_p_nom_extendable (generators network)))
                             snapshots)))
          (map (fun p =>
                  ([KName (g_name (fst p)); KSnap (snd p)],
                   CTriple [(fone, ("generator_p", [KName (g_name (fst p)); KSnap (snd p)]));
                            (fopp (ts (snd p) (g_name (fst p))),
                             ("generator_p_nom", [KName (g_name (fst p))]))]
                           sense fzero))
               (list_prod (filter (fun g => g_dispatch g =? "variable")
                             (filter g_p_nom_extendable (generators network)))
                          snapshots)))
       [KName (g_name g); KSnap sn] = Some c ->
  c = CTriple [(fone, ("generator_p", [KName (g_name g); KSnap sn]));
               (fopp (if g_dispatch g =? "variable" then ts sn (g_name g) else fx g),
                ("generator_p_nom", [KName (g_name g)]))]
              sense fzero
  /\ (g_dispatch g = "variable" \/ g_dispatch g = "flexible").
Proof.
  intros Hg Hsn H. unfold dict_of_list in H.
  rewrite !dupdate_app in H. apply dget_items_In in H.
  pose proof (name_key_injective g_name (generators network) names_distinct) as Hinj.
  repeat (apply in_app_or in H; destruct H as [H|H]);
    apply in_map_iff in H; destruct H as [[a t] [E Hin]]; simpl in E;
    apply in_prod_iff in Hin; destruct Hin as [Ha _];
    repeat (apply filter_In in Ha; let C := fresh "C" in destruct Ha as [Ha C]);
    assert (Ek : [KName (g_name a); KSnap t] = [KName (g_name g); KSnap sn])
      by (inversion E; reflexivity);
    destruct (Hinj a g t sn Ha Hg Ek) as [Ea Et]; subst a t;
    inversion E; subst c; apply String.eqb_eq in C; rewrite C; simpl; auto.
Qed.

(** What [define_generator_variables_constraints] declares. *)
Lemma define_generator_variables_constraints_spec (m m' : Model F) :
  define_generator_variables_constraints network snapshots m = Return m' ->
  exists generator_p lower upper,
    m_vars m'
    = ("generator_p_nom",
       map (fun gen => ([KName (g_name gen)],
                        mkVarData NonNegativeReals (Some (g_p_nom_min gen))
                                  (Some (g_p_nom_max gen))))
           (filter g_p_nom_extendable (generators network)))
      :: ("generator_p", generator_p) :: m_vars m
    /\ m_cons m' = ("generator_p_upper", upper) :: ("generator_p_lower", lower) :: m_cons m
    /\ dkeys generator_p
       = cross (name_index g_name (generators network)) (snap_index snapshots)
    /\ dkeys lower
       = cross (name_index g_name (filter g_p_nom_extendable (generators network)))
               (snap_index snapshots)
    /\ dkeys upper
       = cross (name_index g_name (filter g_p_nom_extendable (generators network)))
               (snap_index snapshots)
    /\ forall g sn, In g (generators network) -> In sn snapshots ->
         dget generator_p [KName (g_name g); KSnap sn]
         = Some (mkVarData Reals (fst (generator_p_bounds network g sn))
                           (snd (generator_p_bounds network g sn)))
         /\ (g_dispatch g = "variable" \/ g_dispatch g = "flexible")
         /\ (g_p_nom_extendable g = true ->
             dget lower [KName (g_name g); KSnap sn]
             = Some (generator_p_lower_constraint network g sn)
             /\ dget upper [KName (g_name g); KSnap sn]
                = Some (generator_p_upper_constraint network g sn)).
Proof.
  unfold define_generator_variables_constraints. intro H.
  bstep H generator_p Hp. bstep H lower_flex Hlf. bstep H lower_var Hlv.
  lstep H m1 lower Hlower.
  bstep H upper_flex Huf. bstep H upper_var Huv.
  apply l_constraint_inv in H. destruct H as [upper [-> Hupper]].
  apply for2_pure with
    (g := fun gen sn =>
            ([KName (g_name gen); KSnap sn],
             CTriple [(fone, ("generator_p", [KName (g_name gen); KSnap sn]));
                      (fopp (g_p_min_pu_fixed gen), ("generator_p_nom", [KName (g_name gen)]))]
                     GE fzero)) in Hlf; [|pure_rule].
  apply for2_pure with
    (g := fun gen sn =>
            ([KName (g_name gen); KSnap sn],
             CTriple [(fone, ("generator_p", [KName (g_name gen); KSnap sn]));
                      (fopp (generators_t_p_min_pu network sn (g_name gen)),
                       ("generator_p_nom", [KName (g_name gen)]))]
                     GE fzero)) in Hlv; [|pure_rule].
  apply for2_pure with
    (g := fun gen sn =>
            ([KName (g_name gen); KSnap sn],
             CTriple [(fone, ("generator_p", [KName (g_name gen); KSnap sn]));
                      (fopp (g_p_max_pu_fixed gen), ("generator_p_nom", [KName (g_name gen)]))]
                     LE fzero)) in Huf; [|pure_rule].
  apply for2_pure with
    (g := fun gen sn =>
            ([KName (g_name gen); KSnap sn],
             CTriple [(fone, ("generator_p", [KName (g_name gen); KSnap sn]));
                      (fopp (generators_t_p_max_pu network sn (g_name gen)),
                       ("generator_p_nom", [KName (g_name gen)]))]
                     LE fzero)) in Huv; [|pure_rule].
  subst. exists generator_p, lower, upper. simpl.
  split; [reflexivity|]. split; [reflexivity|].
  split; [now apply Var_keys in Hp|].
  split; [now apply l_constraint_keys in Hlower|].
  split; [now apply l_constraint_keys in Hupper|].
  intros g sn Hg Hsn.
  pose proof Hp as Hget.
  eapply Var_dget in Hget; [|apply in_name_snap; eassumption].
  destruct Hget as [b [Hb Hget]].
  apply dlookup_inv in Hb.
  destruct (gen_p_bounds_dget g sn Hg Hsn Hb) as [-> Hclass].
  split; [assumption|].
  assert (Hext : g_p_nom_extendable g = true ->
                 (g_dispatch g = "variable" \/ g_dispatch g = "flexible")
                 /\ dget lower [KName (g_name g); KSnap sn]
                    = Some (generator_p_lower_constraint network g sn)
                 /\ dget upper [KName (g_name g); KSnap sn]
                    = Some (generator_p_upper_constraint network g sn)).
  { intro Eg.
    assert (Hin : In [KName (g_name g); KSnap sn]
                     (cross (name_index g_name
                               (filter g_p_nom_extendable (generators network)))
                            (snap_index snapshots))).
    { apply in_name_snap; [|assumption]. apply filter_In. auto. }
    destruct (l_constraint_dget _ _ _ Hlower Hin) as [cl [Hcl ->]].
    destruct (l_constraint_dget _ _ _ Hupper Hin) as [cu [Hcu ->]].
    destruct (gen_limit_dget g_p_min_pu_fixed (generators_t_p_min_pu network) GE
                g sn Hg Hsn Hcl) as [-> Hd].
    destruct (gen_limit_dget g_p_max_pu_fixed (generators_t_p_max_pu network) LE
                g sn Hg Hsn Hcu) as [-> _].
    split; [assumption|]. split; reflexivity. }
  split.
  - destruct (g_p_nom_extendable g) eqn:Eg.
    + now destruct (Hext eq_refl).
    + destruct Hclass as [Hc|Hc]; [discriminate | assumption].
  - intro Eg. now destruct (Hext Eg).
Qed.

End Generators.

Lemma filter_keeps_distinct {K R : Type} (key : R -> K) (sel : R -> bool)
    (rows : list R) (Hnd : NoDup (map key rows)) :
  NoDup (map key (filter sel rows)).
Proof.
  induction rows as [|r rows IHrows]; simpl; [constructor|].
  simpl in Hnd. apply NoDup_cons_iff in Hnd. destruct Hnd as [Hfresh Hrest].
  destruct (sel r); simpl; [|auto].
  apply NoDup_cons; [|auto].
  intro Hin. apply Hfresh. apply in_map_iff in Hin. destruct Hin as [x [E Hx]].
  apply filter_In in Hx. apply in_map_iff. exists x. tauto.
Qed.

(** The entry of a row in a family with one entry per row. *)
Lemma dget_rows {A V : Type} (key : A -> index) (val : A -> V) (rows : list A) (x : A) :
  NoDup (map key rows) -> In x rows ->
  dget (map (fun r => (key r, val r)) rows) (key x) = Some (val x).
Proof.
  intros Hnd Hx. apply In_dget_NoDup.
  - unfold dkeys. rewrite map_map. simpl. exact Hnd.
  - apply in_map_iff. now exists x.
Qed.

Section GeneratorsBuild.

Context {F : Type} {SF : Scalar F}.

(** X1. The bounds of the dispatch variable of every generator at every
    snapshot of the window, in a built model: none for an extendable
    generator, time series times capacity for a variable one, fixed
    per-unit limits times capacity for a flexible one. *)
Theorem generator_dispatch_bounds (network : Network F) (snapshots : list snapshot)
    (formulation : string) (ptdf_tolerance : F) (s : NetState F)
    (g : Generator F) (sn : snapshot) :
  build_model network snapshots formulation ptdf_tolerance = Return s ->
  NoDup (name_index g_name (generators network)) ->
  In g (generators network) -> In sn snapshots ->
  var_at (model s) "generator_p" [KName (g_name g); KSnap sn]
  = Some (mkVarData Reals (fst (generator_p_bounds network g sn))
                    (snd (generator_p_bounds network g sn))).
Proof.
  intros H Hnd Hg Hsn.
  pose proof H as Hk. apply build_keeps in Hk.
  destruct Hk as (m1 & m2 & m3 & m4 & m5 & Hgen & _ & _ & _ & _ & Hv & _).
  apply define_generator_variables_constraints_spec in Hgen; [|exact Hnd].
  destruct Hgen as (generator_p & lower & upper & Ev & _ & _ & _ & _ & Hget).
  unfold var_at. rewrite (Hv "generator_p") by (simpl; auto).
  rewrite Ev. simpl. now destruct (Hget g sn Hg Hsn).
Qed.

(** X2. A generator whose dispatch is neither "variable" nor "flexible" makes
    the build fail: its dispatch bounds, or its dispatch limits when it is
    extendable, are looked up and are not there. *)
Theorem generator_dispatch_unknown (network : Network F) (snapshots : list snapshot)
    (formulation : string) (ptdf_tolerance : F) (g : Generator F) :
  NoDup (name_index g_name (generators network)) ->
  In g (generators network) -> snapshots <> [] ->
  g_dispatch g <> "variable" -> g_dispatch g <> "flexible" ->
  is_raise (build_model network snapshots formulation ptdf_tolerance) = true.
Proof.
  intros Hnd Hg Hsn Hv Hf.
  destruct (build_model network snapshots formulation ptdf_tolerance) as [e|s] eqn:H;
    [reflexivity|].
  exfalso.
  pose proof H as Hk. apply build_keeps in Hk.
  destruct Hk as (m1 & _ & _ & _ & _ & Hgen & _).
  apply define_generator_variables_constraints_spec in Hgen; [|exact Hnd].
  destruct Hgen as (generator_p & lower & upper & _ & _ & _ & _ & _ & Hget).
  destruct snapshots as [|sn sns]; [contradiction|].
  destruct (Hget g sn Hg (or_introl eq_refl)) as (_ & [Hd|Hd] & _); contradiction.
Qed.

(** X3. An extendable generator in a built model: its capacity variable is
    bounded by [p_nom_min] and [p_nom_max], and at every snapshot of the
    window its dispatch is limited by [p - p_min_pu * p_nom >= 0] and
    [p - p_max_pu * p_nom <= 0], the per-unit limits being the time series
    for variable dispatch and the fixed ones for flexible dispatch. *)
Theorem extendable_generator_limits (network : Network F) (snapshots : list snapshot)
    (formulation : string) (ptdf_tolerance : F) (s : NetState F) (g : Generator F) :
  build_model network snapshots formulation ptdf_tolerance = Return s ->
  NoDup (name_index g_name (generators network)) ->
  In g (generators network) -> g_p_nom_extendable g = true ->
  var_at (model s) "generator_p_nom" [KName (g_name g)]
  = Some (mkVarData NonNegativeReals (Some (g_p_nom_min g)) (Some (g_p_nom_max g)))
  /\ forall sn, In sn snapshots ->
       con_at (model s) "generator_p_lower" [KName (g_name g); KSnap sn]
       = Some (generator_p_lower_constraint network g sn)
       /\ con_at (model s) "generator_p_upper" [KName (g_name g); KSnap sn]
          = Some (generator_p_upper_constraint network g sn).
Proof.
  intros H Hnd Hg Hext.
  pose proof H as Hk. apply build_keeps in Hk.
  destruct Hk as (m1 & m2 & m3 & m4 & m5 & Hgen & _ & _ & _ & _ & Hv & Hc & _).
  apply define_generator_variables_constraints_spec in Hgen; [|exact Hnd].
  destruct Hgen as (generator_p & lower & upper & Ev & Ec & _ & _ & _ & Hget).
  unfold var_at, con_at.
  rewrite (Hv "generator_p_nom"), (Hc "generator_p_lower"), (Hc "generator_p_upper")
    by (simpl; auto).
  rewrite Ev, Ec. simpl. split.
  - apply (dget_rows (fun gen : Generator F => [KName (g_name gen)])
             (fun gen => mkVarData NonNegativeReals (Some (g_p_nom_min gen))
                                   (Some (g_p_nom_max gen)))).
    + apply filter_keeps_distinct. exact Hnd.
    + apply filter_In. auto.
  - intros sn Hsn. destruct (Hget g sn Hg Hsn) as (_ & _ & Hlim). now apply Hlim.
Qed.

End GeneratorsBuild.


(** ** Storage units: the variables *)

Section StorageVariables.

Context {F : Type} {SF : Scalar F}.

Variable network : Network F.
Variable snapshots : list snapshot.

Hypothesis names_distinct : NoDup (name_index su_name (storage_units network)).

(** The dictionary of the bounds of a power variable of the storage units:
    no upper bound for the extendable ones, [ub] for the others. *)
Lemma su_bounds_dget (ub : StorageUnit F -> F) (su : StorageUnit F) (sn : snapshot)
    (b : option F * option F) :
  In su (storage_units network) -> In sn snapshots ->
  dget (dupdate
          (dict_of_list
             (map (fun p => ([KName (su_name (fst p)); KSnap (snd p)], (Some fzero, None)))
                  (list_prod (filter su_p_nom_extendable (storage_units network))
                             snapshots)))
          (map (fun p => let su := fst p in
                  ([KName (su_name su); KSnap (snd p)], (Some fzero, Some (ub su))))
               (list_prod (filter (fun su => negb (su_p_nom_extendable su))
                                  (storage_units network)) snapshots)))
       [KName (su_name su); KSnap sn] = Some b ->
  b = (Some fzero, if su_p_nom_extendable su then None else Some (ub su)).
Proof.
  intros Hsu Hsn H. unfold dict_of_list in H.
  rewrite !dupdate_app in H. apply dget_items_In in H.
  pose proof (name_key_injective su_name (storage_units network) names_distinct) as Hinj.
  repeat (apply in_app_or in H; destruct H as [H|H]);
    apply in_map_iff in H; destruct H as [[a t] [E Hin]]; simpl in E;
    apply in_prod_iff in Hin; destruct Hin as [Ha _];
    repeat (apply filter_In in Ha; let C := fresh "C" in destruct Ha as [Ha C]);
    assert (Ek : [KName (su_name a); KSnap t] = [KName (su_name su); KSnap sn])
      by (inversion E; reflexivity);
    destruct (Hinj a su t sn Ha Hsu Ek) as [Ea Et]; subst a t;
    inversion E; subst b.
  - now rewrite C.
  - apply negb_true_iff in C. now rewrite C.
Qed.

(** The keys of the spillage variables. *)
Lemma in_spill_index (su : StorageUnit F) (sn : snapshot) :
  In su (storage_units network) -> In sn snapshots -> In sn (snapshots_all network) ->
  In [KName (su_name su); KSnap sn] (spill_index network snapshots)
  <-> fltb fzero (storage_units_t_inflow network sn (su_name su)) = true.
Proof.
  intros Hsu Hsn Hall.
  pose proof (name_key_injective su_name (storage_units network) names_distinct) as Hinj.
  unfold spill_index, spill_bounds. cbv zeta. rewrite dkeys_dict_of_list_In.
  rewrite map_map. simpl. split.
  - intro H. apply in_map_iff in H. destruct H as [[a t] [E Hin]]. simpl in E.
    apply filter_In in Hin. destruct Hin as [Hin C]. simpl in C.
    apply in_prod_iff in Hin. destruct Hin as [Ha _].
    apply filter_In in Ha. destruct Ha as [Ha _].
    destruct (Hinj a su t sn Ha Hsu E) as [Ea Et]. subst a t. exact C.
  - intro C. apply in_map_iff. exists (su, sn). split; [reflexivity|].
    apply filter_In. split; [|exact C].
    apply in_prod; [|assumption]. apply filter_In. split; [assumption|].
    apply existsb_exists. exists sn. auto.
Qed.

Lemma spill_bounds_dget (su : StorageUnit F) (sn : snapshot) (b : option F * option F) :
  In su (storage_units network) ->
  dget (spill_bounds network snapshots) [KName (su_name su); KSnap sn] = Some b ->
  b = (Some fzero, Some (storage_units_t_inflow network sn (su_name su))).
Proof.
  intros Hsu H.
  pose proof (name_key_injective su_name (storage_units network) names_distinct) as Hinj.
  unfold spill_bounds in H. cbv zeta in H. unfold dict_of_list in H.
  apply dget_items_In in H.
  apply in_map_iff in H. destruct H as [[a t] [E Hin]]. simpl in E.
  apply filter_In in Hin. destruct Hin as [Hin _].
  apply in_prod_iff in Hin. destruct Hin as [Ha _].
  apply filter_In in Ha. destruct Ha as [Ha _].
  assert (Ek : [KName (su_name a); KSnap t] = [KName (su_name su); KSnap sn])
    by (inversion E; reflexivity).
  destruct (Hinj a su t sn Ha Hsu Ek) as [Ea Et]. subst a t.
  inversion E. reflexivity.
Qed.

Lemma su_upper_dget (su : StorageUnit F) (sn : snapshot) (c : cspec F) :
  In su (storage_units network) -> In sn snapshots ->
  dget (dupdate
          (dict_of_list
             (map (fun p =>
                     ([KName (su_name (fst p)); KSnap (snd p)],
                      CTriple [(fone, ("state_of_charge",
                                       [KName (su_name (fst p)); KSnap (snd p)]));
                               (fopp (su_max_hours (fst p)),
                                ("storage_p_nom", [KName (su_name (fst p))]))]
                              LE fzero))
                  (list_prod (filter su_p_nom_extendable (storage_units network))
                             snapshots)))
          (map (fun p =>
                  ([KName (su_name (fst p)); KSnap (snd p)],
                   CTriple [(fone, ("state_of_charge",
                                    [KName (su_name (fst p)); KSnap (snd p)]))]
                           LE (fmul (su_max_hours (fst p)) (su_p_nom (fst p)))))
               (list_prod (filter (fun su => negb (su_p_nom_extendable su))
                                  (storage_units network)) snapshots)))
       [KName (su_name su); KSnap sn] = Some c ->
  normalize c = state_of_charge_upper_constraint su sn.
Proof.
  intros Hsu Hsn H. unfold dict_of_list in H.
  rewrite !dupdate_app in H. apply dget_items_In in H.
  pose proof (name_key_injective su_name (storage_units network) names_distinct) as Hinj.
  unfold state_of_charge_upper_constraint.
  repeat (apply in_app_or in H; destruct H as [H|H]);
    apply in_map_iff in H; destruct H as [[a t] [E Hin]]; simpl in E;
    apply in_prod_iff in Hin; destruct Hin as [Ha _];
    repeat (apply filter_In in Ha; let C := fresh "C" in destruct Ha as [Ha C]);
    assert (Ek : [KName (su_name a); KSnap t] = [KName (su_name su); KSnap sn])
      by (inversion E; reflexivity);
    destruct (Hinj a su t sn Ha Hsu Ek) as [Ea Et]; subst a t;
    inversion E; subst c.
  - now rewrite C.
  - apply negb_true_iff in C. now rewrite C.
Qed.

(** The variables that [define_storage_variables_constraints] declares
    for a unit and a snapshot, and the limit of the state of charge. *)
Lemma define_storage_variables_constraints_vars (m m' : Model F)
    (su : StorageUnit F) (sn : snapshot) :
  define_storage_variables_constraints network snapshots m = Return m' ->
  In su (storage_units network) -> In sn snapshots ->
  var_at m' "storage_p_dispatch" [KName (su_name su); KSnap sn]
  = Some (storage_p_dispatch_var su)
  /\ var_at m' "storage_p_store" [KName (su_name su); KSnap sn]
     = Some (storage_p_store_var su)
  /\ var_at m' "state_of_charge" [KName (su_name su); KSnap sn]
     = Some (mkVarData NonNegativeReals (Some fzero) None)
  /\ (In sn (snapshots_all network) ->
      var_at m' "storage_p_spill" [KName (su_name su); KSnap sn]
      = storage_p_spill_var network su sn)
  /\ con_at m' "state_of_charge_upper" [KName (su_name su); KSnap sn]
     = Some (state_of_charge_upper_constraint su sn).
Proof.
  unfold define_storage_variables_constraints. intros H Hsu Hsn.
  bstep H dispatch Hdispatch. bstep H store Hstore. bstep H spill Hspill.
  bstep H p_upper Hp_upper. bstep H p_lower Hp_lower. bstep H e He.
  bstep H upper_ext Hue. bstep H upper_fix Huf. lstep H m1 upper Hupper.
  bstep H s Hsoc. bstep H soc1 Hspillfold. lstep H m2 fam Hfam.
  apply l_constraint_inv in H. destruct H as [fixed [-> Hfixed]].
  apply for2_pure with
    (g := fun su sn =>
            ([KName (su_name su); KSnap sn],
             CTriple [(fone, ("state_of_charge", [KName (su_name su); KSnap sn]));
                      (fopp (su_max_hours su), ("storage_p_nom", [KName (su_name su)]))]
                     LE fzero)) in Hue; [|pure_rule].
  apply for2_pure with
    (g := fun su sn =>
            ([KName (su_name su); KSnap sn],
             CTriple [(fone, ("state_of_charge", [KName (su_name su); KSnap sn]))]
                     LE (fmul (su_max_hours su) (su_p_nom su)))) in Huf; [|pure_rule].
  subst upper_ext upper_fix.
  pose proof (in_name_snap su_name _ _ _ _ Hsu Hsn) as Hin.
  unfold var_at, con_at. simpl.
  eapply Var_dget in Hdispatch; [|exact Hin]. destruct Hdispatch as [bd [Hbd ->]].
  eapply Var_dget in Hstore; [|exact Hin]. destruct Hstore as [bs [Hbs ->]].
  eapply Var_dget in He; [|exact Hin]. destruct He as [be [Hbe ->]].
  apply dlookup_inv in Hbd. apply dlookup_inv in Hbs. inversion Hbe; subst be.
  rewrite (su_bounds_dget (fun su => fmul (su_p_nom su) (su_p_max_pu_fixed su))
             su sn Hsu Hsn Hbd).
  rewrite (su_bounds_dget (fun su => fmul (fopp (su_p_nom su)) (su_p_min_pu_fixed su))
             su sn Hsu Hsn Hbs).
  destruct (l_constraint_dget _ _ _ Hupper Hin) as [cu [Hcu ->]].
  rewrite (su_upper_dget su sn Hsu Hsn Hcu).
  repeat (split; [reflexivity|]). split; [|reflexivity].
  intro Hall. unfold storage_p_spill_var.
  destruct (fltb fzero (storage_units_t_inflow network sn (su_name su))) eqn:Ef.
  - apply (in_spill_index su sn Hsu Hsn Hall) in Ef.
    eapply Var_dget in Hspill; [|exact Ef]. destruct Hspill as [b [Hb ->]].
    apply dlookup_inv in Hb. rewrite (spill_bounds_dget su sn Hsu Hb). reflexivity.
  - apply dget_None_notin. rewrite (Var_keys _ _ _ Hspill).
    intro Hk. apply (in_spill_index su sn Hsu Hsn Hall) in Hk. congruence.
Qed.

End StorageVariables.

Section StorageBuild.

Context {F : Type} {SF : Scalar F}.

(** X4. The variables of a storage unit at a snapshot of the window, in a
    built model: dispatch and storing power are non-negative and, unless
    the unit is extendable, limited by [p_nom * p_max_pu_fixed] and
    [-p_nom * p_min_pu_fixed]; the state of charge is non-negative and at
    most [max_hours] times the capacity; a spillage variable exists exactly
    where the inflow is positive, and is limited by the inflow. *)
Theorem storage_unit_variables (network : Network F) (snapshots : list snapshot)
    (formulation : string) (ptdf_tolerance : F) (s : NetState F)
    (su : StorageUnit F) (sn : snapshot) :
  build_model network snapshots formulation ptdf_tolerance = Return s ->
  NoDup (name_index su_name (storage_units network)) ->
  In su (storage_units network) -> In sn snapshots ->
  var_at (model s) "storage_p_dispatch" [KName (su_name su); KSnap sn]
  = Some (storage_p_dispatch_var su)
  /\ var_at (model s) "storage_p_store" [KName (su_name su); KSnap sn]
     = Some (storage_p_store_var su)
  /\ var_at (model s) "state_of_charge" [KName (su_name su); KSnap sn]
     = Some (mkVarData NonNegativeReals (Some fzero) None)
  /\ (In sn (snapshots_all network) ->
      var_at (model s) "storage_p_spill" [KName (su_name su); KSnap sn]
      = storage_p_spill_var network su sn)
  /\ con_at (model s) "state_of_charge_upper" [KName (su_name su); KSnap sn]
     = Some (state_of_charge_upper_constraint su sn).
Proof.
  intros H Hnd Hsu Hsn.
  pose proof H as Hk. apply build_keeps in Hk.
  destruct Hk as (m1 & m2 & m3 & m4 & m5 & _ & Hst & _ & _ & _ & _ & _ & Hv & Hc & _).
  unfold var_at, con_at.
  rewrite (Hv "storage_p_dispatch"), (Hv "storage_p_store"), (Hv "state_of_charge"),
    (Hv "storage_p_spill"), (Hc "state_of_charge_upper") by (simpl; auto 10).
  revert Hst Hsu Hsn. apply define_storage_variables_constraints_vars. exact Hnd.
Qed.

End StorageBuild.


(** ** Extendable branches and links *)

(** The entry at a key all of whose entries agree. *)
Lemma dget_functional {V : Type} (d : dict V) (k : index) (v : V) :
  In (k, v) d -> (forall v', In (k, v') d -> v' = v) -> dget d k = Some v.
Proof.
  induction d as [|[k0 v0] d IH]; simpl; intros Hin Hf; [contradiction|].
  destruct (index_eqb k k0) eqn:E.
  - apply index_eqb_eq in E. subst k0. f_equal. apply Hf. now left.
  - destruct Hin as [Hin|Hin].
    + inversion Hin. subst. now rewrite index_eqb_refl in E.
    + apply IH; auto.
Qed.

(** A family with one entry per pair of a selected row and a snapshot. *)
Lemma dget_selected {A V : Type} (name : A -> string) (sel : A -> bool)
    (val : A -> snapshot -> V) (rows : list A) (snapshots : list snapshot)
    (x : A) (sn : snapshot) :
  NoDup (name_index name rows) -> In x rows -> In sn snapshots ->
  dget (map (fun p => ([KName (name (fst p)); KSnap (snd p)], val (fst p) (snd p)))
            (list_prod (filter sel rows) snapshots))
       [KName (name x); KSnap sn]
  = if sel x then Some (val x sn) else None.
Proof.
  intros Hnd Hx Hsn.
  pose proof (name_key_injective name rows Hnd) as Hinj.
  destruct (sel x) eqn:Ex.
  - apply dget_functional.
    + apply in_map_iff. exists (x, sn). split; [reflexivity|].
      apply in_prod; [|assumption]. apply filter_In. auto.
    + intros v' Hv'. apply in_map_iff in Hv'. destruct Hv' as [[a t] [E Hin]].
      simpl in E. apply in_prod_iff in Hin. destruct Hin as [Ha _].
      apply filter_In in Ha. destruct Ha as [Ha _].
      assert (Ek : [KName (name a); KSnap t] = [KName (name x); KSnap sn])
        by (inversion E; reflexivity).
      destruct (Hinj a x t sn Ha Hx Ek) as [-> ->]. now inversion E.
  - apply dget_None_notin. unfold dkeys. rewrite map_map. simpl.
    intro Hin. apply in_map_iff in Hin. destruct Hin as [[a t] [E Hin]]. simpl in E.
    apply in_prod_iff in Hin. destruct Hin as [Ha _].
    apply filter_In in Ha. destruct Ha as [Ha Hs].
    destruct (Hinj a x t sn Ha Hx E) as [-> _]. congruence.
Qed.

(** A family with one entry per selected row. *)
Lemma dget_selected_rows {A V : Type} (key : A -> index) (sel : A -> bool)
    (val : A -> V) (rows : list A) (x : A) :
  NoDup (map key rows) -> In x rows ->
  dget (map (fun r => (key r, val r)) (filter sel rows)) (key x)
  = if sel x then Some (val x) else None.
Proof.
  intros Hnd Hx. destruct (sel x) eqn:Ex.
  - apply dget_rows; [now apply filter_keeps_distinct | apply filter_In; auto].
  - apply dget_None_notin. unfold dkeys. rewrite map_map. simpl.
    intro Hin. apply in_map_iff in Hin. destruct Hin as [a [E Ha]].
    apply filter_In in Ha. destruct Ha as [Ha Hs].
    rewrite (NoDup_map_injective key rows a x Hnd Ha Hx E) in Hs. congruence.
Qed.

Section Capacities.

Context {F : Type} {SF : Scalar F}.

(** Variables declared over the selected rows, with bounds from a
    dictionary filled over the same rows. *)
Lemma Var_selected_rows {A : Type} (key : A -> index) (sel : A -> bool)
    (bnd : A -> option F * option F) (dom : domain) (rows : list A)
    (fam : dict (VarData F)) (x : A) :
  Var (map key (filter sel rows)) dom
      (dlookup (dict_of_list (map (fun r => (key r, bnd r)) (filter sel rows))))
  = Return fam ->
  NoDup (map key rows) -> In x rows ->
  dget fam (key x)
  = if sel x then Some (mkVarData dom (fst (bnd x)) (snd (bnd x))) else None.
Proof.
  intros H Hnd Hx. destruct (sel x) eqn:Ex.
  - assert (Hin : In (key x) (map key (filter sel rows))).
    { apply in_map. apply filter_In. auto. }
    eapply Var_dget in H; [|exact Hin]. destruct H as [b [Hb ->]].
    apply dlookup_inv in Hb. unfold dict_of_list in Hb. apply dget_items_In in Hb.
    apply in_map_iff in Hb. destruct Hb as [a [E Ha]].
    apply filter_In in Ha. destruct Ha as [Ha _].
    assert (Ek : key a = key x) by (inversion E; reflexivity).
    rewrite (NoDup_map_injective key rows a x Hnd Ha Hx Ek) in E.
    inversion E. reflexivity.
  - apply dget_None_notin. rewrite (Var_keys _ _ _ H).
    intro Hin. apply in_map_iff in Hin. destruct Hin as [a [E Ha]].
    apply filter_In in Ha. destruct Ha as [Ha Hs].
    rewrite (NoDup_map_injective key rows a x Hnd Ha Hx E) in Hs. congruence.
Qed.

(** What [define_branch_extension_variables] declares. *)
Lemma define_branch_extension_variables_spec (network : Network F)
    (snapshots : list snapshot) (m m' : Model F) :
  define_branch_extension_variables network snapshots m = Return m' ->
  (NoDup (branch_index (passive_branches network)) ->
   forall b, In b (passive_branches network) ->
     var_at m' "passive_branch_s_nom" [KName (pb_type b); KName (pb_name b)]
     = passive_branch_s_nom_var b)
  /\ (NoDup (name_index ln_name (links network)) ->
      forall l, In l (links network) ->
        var_at m' "link_p_nom" [KName (ln_name l)] = link_p_nom_var l).
Proof.
  unfold define_branch_extension_variables. intro H.
  bstep H s_nom Hs. bstep H p_nom Hp. inversion H; subst m'. clear H.
  unfold var_at. simpl. split.
  - intros Hnd b Hb.
    apply (@Var_selected_rows _
             (fun b : PassiveBranch F => [KName (pb_type b); KName (pb_name b)])
             pb_s_nom_extendable
             (fun b => (Some (pb_s_nom_min b), Some (pb_s_nom_max b)))
             NonNegativeReals (passive_branches network) s_nom b Hs Hnd Hb).
  - intros Hnd l Hl.
    apply (@Var_selected_rows _ (fun l : Link F => [KName (ln_name l)])
             ln_p_nom_extendable
             (fun l => (Some (ln_p_nom_min l), Some (ln_p_nom_max l)))
             NonNegativeReals (links network) p_nom l Hp Hnd Hl).
Qed.

End Capacities.

Section LinkFlows.

Context {F : Type} {SF : Scalar F}.

Variable network : Network F.
Variable snapshots : list snapshot.

Hypothesis names_distinct : NoDup (name_index ln_name (links network)).

Lemma link_bounds_dget (l : Link F) (sn : snapshot) (b : option F * option F) :
  In l (links network) -> In sn snapshots ->
  dget (dupdate
          (dict_of_list
             (map (fun p => let cb := fst p in
                     ([KName (ln_name cb); KSnap (snd p)],
                      (Some (fmul (ln_p_min_pu cb) (ln_p_nom cb)),
                       Some (fmul (ln_p_max_pu cb) (ln_p_nom cb)))))
                  (list_prod (filter (fun l => negb (ln_p_nom_extendable l))
                                     (links network)) snapshots)))
          (map (fun p => ([KName (ln_name (fst p)); KSnap (snd p)], (None, None)))
               (list_prod (filter ln_p_nom_extendable (links network)) snapshots)))
       [KName (ln_name l); KSnap sn] = Some b ->
  mkVarData Reals (fst b) (snd b) = link_p_var l.
Proof.
  intros Hl Hsn H. unfold dict_of_list in H.
  rewrite !dupdate_app in H. apply dget_items_In in H.
  pose proof (name_key_injective ln_name (links network) names_distinct) as Hinj.
  unfold link_p_var.
  repeat (apply in_app_or in H; destruct H as [H|H]);
    apply in_map_iff in H; destruct H as [[a t] [E Hin]]; simpl in E;
    apply in_prod_iff in Hin; destruct Hin as [Ha _];
    repeat (apply filter_In in Ha; let C := fresh "C" in destruct Ha as [Ha C]);
    assert (Ek : [KName (ln_name a); KSnap t] = [KName (ln_name l); KSnap sn])
      by (inversion E; reflexivity);
    destruct (Hinj a l t sn Ha Hl Ek) as [Ea Et]; subst a t;
    inversion E; subst b.
  - apply negb_true_iff in C. now rewrite C.
  - now rewrite C.
Qed.

(** What [define_link_flows] declares for a link and a snapshot. *)
Lemma define_link_flows_spec (m m' : Model F) (l : Link F) (sn : snapshot) :
  define_link_flows network snapshots m = Return m' ->
  In l (links network) -> In sn snapshots ->
  var_at m' "link_p" [KName (ln_name l); KSnap sn] = Some (link_p_var l)
  /\ con_at m' "link_p_upper" [KName (ln_name l); KSnap sn]
     = (if ln_p_nom_extendable l then Some (link_p_upper_constraint l sn) else None)
  /\ con_at m' "link_p_lower" [KName (ln_name l); KSnap sn]
     = (if ln_p_nom_extendable l then Some (link_p_lower_constraint l sn) else None).
Proof.
  unfold define_link_flows. intros H Hl Hsn.
  bstep H link_p Hp. bstep H upper Hu. bstep H lower Hlo.
  inversion H; subst m'. clear H.
  apply for2_pure with
    (g := fun cb sn => ([KName (ln_name cb); KSnap sn], link_p_upper_constraint cb sn))
    in Hu; [|pure_rule].
  apply for2_pure with
    (g := fun cb sn => ([KName (ln_name cb); KSnap sn], link_p_lower_constraint cb sn))
    in Hlo; [|pure_rule].
  subst upper lower. unfold var_at, con_at. simpl.
  eapply Var_dget in Hp; [|apply in_name_snap; eassumption].
  destruct Hp as [b [Hb ->]]. apply dlookup_inv in Hb.
  rewrite (link_bounds_dget l sn Hl Hsn Hb).
  split; [reflexivity|]. split.
  - apply (dget_selected ln_name ln_p_nom_extendable link_p_upper_constraint
             (links network) snapshots l sn names_distinct Hl Hsn).
  - apply (dget_selected ln_name ln_p_nom_extendable link_p_lower_constraint
             (links network) snapshots l sn names_distinct Hl Hsn).
Qed.

End LinkFlows.

Section CapacitiesBuild.

Context {F : Type} {SF : Scalar F}.

(** X5. The capacity variables of the passive branches in a built model: an
    extendable branch has one, non-negative and bounded by [s_nom_min] and
    [s_nom_max]; a branch that is not extendable has none. *)
Theorem passive_branch_capacity_variables (network : Network F)
    (snapshots : list snapshot) (formulation : string) (ptdf_tolerance : F)
    (s : NetState F) (b : PassiveBranch F) :
  build_model network snapshots formulation ptdf_tolerance = Return s ->
  NoDup (branch_index (passive_branches network)) ->
  In b (passive_branches network) ->
  var_at (model s) "passive_branch_s_nom" [KName (pb_type b); KName (pb_name b)]
  = passive_branch_s_nom_var b.
Proof.
  intros H Hnd Hb.
  pose proof H as Hk. apply build_keeps in Hk.
  destruct Hk as (m1 & m2 & m3 & m4 & m5 & _ & _ & _ & Hext & _ & _ & _ & _ & _ & _ & _
                  & Hv & _).
  unfold var_at. rewrite (Hv "passive_branch_s_nom") by (simpl; auto).
  apply define_branch_extension_variables_spec in Hext. destruct Hext as [Hs _].
  exact (Hs Hnd b Hb).
Qed.

(** X6. The flow of a link in a built model: the flow variable is bounded by
    [p_min_pu * p_nom] and [p_max_pu * p_nom] unless the link is
    extendable; an extendable link has a capacity variable, bounded by
    [p_nom_min] and [p_nom_max], and the two constraints
    [p <= p_max_pu * p_nom] and [p >= p_min_pu * p_nom] at every snapshot
    of the window; a link that is not extendable has neither. *)
Theorem link_flow_limits (network : Network F) (snapshots : list snapshot)
    (formulation : string) (ptdf_tolerance : F) (s : NetState F)
    (l : Link F) (sn : snapshot) :
  build_model network snapshots formulation ptdf_tolerance = Return s ->
  NoDup (name_index ln_name (links network)) ->
  In l (links network) -> In sn snapshots ->
  var_at (model s) "link_p" [KName (ln_name l); KSnap sn] = Some (link_p_var l)
  /\ var_at (model s) "link_p_nom" [KName (ln_name l)] = link_p_nom_var l
  /\ con_at (model s) "link_p_upper" [KName (ln_name l); KSnap sn]
     = (if ln_p_nom_extendable l then Some (link_p_upper_constraint l sn) else None)
  /\ con_at (model s) "link_p_lower" [KName (ln_name l); KSnap sn]
     = (if ln_p_nom_extendable l then Some (link_p_lower_constraint l sn) else None).
Proof.
  intros H Hnd Hl Hsn.
  pose proof H as Hk. apply build_keeps in Hk.
  destruct Hk as (m1 & m2 & m3 & m4 & m5 & _ & _ & _ & Hext & Hlink & _ & _ & _ & _ & _ & _
                  & Hv4 & Hv5 & Hc5).
  unfold var_at, con_at.
  rewrite (Hv4 "link_p_nom"), (Hv5 "link_p"), (Hc5 "link_p_upper"), (Hc5 "link_p_lower")
    by (simpl; auto).
  apply define_branch_extension_variables_spec in Hext. destruct Hext as [_ Hs].
  pose proof (Hs Hnd l Hl) as Hnom. unfold var_at in Hnom.
  revert Hlink Hl Hsn. intros Hlink Hl Hsn.
  pose proof (@define_link_flows_spec F SF network snapshots Hnd m4 m5 l sn Hlink Hl Hsn)
    as (Hp & Hu & Hlo).
  unfold var_at, con_at in Hp, Hu, Hlo. auto.
Qed.

End CapacitiesBuild.


(** ** Passive branch flows with voltage angles *)

Section Angles.

Context {F : Type} {SF : Scalar F}.

Variable network : Network F.
Variable snapshots : list snapshot.

Lemma angle_flow_entries_loop (model : Model F) (d : dict (cspec F)) :
  foldM (fun flows branch =>
      let bus0 := pb_bus0 branch in
      let bus1 := pb_bus1 branch in
      let bt := pb_type branch in
      let bn := pb_name branch in
      let sub := pb_sub_network branch in
      carrier <- sub_network_carrier network sub ;;
      let attribute := if carrier =? "DC" then pb_r_pu branch else pb_x_pu branch in
      let y := fdiv fone attribute in
      foldM (fun flows sn =>
          a0 <- getvar model "voltage_angles" [KName bus0; KSnap sn] ;;
          a1 <- getvar model "voltage_angles" [KName bus1; KSnap sn] ;;
          p <- getvar model "passive_branch_p" [KName bt; KName bn; KSnap sn] ;;
          let lhs := LExpression_terms [(y, a0); (fopp y, a1); (fopp fone, p)] in
          Return (dset flows [KName bt; KName bn; KSnap sn]
                       (CObject (mkLConstraint lhs EQ LExpression_empty))))
        snapshots flows)
    (passive_branches network) [] = Return d ->
  angle_flow_entries network d.
Proof.
  intro H.
  eapply (@foldM_invariant _ _ (angle_flow_entries network)); [| | exact H].
  - intros d0 b d1 Hb Hd0 Hstep. cbv zeta in Hstep.
    bstep Hstep carrier Hc.
    eapply (@foldM_invariant _ _ (angle_flow_entries network)); [| exact Hd0 | exact Hstep].
    intros d2 sn d3 Hsn Hd2 Hin. binv.
    repeat match goal with
           | Hg : getvar _ _ _ = Return _ |- _ =>
               apply getvar_inv in Hg; destruct Hg as [-> _]
           end.
    subst d3. intros k c Hk. rewrite dget_dset in Hk.
    destruct (index_eqb k [KName (pb_type b); KName (pb_name b); KSnap sn]) eqn:E.
    + apply index_eqb_eq in E. inversion Hk; subst c k.
      exists b, sn, carrier. repeat split; assumption.
    + now apply Hd2.
  - intros k c Hk. discriminate.
Qed.

Lemma dget_const_family {V : Type} (v : V) (idx : list index) (k : index) :
  In k idx -> dget (map (fun i => (i, v)) idx) k = Some v.
Proof.
  intro H. apply dget_functional.
  - apply in_map_iff. now exists k.
  - intros v' Hv'. apply in_map_iff in Hv'. destruct Hv' as [i [E _]]. now inversion E.
Qed.

(** What [define_passive_branch_flows_with_angles] declares. *)
Lemma define_passive_branch_flows_with_angles_spec (s s' : NetState F) :
  define_passive_branch_flows_with_angles network snapshots s = Return s' ->
  (forall bus sn, In bus (buses network) -> In sn snapshots ->
     var_at (model s') "voltage_angles" [KName (bus_name bus); KSnap sn]
     = Some (mkVarData Reals None None))
  /\ (NoDup (name_index sub_name (sub_networks network)) ->
      forall sub sn, In sub (sub_networks network) -> In sn snapshots ->
        con_at (model s') "slack_angle" [KName (sub_name sub); KSnap sn]
        = Some (slack_angle_constraint sub sn))
  /\ (NoDup (branch_index (passive_branches network)) ->
      forall b sn, In b (passive_branches network) -> In sn snapshots ->
        var_at (model s') "passive_branch_p"
               [KName (pb_type b); KName (pb_name b); KSnap sn]
        = Some (mkVarData Reals None None)
        /\ exists carrier,
             sub_network_carrier network (pb_sub_network b) = Return carrier
             /\ con_at (model s') "passive_branch_p_def"
                       [KName (pb_type b); KName (pb_name b); KSnap sn]
                = Some (angle_flow_constraint b carrier sn)).
Proof.
  unfold define_passive_branch_flows_with_angles. intro H.
  bstep H slack Hslack. lstep H m1 slack_fam Hsf.
  bstep H flows Hflows. lstep H m2 flow_fam Hff.
  inversion H; subst s'. clear H.
  unfold var_at, con_at. simpl. split; [|split].
  - intros bus sn Hbus Hsn. apply dget_const_family. now apply in_name_snap.
  - intros Hnd sub sn Hsub Hsn.
    apply for2_pure with
      (g := fun sub sn =>
              ([KName (sub_name sub); KSnap sn],
               CTriple [(fone, ("voltage_angles", [KName (sub_slack_bus sub); KSnap sn]))]
                       EQ fzero)) in Hslack; [|pure_rule].
    subst slack.
    destruct (l_constraint_dget _ _ _ Hsf (in_name_snap sub_name _ _ _ _ Hsub Hsn))
      as [c [Hc ->]]. f_equal.
    unfold dict_of_list in Hc. apply dget_items_In in Hc.
    apply in_map_iff in Hc. destruct Hc as [[a t] [E Hin]]. simpl in E.
    apply in_prod_iff in Hin. destruct Hin as [Ha _].
    assert (Ek : [KName (sub_name a); KSnap t] = [KName (sub_name sub); KSnap sn])
      by (inversion E; reflexivity).
    pose proof (name_key_injective sub_name (sub_networks network) Hnd) as Hinj.
    destruct (Hinj a sub t sn Ha Hsub Ek) as [-> ->].
    inversion E. reflexivity.
  - intros Hnd b sn Hb Hsn.
    pose proof (in_branch_snap _ _ _ _ Hb Hsn) as Hin.
    split; [now apply dget_const_family|].
    destruct (l_constraint_dget _ _ _ Hff Hin) as [c [Hc ->]].
    apply angle_flow_entries_loop in Hflows.
    destruct (Hflows _ _ Hc) as (b' & sn' & carrier & Hb' & Ek & Hcar & Hn).
    pose proof (branch_key_injective _ Hnd) as Hinj.
    destruct (Hinj b b' sn sn' Hb Hb' Ek) as [<- <-].
    exists carrier. split; [assumption|]. now rewrite Hn.
Qed.

End Angles.

Section AnglesBuild.

Context {F : Type} {SF : Scalar F}.

(** The components of the built model that the flow step declares are as
    that step left them. *)
Lemma build_keeps_flows (network : Network F) (snapshots : list snapshot)
    (formulation : string) (tol : F) (s : NetState F) :
  build_model network snapshots formulation tol = Return s ->
  exists s6 s7,
    define_passive_branch_flows network snapshots formulation tol s6 = Return s7
    /\ (exists balance, _p_balance s6 = Some balance /\ NoDup (dkeys balance))
    /\ (forall name, assoc name (m_vars (model s)) = assoc name (m_vars (model s7)))
    /\ (forall name,
          ~ In name ["co2_constraint"; "power_balance"; "sub_network_balance_constraint";
                     "flow_lower"; "flow_upper"] ->
          assoc name (m_cons (model s)) = assoc name (m_cons (model s7))).
Proof.
  intro H. build_steps H. exists s6, s7. split; [assumption|].
  apply define_nodal_balances_NoDup in Hbal. destruct Hbal as [_ Hbal].
  split; [assumption|].
  apply define_passive_branch_constraints_extends in Hlim.
  apply balance_step_declares in Hnodal. simpl in Hnodal.
  apply co2_step_declares in Hco2.
  apply define_linear_objective_frame in Hobj. destruct Hobj as (Ev & Ec & _).
  split.
  - intro name. subst s. simpl. rewrite Ev.
    rewrite (declares_assoc_vars name Hco2) by (simpl; tauto).
    rewrite (declares_assoc_vars name Hnodal) by (simpl; tauto).
    apply (extends_assoc_vars name Hlim). simpl. tauto.
  - intros name Hn. subst s. simpl. rewrite Ec.
    rewrite (declares_assoc_cons name Hco2) by (simpl in *; tauto).
    rewrite (declares_assoc_cons name Hnodal) by (simpl in *; tauto).
    apply (extends_assoc_cons name Hlim). simpl in *. tauto.
Qed.

(** X7. With the formulation "angles" a built model has an unbounded voltage
    angle at every bus and snapshot of the window, fixes the angle at the
    slack bus of every sub-network to zero, and defines the flow of every
    passive branch by the angles at its ends:
    [(theta0 - theta1) / x - p = 0], with [r] for [x] on a DC
    sub-network. *)
Theorem angle_flow_definition (network : Network F) (snapshots : list snapshot)
    (ptdf_tolerance : F) (s : NetState F) :
  build_model network snapshots "angles" ptdf_tolerance = Return s ->
  NoDup (name_index sub_name (sub_networks network)) ->
  NoDup (branch_index (passive_branches network)) ->
  (forall bus sn, In bus (buses network) -> In sn snapshots ->
     var_at (model s) "voltage_angles" [KName (bus_name bus); KSnap sn]
     = Some (mkVarData Reals None None))
  /\ (forall sub sn, In sub (sub_networks network) -> In sn snapshots ->
        con_at (model s) "slack_angle" [KName (sub_name sub); KSnap sn]
        = Some (slack_angle_constraint sub sn))
  /\ (forall b sn, In b (passive_branches network) -> In sn snapshots ->
        var_at (model s) "passive_branch_p"
               [KName (pb_type b); KName (pb_name b); KSnap sn]
        = Some (mkVarData Reals None None)
        /\ exists carrier,
             sub_network_carrier network (pb_sub_network b) = Return carrier
             /\ con_at (model s) "passive_branch_p_def"
                       [KName (pb_type b); KName (pb_name b); KSnap sn]
                = Some (angle_flow_constraint b carrier sn)).
Proof.
  intros H Hsub Hbr.
  apply build_keeps_flows in H. destruct H as (s6 & s7 & Hflow & _ & Hv & Hc).
  unfold define_passive_branch_flows in Hflow. simpl in Hflow.
  apply define_passive_branch_flows_with_angles_spec in Hflow.
  destruct Hflow as (Hang & Hslack & Hdef).
  unfold var_at, con_at in *.
  rewrite !Hv. rewrite (Hc "slack_angle"), (Hc "passive_branch_p_def") by not_in_names.
  split; [exact Hang|]. split; [exact (Hslack Hsub) | exact (Hdef Hbr)].
Qed.

End AnglesBuild.


(** ** The CO2 constraint *)

Section CO2.

Context {F : Type} {SF : Scalar F}.

Lemma for2_success_ext {A B : Type} (l : list A) (snapshots : list snapshot)
    (f g : A -> snapshot -> result B) (r : list B) :
  (forall x sn y, f x sn = Return y -> g x sn = Return y) ->
  for2 l snapshots f = Return r -> for2 l snapshots g = Return r.
Proof.
  intros Hfg. unfold for2. apply mapM_success_ext. intros [x sn] y _. apply Hfg.
Qed.

(** What [define_co2_constraint] declares. *)
Lemma define_co2_constraint_spec (network : Network F) (snapshots : list snapshot)
    (limit : F) (m m' : Model F) :
  define_co2_constraint network snapshots limit m = Return m' ->
  exists terms,
    co2_terms network snapshots = Return terms
    /\ m_cons m'
       = ("co2_constraint",
          [([], Relational (LExpression_terms terms) LE (mkLExpression [] limit))])
         :: m_cons m.
Proof.
  unfold define_co2_constraint. intro H.
  bstep H co2_gens Hg. bstep H co2_stores Hs. inversion H; subst m'. clear H.
  exists (co2_gens ++ co2_stores). split; [|reflexivity].
  assert (Hg' : for2 (generators network) snapshots (fun gen sn =>
                    co2 <- co2_emissions network (g_carrier gen) ;;
                    Return (fmul (fmul co2 (fdiv fone (g_efficiency gen)))
                                 (snapshot_weightings network sn),
                            ("generator_p", [KName (g_name gen); KSnap sn])))
                = Return co2_gens).
  { revert Hg. apply for2_success_ext. intros x sn y Hy. binv.
    match goal with
    | Hgv : getvar _ _ _ = Return _ |- _ => apply getvar_inv in Hgv; destruct Hgv as [-> _]
    end.
    subst. rewrite Ha. reflexivity. }
  assert (Hs' : for2 (stores network) snapshots (fun store sn =>
                    carrier <- carrier_of_bus network (st_bus store) ;;
                    co2 <- co2_emissions network carrier ;;
                    Return (fmul co2 (snapshot_weightings network sn),
                            ("store_p", [KName (st_name store); KSnap sn])))
                = Return co2_stores).
  { revert Hs. apply for2_success_ext. intros x sn y Hy. binv.
    match goal with
    | Hgv : getvar _ _ _ = Return _ |- _ => apply getvar_inv in Hgv; destruct Hgv as [-> _]
    end.
    subst. rewrite Ha. simpl. rewrite Ha0. reflexivity. }
  unfold co2_terms. rewrite Hg'. simpl. rewrite Hs'. reflexivity.
Qed.

(** X8. The CO2 constraint of a built model: there is none when the network
    has no CO2 limit; with a limit it is the one constraint
    [sum of emissions <= limit], the emissions of a generator being those
    of its carrier divided by its efficiency and those of a store the
    ones of the carrier of its bus, weighted by the snapshots. *)
Theorem co2_constraint_of_limit (network : Network F) (snapshots : list snapshot)
    (formulation : string) (ptdf_tolerance : F) (s : NetState F) :
  build_model network snapshots formulation ptdf_tolerance = Return s ->
  match co2_limit network with
  | None => assoc "co2_constraint" (m_cons (model s)) = None
  | Some limit =>
      exists terms,
        co2_terms network snapshots = Return terms
        /\ assoc "co2_constraint" (m_cons (model s))
           = Some [([], Relational (LExpression_terms terms) LE (mkLExpression [] limit))]
  end.
Proof.
  intro H. build_steps H.
  destruct (build_prefix _ _ _ _ Hgen Hsu Hst Hext Hlink Hbal Hflow) as [Hpre _].
  apply define_passive_branch_constraints_extends in Hlim.
  apply balance_step_declares in Hnodal. simpl in Hnodal.
  apply define_linear_objective_frame in Hobj. destruct Hobj as (_ & Ec & _).
  subst s. simpl. rewrite Ec.
  destruct (co2_limit network) as [limit|].
  - apply define_co2_constraint_spec in Hco2. destruct Hco2 as [terms [Ht Em]].
    exists terms. split; [assumption|]. rewrite Em. reflexivity.
  - inversion Hco2; subst m10.
    rewrite (declares_assoc_cons "co2_constraint" Hnodal) by not_in_names.
    rewrite (extends_assoc_cons "co2_constraint" Hlim) by not_in_names.
    rewrite (declares_assoc_cons "co2_constraint" Hpre)
      by (unfold base_cons; not_in_names).
    reflexivity.
Qed.

End CO2.


(** ** The buses of the components *)

(** In a loop that succeeds, every item was processed in a state that
    satisfies the invariant of the loop. *)
Lemma foldM_In_step {A S : Type} (P : S -> Prop) (f : S -> A -> result S)
    (l : list A) (s s' : S) (x : A) :
  (forall s x s', P s -> f s x = Return s' -> P s') ->
  P s -> foldM f l s = Return s' -> In x l ->
  exists s1 s2, P s1 /\ f s1 x = Return s2.
Proof.
  intro Hstep. revert s. induction l as [|a l IH]; simpl; intros s Hs H Hin;
    [contradiction|].
  apply bind_inv in H. destruct H as [s1 [H1 H]].
  destruct Hin as [->|Hin].
  - exists s, s1. auto.
  - apply (IH s1); eauto.
Qed.

Lemma foldM_keeps {A S : Type} (P : S -> Prop) (f : S -> A -> result S)
    (l : list A) (s s' : S) :
  (forall s x s', P s -> f s x = Return s' -> P s') ->
  P s -> foldM f l s = Return s' -> P s'.
Proof.
  intros Hstep Hs H. eapply foldM_invariant; [| exact Hs | exact H].
  intros s0 x s1 _. apply Hstep.
Qed.

Section Buses.

Context {F : Type} {SF : Scalar F}.

Lemma append_variable_keys (keys : list index) (balance balance' : dict (LExpression F))
    (k : index) (term : result (F * var)) :
  same_keys keys balance ->
  append_variable balance k term = Return balance' ->
  same_keys keys balance' /\ In k keys.
Proof.
  unfold append_variable. intros Hk H. binv. subst.
  apply dlookup_inv in Ha. apply dget_Some_key in Ha.
  split; [|now apply Hk].
  intro k'. rewrite dkeys_dset_In. split.
  - intros [->|Hin]; now apply Hk.
  - intro Hin. right. now apply Hk.
Qed.

Lemma add_constant_keys (keys : list index) (balance balance' : dict (LExpression F))
    (k : index) (c : F) :
  same_keys keys balance ->
  add_constant balance k c = Return balance' ->
  same_keys keys balance' /\ In k keys.
Proof.
  unfold add_constant. intros Hk H. binv. subst.
  apply dlookup_inv in Ha. apply dget_Some_key in Ha.
  split; [|now apply Hk].
  intro k'. rewrite dkeys_dset_In. split.
  - intros [->|Hin]; now apply Hk.
  - intro Hin. right. now apply Hk.
Qed.

Lemma in_bus_keys (network : Network F) (snapshots : list snapshot) (bus : string)
    (sn : snapshot) :
  In [KName bus; KSnap sn]
     (cross (name_index bus_name (buses network)) (snap_index snapshots)) ->
  In bus (map bus_name (buses network)).
Proof.
  intro H. apply in_cross_inv in H. destruct H as (i & j & Hi & Hj & E).
  unfold name_index in Hi. apply in_map_iff in Hi. destruct Hi as [b [<- Hb]].
  unfold snap_index in Hj. apply in_map_iff in Hj. destruct Hj as [t [<- _]].
  inversion E. apply in_map_iff. now exists b.
Qed.

(** [define_nodal_balances] returns only when every component sits on
    buses of the network. *)
Lemma define_nodal_balances_buses (network : Network F) (snapshots : list snapshot)
    (s s' : NetState F) (sn : snapshot) :
  define_nodal_balances network snapshots s = Return s' ->
  In sn snapshots ->
  (forall l, In l (links network) ->
     In (ln_bus0 l) (map bus_name (buses network))
     /\ In (ln_bus1 l) (map bus_name (buses network)))
  /\ (forall g, In g (generators network) -> In (g_bus g) (map bus_name (buses network)))
  /\ (forall l, In l (loads network) -> In (ld_bus l) (map bus_name (buses network)))
  /\ (forall u, In u (storage_units network) ->
        In (su_bus u) (map bus_name (buses network)))
  /\ (forall u, In u (stores network) -> In (st_bus u) (map bus_name (buses network))).
Proof.
  unfold define_nodal_balances. intros H Hsn.
  bstep H b1 H1. bstep H b2 H2. bstep H b3 H3. bstep H b4 H4. bstep H b5 H5.
  clear H.
  set (keys := cross (name_index bus_name (buses network)) (snap_index snapshots)).
  assert (K0 : same_keys keys
                 (dict_of_list
                    (map (fun p : Bus * snapshot =>
                            ([KName (bus_name (fst p)); KSnap (snd p)],
                             @LExpression_empty F SF))
                         (list_prod (buses network) snapshots)))).
  { intro k. rewrite dkeys_dict_of_list_In. rewrite map_map. simpl.
    unfold keys, cross, name_index, snap_index. rewrite in_flat_map. split.
    - intro Hin. apply in_map_iff in Hin. destruct Hin as [[b t] [<- Hin]].
      apply in_prod_iff in Hin. destruct Hin as [Hb Ht].
      exists [KName (bus_name b)]. split; [apply in_map_iff; now exists b|].
      apply in_map_iff. exists [KSnap t]. split; [reflexivity|].
      apply in_map_iff. now exists t.
    - intros [i [Hi Hin]]. apply in_map_iff in Hi. destruct Hi as [b [<- Hb]].
      apply in_map_iff in Hin. destruct Hin as [j [<- Hj]].
      apply in_map_iff in Hj. destruct Hj as [t [<- Ht]].
      apply in_map_iff. exists (b, t). split; [reflexivity|]. now apply in_prod. }
  assert (S1 : forall (bal : dict (LExpression F)) (p : Link F * snapshot) bal',
             same_keys keys bal ->
             (balance <- append_variable bal [KName (ln_bus0 (fst p)); KSnap (snd p)]
                           (v <- getvar (model s) "link_p"
                                   [KName (ln_name (fst p)); KSnap (snd p)] ;;
                            Return (fopp fone, v)) ;;
              append_variable balance [KName (ln_bus1 (fst p)); KSnap (snd p)]
                (v <- getvar (model s) "link_p"
                        [KName (ln_name (fst p)); KSnap (snd p)] ;;
                 Return (ln_efficiency (fst p), v))) = Return bal' ->
             same_keys keys bal'
             /\ In [KName (ln_bus0 (fst p)); KSnap (snd p)] keys
             /\ In [KName (ln_bus1 (fst p)); KSnap (snd p)] keys).
  { intros bal p bal' Hk Hs. apply bind_inv in Hs. destruct Hs as [bal1 [Ha Hb]].
    destruct (@append_variable_keys _ _ _ _ _ Hk Ha) as [Hk1 I0].
    destruct (@append_variable_keys _ _ _ _ _ Hk1 Hb) as [Hk2 I1]. auto. }
  assert (S4 : forall (bal : dict (LExpression F)) (p : StorageUnit F * snapshot) bal',
             same_keys keys bal ->
             (balance <- append_variable bal [KName (su_bus (fst p)); KSnap (snd p)]
                           (v <- getvar (model s) "storage_p_dispatch"
                                   [KName (su_name (fst p)); KSnap (snd p)] ;;
                            Return (su_sign (fst p), v)) ;;
              append_variable balance [KName (su_bus (fst p)); KSnap (snd p)]
                (v <- getvar (model s) "storage_p_store"
                        [KName (su_name (fst p)); KSnap (snd p)] ;;
                 Return (fopp (su_sign (fst p)), v))) = Return bal' ->
             same_keys keys bal'
             /\ In [KName (su_bus (fst p)); KSnap (snd p)] keys).
  { intros bal p bal' Hk Hs. apply bind_inv in Hs. destruct Hs as [bal1 [Ha Hb]].
    destruct (@append_variable_keys _ _ _ _ _ Hk Ha) as [Hk1 I0].
    destruct (@append_variable_keys _ _ _ _ _ Hk1 Hb) as [Hk2 I1]. auto. }
  cbv beta zeta in H1, H2, H3, H4, H5.
  assert (K1 : same_keys keys b1).
  { revert K0 H1. apply foldM_keeps. intros bal p bal' Hk Hs.
    now destruct (S1 bal p bal' Hk Hs). }
  assert (K2 : same_keys keys b2).
  { revert K1 H2. apply foldM_keeps. intros bal p bal' Hk Hs.
    now destruct (@append_variable_keys _ _ _ _ _ Hk Hs). }
  assert (K3 : same_keys keys b3).
  { revert K2 H3. apply foldM_keeps. intros bal p bal' Hk Hs.
    now destruct (@add_constant_keys _ _ _ _ _ Hk Hs). }
  assert (K4 : same_keys keys b4).
  { revert K3 H4. apply foldM_keeps. intros bal p bal' Hk Hs.
    now destruct (S4 bal p bal' Hk Hs). }
  repeat split.
  - assert (Hx : In (l, sn) (list_prod _ snapshots)) by (apply in_prod; eassumption).
    destruct (@foldM_In_step _ _ (same_keys keys) _ _ _ _ (l, sn)
                (fun bal p bal' Hk Hs => proj1 (S1 bal p bal' Hk Hs)) K0 H1 Hx)
      as (bal & bal' & Hk & Hs).
    destruct (S1 bal (l, sn) bal' Hk Hs) as (_ & I0 & _).
    revert I0. apply in_bus_keys.
  - assert (Hx : In (l, sn) (list_prod _ snapshots)) by (apply in_prod; eassumption).
    destruct (@foldM_In_step _ _ (same_keys keys) _ _ _ _ (l, sn)
                (fun bal p bal' Hk Hs => proj1 (S1 bal p bal' Hk Hs)) K0 H1 Hx)
      as (bal & bal' & Hk & Hs).
    destruct (S1 bal (l, sn) bal' Hk Hs) as (_ & _ & I1).
    revert I1. apply in_bus_keys.
  - intros g Hg.
    assert (Hx : In (g, sn) (list_prod _ snapshots)) by (apply in_prod; eassumption).
    destruct (@foldM_In_step _ _ (same_keys keys) _ _ _ _ (g, sn)
                (fun bal p bal' Hk Hs => proj1 (@append_variable_keys _ _ _ _ _ Hk Hs)) K1 H2 Hx)
      as (bal & bal' & Hk & Hs).
    destruct (@append_variable_keys _ _ _ _ _ Hk Hs) as [_ I0]. revert I0. apply in_bus_keys.
  - intros l Hl.
    assert (Hx : In (l, sn) (list_prod _ snapshots)) by (apply in_prod; eassumption).
    destruct (@foldM_In_step _ _ (same_keys keys) _ _ _ _ (l, sn)
                (fun bal p bal' Hk Hs => proj1 (@add_constant_keys _ _ _ _ _ Hk Hs)) K2 H3 Hx)
      as (bal & bal' & Hk & Hs).
    destruct (@add_constant_keys _ _ _ _ _ Hk Hs) as [_ I0]. revert I0. apply in_bus_keys.
  - intros u Hu.
    assert (Hx : In (u, sn) (list_prod _ snapshots)) by (apply in_prod; eassumption).
    destruct (@foldM_In_step _ _ (same_keys keys) _ _ _ _ (u, sn)
                (fun bal p bal' Hk Hs => proj1 (S4 bal p bal' Hk Hs)) K3 H4 Hx)
      as (bal & bal' & Hk & Hs).
    destruct (S4 bal (u, sn) bal' Hk Hs) as [_ I0]. revert I0. apply in_bus_keys.
  - intros u Hu.
    assert (Hx : In (u, sn) (list_prod _ snapshots)) by (apply in_prod; eassumption).
    destruct (@foldM_In_step _ _ (same_keys keys) _ _ _ _ (u, sn)
                (fun bal p bal' Hk Hs => proj1 (@append_variable_keys _ _ _ _ _ Hk Hs)) K4 H5 Hx)
      as (bal & bal' & Hk & Hs).
    destruct (@append_variable_keys _ _ _ _ _ Hk Hs) as [_ I0]. revert I0. apply in_bus_keys.
Qed.

End Buses.

Section BusesBuild.

Context {F : Type} {SF : Scalar F}.

(** X9. The build over a non-empty window succeeds only if every link,
    generator, load, storage unit and store sits on buses of the network:
    the nodal balance of an unknown bus is looked up and is not there. *)
Theorem components_on_known_buses (network : Network F) (snapshots : list snapshot)
    (formulation : string) (ptdf_tolerance : F) (s : NetState F) :
  build_model network snapshots formulation ptdf_tolerance = Return s ->
  snapshots <> [] ->
  (forall l, In l (links network) ->
     In (ln_bus0 l) (map bus_name (buses network))
     /\ In (ln_bus1 l) (map bus_name (buses network)))
  /\ (forall g, In g (generators network) -> In (g_bus g) (map bus_name (buses network)))
  /\ (forall l, In l (loads network) -> In (ld_bus l) (map bus_name (buses network)))
  /\ (forall u, In u (storage_units network) ->
        In (su_bus u) (map bus_name (buses network)))
  /\ (forall u, In u (stores network) -> In (st_bus u) (map bus_name (buses network))).
Proof.
  intros H Hsn. build_steps H.
  destruct snapshots as [|sn sns]; [contradiction|].
  revert Hbal. intro Hbal.
  apply (@define_nodal_balances_buses F SF network (sn :: sns) _ _ sn Hbal).
  now left.
Qed.

End BusesBuild.


(** ** The extracted dispatch *)

Section ExtractedDispatch.

Context {F : Type} {SF : Scalar F}.

(** The frames of the one-port components after the extraction are as the
    block that writes them left them, and the objective is the lower bound
    of the solver. *)
Lemma extraction_frames (types : list string)
    (spsolve : Matrix F -> list (list (option F)) -> list (list (option F)))
    (network : Network F) (snapshots : list snapshot) (formulation : string)
    (m : Model F) (sr : SolverResults F) (r r' : Results F) :
  extract_optimisation_results types spsolve network snapshots formulation m sr r
  = Return r' ->
  objective r' = sr_lower_bound sr
  /\ exists r1 r2 r3,
       extract_generators network snapshots m sr
         (mkResults (sr_lower_bound sr) (tables r) (columns r)) = Return r1
       /\ extract_storage_units network snapshots m sr r1 = Return r2
       /\ extract_stores network snapshots m sr r2 = Return r3
       /\ tables r' "generators_t.p" = tables r1 "generators_t.p"
       /\ (forall n, In n ["storage_units_t.p"; "storage_units_t.state_of_charge";
                           "storage_units_t.spill"] -> tables r' n = tables r2 n)
       /\ (forall n, In n ["stores_t.p"; "stores_t.e"] -> tables r' n = tables r3 n)
       /\ tables r' "loads_t.p" = tables (extract_loads network snapshots r3) "loads_t.p".
Proof.
  intro H. apply extract_optimisation_results_inv in H.
  destruct H as (r1 & r2 & r3 & r5 & r6 & r7 & r8 & H1 & H2 & H3 & H5 & H6 & H7 & H8 & H9).
  pose proof (frame_extract_generators _ _ _ _ _ H1) as [_ O1].
  pose proof (frame_extract_storage_units _ _ _ _ _ H2) as [T2 O2].
  pose proof (frame_extract_stores _ _ _ _ _ H3) as [T3 O3].
  pose proof (frame_extract_loads network snapshots r3) as [T4 O4].
  pose proof (frame_extract_bus_injections _ _ _ _ H5) as [T5 O5].
  pose proof (frame_extract_passive_branches _ _ _ _ _ H6) as [T6 O6].
  pose proof (frame_extract_links _ _ _ _ _ H7) as [T7 O7].
  pose proof (frame_extract_buses _ _ _ _ _ _ _ H8) as [T8 O8].
  pose proof (frame_extract_nom_opt _ _ _ _ H9) as [T9 O9].
  simpl in O1, O9.
  assert (T : forall n, ~ In n ["buses_t.p"; "passive_branches_t.p0";
                                "passive_branches_t.p1"; "links_t.p0"; "links_t.p1";
                                "buses_t.v_ang"; "buses_t.marginal_price";
                                "buses_t.v_mag_pu"] ->
                tables r' n = tables (extract_loads network snapshots r3) n).
  { intros n Hn. rewrite T9. unfold set_table. simpl.
    destruct (String.eqb_spec n "buses_t.v_ang") as [E|_];
      [exfalso; apply Hn; rewrite E; simpl; tauto|].
    rewrite T8 by (simpl in *; tauto). rewrite T7 by (simpl in *; tauto).
    rewrite T6 by (simpl in *; tauto). apply T5. simpl in *. tauto. }
  split; [congruence|].
  exists r1, r2, r3. repeat (split; [assumption|]).
  split; [|split; [|split]].
  - rewrite T by not_in_names. rewrite T4 by not_in_names.
    rewrite T3 by not_in_names. apply T2. not_in_names.
  - intros n Hn. simpl in Hn.
    repeat (destruct Hn as [<-|Hn]; [|]); try contradiction;
      rewrite T by not_in_names; rewrite T4 by not_in_names; apply T3; not_in_names.
  - intros n Hn. simpl in Hn.
    repeat (destruct Hn as [<-|Hn]; [|]); try contradiction;
      rewrite T by not_in_names; apply T4; not_in_names.
  - apply T. not_in_names.
Qed.

Lemma generator_p_keys (network : Network F) (snapshots : list snapshot)
    (m m' : Model F) :
  define_generator_variables_constraints network snapshots m = Return m' ->
  exists fam,
    assoc "generator_p" (m_vars m') = Some fam
    /\ dkeys fam = cross (name_index g_name (generators network)) (snap_index snapshots).
Proof.
  unfold define_generator_variables_constraints. intro H.
  bstep H generator_p Hp. bstep H lower_flex Hlf. bstep H lower_var Hlv.
  lstep H m1 lower Hlower.
  bstep H upper_flex Huf. bstep H upper_var Huv.
  apply l_constraint_inv in H. destruct H as [upper [-> Hupper]].
  exists generator_p. split; [reflexivity|]. now apply Var_keys in Hp.
Qed.

Lemma storage_keys (network : Network F) (snapshots : list snapshot) (m m' : Model F) :
  define_storage_variables_constraints network snapshots m = Return m' ->
  exists dispatch store e,
    assoc "storage_p_dispatch" (m_vars m') = Some dispatch
    /\ assoc "storage_p_store" (m_vars m') = Some store
    /\ assoc "state_of_charge" (m_vars m') = Some e
    /\ dkeys dispatch
       = cross (name_index su_name (storage_units network)) (snap_index snapshots)
    /\ dkeys store
       = cross (name_index su_name (storage_units network)) (snap_index snapshots)
    /\ dkeys e = cross (name_index su_name (storage_units network)) (snap_index snapshots).
Proof.
  unfold define_storage_variables_constraints. intro H.
  bstep H dispatch Hdispatch. bstep H store Hstore. bstep H spill Hspill.
  bstep H p_upper Hp_upper. bstep H p_lower Hp_lower. bstep H e He.
  bstep H upper_ext Hue. bstep H upper_fix Huf. lstep H m1 upper Hupper.
  bstep H s Hsoc. bstep H soc1 Hspillfold. lstep H m2 fam Hfam.
  apply l_constraint_inv in H. destruct H as [fixed [-> Hfixed]].
  exists dispatch, store, e. simpl.
  repeat (split; [reflexivity|]).
  apply Var_keys in Hdispatch. apply Var_keys in Hstore. apply Var_keys in He. auto.
Qed.

Lemma set_from_series_in (snapshots : list snapshot) (df : table F) (sr : series F)
    (sn : snapshot) (col : index) :
  In sn snapshots -> set_from_series snapshots df sr sn col = sr (col ++ [KSnap sn]).
Proof.
  intro H. unfold set_from_series, loc_set.
  now rewrite (proj2 (mem_snapshot_In sn snapshots) H).
Qed.

Lemma existsb_nonempty {A : Type} (l : list A) (x : A) : In x l -> nonempty l = true.
Proof. destruct l; [contradiction | reflexivity]. Qed.

(** X10. After the extraction on a built model, at every snapshot of the
    window: the dispatch of a generator is the value of its dispatch
    variable; the dispatch of a storage unit is the value of its dispatch
    variable minus that of its storing variable, and its state of charge
    the value of the state of charge variable; the dispatch of a load is
    its set point; and the objective is the lower bound the solver
    reports. *)
Theorem extracted_dispatch (types : list string)
    (spsolve : Matrix F -> list (list (option F)) -> list (list (option F)))
    (network : Network F) (snapshots : list snapshot) (formulation : string)
    (ptdf_tolerance : F) (s : NetState F) (sr : SolverResults F) (r r' : Results F) :
  build_model network snapshots formulation ptdf_tolerance = Return s ->
  extract_optimisation_results types spsolve network snapshots formulation
    (model s) sr r = Return r' ->
  objective r' = sr_lower_bound sr
  /\ (forall g sn, In g (generators network) -> In sn snapshots ->
        tables r' "generators_t.p" sn [KName (g_name g)]
        = sr_value sr ("generator_p", [KName (g_name g); KSnap sn]))
  /\ (forall u sn, In u (storage_units network) -> In sn snapshots ->
        tables r' "storage_units_t.p" sn [KName (su_name u)]
        = olift2 fsub (sr_value sr ("storage_p_dispatch", [KName (su_name u); KSnap sn]))
                      (sr_value sr ("storage_p_store", [KName (su_name u); KSnap sn]))
        /\ tables r' "storage_units_t.state_of_charge" sn [KName (su_name u)]
           = sr_value sr ("state_of_charge", [KName (su_name u); KSnap sn]))
  /\ (forall l sn, In l (loads network) -> In sn snapshots ->
        tables r' "loads_t.p" sn [KName (ld_name l)]
        = Some (loads_t_p_set network sn (ld_name l))).
Proof.
  intros Hb He.
  apply build_keeps in Hb.
  destruct Hb as (m1 & m2 & m3 & m4 & m5 & Hgen & Hsu & _ & _ & _ & Vg & _ & Vs & _).
  apply generator_p_keys in Hgen. destruct Hgen as (gp & Eg & Kg).
  apply storage_keys in Hsu.
  destruct Hsu as (dispatch & store & e & Ed & Es & Ee & Kd & Ks & Ke).
  rewrite <- (Vg "generator_p") in Eg by (simpl; auto).
  rewrite <- (Vs "storage_p_dispatch") in Ed by (simpl; auto).
  rewrite <- (Vs "storage_p_store") in Es by (simpl; auto 10).
  rewrite <- (Vs "state_of_charge") in Ee by (simpl; auto 10).
  apply extraction_frames in He.
  destruct He as (Ho & r1 & r2 & r3 & H1 & H2 & H3 & Tg & Ts & _ & Tl).
  split; [assumption|]. split; [|split].
  - intros g sn Hg Hsn. rewrite Tg.
    unfold extract_generators in H1. rewrite (existsb_nonempty _ _ Hg) in H1.
    unfold as_series in H1. rewrite Eg in H1. simpl in H1. inversion H1; subst r1.
    unfold set_series, set_table. simpl.
    rewrite set_from_series_in by assumption. simpl.
    rewrite (proj2 (mem_index_In _ _)); [reflexivity|].
    rewrite Kg. now apply in_name_snap.
  - intros u sn Hu Hsn.
    rewrite (Ts "storage_units_t.p"), (Ts "storage_units_t.state_of_charge")
      by (simpl; auto).
    unfold extract_storage_units in H2. rewrite (existsb_nonempty _ _ Hu) in H2.
    unfold as_series in H2. rewrite Ed, Es, Ee in H2. simpl in H2.
    assert (Hin : In [KName (su_name u); KSnap sn]
                     (cross (name_index su_name (storage_units network))
                            (snap_index snapshots))) by now apply in_name_snap.
    destruct (existsb _ (storage_units network)).
    + bstep H2 r2' Hsp. inversion H2; subst r2. clear H2.
      bstep Hsp spill Hspill. inversion Hsp; subst r2'. clear Hsp.
      unfold set_series, set_table. simpl.
      rewrite !set_from_series_in by assumption. simpl.
      rewrite !(proj2 (mem_index_In _ _)) by (rewrite ?Kd, ?Ks, ?Ke; exact Hin).
      split; reflexivity.
    + simpl in H2. inversion H2; subst r2. clear H2.
      unfold set_series, set_table. simpl.
      rewrite !set_from_series_in by assumption. simpl.
      rewrite !(proj2 (mem_index_In _ _)) by (rewrite ?Kd, ?Ks, ?Ke; exact Hin).
      split; reflexivity.
  - intros l sn Hl Hsn. rewrite Tl.
    unfold extract_loads. rewrite (existsb_nonempty _ _ Hl).
    unfold set_table, loc_set. simpl.
    now rewrite (proj2 (mem_snapshot_In sn snapshots) Hsn).
Qed.

End ExtractedDispatch.


(** ** The extracted capacities *)

Section ExtractedCapacities.

Context {F : Type} {SF : Scalar F}.

Lemma find_key {A : Type} (key : A -> index) (rows : list A) (x : A) :
  NoDup (map key rows) -> In x rows ->
  find (fun y => index_eqb (key y) (key x)) rows = Some x.
Proof.
  induction rows as [|a rows IH]; simpl; intros Hnd Hx; [contradiction|].
  inversion Hnd as [|? ? Hn Hd]; subst.
  destruct (index_eqb (key a) (key x)) eqn:E.
  - apply index_eqb_eq in E. destruct Hx as [->|Hx]; [reflexivity|].
    exfalso. apply Hn. rewrite E. now apply in_map.
  - destruct Hx as [->|Hx]; [now rewrite index_eqb_refl in E|]. now apply IH.
Qed.

(** [set_nom_opt] at the row of a component, and at the other columns. *)
Lemma set_nom_opt_at {A : Type} (r : Results F) (name : string) (rows : list A)
    (col : A -> index) (nom : A -> F) (ext : A -> bool) (opt : series F) (x : A) :
  NoDup (map col rows) -> In x rows ->
  columns (set_nom_opt r name rows col nom ext opt) name (col x)
  = if ext x then opt (col x) else Some (nom x).
Proof.
  intros Hnd Hx. unfold set_nom_opt, set_column. simpl.
  rewrite String.eqb_refl. now rewrite find_key.
Qed.

Lemma set_nom_opt_other {A : Type} (r : Results F) (name : string) (rows : list A)
    (col : A -> index) (nom : A -> F) (ext : A -> bool) (opt : series F) (n : string) :
  n <> name -> columns (set_nom_opt r name rows col nom ext opt) n = columns r n.
Proof.
  intro Hn. unfold set_nom_opt, set_column. simpl.
  now rewrite (proj2 (String.eqb_neq n name) Hn).
Qed.

(** The families of the capacity variables of a built model are indexed by
    the extendable components. *)
Lemma capacity_families (network : Network F) (snapshots : list snapshot)
    (formulation : string) (tol : F) (s : NetState F) :
  build_model network snapshots formulation tol = Return s ->
  exists gf uf tf bf lf,
    assoc "generator_p_nom" (m_vars (model s)) = Some gf
    /\ dkeys gf = name_index g_name (filter g_p_nom_extendable (generators network))
    /\ assoc "storage_p_nom" (m_vars (model s)) = Some uf
    /\ dkeys uf = name_index su_name (filter su_p_nom_extendable (storage_units network))
    /\ assoc "store_e_nom" (m_vars (model s)) = Some tf
    /\ dkeys tf = name_index st_name (filter st_e_nom_extendable (stores network))
    /\ assoc "passive_branch_s_nom" (m_vars (model s)) = Some bf
    /\ dkeys bf = branch_index (filter pb_s_nom_extendable (passive_branches network))
    /\ assoc "link_p_nom" (m_vars (model s)) = Some lf
    /\ dkeys lf = name_index ln_name (filter ln_p_nom_extendable (links network)).
Proof.
  intro H. apply build_keeps in H.
  destruct H as (m1 & m2 & m3 & m4 & m5 & Hgen & Hsu & Hst & Hext & _
                 & Vg & _ & Vu & _ & Vt & _ & Vb & _).
  rewrite (Vg "generator_p_nom"), (Vu "storage_p_nom"), (Vt "store_e_nom"),
    (Vb "passive_branch_s_nom"), (Vb "link_p_nom") by (simpl; auto 10).
  clear Vg Vu Vt Vb.
  (* generators *)
  unfold define_generator_variables_constraints in Hgen.
  bstep Hgen generator_p Hp. bstep Hgen lower_flex Hlf. bstep Hgen lower_var Hlv.
  lstep Hgen mg lower Hlower. bstep Hgen upper_flex Huf. bstep Hgen upper_var Huv.
  apply l_constraint_inv in Hgen. destruct Hgen as [upper [-> Hupper]].
  (* storage units *)
  unfold define_storage_variables_constraints in Hsu.
  bstep Hsu dispatch Hdispatch. bstep Hsu store Hstore. bstep Hsu spill Hspill.
  bstep Hsu p_upper Hp_upper. bstep Hsu p_lower Hp_lower. bstep Hsu e He.
  bstep Hsu upper_ext Hue. bstep Hsu upper_fix Hufx. lstep Hsu mu1 upper_soc Hupper_soc.
  bstep Hsu st Hsoc. bstep Hsu soc1 Hspillfold. lstep Hsu mu2 fam Hfam.
  apply l_constraint_inv in Hsu. destruct Hsu as [fixed [-> Hfixed]].
  (* stores *)
  unfold define_store_variables_constraints in Hst.
  bstep Hst store_p Hsp. bstep Hst store_e Hse. bstep Hst e_upper Heu.
  bstep Hst e_lower Hel. bstep Hst ec Hec.
  apply l_constraint_inv in Hst. destruct Hst as [sc [-> Hsc]].
  (* extendable branches and links *)
  unfold define_branch_extension_variables in Hext.
  bstep Hext s_nom Hsn. bstep Hext p_nom Hpn. inversion Hext; subst m4. clear Hext.
  simpl. do 5 eexists.
  repeat split; try reflexivity;
    try (unfold dkeys, name_index; rewrite map_map; reflexivity).
  - now apply Var_keys in Hsn.
  - now apply Var_keys in Hpn.
Qed.

(** X11. After the extraction on a built model the optimal capacity of a
    component is the value of its capacity variable when it is
    extendable, and its given capacity otherwise. *)
Theorem extracted_capacities (types : list string)
    (spsolve : Matrix F -> list (list (option F)) -> list (list (option F)))
    (network : Network F) (snapshots : list snapshot) (formulation : string)
    (ptdf_tolerance : F) (s : NetState F) (sr : SolverResults F) (r r' : Results F) :
  build_model network snapshots formulation ptdf_tolerance = Return s ->
  extract_optimisation_results types spsolve network snapshots formulation
    (model s) sr r = Return r' ->
  (NoDup (name_index g_name (generators network)) ->
   forall g, In g (generators network) ->
     columns r' "generators.p_nom_opt" [KName (g_name g)]
     = if g_p_nom_extendable g then sr_value sr ("generator_p_nom", [KName (g_name g)])
       else Some (g_p_nom g))
  /\ (NoDup (name_index su_name (storage_units network)) ->
      forall u, In u (storage_units network) ->
        columns r' "storage_units.p_nom_opt" [KName (su_name u)]
        = if su_p_nom_extendable u then sr_value sr ("storage_p_nom", [KName (su_name u)])
          else Some (su_p_nom u))
  /\ (NoDup (name_index st_name (stores network)) ->
      forall u, In u (stores network) ->
        columns r' "stores.e_nom_opt" [KName (st_name u)]
        = if st_e_nom_extendable u then sr_value sr ("store_e_nom", [KName (st_name u)])
          else Some (st_e_nom u))
  /\ (NoDup (branch_index (passive_branches network)) ->
      forall b, In b (passive_branches network) ->
        columns r' "passive_branches.s_nom_opt" [KName (pb_type b); KName (pb_name b)]
        = if pb_s_nom_extendable b
          then sr_value sr ("passive_branch_s_nom", [KName (pb_type b); KName (pb_name b)])
          else Some (pb_s_nom b))
  /\ (NoDup (name_index ln_name (links network)) ->
      forall l, In l (links network) ->
        columns r' "links.p_nom_opt" [KName (ln_name l)]
        = if ln_p_nom_extendable l then sr_value sr ("link_p_nom", [KName (ln_name l)])
          else Some (ln_p_nom l)).
Proof.
  intros Hb He.
  apply capacity_families in Hb.
  destruct Hb as (gf & uf & tf & bf & lf & Eg & Kg & Eu & Ku & Et & Kt & Eb & Kb & El & Kl).
  apply extract_optimisation_results_inv in He.
  destruct He as (r1 & r2 & r3 & r5 & r6 & r7 & r8 & _ & _ & _ & _ & _ & _ & _ & H9).
  unfold extract_nom_opt, as_series in H9. rewrite Eg, Eu, Et, Eb, El in H9.
  simpl in H9. inversion H9; subst r'. clear H9.
  split; [|split; [|split; [|split]]]; intros Hnd x Hx.
  - rewrite !set_nom_opt_other by discriminate.
    rewrite (set_nom_opt_at _ _ _ (fun g : Generator F => [KName (g_name g)]) _ _ _ x Hnd Hx).
    destruct (g_p_nom_extendable x) eqn:E; [|reflexivity].
    rewrite (proj2 (mem_index_In _ _)); [reflexivity|].
    rewrite Kg. apply in_name_index. apply filter_In. auto.
  - rewrite !set_nom_opt_other by discriminate.
    rewrite (set_nom_opt_at _ _ _ (fun u : StorageUnit F => [KName (su_name u)]) _ _ _
               x Hnd Hx).
    destruct (su_p_nom_extendable x) eqn:E; [|reflexivity].
    rewrite (proj2 (mem_index_In _ _)); [reflexivity|].
    rewrite Ku. apply in_name_index. apply filter_In. auto.
  - rewrite !set_nom_opt_other by discriminate.
    rewrite (set_nom_opt_at _ _ _ (fun u : Store F => [KName (st_name u)]) _ _ _ x Hnd Hx).
    destruct (st_e_nom_extendable x) eqn:E; [|reflexivity].
    rewrite (proj2 (mem_index_In _ _)); [reflexivity|].
    rewrite Kt. apply in_name_index. apply filter_In. auto.
  - rewrite !set_nom_opt_other by discriminate.
    rewrite (set_nom_opt_at _ _ _
               (fun b : PassiveBranch F => [KName (pb_type b); KName (pb_name b)]) _ _ _
               x Hnd Hx).
    destruct (pb_s_nom_extendable x) eqn:E; [|reflexivity].
    rewrite (proj2 (mem_index_In _ _)); [reflexivity|].
    rewrite Kb. unfold branch_index. apply in_map_iff. exists x. split; [reflexivity|].
    apply filter_In. auto.
  - rewrite (set_nom_opt_at _ _ _ (fun l : Link F => [KName (ln_name l)]) _ _ _ x Hnd Hx).
    destruct (ln_p_nom_extendable x) eqn:E; [|reflexivity].
    rewrite (proj2 (mem_index_In _ _)); [reflexivity|].
    rewrite Kl. apply in_name_index. apply filter_In. auto.
Qed.

End ExtractedCapacities.


(** ** Runs *)

Section RunsAnyWindow.

Context {F : Type} {SF : Scalar F}.

(** X12. A run of [network_lopf] over a solve window, without extra
    functionality, that returns: every variable and constraint of the
    model handed to the solver is indexed within the window, the model
    asks for dual values and has an objective, and the rows of the result
    frames outside the window are left as they were (but for the NaN of
    the spill frame that [fillna(0)] replaces). *)
Theorem run_within_window (types : list string)
    (spsolve : Matrix F -> list (list (option F)) -> list (list (option F)))
    (network : Network F) (r : Results F) (snapshots : list snapshot)
    (opt : Model F -> SolverResults F) (verbose : bool) (formulation : string)
    (ptdf_tolerance : F) (o : Outcome F) :
  network_lopf types spsolve network r (Some snapshots) opt verbose None
    formulation ptdf_tolerance = Return o ->
  model_in_window snapshots (out_model o)
  /\ m_dual (out_model o) = true
  /\ m_objective (out_model o) <> None
  /\ out_solver o = opt (out_model o)
  /\ outside_window snapshots r (out_results o).
Proof.
  intro H. apply network_lopf_inv in H.
  destruct H as (s & Hb & Em & Eo & Hr).
  rewrite Em. rewrite Eo.
  pose proof (build_complete _ _ _ _ Hb) as (Hd & Hobj & _).
  split; [revert Hb; apply build_in_window|].
  repeat (split; [assumption|]). split; [reflexivity|].
  destruct (solver_optimal (opt (model s)) || solver_suboptimal (opt (model s))).
  - revert Hr. apply extraction_in_window.
  - rewrite Hr. apply ow_refl.
Qed.

(** With a formulation that is not recognized a built model has no flow
    variables of the passive branches. *)
Lemma unrecognized_no_flow_variables (network : Network F) (snapshots : list snapshot)
    (formulation : string) (tol : F) (s : NetState F) :
  recognized formulation = false ->
  build_model network snapshots formulation tol = Return s ->
  assoc "passive_branch_p" (m_vars (model s)) = None.
Proof.
  intros Hr H. apply recognized_false in Hr. destruct Hr as (E1 & E2 & E3 & E4).
  build_steps H.
  unfold define_passive_branch_flows in Hflow. rewrite E1, E2, E3, E4 in Hflow.
  inversion Hflow; subst s7. clear Hflow.
  apply define_nodal_balances_model in Hbal. destruct Hbal as [Em _]. simpl in Em.
  rewrite Em in Hlim.
  apply define_generator_variables_constraints_extends in Hgen.
  apply define_storage_variables_constraints_extends in Hsu.
  apply define_store_variables_constraints_extends in Hst.
  apply define_branch_extension_variables_extends in Hext.
  apply define_link_flows_extends in Hlink.
  apply define_passive_branch_constraints_extends in Hlim.
  apply balance_step_declares in Hnodal. simpl in Hnodal.
  apply co2_step_declares in Hco2.
  apply define_linear_objective_frame in Hobj. destruct Hobj as (Ev & _ & _).
  subst s. simpl. rewrite Ev.
  rewrite (declares_assoc_vars "passive_branch_p" Hco2) by not_in_names.
  rewrite (declares_assoc_vars "passive_branch_p" Hnodal) by not_in_names.
  rewrite (extends_assoc_vars "passive_branch_p" Hlim) by not_in_names.
  rewrite (extends_assoc_vars "passive_branch_p" Hlink) by not_in_names.
  rewrite (extends_assoc_vars "passive_branch_p" Hext) by not_in_names.
  rewrite (extends_assoc_vars "passive_branch_p" Hst) by not_in_names.
  rewrite (extends_assoc_vars "passive_branch_p" Hsu) by not_in_names.
  rewrite (extends_assoc_vars "passive_branch_p" Hgen) by not_in_names.
  reflexivity.
Qed.

(** The extraction fetches the flow variables of the passive branches
    whether or not the network has passive branches. *)
Lemma extraction_needs_flow_variables (types : list string)
    (spsolve : Matrix F -> list (list (option F)) -> list (list (option F)))
    (network : Network F) (snapshots : list snapshot) (formulation : string)
    (m : Model F) (sr : SolverResults F) (r : Results F) :
  assoc "passive_branch_p" (m_vars m) = None ->
  is_raise (extract_optimisation_results types spsolve network snapshots formulation
              m sr r) = true.
Proof.
  intro Hn.
  destruct (extract_optimisation_results types spsolve network snapshots formulation m sr r)
    as [e|r'] eqn:E; [reflexivity|].
  exfalso. apply extract_optimisation_results_inv in E.
  destruct E as (r1 & r2 & r3 & r5 & r6 & r7 & r8 & _ & _ & _ & _ & H6 & _).
  unfold extract_passive_branches, as_series in H6. rewrite Hn in H6. discriminate.
Qed.

(** X13. With a formulation that is not recognized and a solver that reports
    success (or the sub-optimal outcome that is extracted all the same),
    a run without extra functionality never returns: where the build does
    not fail, the extraction does, for want of the flow variables. *)
Theorem unrecognized_formulation_never_extracts (types : list string)
    (spsolve : Matrix F -> list (list (option F)) -> list (list (option F)))
    (network : Network F) (r : Results F) (snapshots : list snapshot)
    (opt : Model F -> SolverResults F) (verbose : bool) (formulation : string)
    (ptdf_tolerance : F) :
  recognized formulation = false ->
  (forall m, solver_optimal (opt m) || solver_suboptimal (opt m) = true) ->
  is_raise (network_lopf types spsolve network r (Some snapshots) opt verbose None
              formulation ptdf_tolerance) = true.
Proof.
  intros Hr Hopt.
  destruct (network_lopf types spsolve network r (Some snapshots) opt verbose None
              formulation ptdf_tolerance) as [e|o] eqn:E; [reflexivity|].
  exfalso. apply network_lopf_inv in E. destruct E as (s & Hb & _ & _ & He).
  rewrite Hopt in He.
  pose proof (@unrecognized_no_flow_variables network snapshots formulation
                ptdf_tolerance s Hr Hb) as Hn.
  pose proof (@extraction_needs_flow_variables types spsolve network snapshots formulation
                (model s) (opt (model s)) r Hn) as Hx.
  rewrite He in Hx. discriminate.
Qed.

End RunsAnyWindow.


(** ** The theorems on the example networks *)

Lemma generator_dispatch_bounds_witness :
  build_model example_network [0; 1] "angles" 0%Z = Return (example_state "angles")
  /\ NoDup (name_index g_name (generators example_network))
  /\ In example_generator (generators example_network)
  /\ In 1 [0; 1]
  /\ var_at (model (example_state "angles")) "generator_p"
            [KName (g_name example_generator); KSnap 1]
     = Some (mkVarData Reals (fst (generator_p_bounds example_network example_generator 1))
                       (snd (generator_p_bounds example_network example_generator 1))).
Proof.
  assert (Hb : build_model example_network [0; 1] "angles" 0%Z
               = Return (example_state "angles")) by (vm_compute; reflexivity).
  assert (Hnd : NoDup (name_index g_name (generators example_network)))
    by distinct_names.
  assert (Hg : In example_generator (generators example_network)) by (left; reflexivity).
  assert (Hsn : In 1 [0; 1]) by (simpl; auto).
  repeat (split; [assumption|]).
  exact (@generator_dispatch_bounds Z Scalar_Z example_network [0; 1] "angles" 0%Z
           (example_state "angles") example_generator 1 Hb Hnd Hg Hsn).
Defined.

Lemma generator_dispatch_unknown_witness :
  NoDup (name_index g_name (generators inflexible_network))
  /\ In inflexible_generator (generators inflexible_network)
  /\ [0; 1] <> []
  /\ g_dispatch inflexible_generator <> "variable"
  /\ g_dispatch inflexible_generator <> "flexible"
  /\ is_raise (build_model inflexible_network [0; 1] "angles" 0%Z) = true.
Proof.
  assert (Hnd : NoDup (name_index g_name (generators inflexible_network)))
    by distinct_names.
  assert (Hg : In inflexible_generator (generators inflexible_network))
    by (right; left; reflexivity).
  assert (Hsn : [0; 1] <> []) by discriminate.
  assert (Hv : g_dispatch inflexible_generator <> "variable") by discriminate.
  assert (Hf : g_dispatch inflexible_generator <> "flexible") by discriminate.
  repeat (split; [assumption|]).
  exact (@generator_dispatch_unknown Z Scalar_Z inflexible_network [0; 1] "angles" 0%Z
           inflexible_generator Hnd Hg Hsn Hv Hf).
Defined.

Lemma extendable_generator_limits_witness :
  build_model example_network [0; 1] "angles" 0%Z = Return (example_state "angles")
  /\ NoDup (name_index g_name (generators example_network))
  /\ In example_generator (generators example_network)
  /\ g_p_nom_extendable example_generator = true
  /\ var_at (model (example_state "angles")) "generator_p_nom"
            [KName (g_name example_generator)]
     = Some (mkVarData NonNegativeReals (Some (g_p_nom_min example_generator))
                       (Some (g_p_nom_max example_generator)))
  /\ forall sn, In sn [0; 1] ->
       con_at (model (example_state "angles")) "generator_p_lower"
              [KName (g_name example_generator); KSnap sn]
       = Some (generator_p_lower_constraint example_network example_generator sn)
       /\ con_at (model (example_state "angles")) "generator_p_upper"
                 [KName (g_name example_generator); KSnap sn]
          = Some (generator_p_upper_constraint example_network example_generator sn).
Proof.
  assert (Hb : build_model example_network [0; 1] "angles" 0%Z
               = Return (example_state "angles")) by (vm_compute; reflexivity).
  assert (Hnd : NoDup (name_index g_name (generators example_network)))
    by distinct_names.
  assert (Hg : In example_generator (generators example_network)) by (left; reflexivity).
  assert (He : g_p_nom_extendable example_generator = true) by reflexivity.
  repeat (split; [assumption|]).
  exact (@extendable_generator_limits Z Scalar_Z example_network [0; 1] "angles" 0%Z
           (example_state "angles") example_generator Hb Hnd Hg He).
Defined.

Lemma storage_unit_variables_witness :
  build_model example_network [0; 1] "angles" 0%Z = Return (example_state "angles")
  /\ NoDup (name_index su_name (storage_units example_network))
  /\ In example_storage_unit (storage_units example_network)
  /\ In 0 [0; 1]
  /\ var_at (model (example_state "angles")) "storage_p_dispatch"
            [KName (su_name example_storage_unit); KSnap 0]
     = Some (storage_p_dispatch_var example_storage_unit)
  /\ var_at (model (example_state "angles")) "storage_p_store"
            [KName (su_name example_storage_unit); KSnap 0]
     = Some (storage_p_store_var example_storage_unit)
  /\ var_at (model (example_state "angles")) "state_of_charge"
            [KName (su_name example_storage_unit); KSnap 0]
     = Some (mkVarData NonNegativeReals (Some fzero) None)
  /\ (In 0 (snapshots_all example_network) ->
      var_at (model (example_state "angles")) "storage_p_spill"
             [KName (su_name example_storage_unit); KSnap 0]
      = storage_p_spill_var example_network example_storage_unit 0)
  /\ con_at (model (example_state "angles")) "state_of_charge_upper"
            [KName (su_name example_storage_unit); KSnap 0]
     = Some (state_of_charge_upper_constraint example_storage_unit 0).
Proof.
  assert (Hb : build_model example_network [0; 1] "angles" 0%Z
               = Return (example_state "angles")) by (vm_compute; reflexivity).
  assert (Hnd : NoDup (name_index su_name (storage_units example_network)))
    by distinct_names.
  assert (Hu : In example_storage_unit (storage_units example_network))
    by (left; reflexivity).
  assert (Hsn : In 0 [0; 1]) by (simpl; auto).
  repeat (split; [assumption|]).
  exact (@storage_unit_variables Z Scalar_Z example_network [0; 1] "angles" 0%Z
           (example_state "angles") example_storage_unit 0 Hb Hnd Hu Hsn).
Defined.

Lemma passive_branch_capacity_variables_witness :
  build_model example_network [0; 1] "angles" 0%Z = Return (example_state "angles")
  /\ NoDup (branch_index (passive_branches example_network))
  /\ In example_line (passive_branches example_network)
  /\ var_at (model (example_state "angles")) "passive_branch_s_nom"
            [KName (pb_type example_line); KName (pb_name example_line)]
     = passive_branch_s_nom_var example_line.
Proof.
  assert (Hb : build_model example_network [0; 1] "angles" 0%Z
               = Return (example_state "angles")) by (vm_compute; reflexivity).
  assert (Hnd : NoDup (branch_index (passive_branches example_network)))
    by distinct_names.
  assert (Hl : In example_line (passive_branches example_network)) by (left; reflexivity).
  repeat (split; [assumption|]).
  exact (@passive_branch_capacity_variables Z Scalar_Z example_network [0; 1] "angles" 0%Z
           (example_state "angles") example_line Hb Hnd Hl).
Defined.

Lemma link_flow_limits_witness :
  build_model linked_network [0; 1] "angles" 0%Z = Return linked_state
  /\ NoDup (name_index ln_name (links linked_network))
  /\ In example_link (links linked_network)
  /\ In 1 [0; 1]
  /\ var_at (model linked_state) "link_p" [KName (ln_name example_link); KSnap 1]
     = Some (link_p_var example_link)
  /\ var_at (model linked_state) "link_p_nom" [KName (ln_name example_link)]
     = link_p_nom_var example_link
  /\ con_at (model linked_state) "link_p_upper" [KName (ln_name example_link); KSnap 1]
     = (if ln_p_nom_extendable example_link
        then Some (link_p_upper_constraint example_link 1) else None)
  /\ con_at (model linked_state) "link_p_lower" [KName (ln_name example_link); KSnap 1]
     = (if ln_p_nom_extendable example_link
        then Some (link_p_lower_constraint example_link 1) else None).
Proof.
  assert (Hb : build_model linked_network [0; 1] "angles" 0%Z = Return linked_state)
    by (vm_compute; reflexivity).
  assert (Hnd : NoDup (name_index ln_name (links linked_network))) by distinct_names.
  assert (Hl : In example_link (links linked_network)) by (left; reflexivity).
  assert (Hsn : In 1 [0; 1]) by (simpl; auto).
  repeat (split; [assumption|]).
  exact (@link_flow_limits Z Scalar_Z linked_network [0; 1] "angles" 0%Z
           linked_state example_link 1 Hb Hnd Hl Hsn).
Defined.

Lemma angle_flow_definition_witness :
  build_model example_network [0; 1] "angles" 0%Z = Return (example_state "angles")
  /\ NoDup (name_index sub_name (sub_networks example_network))
  /\ NoDup (branch_index (passive_branches example_network))
  /\ (forall bus sn, In bus (buses example_network) -> In sn [0; 1] ->
        var_at (model (example_state "angles")) "voltage_angles"
               [KName (bus_name bus); KSnap sn]
        = Some (mkVarData Reals None None))
  /\ (forall sub sn, In sub (sub_networks example_network) -> In sn [0; 1] ->
        con_at (model (example_state "angles")) "slack_angle"
               [KName (sub_name sub); KSnap sn]
        = Some (slack_angle_constraint sub sn))
  /\ (forall b sn, In b (passive_branches example_network) -> In sn [0; 1] ->
        var_at (model (example_state "angles")) "passive_branch_p"
               [KName (pb_type b); KName (pb_name b); KSnap sn]
        = Some (mkVarData Reals None None)
        /\ exists carrier,
             sub_network_carrier example_network (pb_sub_network b) = Return carrier
             /\ con_at (model (example_state "angles")) "passive_branch_p_def"
                       [KName (pb_type b); KName (pb_name b); KSnap sn]
                = Some (angle_flow_constraint b carrier sn)).
Proof.
  assert (Hb : build_model example_network [0; 1] "angles" 0%Z
               = Return (example_state "angles")) by (vm_compute; reflexivity).
  assert (Hs : NoDup (name_index sub_name (sub_networks example_network)))
    by distinct_names.
  assert (Hl : NoDup (branch_index (passive_branches example_network)))
    by distinct_names.
  repeat (split; [assumption|]).
  exact (@angle_flow_definition Z Scalar_Z example_network [0; 1] 0%Z
           (example_state "angles") Hb Hs Hl).
Defined.

Lemma co2_constraint_of_limit_witness :
  build_model linked_network [0; 1] "angles" 0%Z = Return linked_state
  /\ match co2_limit linked_network with
     | None => assoc "co2_constraint" (m_cons (model linked_state)) = None
     | Some limit =>
         exists terms,
           co2_terms linked_network [0; 1] = Return terms
           /\ assoc "co2_constraint" (m_cons (model linked_state))
              = Some [([], Relational (LExpression_terms terms) LE
                                      (mkLExpression [] limit))]
     end.
Proof.
  assert (Hb : build_model linked_network [0; 1] "angles" 0%Z = Return linked_state)
    by (vm_compute; reflexivity).
  split; [exact Hb|].
  exact (@co2_constraint_of_limit Z Scalar_Z linked_network [0; 1] "angles" 0%Z
           linked_state Hb).
Defined.

Lemma components_on_known_buses_witness :
  build_model linked_network [0; 1] "angles" 0%Z = Return linked_state
  /\ [0; 1] <> []
  /\ (forall l, In l (links linked_network) ->
        In (ln_bus0 l) (map bus_name (buses linked_network))
        /\ In (ln_bus1 l) (map bus_name (buses linked_network)))
  /\ (forall g, In g (generators linked_network) ->
        In (g_bus g) (map bus_name (buses linked_network)))
  /\ (forall l, In l (loads linked_network) ->
        In (ld_bus l) (map bus_name (buses linked_network)))
  /\ (forall u, In u (storage_units linked_network) ->
        In (su_bus u) (map bus_name (buses linked_network)))
  /\ (forall u, In u (stores linked_network) ->
        In (st_bus u) (map bus_name (buses linked_network))).
Proof.
  assert (Hb : build_model linked_network [0; 1] "angles" 0%Z = Return linked_state)
    by (vm_compute; reflexivity).
  assert (Hsn : [0; 1] <> []) by discriminate.
  repeat (split; [assumption|]).
  exact (@components_on_known_buses Z Scalar_Z linked_network [0; 1] "angles" 0%Z
           linked_state Hb Hsn).
Defined.

Lemma extracted_dispatch_witness :
  build_model example_network [0; 1] "angles" 0%Z = Return (example_state "angles")
  /\ extract_optimisation_results example_types example_spsolve example_network [0; 1]
       "angles" (model (example_state "angles"))
       (example_solver (model (example_state "angles"))) no_results
     = Return (extracted "angles")
  /\ objective (extracted "angles")
     = sr_lower_bound (example_solver (model (example_state "angles")))
  /\ (forall g sn, In g (generators example_network) -> In sn [0; 1] ->
        tables (extracted "angles") "generators_t.p" sn [KName (g_name g)]
        = sr_value (example_solver (model (example_state "angles")))
                   ("generator_p", [KName (g_name g); KSnap sn]))
  /\ (forall u sn, In u (storage_units example_network) -> In sn [0; 1] ->
        tables (extracted "angles") "storage_units_t.p" sn [KName (su_name u)]
        = olift2 fsub
            (sr_value (example_solver (model (example_state "angles")))
                      ("storage_p_dispatch", [KName (su_name u); KSnap sn]))
            (sr_value (example_solver (model (example_state "angles")))
                      ("storage_p_store", [KName (su_name u); KSnap sn]))
        /\ tables (extracted "angles") "storage_units_t.state_of_charge" sn
                  [KName (su_name u)]
           = sr_value (example_solver (model (example_state "angles")))
                      ("state_of_charge", [KName (su_name u); KSnap sn]))
  /\ (forall l sn, In l (loads example_network) -> In sn [0; 1] ->
        tables (extracted "angles") "loads_t.p" sn [KName (ld_name l)]
        = Some (loads_t_p_set example_network sn (ld_name l))).
Proof.
  assert (Hb : build_model example_network [0; 1] "angles" 0%Z
               = Return (example_state "angles")) by (vm_compute; reflexivity).
  assert (He : extract_optimisation_results example_types example_spsolve
                 example_network [0; 1] "angles" (model (example_state "angles"))
                 (example_solver (model (example_state "angles"))) no_results
               = Return (extracted "angles")) by (vm_compute; reflexivity).
  split; [exact Hb|]. split; [exact He|].
  exact (@extracted_dispatch Z Scalar_Z example_types example_spsolve example_network
           [0; 1] "angles" 0%Z (example_state "angles")
           (example_solver (model (example_state "angles"))) no_results
           (extracted "angles") Hb He).
Defined.

Lemma extracted_capacities_witness :
  build_model example_network [0; 1] "angles" 0%Z = Return (example_state "angles")
  /\ extract_optimisation_results example_types example_spsolve example_network [0; 1]
       "angles" (model (example_state "angles"))
       (example_solver (model (example_state "angles"))) no_results
     = Return (extracted "angles")
  /\ NoDup (name_index g_name (generators example_network))
  /\ columns (extracted "angles") "generators.p_nom_opt" [KName (g_name example_generator)]
     = if g_p_nom_extendable example_generator
       then sr_value (example_solver (model (example_state "angles")))
                     ("generator_p_nom", [KName (g_name example_generator)])
       else Some (g_p_nom example_generator).
Proof.
  assert (Hb : build_model example_network [0; 1] "angles" 0%Z
               = Return (example_state "angles")) by (vm_compute; reflexivity).
  assert (He : extract_optimisation_results example_types example_spsolve
                 example_network [0; 1] "angles" (model (example_state "angles"))
                 (example_solver (model (example_state "angles"))) no_results
               = Return (extracted "angles")) by (vm_compute; reflexivity).
  assert (Hnd : NoDup (name_index g_name (generators example_network)))
    by distinct_names.
  repeat (split; [assumption|]).
  exact (proj1 (@extracted_capacities Z Scalar_Z example_types example_spsolve
                  example_network [0; 1] "angles" 0%Z (example_state "angles")
                  (example_solver (model (example_state "angles"))) no_results
                  (extracted "angles") Hb He)
               Hnd example_generator (or_introl eq_refl)).
Defined.

Lemma run_within_window_witness :
  example_run example_network (Some [0; 1]) example_solver "angles"
  = Return (finished (example_run example_network (Some [0; 1]) example_solver "angles"))
  /\ model_in_window [0; 1]
       (out_model (finished (example_run example_network (Some [0; 1]) example_solver
                                         "angles")))
  /\ outside_window [0; 1] no_results
       (out_results (finished (example_run example_network (Some [0; 1]) example_solver
                                           "angles"))).
Proof.
  assert (H : example_run example_network (Some [0; 1]) example_solver "angles"
              = Return (finished (example_run example_network (Some [0; 1])
                                              example_solver "angles")))
    by (vm_compute; reflexivity).
  split; [exact H|].
  destruct (@run_within_window Z Scalar_Z example_types example_spsolve example_network
              no_results [0; 1] example_solver false "angles" 0%Z _ H)
    as (Hw & _ & _ & _ & Ho).
  split; assumption.
Defined.

Lemma unrecognized_formulation_never_extracts_witness :
  recognized "foo" = false
  /\ (forall m : Model Z,
        solver_optimal (example_solver m) || solver_suboptimal (example_solver m) = true)
  /\ is_raise (example_run example_network_no_branches (Some [0; 1]) example_solver "foo")
     = true.
Proof.
  assert (Hr : recognized "foo" = false) by reflexivity.
  assert (Ho : forall m : Model Z,
             solver_optimal (example_solver m) || solver_suboptimal (example_solver m)
             = true) by (intro m; reflexivity).
  split; [exact Hr|]. split; [exact Ho|].
  exact (@unrecognized_formulation_never_extracts Z Scalar_Z example_types example_spsolve
           example_network_no_branches no_results [0; 1] example_solver false "foo" 0%Z
           Hr Ho).
Defined.


(** ** The extracted flows *)

Section ExtractedFlows.

Context {F : Type} {SF : Scalar F}.

Lemma dkeys_const_family {V : Type} (v : V) (idx : list index) :
  dkeys (map (fun i => (i, v)) idx) = idx.
Proof. unfold dkeys. rewrite map_map. simpl. apply map_id. Qed.

(** With a recognized formulation the flow step declares the flow
    variables of all passive branches at all snapshots of the window. *)
Lemma passive_branch_p_keys (network : Network F) (snapshots : list snapshot)
    (formulation : string) (tol : F) (s s' : NetState F) :
  recognized formulation = true ->
  define_passive_branch_flows network snapshots formulation tol s = Return s' ->
  exists fam,
    assoc "passive_branch_p" (m_vars (model s')) = Some fam
    /\ dkeys fam = cross (branch_index (passive_branches network)) (snap_index snapshots).
Proof.
  unfold recognized, define_passive_branch_flows. intros Hr H.
  destruct (formulation =? "angles").
  - unfold define_passive_branch_flows_with_angles in H. binv. subst.
    simpl. eexists. split; [reflexivity | apply dkeys_const_family].
  - destruct (formulation =? "ptdf").
    + unfold define_passive_branch_flows_with_PTDF in H. binv. subst.
      simpl. eexists. split; [reflexivity | apply dkeys_const_family].
    + destruct (formulation =? "cycles").
      * unfold define_passive_branch_flows_with_cycles in H. binv. subst.
        simpl. eexists. split; [reflexivity | apply dkeys_const_family].
      * destruct (formulation =? "kirchhoff"); [|discriminate].
        unfold define_passive_branch_flows_with_kirchhoff in H. binv. subst.
        simpl. eexists. split; [reflexivity | apply dkeys_const_family].
Qed.

Lemma link_p_keys (network : Network F) (snapshots : list snapshot) (m m' : Model F) :
  define_link_flows network snapshots m = Return m' ->
  exists fam,
    assoc "link_p" (m_vars m') = Some fam
    /\ dkeys fam = cross (name_index ln_name (links network)) (snap_index snapshots).
Proof.
  unfold define_link_flows. intro H.
  bstep H link_p Hp. bstep H upper Hu. bstep H lower Hlo. inversion H; subst m'.
  exists link_p. split; [reflexivity|]. now apply Var_keys in Hp.
Qed.

(** X14. After the extraction on a model built with a recognized formulation,
    at every snapshot of the window: the flow [p0] of a passive branch is
    the value of its flow variable and [p1] is its negative; the flow
    [p0] of a link is the value of its flow variable and [p1] is minus
    [p0] times the efficiency of the link. *)
Theorem extracted_flows (types : list string)
    (spsolve : Matrix F -> list (list (option F)) -> list (list (option F)))
    (network : Network F) (snapshots : list snapshot) (formulation : string)
    (ptdf_tolerance : F) (s : NetState F) (sr : SolverResults F) (r r' : Results F) :
  recognized formulation = true ->
  build_model network snapshots formulation ptdf_tolerance = Return s ->
  extract_optimisation_results types spsolve network snapshots formulation
    (model s) sr r = Return r' ->
  (forall b sn, In b (passive_branches network) -> In sn snapshots ->
     tables r' "passive_branches_t.p0" sn [KName (pb_type b); KName (pb_name b)]
     = sr_value sr ("passive_branch_p", [KName (pb_type b); KName (pb_name b); KSnap sn])
     /\ tables r' "passive_branches_t.p1" sn [KName (pb_type b); KName (pb_name b)]
        = olift1 fopp
            (sr_value sr ("passive_branch_p",
                          [KName (pb_type b); KName (pb_name b); KSnap sn])))
  /\ (NoDup (name_index ln_name (links network)) ->
      forall l sn, In l (links network) -> In sn snapshots ->
        tables r' "links_t.p0" sn [KName (ln_name l)]
        = sr_value sr ("link_p", [KName (ln_name l); KSnap sn])
        /\ tables r' "links_t.p1" sn [KName (ln_name l)]
           = olift1 fopp (olift2 fmul (sr_value sr ("link_p", [KName (ln_name l); KSnap sn]))
                                      (Some (ln_efficiency l)))).
Proof.
  intros Hrec Hb He.
  pose proof Hb as Hk. apply build_keeps in Hk.
  destruct Hk as (m1 & m2 & m3 & m4 & m5 & _ & _ & _ & _ & Hlink & _ & _ & _ & _ & _ & _
                  & _ & Vl & _).
  apply link_p_keys in Hlink. destruct Hlink as (lf & El & Kl).
  rewrite <- (Vl "link_p") in El by (simpl; auto).
  apply build_keeps_flows in Hb. destruct Hb as (s6 & s7 & Hflow & _ & Vf & _).
  apply passive_branch_p_keys in Hflow; [|exact Hrec]. destruct Hflow as (pf & Ep & Kp).
  rewrite <- Vf in Ep.
  apply extract_optimisation_results_inv in He.
  destruct He as (r1 & r2 & r3 & r5 & r6 & r7 & r8 & _ & _ & _ & _ & H6 & H7 & H8 & H9).
  pose proof (frame_extract_links _ _ _ _ _ H7) as [T7 _].
  pose proof (frame_extract_buses _ _ _ _ _ _ _ H8) as [T8 _].
  pose proof (frame_extract_nom_opt _ _ _ _ H9) as [T9 _].
  assert (T : forall n, ~ In n ["buses_t.v_ang"; "buses_t.marginal_price";
                                "buses_t.v_mag_pu"] -> tables r' n = tables r7 n).
  { intros n Hn. rewrite T9. unfold set_table. simpl.
    destruct (String.eqb_spec n "buses_t.v_ang") as [E|_];
      [exfalso; apply Hn; rewrite E; simpl; tauto|].
    apply T8. exact Hn. }
  split.
  - intros b sn Hbr Hsn.
    rewrite !T by not_in_names. rewrite !T7 by not_in_names.
    unfold extract_passive_branches, as_series in H6. rewrite Ep in H6. simpl in H6.
    rewrite (existsb_nonempty _ _ Hbr) in H6. inversion H6; subst r6. clear H6.
    unfold set_series, set_table, loc_set. simpl.
    rewrite !set_from_series_in by assumption.
    rewrite (proj2 (mem_snapshot_In sn snapshots) Hsn). simpl.
    rewrite !(proj2 (mem_index_In _ _)) by (rewrite Kp; now apply in_branch_snap).
    split; reflexivity.
  - intros Hnd l sn Hl Hsn.
    rewrite !T by not_in_names.
    unfold extract_links, as_series in H7. rewrite (existsb_nonempty _ _ Hl) in H7.
    rewrite El in H7. simpl in H7. inversion H7; subst r7. clear H7.
    unfold set_series, set_table, loc_set. simpl.
    rewrite !set_from_series_in by assumption.
    rewrite (proj2 (mem_snapshot_In sn snapshots) Hsn). simpl.
    rewrite !(proj2 (mem_index_In _ _)) by (rewrite Kl; now apply in_name_snap).
    split; [reflexivity|].
    assert (Ef : find (fun l0 : Link F => index_eqb [KName (ln_name l0)] [KName (ln_name l)])
                      (links network) = Some l).
    { apply (find_key (fun l0 : Link F => [KName (ln_name l0)]) (links network) l Hnd Hl). }
    simpl in Ef. rewrite Ef. reflexivity.
Qed.

End ExtractedFlows.


(** ** Stores *)

Section Stores.

Context {F : Type} {SF : Scalar F}.

Variable network : Network F.
Variable snapshots : list snapshot.

Ltac store_vars :=
  repeat match goal with
         | Hg : getvar _ _ _ = Return _ |- _ =>
             apply getvar_inv in Hg; destruct Hg as [-> _]
         end.

(** One iteration of the loop stores the energy balance of the store at
    the snapshot. *)
Lemma store_step_spec (m : Model F) (e e' : dict (cspec F)) (u : Store F) (i : nat)
    (sn : snapshot) :
  store_step network snapshots m e (u, (i, sn)) = Return e' ->
  nth_error snapshots i = Some sn ->
  exists c,
    e' = dset e [KName (st_name u); KSnap sn] c
    /\ normalize c = store_constraint_form network snapshots u i sn.
Proof.
  unfold store_step. cbv beta zeta. simpl fst. simpl snd. intros H Hi.
  unfold store_constraint_form, store_balance, store_prev, equals_zero. cbv zeta.
  destruct i as [|i']; simpl Nat.eqb in H; simpl andb in H;
    try destruct (st_e_cyclic u); simpl negb in H; cbv iota in H;
    binv; subst; store_vars;
    repeat match goal with
           | Hp : py_getitem _ _ = Return _ |- _ =>
               eapply py_getitem_prev in Hp; [|exact Hi]; simpl in Hp; subst
           end;
    eexists; (split; [reflexivity|]); reflexivity.
Qed.

Lemma store_entries_loop (m : Model F) (d : dict (cspec F)) :
  foldM (store_step network snapshots m)
        (list_prod (stores network) (enumerate snapshots)) [] = Return d ->
  store_entries network snapshots d.
Proof.
  intro H.
  eapply (@foldM_invariant _ _ (store_entries network snapshots)); [| | exact H].
  - intros d0 [u [i sn]] d1 Hx Hd0 Hstep.
    apply in_prod_iff in Hx. destruct Hx as [Hu Hx]. apply in_enumerate in Hx.
    simpl in Hx.
    pose proof Hstep as Hc. apply store_step_spec in Hc; [|exact Hx].
    destruct Hc as [c [-> Hc]].
    intros k c' Hk. rewrite dget_dset in Hk.
    destruct (index_eqb k [KName (st_name u); KSnap sn]) eqn:E.
    + apply index_eqb_eq in E. inversion Hk; subst c' k.
      exists u, i, sn. auto.
    + now apply Hd0.
  - intros k c Hk. discriminate.
Qed.

Hypothesis names_distinct : NoDup (name_index st_name (stores network)).

Lemma store_bounds_dget (u : Store F) (sn : snapshot) (b : option F * option F) :
  In u (stores network) -> In sn snapshots ->
  dget (dupdate
          (dict_of_list
             (map (fun p => ([KName (st_name (fst p)); KSnap (snd p)], (None, None)))
                  (list_prod (filter st_e_nom_extendable (stores network)) snapshots)))
          (map (fun p => let store := fst p in
                  ([KName (st_name store); KSnap (snd p)],
                   (Some (fmul (st_e_nom store) (st_e_min_pu_fixed store)),
                    Some (fmul (st_e_nom store) (st_e_max_pu_fixed store)))))
               (list_prod (filter (fun s => negb (st_e_nom_extendable s))
                                  (stores network)) snapshots)))
       [KName (st_name u); KSnap sn] = Some b ->
  mkVarData Reals (fst b) (snd b) = store_e_var u.
Proof.
  intros Hu Hsn H. unfold dict_of_list in H.
  rewrite !dupdate_app in H. apply dget_items_In in H.
  pose proof (name_key_injective st_name (stores network) names_distinct) as Hinj.
  unfold store_e_var.
  repeat (apply in_app_or in H; destruct H as [H|H]);
    apply in_map_iff in H; destruct H as [[a t] [E Hin]]; simpl in E;
    apply in_prod_iff in Hin; destruct Hin as [Ha _];
    repeat (apply filter_In in Ha; let C := fresh "C" in destruct Ha as [Ha C]);
    assert (Ek : [KName (st_name a); KSnap t] = [KName (st_name u); KSnap sn])
      by (inversion E; reflexivity);
    destruct (Hinj a u t sn Ha Hu Ek) as [Ea Et]; subst a t;
    inversion E; subst b.
  - now rewrite C.
  - apply negb_true_iff in C. now rewrite C.
Qed.

(** What [define_store_variables_constraints] declares for a store and a
    snapshot of the window. *)
Lemma define_store_variables_constraints_spec (m m' : Model F) (u : Store F)
    (sn : snapshot) :
  define_store_variables_constraints network snapshots m = Return m' ->
  In u (stores network) -> In sn snapshots ->
  var_at m' "store_p" [KName (st_name u); KSnap sn] = Some (mkVarData Reals None None)
  /\ var_at m' "store_e" [KName (st_name u); KSnap sn] = Some (store_e_var u)
  /\ var_at m' "store_e_nom" [KName (st_name u)] = store_e_nom_var u
  /\ con_at m' "store_e_upper" [KName (st_name u); KSnap sn]
     = (if st_e_nom_extendable u then Some (store_e_upper_constraint u sn) else None)
  /\ con_at m' "store_e_lower" [KName (st_name u); KSnap sn]
     = (if st_e_nom_extendable u then Some (store_e_lower_constraint u sn) else None)
  /\ (NoDup snapshots ->
      forall i, nth_error snapshots i = Some sn ->
        con_at m' "store_constraint" [KName (st_name u); KSnap sn]
        = Some (store_constraint_form network snapshots u i sn)).
Proof.
  unfold define_store_variables_constraints. intros H Hu Hsn. cbv zeta in H.
  bstep H store_p Hp. bstep H store_e He. bstep H upper Hup. bstep H lower Hlo.
  bstep H e Hfold.
  apply l_constraint_inv in H. destruct H as [fam [-> Hfam]].
  apply for2_pure with
    (g := fun st sn => ([KName (st_name st); KSnap sn], store_e_upper_constraint st sn))
    in Hup; [|pure_rule].
  apply for2_pure with
    (g := fun st sn => ([KName (st_name st); KSnap sn], store_e_lower_constraint st sn))
    in Hlo; [|pure_rule].
  subst upper lower.
  pose proof (in_name_snap st_name _ _ _ _ Hu Hsn) as Hin.
  unfold var_at, con_at. simpl.
  eapply Var_dget in Hp; [|exact Hin]. destruct Hp as [bp [Hbp ->]].
  inversion Hbp; subst bp.
  eapply Var_dget in He; [|exact Hin]. destruct He as [be [Hbe ->]].
  apply dlookup_inv in Hbe. rewrite (store_bounds_dget u sn Hu Hsn Hbe).
  repeat (split; [reflexivity|]).
  split.
  { unfold store_e_nom_var.
    apply (@dget_selected_rows _ _ (fun u : Store F => [KName (st_name u)])
             st_e_nom_extendable
             (fun u => mkVarData Reals (Some (st_e_nom_min u)) (Some (st_e_nom_max u)))
             (stores network) u names_distinct Hu). }
  split.
  { apply (dget_selected st_name st_e_nom_extendable store_e_upper_constraint
             (stores network) snapshots u sn names_distinct Hu Hsn). }
  split.
  { apply (dget_selected st_name st_e_nom_extendable store_e_lower_constraint
             (stores network) snapshots u sn names_distinct Hu Hsn). }
  intros Hnd i Hi.
  destruct (l_constraint_dget _ _ _ Hfam Hin) as [c [Hc ->]].
  apply store_entries_loop in Hfold.
  destruct (Hfold _ _ Hc) as (u' & i' & sn' & Hu' & Hi' & Ek & Hform).
  pose proof (name_key_injective st_name (stores network) names_distinct) as Hinj.
  destruct (Hinj u u' sn sn' Hu Hu' Ek) as [Eu Esn]. subst u' sn'.
  rewrite (@NoDup_nth_error_injective _ snapshots i i' sn Hnd Hi Hi').
  now rewrite Hform.
Qed.

End Stores.

Section StoresBuild.

Context {F : Type} {SF : Scalar F}.

(** X15. The variables of a store at a snapshot of the window, in a built
    model: the power is unbounded; the energy is bounded by
    [e_nom * e_min_pu_fixed] and [e_nom * e_max_pu_fixed] unless the store
    is extendable; an extendable store has a capacity variable, bounded by
    [e_nom_min] and [e_nom_max], and the two constraints
    [e <= e_max_pu_fixed * e_nom] and [e >= e_min_pu_fixed * e_nom]; a
    store that is not extendable has neither. *)
Theorem store_variables (network : Network F) (snapshots : list snapshot)
    (formulation : string) (ptdf_tolerance : F) (s : NetState F)
    (u : Store F) (sn : snapshot) :
  build_model network snapshots formulation ptdf_tolerance = Return s ->
  NoDup (name_index st_name (stores network)) ->
  In u (stores network) -> In sn snapshots ->
  var_at (model s) "store_p" [KName (st_name u); KSnap sn]
  = Some (mkVarData Reals None None)
  /\ var_at (model s) "store_e" [KName (st_name u); KSnap sn] = Some (store_e_var u)
  /\ var_at (model s) "store_e_nom" [KName (st_name u)] = store_e_nom_var u
  /\ con_at (model s) "store_e_upper" [KName (st_name u); KSnap sn]
     = (if st_e_nom_extendable u then Some (store_e_upper_constraint u sn) else None)
  /\ con_at (model s) "store_e_lower" [KName (st_name u); KSnap sn]
     = (if st_e_nom_extendable u then Some (store_e_lower_constraint u sn) else None).
Proof.
  intros H Hnd Hu Hsn.
  pose proof H as Hk. apply build_keeps in Hk.
  destruct Hk as (m1 & m2 & m3 & m4 & m5 & _ & _ & Hst & _ & _ & _ & _ & _ & _ & Hv & Hc & _).
  unfold var_at, con_at.
  rewrite (Hv "store_p"), (Hv "store_e"), (Hv "store_e_nom"),
    (Hc "store_e_upper"), (Hc "store_e_lower") by (simpl; auto 10).
  pose proof Hst as Hspec.
  apply define_store_variables_constraints_spec with (u := u) (sn := sn) in Hspec;
    [|assumption..].
  destruct Hspec as (Hp & He & Hn & Hup & Hlo & _).
  repeat split; assumption.
Qed.

(** X16. The energy balance of a store in a built model: at the snapshot at
    position [i] of the window the constraint is
    [-e + decay * e_prev - hours * p = 0], where [hours] is the weighting of
    the snapshot and [decay = (1 - standing_loss) ** hours]. At a later
    snapshot [e_prev] is the energy at the snapshot before; at the first one
    it is the constant [e_initial], or, for a cyclic store, the energy at
    the last snapshot of the window. *)
Theorem store_energy_balance (network : Network F) (snapshots : list snapshot)
    (formulation : string) (ptdf_tolerance : F) (s : NetState F)
    (u : Store F) (i : nat) (sn : snapshot) :
  build_model network snapshots formulation ptdf_tolerance = Return s ->
  NoDup (name_index st_name (stores network)) ->
  NoDup snapshots ->
  In u (stores network) -> nth_error snapshots i = Some sn ->
  con_at (model s) "store_constraint" [KName (st_name u); KSnap sn]
  = Some (store_constraint_form network snapshots u i sn).
Proof.
  intros H Hnd Hsnd Hu Hi.
  pose proof H as Hk. apply build_keeps in Hk.
  destruct Hk as (m1 & m2 & m3 & m4 & m5 & _ & _ & Hst & _ & _ & _ & _ & _ & _ & _ & Hc & _).
  unfold con_at. rewrite (Hc "store_constraint") by (simpl; auto 10).
  pose proof Hst as Hspec.
  apply define_store_variables_constraints_spec with (u := u) (sn := sn) in Hspec;
    [|try assumption..].
  - destruct Hspec as (_ & _ & _ & _ & _ & Hbal). exact (Hbal Hsnd i Hi).
  - eapply nth_error_In. exact Hi.
Qed.

End StoresBuild.

Section ExtractedStores.

Context {F : Type} {SF : Scalar F}.

Lemma store_keys (network : Network F) (snapshots : list snapshot) (m m' : Model F) :
  define_store_variables_constraints network snapshots m = Return m' ->
  exists p e,
    assoc "store_p" (m_vars m') = Some p
    /\ assoc "store_e" (m_vars m') = Some e
    /\ dkeys p = cross (name_index st_name (stores network)) (snap_index snapshots)
    /\ dkeys e = cross (name_index st_name (stores network)) (snap_index snapshots).
Proof.
  unfold define_store_variables_constraints. intro H. cbv zeta in H.
  bstep H store_p Hp. bstep H store_e He. bstep H upper Hup. bstep H lower Hlo.
  bstep H e Hfold.
  apply l_constraint_inv in H. destruct H as [fam [-> Hfam]].
  exists store_p, store_e. simpl.
  repeat (split; [reflexivity|]).
  apply Var_keys in Hp. apply Var_keys in He. auto.
Qed.

(** X17. After the extraction on a built model, at every snapshot of the
    window the power and the energy of a store are the values of its power
    and energy variables. *)
Theorem extracted_stores (types : list string)
    (spsolve : Matrix F -> list (list (option F)) -> list (list (option F)))
    (network : Network F) (snapshots : list snapshot) (formulation : string)
    (ptdf_tolerance : F) (s : NetState F) (sr : SolverResults F) (r r' : Results F)
    (u : Store F) (sn : snapshot) :
  build_model network snapshots formulation ptdf_tolerance = Return s ->
  extract_optimisation_results types spsolve network snapshots formulation
    (model s) sr r = Return r' ->
  In u (stores network) -> In sn snapshots ->
  tables r' "stores_t.p" sn [KName (st_name u)]
  = sr_value sr ("store_p", [KName (st_name u); KSnap sn])
  /\ tables r' "stores_t.e" sn [KName (st_name u)]
     = sr_value sr ("store_e", [KName (st_name u); KSnap sn]).
Proof.
  intros Hb He Hu Hsn.
  apply build_keeps in Hb.
  destruct Hb as (m1 & m2 & m3 & m4 & m5 & _ & _ & Hst & _ & _ & _ & _ & _ & _ & Vs & _).
  apply store_keys in Hst. destruct Hst as (p & e & Ep & Ee & Kp & Ke).
  rewrite <- (Vs "store_p") in Ep by (simpl; auto).
  rewrite <- (Vs "store_e") in Ee by (simpl; auto).
  apply extraction_frames in He.
  destruct He as (_ & r1 & r2 & r3 & _ & _ & H3 & _ & _ & Ts & _).
  rewrite (Ts "stores_t.p"), (Ts "stores_t.e") by (simpl; auto).
  unfold extract_stores in H3. rewrite (existsb_nonempty _ _ Hu) in H3.
  unfold as_series in H3. rewrite Ep, Ee in H3. simpl in H3.
  inversion H3; subst r3. clear H3.
  assert (Hin : In [KName (st_name u); KSnap sn]
                   (cross (name_index st_name (stores network)) (snap_index snapshots)))
    by now apply in_name_snap.
  unfold set_series, set_table. simpl.
  rewrite !set_from_series_in by assumption. simpl.
  rewrite !(proj2 (mem_index_In _ _)) by (rewrite ?Kp, ?Ke; exact Hin).
  split; reflexivity.
Qed.

End ExtractedStores.


(** ** The nodal balances *)

Section NodalBalances.

Context {F : Type} {SF : Scalar F}.

(** A loop whose iterations act on the entry at every key by a known
    effect acts on it by the effects one after the other. *)
Lemma foldM_effect {A : Type}
    (step : dict (LExpression F) -> A -> result (dict (LExpression F)))
    (eff : A -> index -> LExpression F -> LExpression F) :
  (forall bal p bal' k,
      step bal p = Return bal' -> dget bal' k = option_map (eff p k) (dget bal k)) ->
  forall l bal bal' k,
    foldM step l bal = Return bal' ->
    dget bal' k = option_map (fun e => fold_left (fun e p => eff p k e) l e) (dget bal k).
Proof.
  intros Hstep l. induction l as [|p l IH]; simpl; intros bal bal' k H.
  - inversion H; subst. now destruct (dget bal' k).
  - apply bind_inv in H. destruct H as [bal1 [H1 H]].
    rewrite (IH _ _ k H), (Hstep _ _ _ k H1). now destruct (dget bal k).
Qed.

Lemma append_terms_nil (e : LExpression F) : append_terms [] e = e.
Proof. destruct e. unfold append_terms. simpl. now rewrite app_nil_r. Qed.

Lemma append_terms_app (ts ts' : list (F * var)) (e : LExpression F) :
  append_terms ts' (append_terms ts e) = append_terms (ts ++ ts') e.
Proof. unfold append_terms. simpl. now rewrite app_assoc. Qed.

Lemma fold_append_terms {A : Type} (tm : A -> list (F * var)) (l : list A)
    (e : LExpression F) :
  fold_left (fun e p => append_terms (tm p) e) l e = append_terms (flat_map tm l) e.
Proof.
  revert e. induction l as [|p l IH]; simpl; intro e.
  - now rewrite append_terms_nil.
  - now rewrite IH, append_terms_app.
Qed.

(** The effect of [append_variable] at a key. *)
Lemma append_variable_effect (m : Model F) (bal bal' : dict (LExpression F))
    (k0 : index) (c : F) (name : string) (i : index) (k : index) :
  append_variable bal k0 (v <- getvar m name i ;; Return (c, v)) = Return bal' ->
  dget bal' k
  = option_map (append_terms (if index_eqb k k0 then [(c, (name, i))] else []))
               (dget bal k).
Proof.
  unfold append_variable. intro H.
  apply bind_inv in H. destruct H as [e0 [H0 H]]. apply dlookup_inv in H0.
  apply bind_inv in H. destruct H as [t [Ht H]].
  apply bind_inv in Ht. destruct Ht as [v [Hv Ht]].
  apply getvar_inv in Hv. destruct Hv as [-> _].
  inversion Ht; subst t. inversion H; subst bal'. clear Ht H.
  rewrite dget_dset.
  destruct (index_eqb k k0) eqn:E.
  - apply index_eqb_eq in E. subst k0. rewrite H0. reflexivity.
  - destruct (dget bal k); simpl; [|reflexivity]. now rewrite append_terms_nil.
Qed.

Lemma add_constant_effect (bal bal' : dict (LExpression F)) (k0 : index) (c : F)
    (k : index) :
  add_constant bal k0 c = Return bal' ->
  dget bal' k
  = option_map (fun e => mkLExpression (variables e)
                           (if index_eqb k k0 then fadd (constant e) c else constant e))
               (dget bal k).
Proof.
  unfold add_constant. intro H.
  apply bind_inv in H. destruct H as [e0 [H0 H]]. apply dlookup_inv in H0.
  inversion H; subst bal'. clear H.
  rewrite dget_dset.
  destruct (index_eqb k k0) eqn:E.
  - apply index_eqb_eq in E. subst k0. rewrite H0. reflexivity.
  - destruct (dget bal k) as [e|]; simpl; [|reflexivity]. destruct e; reflexivity.
Qed.

Lemma fold_constant {A : Type} (test : A -> bool) (val : A -> F) (l : list A)
    (e : LExpression F) :
  fold_left (fun e p => mkLExpression (variables e)
                          (if test p then fadd (constant e) (val p) else constant e)) l e
  = mkLExpression (variables e)
      (fold_left (fun c p => if test p then fadd c (val p) else c) l (constant e)).
Proof.
  revert e. induction l as [|p l IH]; simpl; intro e.
  - destruct e; reflexivity.
  - now rewrite IH.
Qed.

Lemma empty_balance_value (network : Network F) (snapshots : list snapshot)
    (k : index) (e : LExpression F) :
  dget (empty_balances network snapshots) k = Some e -> e = LExpression_empty.
Proof.
  intro E. unfold empty_balances, dict_of_list in E. apply dget_items_In in E.
  apply in_map_iff in E. destruct E as [p [E _]]. inversion E. reflexivity.
Qed.

Lemma empty_balance_dget (network : Network F) (snapshots : list snapshot)
    (b : Bus) (sn : snapshot) :
  In b (buses network) -> In sn snapshots ->
  dget (empty_balances network snapshots) [KName (bus_name b); KSnap sn]
  = Some LExpression_empty.
Proof.
  intros Hb Hsn.
  destruct (dget _ [KName (bus_name b); KSnap sn]) as [e|] eqn:E.
  - apply empty_balance_value in E. now subst.
  - exfalso. apply dget_None_notin in E. apply E.
    apply dkeys_dict_of_list_In. rewrite map_map. simpl.
    apply in_map_iff. exists (b, sn). split; [reflexivity|]. now apply in_prod.
Qed.

(** Every balance that [define_nodal_balances] stores is the closed form
    at its key. *)
Lemma nodal_balance_entries (network : Network F) (snapshots : list snapshot)
    (s s' : NetState F) :
  define_nodal_balances network snapshots s = Return s' ->
  exists balance,
    _p_balance s' = Some balance
    /\ forall k,
         dget balance k
         = option_map (fun _ => nodal_balance network snapshots k)
                      (dget (empty_balances network snapshots) k).
Proof.
  unfold define_nodal_balances. cbv zeta. intro H.
  bstep H bal1 Hlinks. bstep H bal2 Hgens. bstep H bal3 Hloads.
  bstep H bal4 Hsus. bstep H bal5 Hstores.
  inversion H; subst s'. clear H. simpl. exists bal5. split; [reflexivity|]. intro k.
  eapply (@foldM_effect _ _ (fun p k e => append_terms (balance_link_terms k p) e))
    with (k := k) in Hlinks.
  2:{ intros bal p bal' k' Hs. apply bind_inv in Hs. destruct Hs as [balm [Ha Hs]].
      rewrite (append_variable_effect _ _ _ _ _ _ k' Hs).
      rewrite (append_variable_effect _ _ _ _ _ _ k' Ha).
      destruct (dget bal k'); simpl; [|reflexivity].
      now rewrite append_terms_app. }
  eapply (@foldM_effect _ _ (fun p k e => append_terms (balance_generator_terms k p) e))
    with (k := k) in Hgens.
  2:{ intros bal p bal' k' Hs. exact (append_variable_effect _ _ _ _ _ _ k' Hs). }
  eapply (@foldM_effect _ _
            (fun p k e =>
               mkLExpression (variables e)
                 (if at_key k (ld_bus (fst p)) (snd p)
                  then fadd (constant e)
                            (fmul (ld_sign (fst p))
                                  (loads_t_p_set network (snd p) (ld_name (fst p))))
                  else constant e)))
    with (k := k) in Hloads.
  2:{ intros bal p bal' k' Hs. exact (add_constant_effect _ _ _ k' Hs). }
  eapply (@foldM_effect _ _ (fun p k e => append_terms (balance_storage_terms k p) e))
    with (k := k) in Hsus.
  2:{ intros bal p bal' k' Hs. apply bind_inv in Hs. destruct Hs as [balm [Ha Hs]].
      rewrite (append_variable_effect _ _ _ _ _ _ k' Hs).
      rewrite (append_variable_effect _ _ _ _ _ _ k' Ha).
      destruct (dget bal k'); simpl; [|reflexivity].
      rewrite append_terms_app. unfold balance_storage_terms, at_key.
      destruct (index_eqb k' [KName (su_bus (fst p)); KSnap (snd p)]); reflexivity. }
  eapply (@foldM_effect _ _ (fun p k e => append_terms (balance_store_terms k p) e))
    with (k := k) in Hstores.
  2:{ intros bal p bal' k' Hs. exact (append_variable_effect _ _ _ _ _ _ k' Hs). }
  rewrite Hstores, Hsus, Hloads, Hgens, Hlinks.
  fold (empty_balances network snapshots).
  destruct (dget (empty_balances network snapshots) k) as [e0|] eqn:E0; [|reflexivity].
  apply empty_balance_value in E0. subst e0. simpl.
  rewrite !fold_append_terms.
  rewrite (fold_constant (fun p => at_key k (ld_bus (fst p)) (snd p))
             (fun p => fmul (ld_sign (fst p))
                            (loads_t_p_set network (snd p) (ld_name (fst p))))).
  unfold nodal_balance, append_terms, balance_variables, balance_constant. simpl.
  rewrite <- !app_assoc. reflexivity.
Qed.

(** X18. The balance that [define_nodal_balances] stores for a bus of the
    network and a snapshot of the window: the terms of the links,
    generators, storage units and stores attached to the bus, in this
    order, and as constant the signed set points of its loads. Components
    at other buses and the passive branches do not enter. *)
Theorem nodal_balance_expression (network : Network F) (snapshots : list snapshot)
    (s s' : NetState F) (b : Bus) (sn : snapshot) :
  define_nodal_balances network snapshots s = Return s' ->
  In b (buses network) -> In sn snapshots ->
  exists balance,
    _p_balance s' = Some balance
    /\ dget balance [KName (bus_name b); KSnap sn]
       = Some (mkLExpression
                 (balance_variables network snapshots [KName (bus_name b); KSnap sn])
                 (balance_constant network snapshots [KName (bus_name b); KSnap sn])).
Proof.
  intros H Hb Hsn. apply nodal_balance_entries in H.
  destruct H as (balance & Eb & Hk). exists balance. split; [assumption|].
  rewrite Hk, (empty_balance_dget network snapshots b sn Hb Hsn). reflexivity.
Qed.

End NodalBalances.

Section FailedSolve.

Context {F : Type} {SF : Scalar F}.

(** X19. When the model builds and the solver reports neither ok/optimal nor
    warning/other, a run without extra functionality returns all the
    same: the results of earlier runs are left as they were, nothing is
    extracted, and the failure is only printed. *)
Theorem failed_solve_keeps_results (types : list string)
    (spsolve : Matrix F -> list (list (option F)) -> list (list (option F)))
    (network : Network F) (r : Results F) (snapshots : list snapshot)
    (opt : Model F -> SolverResults F) (verbose : bool) (formulation : string)
    (ptdf_tolerance : F) (s : NetState F) :
  build_model network snapshots formulation ptdf_tolerance = Return s ->
  solver_optimal (opt (model s)) || solver_suboptimal (opt (model s)) = false ->
  exists o,
    network_lopf types spsolve network r (Some snapshots) opt verbose None
      formulation ptdf_tolerance = Return o
    /\ out_results o = r
    /\ out_model o = model s
    /\ (forall w f, ~ In (EvExtract w f) (out_trace o))
    /\ exists msg, In (EvPrint msg) (out_trace o).
Proof.
  intros Hb Hs. apply orb_false_iff in Hs. destruct Hs as [H1 H2].
  unfold solver_optimal in H1. unfold solver_suboptimal in H2.
  pose proof (build_complete _ _ _ _ Hb) as (_ & _ & Hp).
  unfold network_lopf. cbv zeta. rewrite Hb. simpl.
  unfold get_p_balance. destruct (_p_balance s) as [d|]; [|congruence]. simpl.
  unfold after_solve. cbv zeta. rewrite H1, H2.
  eexists. split; [reflexivity|]. simpl.
  repeat (split; [reflexivity|]). split.
  - intros w f [Hx|Hx]; [discriminate|].
    destruct verbose; simpl in Hx;
      repeat (destruct Hx as [Hx|Hx]; [discriminate|]); exact Hx.
  - eexists. right. apply in_or_app. right. left. reflexivity.
Qed.

End FailedSolve.


(** ** The extracted voltages *)

Section ExtractedVoltages.

Context {F : Type} {SF : Scalar F}.

Lemma in_buses_of_carrier (network : Network F) (b : Bus) (c : string) :
  NoDup (name_index bus_name (buses network)) -> In b (buses network) ->
  In [KName (bus_name b)] (buses_of_carrier network c) <-> bus_carrier b = c.
Proof.
  intros Hnd Hb. unfold buses_of_carrier, name_index. split.
  - intro H. apply in_map_iff in H. destruct H as [b' [E Hb']].
    apply filter_In in Hb'. destruct Hb' as [Hb' C]. apply String.eqb_eq in C.
    pose proof (name_key_injective bus_name (buses network) Hnd) as Hinj.
    assert (Ek : [KName (bus_name b'); KSnap 0] = [KName (bus_name b); KSnap 0])
      by (inversion E; reflexivity).
    destruct (Hinj b' b 0 0 Hb' Hb Ek) as [Eb _]. now subst b'.
  - intro C. apply in_map_iff. exists b. split; [reflexivity|].
    apply filter_In. split; [assumption|]. now apply String.eqb_eq.
Qed.

Lemma mem_buses_of_carrier (network : Network F) (b : Bus) (c : string) :
  NoDup (name_index bus_name (buses network)) -> In b (buses network) ->
  mem_index [KName (bus_name b)] (buses_of_carrier network c) = (bus_carrier b =? c).
Proof.
  intros Hnd Hb.
  destruct (bus_carrier b =? c) eqn:E.
  - apply mem_index_In. apply in_buses_of_carrier; [assumption..|].
    now apply String.eqb_eq.
  - destruct (mem_index _ (buses_of_carrier network c)) eqn:M; [|reflexivity].
    apply mem_index_In in M. apply in_buses_of_carrier in M; [|assumption..].
    apply String.eqb_neq in E. contradiction.
Qed.

(** X20. After the extraction, whatever the formulation, at every snapshot of
    the window the angle of a DC bus is zero and the voltage magnitude of
    an AC bus is one. *)
Theorem extracted_voltage_conventions (types : list string)
    (spsolve : Matrix F -> list (list (option F)) -> list (list (option F)))
    (network : Network F) (snapshots : list snapshot) (formulation : string)
    (m : Model F) (sr : SolverResults F) (r r' : Results F) (b : Bus) (sn : snapshot) :
  extract_optimisation_results types spsolve network snapshots formulation m sr r
  = Return r' ->
  NoDup (name_index bus_name (buses network)) ->
  In b (buses network) -> In sn snapshots ->
  (bus_carrier b = "DC" ->
   tables r' "buses_t.v_ang" sn [KName (bus_name b)] = Some fzero)
  /\ (bus_carrier b = "AC" ->
      tables r' "buses_t.v_mag_pu" sn [KName (bus_name b)] = Some fone).
Proof.
  intros H Hnd Hb Hsn. apply extract_optimisation_results_inv in H.
  destruct H as (r1 & r2 & r3 & r5 & r6 & r7 & r8 & _ & _ & _ & _ & _ & _ & H8 & H9).
  apply frame_extract_nom_opt in H9. destruct H9 as [T9 _]. rewrite T9.
  apply mem_snapshot_In in Hsn.
  unfold set_table, loc_set_cols. simpl. rewrite Hsn. simpl. split.
  - intro C. rewrite mem_buses_of_carrier by assumption. rewrite C. reflexivity.
  - intro C. unfold extract_buses in H8. rewrite (existsb_nonempty _ _ Hb) in H8.
    bstep H8 r0 H0. inversion H8; subst r8. clear H8.
    unfold set_table, loc_set_cols. simpl. rewrite Hsn. simpl.
    rewrite !mem_buses_of_carrier by assumption. rewrite C. reflexivity.
Qed.

Lemma voltage_angle_keys (network : Network F) (snapshots : list snapshot)
    (tol : F) (s : NetState F) :
  build_model network snapshots "angles" tol = Return s ->
  exists fam,
    assoc "voltage_angles" (m_vars (model s)) = Some fam
    /\ dkeys fam = cross (name_index bus_name (buses network)) (snap_index snapshots).
Proof.
  intro H. apply build_keeps_flows in H.
  destruct H as (s6 & s7 & Hflow & _ & Hv & _).
  rewrite Hv. unfold define_passive_branch_flows in Hflow. simpl in Hflow.
  unfold define_passive_branch_flows_with_angles in Hflow. binv. subst.
  simpl. eexists. split; [reflexivity | apply dkeys_const_family].
Qed.

(** X21. After the extraction on a model built with the formulation "angles",
    at every snapshot of the window: the angle of a bus that is not a DC
    bus is the value of its angle variable, and the voltage magnitude of a
    DC bus is one plus the value of its angle variable. *)
Theorem extracted_voltage_angles (types : list string)
    (spsolve : Matrix F -> list (list (option F)) -> list (list (option F)))
    (network : Network F) (snapshots : list snapshot) (ptdf_tolerance : F)
    (s : NetState F) (sr : SolverResults F) (r r' : Results F) (b : Bus) (sn : snapshot) :
  build_model network snapshots "angles" ptdf_tolerance = Return s ->
  extract_optimisation_results types spsolve network snapshots "angles" (model s) sr r
  = Return r' ->
  NoDup (name_index bus_name (buses network)) ->
  In b (buses network) -> In sn snapshots ->
  (bus_carrier b <> "DC" ->
   tables r' "buses_t.v_ang" sn [KName (bus_name b)]
   = sr_value sr ("voltage_angles", [KName (bus_name b); KSnap sn]))
  /\ (bus_carrier b = "DC" ->
      tables r' "buses_t.v_mag_pu" sn [KName (bus_name b)]
      = olift1 (fadd fone)
               (sr_value sr ("voltage_angles", [KName (bus_name b); KSnap sn]))).
Proof.
  intros Hbuild H Hnd Hb Hsn.
  apply voltage_angle_keys in Hbuild. destruct Hbuild as (fam & Ef & Kf).
  apply extract_optimisation_results_inv in H.
  destruct H as (r1 & r2 & r3 & r5 & r6 & r7 & r8 & _ & _ & _ & _ & _ & _ & H8 & H9).
  apply frame_extract_nom_opt in H9. destruct H9 as [T9 _]. rewrite T9.
  assert (Hin : In [KName (bus_name b); KSnap sn]
                   (cross (name_index bus_name (buses network)) (snap_index snapshots)))
    by now apply in_name_snap.
  unfold extract_buses in H8. rewrite (existsb_nonempty _ _ Hb) in H8.
  simpl in H8. unfold as_series in H8. rewrite Ef in H8. simpl in H8.
  destruct (assoc "power_balance" (m_cons (model s))) as [pb|]; [|discriminate].
  simpl in H8. inversion H8; subst r8. clear H8.
  pose proof (proj2 (mem_snapshot_In sn snapshots) Hsn) as Msn.
  unfold set_series, set_table, loc_set_cols. simpl.
  rewrite Msn. simpl.
  rewrite !mem_buses_of_carrier by assumption.
  rewrite !set_from_series_in by assumption. simpl.
  rewrite (proj2 (mem_index_In _ _)) by (rewrite Kf; exact Hin).
  split.
  - intro C. apply String.eqb_neq in C. rewrite C. reflexivity.
  - intro C. rewrite C. reflexivity.
Qed.

End ExtractedVoltages.


(** ** Storage units: the capacity *)

Section StorageCapacity.

Context {F : Type} {SF : Scalar F}.

Lemma define_storage_variables_constraints_capacity (network : Network F)
    (snapshots : list snapshot) (m m' : Model F) (su : StorageUnit F) (sn : snapshot) :
  define_storage_variables_constraints network snapshots m = Return m' ->
  NoDup (name_index su_name (storage_units network)) ->
  In su (storage_units network) -> In sn snapshots ->
  var_at m' "storage_p_nom" [KName (su_name su)] = storage_p_nom_var su
  /\ con_at m' "storage_p_upper" [KName (su_name su); KSnap sn]
     = (if su_p_nom_extendable su then Some (storage_p_upper_constraint su sn) else None)
  /\ con_at m' "storage_p_lower" [KName (su_name su); KSnap sn]
     = (if su_p_nom_extendable su then Some (storage_p_lower_constraint su sn) else None).
Proof.
  unfold define_storage_variables_constraints. intros H Hnd Hsu Hsn.
  bstep H dispatch Hdispatch. bstep H store Hstore. bstep H spill Hspill.
  bstep H p_upper Hp_upper. bstep H p_lower Hp_lower. bstep H e He.
  bstep H upper_ext Hue. bstep H upper_fix Huf. lstep H m1 upper Hupper.
  bstep H s Hsoc. bstep H soc1 Hspillfold. lstep H m2 fam Hfam.
  apply l_constraint_inv in H. destruct H as [fixed [-> Hfixed]].
  apply for2_pure with
    (g := fun su sn => ([KName (su_name su); KSnap sn], storage_p_upper_constraint su sn))
    in Hp_upper; [|pure_rule].
  apply for2_pure with
    (g := fun su sn => ([KName (su_name su); KSnap sn], storage_p_lower_constraint su sn))
    in Hp_lower; [|pure_rule].
  subst p_upper p_lower. unfold var_at, con_at. simpl.
  split; [|split].
  - unfold storage_p_nom_var.
    apply (@dget_selected_rows _ _ (fun su : StorageUnit F => [KName (su_name su)])
             su_p_nom_extendable
             (fun su => mkVarData NonNegativeReals (Some (su_p_nom_min su))
                                  (Some (su_p_nom_max su)))
             (storage_units network) su Hnd Hsu).
  - apply (dget_selected su_name su_p_nom_extendable storage_p_upper_constraint
             (storage_units network) snapshots su sn Hnd Hsu Hsn).
  - apply (dget_selected su_name su_p_nom_extendable storage_p_lower_constraint
             (storage_units network) snapshots su sn Hnd Hsu Hsn).
Qed.

(** X22. The capacity of a storage unit in a built model: an extendable unit
    has a capacity variable, non-negative and bounded by [p_nom_min] and
    [p_nom_max], and at every snapshot of the window the two constraints
    [p_dispatch <= p_max_pu_fixed * p_nom] and
    [p_store <= -p_min_pu_fixed * p_nom]; a unit that is not extendable
    has neither the variable nor the constraints. *)
Theorem storage_unit_capacity_limits (network : Network F) (snapshots : list snapshot)
    (formulation : string) (ptdf_tolerance : F) (s : NetState F)
    (su : StorageUnit F) (sn : snapshot) :
  build_model network snapshots formulation ptdf_tolerance = Return s ->
  NoDup (name_index su_name (storage_units network)) ->
  In su (storage_units network) -> In sn snapshots ->
  var_at (model s) "storage_p_nom" [KName (su_name su)] = storage_p_nom_var su
  /\ con_at (model s) "storage_p_upper" [KName (su_name su); KSnap sn]
     = (if su_p_nom_extendable su then Some (storage_p_upper_constraint su sn) else None)
  /\ con_at (model s) "storage_p_lower" [KName (su_name su); KSnap sn]
     = (if su_p_nom_extendable su then Some (storage_p_lower_constraint su sn) else None).
Proof.
  intros H Hnd Hsu Hsn.
  pose proof H as Hk. apply build_keeps in Hk.
  destruct Hk as (m1 & m2 & m3 & m4 & m5 & _ & Hst & _ & _ & _ & _ & _ & Hv & Hc & _).
  unfold var_at, con_at.
  rewrite (Hv "storage_p_nom"), (Hc "storage_p_upper"), (Hc "storage_p_lower")
    by (simpl; auto 10).
  revert Hst Hnd Hsu Hsn. apply define_storage_variables_constraints_capacity.
Qed.

End StorageCapacity.


(** ** Storage units: the set points of the state of charge *)

Section FixedStateOfCharge.

Context {F : Type} {SF : Scalar F}.

Variable network : Network F.
Variable snapshots : list snapshot.

Lemma soc_step_fixed (m : Model F) (s s' : soc_state F)
    (x : StorageUnit F * (nat * snapshot)) :
  soc_step network snapshots m s x = Return s' ->
  fixed_soc s' = dupdate (fixed_soc s) (fixed_soc_items network x).
Proof.
  unfold soc_step, fixed_soc_items. cbv beta zeta. intro H.
  apply bind_inv in H. destruct H as [prev [_ H]].
  apply bind_inv in H. destruct H as [cur [Hcur H]].
  apply bind_inv in H. destruct H as [p_store [_ H]].
  apply bind_inv in H. destruct H as [p_dispatch [_ H]].
  inversion H; subst s'. clear H. simpl.
  destruct (storage_units_t_state_of_charge_set network (snd (snd x)) (su_name (fst x)))
    as [v|].
  - apply bind_inv in Hcur. destruct Hcur as [w [Hw Hcur]].
    apply getvar_inv in Hw. destruct Hw as [-> _].
    inversion Hcur; subst cur. reflexivity.
  - apply bind_inv in Hcur. destruct Hcur as [w [Hw Hcur]].
    inversion Hcur; subst cur. reflexivity.
Qed.

Lemma soc_fold_fixed (m : Model F) (l : list (StorageUnit F * (nat * snapshot)))
    (s s' : soc_state F) :
  foldM (soc_step network snapshots m) l s = Return s' ->
  fixed_soc s' = dupdate (fixed_soc s) (flat_map (fixed_soc_items network) l).
Proof.
  revert s. induction l as [|x l IH]; simpl; intros s H.
  - inversion H. reflexivity.
  - apply bind_inv in H. destruct H as [s1 [H1 H]].
    apply soc_step_fixed in H1. rewrite (IH _ H), H1.
    unfold dupdate. now rewrite fold_left_app.
Qed.

Hypothesis names_distinct : NoDup (name_index su_name (storage_units network)).

(** The entries of the dictionary of the set points. *)
Lemma fixed_soc_entry (su : StorageUnit F) (sn : snapshot) (k : index) (c : cspec F) :
  In su (storage_units network) ->
  In (k, c) (flat_map (fixed_soc_items network)
                      (list_prod (storage_units network) (enumerate snapshots))) ->
  k = [KName (su_name su); KSnap sn] ->
  Some (normalize c) = state_of_charge_fixed_constraint network su sn.
Proof.
  intros Hsu Hin Ek. apply in_flat_map in Hin. destruct Hin as [[su' [i' sn']] [Hx Hin]].
  apply in_prod_iff in Hx. destruct Hx as [Hsu' _].
  unfold fixed_soc_items in Hin. simpl in Hin.
  unfold state_of_charge_fixed_constraint.
  destruct (storage_units_t_state_of_charge_set network sn' (su_name su')) as [v|] eqn:E;
    [|contradiction].
  destruct Hin as [Hin|[]]. inversion Hin; subst k c.
  pose proof (name_key_injective su_name (storage_units network) names_distinct) as Hinj.
  match goal with Hk : _ = [KName (su_name su); KSnap sn] |- _ =>
    destruct (Hinj su' su sn' sn Hsu' Hsu Hk) as [Es Et] end.
  subst su' sn'. rewrite E. reflexivity.
Qed.

Lemma define_storage_variables_constraints_fixed (m m' : Model F)
    (su : StorageUnit F) (sn : snapshot) :
  define_storage_variables_constraints network snapshots m = Return m' ->
  In su (storage_units network) -> In sn snapshots ->
  con_at m' "state_of_charge_constraint_fixed" [KName (su_name su); KSnap sn]
  = state_of_charge_fixed_constraint network su sn.
Proof.
  unfold define_storage_variables_constraints. intros H Hsu Hsn.
  bstep H dispatch Hdispatch. bstep H store Hstore. bstep H spill Hspill.
  bstep H p_upper Hp_upper. bstep H p_lower Hp_lower. bstep H e He.
  bstep H upper_ext Hue. bstep H upper_fix Huf. lstep H m1 upper Hupper.
  bstep H s Hsoc. bstep H soc1 Hspillfold. lstep H m2 fam Hfam.
  apply l_constraint_inv in H. destruct H as [fixed [-> Hfixed]].
  unfold con_at. simpl m_cons. simpl assoc.
  apply soc_fold_fixed in Hsoc. simpl in Hsoc.
  set (k := [KName (su_name su); KSnap sn]).
  destruct (mem_index k (dkeys (fixed_soc s))) eqn:M.
  - apply mem_index_In in M.
    destruct (l_constraint_dget _ _ _ Hfixed M) as [c [Hc ->]].
    rewrite Hsoc in Hc. apply dget_items_In in Hc.
    exact (@fixed_soc_entry su sn k c Hsu Hc eq_refl).
  - assert (Hn : ~ In k (dkeys fixed)).
    { rewrite (l_constraint_keys _ _ Hfixed). intro Hk.
      apply mem_index_In in Hk. congruence. }
    apply dget_None_notin in Hn. rewrite Hn.
    unfold state_of_charge_fixed_constraint.
    destruct (storage_units_t_state_of_charge_set network sn (su_name su)) as [v|] eqn:E;
      [|reflexivity].
    exfalso. assert (Hk : In k (dkeys (fixed_soc s))).
    { rewrite Hsoc. apply (proj2 (dkeys_dict_of_list_In _ k)).
      apply In_nth_error in Hsn. destruct Hsn as [i Hi].
      apply in_map_iff.
      exists (k, CTriple [(fone, ("state_of_charge", k))] EQ v). split; [reflexivity|].
      apply in_flat_map. exists (su, (i, sn)). split.
      - apply in_prod; [assumption | now apply in_enumerate].
      - unfold fixed_soc_items. simpl. rewrite E. now left. }
    apply mem_index_In in Hk. congruence.
Qed.

End FixedStateOfCharge.

Section FixedStateOfChargeBuild.

Context {F : Type} {SF : Scalar F}.

(** X23. The set points of the state of charge in a built model: where
    [state_of_charge_set] of a storage unit is given for a snapshot of the
    window, the constraint [state_of_charge = set point] is there for the
    unit and the snapshot; where it is not given (NaN), there is no such
    constraint. *)
Theorem state_of_charge_set_points (network : Network F) (snapshots : list snapshot)
    (formulation : string) (ptdf_tolerance : F) (s : NetState F)
    (su : StorageUnit F) (sn : snapshot) :
  build_model network snapshots formulation ptdf_tolerance = Return s ->
  NoDup (name_index su_name (storage_units network)) ->
  In su (storage_units network) -> In sn snapshots ->
  con_at (model s) "state_of_charge_constraint_fixed" [KName (su_name su); KSnap sn]
  = state_of_charge_fixed_constraint network su sn.
Proof.
  intros H Hnd Hsu Hsn.
  pose proof H as Hk. apply build_keeps in Hk.
  destruct Hk as (m1 & m2 & m3 & m4 & m5 & _ & Hst & _ & _ & _ & _ & _ & _ & Hc & _).
  unfold con_at.
  rewrite (Hc "state_of_charge_constraint_fixed") by (simpl; auto 10).
  revert Hst Hsu Hsn. apply define_storage_variables_constraints_fixed. exact Hnd.
Qed.

End FixedStateOfChargeBuild.


(** ** Flows from the PTDF *)

Lemma app_distinct_disjoint {A : Type} (l1 l2 : list A) (x : A) :
  NoDup (l1 ++ l2) -> In x l1 -> In x l2 -> False.
Proof.
  induction l1 as [|a l1 IH]; simpl; intros Hnd H1 H2; [contradiction|].
  inversion Hnd as [|? ? Hn Hnd']; subst. destruct H1 as [->|H1].
  - apply Hn. apply in_or_app. now right.
  - now apply IH.
Qed.

(** In a concatenation without repetition an element has one place. *)
Lemma flat_map_place {A B : Type} (f : A -> list B) (l : list A) (a a' : A)
    (i i' : nat) (x : B) :
  NoDup (flat_map f l) -> In a l -> In a' l ->
  nth_error (f a) i = Some x -> nth_error (f a') i' = Some x ->
  a = a' /\ i = i'.
Proof.
  induction l as [|a0 l IH]; simpl; intros Hnd Ha Ha' Hi Hi'; [contradiction|].
  assert (Hx : In x (f a)) by (eapply nth_error_In; eauto).
  assert (Hx' : In x (f a')) by (eapply nth_error_In; eauto).
  destruct Ha as [Ea|Ha]; destruct Ha' as [Ea'|Ha'].
  - subst a a'. split; [reflexivity|].
    apply NoDup_app_remove_r in Hnd.
    exact (@NoDup_nth_error_injective _ (f a0) i i' x Hnd Hi Hi').
  - subst a. exfalso. apply (app_distinct_disjoint _ _ x Hnd Hx).
    apply in_flat_map. now exists a'.
  - subst a'. exfalso. apply (app_distinct_disjoint _ _ x Hnd Hx').
    apply in_flat_map. now exists a.
  - apply IH; auto. now apply NoDup_app_remove_l in Hnd.
Qed.

Section PTDF.

Context {F : Type} {SF : Scalar F}.

Variable network : Network F.
Variable snapshots : list snapshot.
Variable ptdf_tolerance : F.

Lemma mat_get_entry (M : Matrix F) (i j : nat) (x : F) :
  mat_get M i j = Return x -> x = mat_entry M i j.
Proof.
  unfold mat_get. destruct ((i <? mat_nrows M)%nat && (j <? mat_ncols M)%nat);
    intro H; inversion H. reflexivity.
Qed.

(** Every flow definition that the loops over sub-networks, branches and
    snapshots store has the PTDF form. *)
Lemma ptdf_entries_loop (s : NetState F) (balance : dict (LExpression F))
    (model : Model F) (d : dict (cspec F)) :
  _p_balance s = Some balance ->
  (forall k e, dget balance k = Some e -> e = nodal_balance network snapshots k) ->
  foldM (fun flows sub_network =>
      let branches_i := sub_branches sub_network in
      let PTDF := if (0 <? List.length branches_i)%nat
                  then kill_small ptdf_tolerance (sub_PTDF sub_network)
                  else sub_PTDF sub_network in
      foldM (fun flows ib =>
          let i := fst ib in
          let bt := pb_type (snd ib) in
          let bn := pb_name (snd ib) in
          foldM (fun flows sn =>
              summands <- mapM (fun jb =>
                  x <- mat_get PTDF i (fst jb) ;;
                  if negb (feqb x fzero)
                  then balance <- get_p_balance s ;;
                       e <- dlookup balance [KName (snd jb); KSnap sn] ;;
                       Return [lexpr_scale x e]
                  else Return [])
                (enumerate (sub_buses_o sub_network)) ;;
              let lhs := lexpr_sum (List.concat summands) in
              p <- getvar model "passive_branch_p" [KName bt; KName bn; KSnap sn] ;;
              let rhs := LExpression_terms [(fone, p)] in
              Return (dset flows [KName bt; KName bn; KSnap sn]
                           (CObject (mkLConstraint lhs EQ rhs))))
            snapshots flows)
        (enumerate branches_i) flows)
    (sub_networks network) [] = Return d ->
  ptdf_entries network snapshots ptdf_tolerance d.
Proof.
  intros Hs Hbal H.
  eapply (@foldM_invariant _ _ (ptdf_entries network snapshots ptdf_tolerance));
    [| | exact H].
  2:{ intros k c Hk. discriminate. }
  intros d0 sub d1 Hsub Hd0 Hstep. cbv zeta in Hstep.
  eapply (@foldM_invariant _ _ (ptdf_entries network snapshots ptdf_tolerance));
    [| exact Hd0 | exact Hstep].
  intros d2 [i b] d3 Hib Hd2 Hin. simpl fst in Hin. simpl snd in Hin.
  apply in_enumerate in Hib.
  eapply (@foldM_invariant _ _ (ptdf_entries network snapshots ptdf_tolerance));
    [| exact Hd2 | exact Hin].
  intros d4 sn d5 Hsn Hd4 Hx.
  apply bind_inv in Hx. destruct Hx as [summands [Hsum Hx]].
  apply bind_inv in Hx. destruct Hx as [p [Hp Hx]].
  apply getvar_inv in Hp. destruct Hp as [-> _].
  inversion Hx; subst d5. clear Hx.
  apply mapM_pure with
    (g := fun jb : nat * string =>
            let x := mat_entry (ptdf_matrix ptdf_tolerance sub) i (fst jb) in
            if negb (feqb x fzero)
            then [lexpr_scale x (nodal_balance network snapshots
                                               [KName (snd jb); KSnap sn])]
            else []) in Hsum.
  2:{ intros jb y _ Hy. apply bind_inv in Hy. destruct Hy as [x [Hm Hy]].
      apply mat_get_entry in Hm. fold (ptdf_matrix ptdf_tolerance sub) in Hm.
      cbv zeta. rewrite <- Hm.
      destruct (negb (feqb x fzero)); [|now inversion Hy].
      apply bind_inv in Hy. destruct Hy as [bal [Hg Hy]].
      unfold get_p_balance in Hg. rewrite Hs in Hg. inversion Hg; subst bal.
      apply bind_inv in Hy. destruct Hy as [e [He Hy]].
      apply dlookup_inv in He. apply Hbal in He. subst e. now inversion Hy. }
  intros k c Hk. rewrite dget_dset in Hk.
  destruct (index_eqb k [KName (pb_type b); KName (pb_name b); KSnap sn]) eqn:E.
  - apply index_eqb_eq in E. inversion Hk; subst c k.
    exists sub, i, b, sn. repeat (split; [assumption || reflexivity|]).
    unfold ptdf_flow_constraint, ptdf_flow_summands. rewrite Hsum. reflexivity.
  - now apply Hd4.
Qed.

Lemma define_passive_branch_flows_with_PTDF_spec (s s' : NetState F)
    (balance : dict (LExpression F)) (sub : SubNetwork F) (i : nat)
    (b : PassiveBranch F) (sn : snapshot) :
  define_passive_branch_flows_with_PTDF network snapshots ptdf_tolerance s = Return s' ->
  _p_balance s = Some balance ->
  (forall k e, dget balance k = Some e -> e = nodal_balance network snapshots k) ->
  NoDup (flat_map (fun sub => branch_index (sub_branches sub)) (sub_networks network)) ->
  In sub (sub_networks network) -> nth_error (sub_branches sub) i = Some b ->
  In [KName (pb_type b); KName (pb_name b)] (branch_index (passive_branches network)) ->
  In sn snapshots ->
  con_at (model s') "passive_branch_p_def" [KName (pb_type b); KName (pb_name b); KSnap sn]
  = Some (ptdf_flow_constraint network snapshots ptdf_tolerance sub i b sn).
Proof.
  unfold define_passive_branch_flows_with_PTDF. cbv zeta.
  intros H Hs Hbal Hnd Hsub Hi Hkey Hsn.
  bstep H flows Hflows.
  apply bind_inv in H. destruct H as [m' [Hl H]]. inversion H; subst s'. clear H.
  apply l_constraint_inv in Hl. destruct Hl as [fam [-> Hfam]].
  unfold con_at. simpl m_cons. simpl assoc.
  assert (Hin : In [KName (pb_type b); KName (pb_name b); KSnap sn]
                   (cross (branch_index (passive_branches network))
                          (snap_index snapshots))).
  { change [KName (pb_type b); KName (pb_name b); KSnap sn]
      with ([KName (pb_type b); KName (pb_name b)] ++ [KSnap sn]).
    apply in_cross; [assumption | now apply in_snap_index]. }
  destruct (l_constraint_dget _ _ _ Hfam Hin) as [c [Hc ->]]. f_equal.
  pose proof (ptdf_entries_loop _ _ Hs Hbal Hflows) as Hent.
  destruct (Hent _ _ Hc) as (sub' & i' & b' & sn' & Hsub' & Hi' & Ek & Hform).
  inversion Ek as [[Et En Esn]]. subst sn'.
  assert (Hb : nth_error (branch_index (sub_branches sub)) i
               = Some [KName (pb_type b); KName (pb_name b)]).
  { unfold branch_index. now rewrite nth_error_map, Hi. }
  assert (Hb' : nth_error (branch_index (sub_branches sub')) i'
                = Some [KName (pb_type b); KName (pb_name b)]).
  { unfold branch_index. rewrite nth_error_map, Hi'. simpl. now rewrite Et, En. }
  destruct (flat_map_place (fun sub => branch_index (sub_branches sub))
              (sub_networks network) sub sub' i i' Hnd Hsub Hsub' Hb Hb') as [Es Ei].
  subst i' sub'. rewrite Hi in Hi'. inversion Hi'; subst b'. exact Hform.
Qed.

End PTDF.

Section PTDFBuild.

Context {F : Type} {SF : Scalar F}.

(** The flow step of a build starts from the nodal balances, and its flow
    definitions are those of the built model. *)
Lemma build_keeps_balances (network : Network F) (snapshots : list snapshot)
    (formulation : string) (tol : F) (s : NetState F) :
  build_model network snapshots formulation tol = Return s ->
  exists m5 s6 s7,
    define_nodal_balances network snapshots (mkNetState m5 None) = Return s6
    /\ define_passive_branch_flows network snapshots formulation tol s6 = Return s7
    /\ assoc "passive_branch_p_def" (m_cons (model s))
       = assoc "passive_branch_p_def" (m_cons (model s7)).
Proof.
  intro H. build_steps H. exists m5, s6, s7. repeat (split; [assumption|]).
  apply define_passive_branch_constraints_extends in Hlim.
  apply balance_step_declares in Hnodal. simpl in Hnodal.
  apply co2_step_declares in Hco2.
  apply define_linear_objective_frame in Hobj. destruct Hobj as (_ & Ec & _).
  subst s. simpl. rewrite Ec.
  rewrite (declares_assoc_cons "passive_branch_p_def" Hco2) by not_in_names.
  rewrite (declares_assoc_cons "passive_branch_p_def" Hnodal) by not_in_names.
  apply (extends_assoc_cons "passive_branch_p_def" Hlim). not_in_names.
Qed.

(** X24. With the formulation "ptdf" the flow of a passive branch is defined
    from the nodal balances: for the branch at position [i] of a
    sub-network and a snapshot of the window the constraint is
    [sum_j PTDF[i,j] * p_balance[bus_j, t] = p], over the buses [bus_j] of
    the sub-network whose PTDF entry is not zero after the entries below
    [ptdf_tolerance] have been set to zero, and with [p_balance] the nodal
    balance of the bus without the passive branches. *)
Theorem ptdf_flow_definition (network : Network F) (snapshots : list snapshot)
    (ptdf_tolerance : F) (s : NetState F) (sub : SubNetwork F) (i : nat)
    (b : PassiveBranch F) (sn : snapshot) :
  build_model network snapshots "ptdf" ptdf_tolerance = Return s ->
  NoDup (flat_map (fun sub => branch_index (sub_branches sub)) (sub_networks network)) ->
  In sub (sub_networks network) -> nth_error (sub_branches sub) i = Some b ->
  In [KName (pb_type b); KName (pb_name b)] (branch_index (passive_branches network)) ->
  In sn snapshots ->
  con_at (model s) "passive_branch_p_def" [KName (pb_type b); KName (pb_name b); KSnap sn]
  = Some (ptdf_flow_constraint network snapshots ptdf_tolerance sub i b sn).
Proof.
  intros H Hnd Hsub Hi Hkey Hsn.
  apply build_keeps_balances in H. destruct H as (m5 & s6 & s7 & Hbal & Hflow & Ec).
  unfold con_at. rewrite Ec.
  apply nodal_balance_entries in Hbal. destruct Hbal as (balance & Eb & Hk).
  unfold define_passive_branch_flows in Hflow. simpl in Hflow.
  assert (Hform : forall k e, dget balance k = Some e ->
                    e = nodal_balance network snapshots k).
  { intros k e He. rewrite Hk in He.
    destruct (dget (empty_balances network snapshots) k); inversion He. reflexivity. }
  exact (@define_passive_branch_flows_with_PTDF_spec _ _ network snapshots ptdf_tolerance
           s6 s7 balance sub i b sn Hflow Eb Hform Hnd Hsub Hi Hkey Hsn).
Qed.

End PTDFBuild.


(** ** Further theorems on the example networks *)

Lemma extracted_flows_witness :
  recognized "angles" = true
  /\ build_model example_network [0; 1] "angles" 0%Z = Return (example_state "angles")
  /\ extract_optimisation_results example_types example_spsolve example_network [0; 1]
       "angles" (model (example_state "angles"))
       (example_solver (model (example_state "angles"))) no_results
     = Return (extracted "angles")
  /\ (forall b sn, In b (passive_branches example_network) -> In sn [0; 1] ->
        tables (extracted "angles") "passive_branches_t.p0" sn
               [KName (pb_type b); KName (pb_name b)]
        = sr_value (example_solver (model (example_state "angles")))
                   ("passive_branch_p", [KName (pb_type b); KName (pb_name b); KSnap sn])
        /\ tables (extracted "angles") "passive_branches_t.p1" sn
                  [KName (pb_type b); KName (pb_name b)]
           = olift1 fopp
               (sr_value (example_solver (model (example_state "angles")))
                         ("passive_branch_p",
                          [KName (pb_type b); KName (pb_name b); KSnap sn])))
  /\ (NoDup (name_index ln_name (links example_network)) ->
      forall l sn, In l (links example_network) -> In sn [0; 1] ->
        tables (extracted "angles") "links_t.p0" sn [KName (ln_name l)]
        = sr_value (example_solver (model (example_state "angles")))
                   ("link_p", [KName (ln_name l); KSnap sn])
        /\ tables (extracted "angles") "links_t.p1" sn [KName (ln_name l)]
           = olift1 fopp
               (olift2 fmul
                  (sr_value (example_solver (model (example_state "angles")))
                            ("link_p", [KName (ln_name l); KSnap sn]))
                  (Some (ln_efficiency l)))).
Proof.
  assert (Hr : recognized "angles" = true) by reflexivity.
  assert (Hb : build_model example_network [0; 1] "angles" 0%Z
               = Return (example_state "angles")) by (vm_compute; reflexivity).
  assert (He : extract_optimisation_results example_types example_spsolve
                 example_network [0; 1] "angles" (model (example_state "angles"))
                 (example_solver (model (example_state "angles"))) no_results
               = Return (extracted "angles")) by (vm_compute; reflexivity).
  split; [exact Hr|]. split; [exact Hb|]. split; [exact He|].
  exact (@extracted_flows Z Scalar_Z example_types example_spsolve example_network
           [0; 1] "angles" 0%Z (example_state "angles")
           (example_solver (model (example_state "angles"))) no_results
           (extracted "angles") Hr Hb He).
Defined.

Lemma store_variables_witness :
  build_model linked_network [0; 1] "angles" 0%Z = Return linked_state
  /\ NoDup (name_index st_name (stores linked_network))
  /\ In example_store (stores linked_network)
  /\ In 1 [0; 1]
  /\ var_at (model linked_state) "store_p" [KName (st_name example_store); KSnap 1]
     = Some (mkVarData Reals None None)
  /\ var_at (model linked_state) "store_e" [KName (st_name example_store); KSnap 1]
     = Some (store_e_var example_store)
  /\ var_at (model linked_state) "store_e_nom" [KName (st_name example_store)]
     = store_e_nom_var example_store
  /\ con_at (model linked_state) "store_e_upper" [KName (st_name example_store); KSnap 1]
     = (if st_e_nom_extendable example_store
        then Some (store_e_upper_constraint example_store 1) else None)
  /\ con_at (model linked_state) "store_e_lower" [KName (st_name example_store); KSnap 1]
     = (if st_e_nom_extendable example_store
        then Some (store_e_lower_constraint example_store 1) else None).
Proof.
  assert (Hb : build_model linked_network [0; 1] "angles" 0%Z = Return linked_state)
    by (vm_compute; reflexivity).
  assert (Hnd : NoDup (name_index st_name (stores linked_network))) by distinct_names.
  assert (Hu : In example_store (stores linked_network)) by (left; reflexivity).
  assert (Hsn : In 1 [0; 1]) by (simpl; auto).
  repeat (split; [assumption|]).
  exact (@store_variables Z Scalar_Z linked_network [0; 1] "angles" 0%Z
           linked_state example_store 1 Hb Hnd Hu Hsn).
Defined.

Lemma store_energy_balance_witness :
  build_model linked_network [0; 1] "angles" 0%Z = Return linked_state
  /\ NoDup (name_index st_name (stores linked_network))
  /\ NoDup [0; 1]
  /\ In example_store (stores linked_network)
  /\ nth_error [0; 1] 1 = Some 1
  /\ con_at (model linked_state) "store_constraint"
            [KName (st_name example_store); KSnap 1]
     = Some (store_constraint_form linked_network [0; 1] example_store 1 1).
Proof.
  assert (Hb : build_model linked_network [0; 1] "angles" 0%Z = Return linked_state)
    by (vm_compute; reflexivity).
  assert (Hnd : NoDup (name_index st_name (stores linked_network))) by distinct_names.
  assert (Hsnd : NoDup [0; 1]) by distinct_names.
  assert (Hu : In example_store (stores linked_network)) by (left; reflexivity).
  assert (Hi : nth_error [0; 1] 1 = Some 1) by reflexivity.
  repeat (split; [assumption|]).
  exact (@store_energy_balance Z Scalar_Z linked_network [0; 1] "angles" 0%Z
           linked_state example_store 1 1 Hb Hnd Hsnd Hu Hi).
Defined.

Lemma extracted_stores_witness :
  build_model linked_network [0; 1] "angles" 0%Z = Return linked_state
  /\ extract_optimisation_results example_types example_spsolve linked_network [0; 1]
       "angles" (model linked_state) (example_solver (model linked_state)) no_results
     = Return linked_extracted
  /\ In example_store (stores linked_network)
  /\ In 1 [0; 1]
  /\ tables linked_extracted "stores_t.p" 1 [KName (st_name example_store)]
     = sr_value (example_solver (model linked_state))
                ("store_p", [KName (st_name example_store); KSnap 1])
  /\ tables linked_extracted "stores_t.e" 1 [KName (st_name example_store)]
     = sr_value (example_solver (model linked_state))
                ("store_e", [KName (st_name example_store); KSnap 1]).
Proof.
  assert (Hb : build_model linked_network [0; 1] "angles" 0%Z = Return linked_state)
    by (vm_compute; reflexivity).
  assert (He : extract_optimisation_results example_types example_spsolve
                 linked_network [0; 1] "angles" (model linked_state)
                 (example_solver (model linked_state)) no_results
               = Return linked_extracted) by (vm_compute; reflexivity).
  assert (Hu : In example_store (stores linked_network)) by (left; reflexivity).
  assert (Hsn : In 1 [0; 1]) by (simpl; auto).
  split; [exact Hb|]. split; [exact He|]. split; [exact Hu|]. split; [exact Hsn|].
  exact (@extracted_stores Z Scalar_Z example_types example_spsolve linked_network
           [0; 1] "angles" 0%Z linked_state (example_solver (model linked_state))
           no_results linked_extracted example_store 1 Hb He Hu Hsn).
Defined.

Lemma nodal_balance_expression_witness :
  define_nodal_balances linked_network [0; 1] linked_declared = Return linked_balanced
  /\ In (mkBus "B" "gas") (buses linked_network)
  /\ In 0 [0; 1]
  /\ exists balance,
       _p_balance linked_balanced = Some balance
       /\ dget balance [KName "B"; KSnap 0]
          = Some (mkLExpression
                    (balance_variables linked_network [0; 1] [KName "B"; KSnap 0])
                    (balance_constant linked_network [0; 1] [KName "B"; KSnap 0])).
Proof.
  assert (Hd : define_nodal_balances linked_network [0; 1] linked_declared
               = Return linked_balanced) by (vm_compute; reflexivity).
  assert (Hb : In (mkBus "B" "gas") (buses linked_network)) by (right; left; reflexivity).
  assert (Hsn : In 0 [0; 1]) by (simpl; auto).
  repeat (split; [assumption|]).
  exact (@nodal_balance_expression Z Scalar_Z linked_network [0; 1] linked_declared
           linked_balanced (mkBus "B" "gas") 0 Hd Hb Hsn).
Defined.

Lemma failed_solve_keeps_results_witness :
  build_model example_network [0; 1] "angles" 0%Z = Return (example_state "angles")
  /\ solver_optimal (failing_solver (model (example_state "angles")))
     || solver_suboptimal (failing_solver (model (example_state "angles"))) = false
  /\ exists o,
       network_lopf example_types example_spsolve example_network no_results
         (Some [0; 1]) failing_solver true None "angles" 0%Z = Return o
       /\ out_results o = no_results
       /\ out_model o = model (example_state "angles")
       /\ (forall w f, ~ In (EvExtract w f) (out_trace o))
       /\ exists msg, In (EvPrint msg) (out_trace o).
Proof.
  assert (Hb : build_model example_network [0; 1] "angles" 0%Z
               = Return (example_state "angles")) by (vm_compute; reflexivity).
  assert (Hf : solver_optimal (failing_solver (model (example_state "angles")))
               || solver_suboptimal (failing_solver (model (example_state "angles")))
               = false) by reflexivity.
  split; [exact Hb|]. split; [exact Hf|].
  exact (@failed_solve_keeps_results Z Scalar_Z example_types example_spsolve
           example_network no_results [0; 1] failing_solver true "angles" 0%Z
           (example_state "angles") Hb Hf).
Defined.

Lemma extracted_voltage_conventions_witness :
  extract_optimisation_results example_types example_spsolve dc_network [0; 1]
    "angles" (model dc_state) (example_solver (model dc_state)) no_results
  = Return dc_extracted
  /\ NoDup (name_index bus_name (buses dc_network))
  /\ In (mkBus "B" "DC") (buses dc_network)
  /\ In 1 [0; 1]
  /\ (bus_carrier (mkBus "B" "DC") = "DC" ->
      tables dc_extracted "buses_t.v_ang" 1 [KName "B"] = Some 0%Z)
  /\ (bus_carrier (mkBus "B" "DC") = "AC" ->
      tables dc_extracted "buses_t.v_mag_pu" 1 [KName "B"] = Some 1%Z).
Proof.
  assert (He : extract_optimisation_results example_types example_spsolve
                 dc_network [0; 1] "angles" (model dc_state)
                 (example_solver (model dc_state)) no_results
               = Return dc_extracted) by (vm_compute; reflexivity).
  assert (Hnd : NoDup (name_index bus_name (buses dc_network))) by distinct_names.
  assert (Hb : In (mkBus "B" "DC") (buses dc_network)) by (right; left; reflexivity).
  assert (Hsn : In 1 [0; 1]) by (simpl; auto).
  split; [exact He|]. split; [exact Hnd|]. split; [exact Hb|]. split; [exact Hsn|].
  exact (@extracted_voltage_conventions Z Scalar_Z example_types example_spsolve
           dc_network [0; 1] "angles" (model dc_state)
           (example_solver (model dc_state)) no_results
           dc_extracted (mkBus "B" "DC") 1 He Hnd Hb Hsn).
Defined.

Lemma extracted_voltage_angles_witness :
  build_model dc_network [0; 1] "angles" 0%Z = Return dc_state
  /\ extract_optimisation_results example_types example_spsolve dc_network [0; 1]
       "angles" (model dc_state) (example_solver (model dc_state)) no_results
     = Return dc_extracted
  /\ NoDup (name_index bus_name (buses dc_network))
  /\ In (mkBus "B" "DC") (buses dc_network)
  /\ In 1 [0; 1]
  /\ (bus_carrier (mkBus "B" "DC") <> "DC" ->
      tables dc_extracted "buses_t.v_ang" 1 [KName "B"]
      = sr_value (example_solver (model dc_state))
                 ("voltage_angles", [KName "B"; KSnap 1]))
  /\ (bus_carrier (mkBus "B" "DC") = "DC" ->
      tables dc_extracted "buses_t.v_mag_pu" 1 [KName "B"]
      = olift1 (fadd fone)
               (sr_value (example_solver (model dc_state))
                         ("voltage_angles", [KName "B"; KSnap 1]))).
Proof.
  assert (Hbuild : build_model dc_network [0; 1] "angles" 0%Z = Return dc_state)
    by (vm_compute; reflexivity).
  assert (He : extract_optimisation_results example_types example_spsolve
                 dc_network [0; 1] "angles" (model dc_state)
                 (example_solver (model dc_state)) no_results
               = Return dc_extracted) by (vm_compute; reflexivity).
  assert (Hnd : NoDup (name_index bus_name (buses dc_network))) by distinct_names.
  assert (Hb : In (mkBus "B" "DC") (buses dc_network)) by (right; left; reflexivity).
  assert (Hsn : In 1 [0; 1]) by (simpl; auto).
  split; [exact Hbuild|]. split; [exact He|]. split; [exact Hnd|].
  split; [exact Hb|]. split; [exact Hsn|].
  exact (@extracted_voltage_angles Z Scalar_Z example_types example_spsolve
           dc_network [0; 1] 0%Z dc_state
           (example_solver (model dc_state)) no_results
           dc_extracted (mkBus "B" "DC") 1 Hbuild He Hnd Hb Hsn).
Defined.

Lemma storage_unit_capacity_limits_witness :
  build_model example_network [0; 1] "angles" 0%Z = Return (example_state "angles")
  /\ NoDup (name_index su_name (storage_units example_network))
  /\ In example_storage_unit (storage_units example_network)
  /\ In 1 [0; 1]
  /\ var_at (model (example_state "angles")) "storage_p_nom"
            [KName (su_name example_storage_unit)]
     = storage_p_nom_var example_storage_unit
  /\ con_at (model (example_state "angles")) "storage_p_upper"
            [KName (su_name example_storage_unit); KSnap 1]
     = (if su_p_nom_extendable example_storage_unit
        then Some (storage_p_upper_constraint example_storage_unit 1) else None)
  /\ con_at (model (example_state "angles")) "storage_p_lower"
            [KName (su_name example_storage_unit); KSnap 1]
     = (if su_p_nom_extendable example_storage_unit
        then Some (storage_p_lower_constraint example_storage_unit 1) else None).
Proof.
  assert (Hb : build_model example_network [0; 1] "angles" 0%Z
               = Return (example_state "angles")) by (vm_compute; reflexivity).
  assert (Hnd : NoDup (name_index su_name (storage_units example_network)))
    by distinct_names.
  assert (Hsu : In example_storage_unit (storage_units example_network))
    by (left; reflexivity).
  assert (Hsn : In 1 [0; 1]) by (simpl; auto).
  repeat (split; [assumption|]).
  exact (@storage_unit_capacity_limits Z Scalar_Z example_network [0; 1] "angles" 0%Z
           (example_state "angles") example_storage_unit 1 Hb Hnd Hsu Hsn).
Defined.

Lemma state_of_charge_set_points_witness :
  build_model fixed_charge_network [0; 1] "angles" 0%Z = Return fixed_charge_state
  /\ NoDup (name_index su_name (storage_units fixed_charge_network))
  /\ In example_storage_unit (storage_units fixed_charge_network)
  /\ In 1 [0; 1]
  /\ con_at (model fixed_charge_state) "state_of_charge_constraint_fixed"
            [KName (su_name example_storage_unit); KSnap 1]
     = state_of_charge_fixed_constraint fixed_charge_network example_storage_unit 1.
Proof.
  assert (Hb : build_model fixed_charge_network [0; 1] "angles" 0%Z
               = Return fixed_charge_state) by (vm_compute; reflexivity).
  assert (Hnd : NoDup (name_index su_name (storage_units fixed_charge_network)))
    by distinct_names.
  assert (Hsu : In example_storage_unit (storage_units fixed_charge_network))
    by (left; reflexivity).
  assert (Hsn : In 1 [0; 1]) by (simpl; auto).
  repeat (split; [assumption|]).
  exact (@state_of_charge_set_points Z Scalar_Z fixed_charge_network [0; 1] "angles" 0%Z
           fixed_charge_state example_storage_unit 1 Hb Hnd Hsu Hsn).
Defined.

Lemma ptdf_flow_definition_witness :
  build_model example_network [0; 1] "ptdf" 0%Z = Return (example_state "ptdf")
  /\ NoDup (flat_map (fun sub => branch_index (sub_branches sub))
                     (sub_networks example_network))
  /\ In example_sub_network (sub_networks example_network)
  /\ nth_error (sub_branches example_sub_network) 0 = Some example_line
  /\ In [KName (pb_type example_line); KName (pb_name example_line)]
        (branch_index (passive_branches example_network))
  /\ In 1 [0; 1]
  /\ con_at (model (example_state "ptdf")) "passive_branch_p_def"
            [KName (pb_type example_line); KName (pb_name example_line); KSnap 1]
     = Some (ptdf_flow_constraint example_network [0; 1] 0%Z example_sub_network 0
                                  example_line 1).
Proof.
  assert (Hb : build_model example_network [0; 1] "ptdf" 0%Z
               = Return (example_state "ptdf")) by (vm_compute; reflexivity).
  assert (Hnd : NoDup (flat_map (fun sub => branch_index (sub_branches sub))
                                (sub_networks example_network))) by distinct_names.
  assert (Hsub : In example_sub_network (sub_networks example_network))
    by (left; reflexivity).
  assert (Hi : nth_error (sub_branches example_sub_network) 0 = Some example_line)
    by reflexivity.
  assert (Hk : In [KName (pb_type example_line); KName (pb_name example_line)]
                  (branch_index (passive_branches example_network)))
    by (left; reflexivity).
  assert (Hsn : In 1 [0; 1]) by (simpl; auto).
  repeat (split; [assumption|]).
  exact (@ptdf_flow_definition Z Scalar_Z example_network [0; 1] 0%Z
           (example_state "ptdf") example_sub_network 0 example_line 1
           Hb Hnd Hsub Hi Hk Hsn).
Defined.


(** ** The balance constraints in closed form *)

Section BalanceClosed.

Context {F : Type} {SF : Scalar F}.

(** The loop of [define_nodal_balance_constraints] appends to every balance
    the flows of the passive branches at its bus. *)
Lemma branch_loop_effect (network : Network F) (snapshots : list snapshot)
    (m : Model F) (bal bal' : dict (LExpression F)) (k : index) :
  foldM (fun balance p =>
      let branch := fst p in let sn := snd p in
      let bt := pb_type branch in
      let bn := pb_name branch in
      balance <- append_variable balance [KName (pb_bus0 branch); KSnap sn]
                   (v <- getvar m "passive_branch_p" [KName bt; KName bn; KSnap sn] ;;
                    Return (fopp fone, v)) ;;
      append_variable balance [KName (pb_bus1 branch); KSnap sn]
        (v <- getvar m "passive_branch_p" [KName bt; KName bn; KSnap sn] ;;
         Return (fone, v)))
    (list_prod (passive_branches network) snapshots) bal = Return bal' ->
  dget bal' k
  = option_map
      (append_terms (flat_map (balance_branch_terms k)
                              (list_prod (passive_branches network) snapshots)))
      (dget bal k).
Proof.
  intro H.
  eapply (@foldM_effect _ _ _ (fun p k e => append_terms (balance_branch_terms k p) e))
    with (k := k) in H.
  - rewrite H. destruct (dget bal k); simpl; [|reflexivity].
    now rewrite fold_append_terms.
  - intros b p b' k' Hs. cbv zeta in Hs.
    apply bind_inv in Hs. destruct Hs as [bm [Ha Hs]].
    rewrite (append_variable_effect _ _ _ _ _ _ k' Hs).
    rewrite (append_variable_effect _ _ _ _ _ _ k' Ha).
    destruct (dget b k'); simpl; [|reflexivity].
    now rewrite append_terms_app.
Qed.

(** The balances that a build leaves in [_p_balance]: at every key the
    injections of the components at the bus, and with "angles" or
    "kirchhoff" also the flows of the passive branches at the bus. *)
Lemma build_balances (network : Network F) (snapshots : list snapshot)
    (formulation : string) (tol : F) (s : NetState F) :
  build_model network snapshots formulation tol = Return s ->
  exists balance,
    _p_balance s = Some balance
    /\ forall k,
         dget balance k
         = option_map
             (fun _ => if (formulation =? "angles") || (formulation =? "kirchhoff")
                       then power_balance_expression network snapshots k
                       else nodal_balance network snapshots k)
             (dget (empty_balances network snapshots) k).
Proof.
  intro H. build_steps H.
  apply nodal_balance_entries in Hbal. destruct Hbal as (balance6 & Eb6 & Hk6).
  apply define_passive_branch_flows_declares in Hflow. destruct Hflow as [_ Ep].
  rewrite Eb6 in Ep. subst s. simpl.
  destruct ((formulation =? "angles") || (formulation =? "kirchhoff")).
  - unfold define_nodal_balance_constraints in Hnodal. cbv zeta in Hnodal.
    simpl in Hnodal. bstep Hnodal b0 Hb0.
    unfold get_p_balance in Hb0. simpl in Hb0. rewrite Ep in Hb0.
    inversion Hb0; subst b0. clear Hb0.
    bstep Hnodal balance Hb.
    apply bind_inv in Hnodal. destruct Hnodal as [m' [_ Hnodal]].
    inversion Hnodal; subst s9. simpl.
    exists balance. split; [reflexivity|]. intro k.
    rewrite (branch_loop_effect network snapshots _ _ k Hb), Hk6.
    destruct (dget (empty_balances network snapshots) k); reflexivity.
  - assert (E9 : _p_balance s9 = Some balance6).
    { destruct ((formulation =? "ptdf") || (formulation =? "cycles")).
      - apply define_sub_network_balance_constraints_extends in Hnodal.
        destruct Hnodal as [_ E]. rewrite E. exact Ep.
      - inversion Hnodal. exact Ep. }
    exists balance6. split; [exact E9 | exact Hk6].
Qed.

(** C1. With the formulation "angles" or "kirchhoff" the built model holds
    for every bus and every snapshot of the solve window one equality
    constraint [power_balance] that sets the nodal balance of that bus and
    snapshot to zero: the injections of the links, generators, storage
    units and stores at the bus and the constant of its loads, followed by
    the flows of the passive branches that leave the bus (coefficient -1)
    or arrive at it (coefficient 1); and it holds no sub-network balance
    constraints. With "ptdf" or "cycles" it holds for every sub-network and
    snapshot one equality constraint [sub_network_balance_constraint] that
    sets to zero the sum of the nodal balances of the buses of the
    sub-network (variables concatenated, constants added), these being the
    injections without the passive branches; and it holds no per-bus
    balance constraints. *)
Theorem balance_constraints (network : Network F) (snapshots : list snapshot)
    (formulation : string) (ptdf_tolerance : F) (s : NetState F) :
  build_model network snapshots formulation ptdf_tolerance = Return s ->
  NoDup (name_index sub_name (sub_networks network)) ->
  exists balance,
    _p_balance s = Some balance
    /\ (formulation = "angles" \/ formulation = "kirchhoff" ->
        (exists fam,
            assoc "power_balance" (m_cons (model s)) = Some fam
            /\ dkeys fam
               = cross (name_index bus_name (buses network)) (snap_index snapshots)
            /\ forall bus sn, In bus (buses network) -> In sn snapshots ->
                 dget balance [KName (bus_name bus); KSnap sn]
                 = Some (power_balance_expression network snapshots
                           [KName (bus_name bus); KSnap sn])
                 /\ dget fam [KName (bus_name bus); KSnap sn]
                    = Some (equals_zero
                              (power_balance_expression network snapshots
                                 [KName (bus_name bus); KSnap sn])))
        /\ assoc "sub_network_balance_constraint" (m_cons (model s)) = None)
    /\ (formulation = "ptdf" \/ formulation = "cycles" ->
        (exists fam,
            assoc "sub_network_balance_constraint" (m_cons (model s)) = Some fam
            /\ dkeys fam
               = cross (name_index sub_name (sub_networks network)) (snap_index snapshots)
            /\ forall sub sn, In sub (sub_networks network) -> In sn snapshots ->
                 mapM (fun bus => dlookup balance [KName bus; KSnap sn]) (sub_buses sub)
                 = Return (sub_network_balances network snapshots sub sn)
                 /\ dget fam [KName (sub_name sub); KSnap sn]
                    = Some (equals_zero
                              (lexpr_sum (sub_network_balances network snapshots sub sn))))
        /\ assoc "power_balance" (m_cons (model s)) = None).
Proof.
  intros H Hnd.
  destruct (build_balances _ _ _ _ H) as (balance & Eb & Hk).
  destruct (balance_families _ _ _ _ H Hnd) as (balance' & Eb' & Hang & Hptdf).
  rewrite Eb in Eb'. inversion Eb'; subst balance'. clear Eb'.
  exists balance. split; [exact Eb|]. split.
  - intro Hf. destruct (Hang Hf) as [(fam & Ef & Kf & Hget) Hnone].
    split; [|exact Hnone]. exists fam. repeat (split; [assumption|]).
    intros bus sn Hbus Hsn.
    destruct (Hget bus sn Hbus Hsn) as (e & He & Hc).
    assert (Ee : dget balance [KName (bus_name bus); KSnap sn]
                 = Some (power_balance_expression network snapshots
                           [KName (bus_name bus); KSnap sn])).
    { rewrite Hk, (empty_balance_dget network snapshots bus sn Hbus Hsn).
      destruct Hf as [->| ->]; reflexivity. }
    split; [exact Ee|]. rewrite Ee in He. inversion He; subst e. exact Hc.
  - intro Hf. destruct (Hptdf Hf) as [(fam & Ef & Kf & Hget) Hnone].
    split; [|exact Hnone]. exists fam. repeat (split; [assumption|]).
    intros sub sn Hsub Hsn.
    destruct (Hget sub sn Hsub Hsn) as (es & Hes & Hc).
    assert (Ees : es = sub_network_balances network snapshots sub sn).
    { unfold sub_network_balances.
      apply (mapM_pure (fun bus => dlookup balance [KName bus; KSnap sn])
               (fun bus => nodal_balance network snapshots [KName bus; KSnap sn])
               (sub_buses sub)); [|exact Hes].
      intros bus y _ Hy. apply dlookup_inv in Hy. rewrite Hk in Hy.
      destruct (dget (empty_balances network snapshots) [KName bus; KSnap sn]);
        [|discriminate].
      simpl in Hy. inversion Hy.
      destruct Hf as [->| ->]; reflexivity. }
    subst es. split; assumption.
Qed.

End BalanceClosed.

(** The balance constraints of the example network built with "angles". *)
Lemma balance_constraints_witness :
  build_model example_network [0; 1] "angles" 0%Z = Return (example_state "angles")
  /\ NoDup (name_index sub_name (sub_networks example_network))
  /\ exists balance,
       _p_balance (example_state "angles") = Some balance
       /\ ("angles" = "angles" \/ "angles" = "kirchhoff" ->
           (exists fam,
               assoc "power_balance" (m_cons (model (example_state "angles"))) = Some fam
               /\ dkeys fam
                  = cross (name_index bus_name (buses example_network))
                          (snap_index [0; 1])
               /\ forall bus sn, In bus (buses example_network) -> In sn [0; 1] ->
                    dget balance [KName (bus_name bus); KSnap sn]
                    = Some (power_balance_expression example_network [0; 1]
                              [KName (bus_name bus); KSnap sn])
                    /\ dget fam [KName (bus_name bus); KSnap sn]
                       = Some (equals_zero
                                 (power_balance_expression example_network [0; 1]
                                    [KName (bus_name bus); KSnap sn])))
           /\ assoc "sub_network_balance_constraint"
                    (m_cons (model (example_state "angles"))) = None)
       /\ ("angles" = "ptdf" \/ "angles" = "cycles" ->
           (exists fam,
               assoc "sub_network_balance_constraint"
                     (m_cons (model (example_state "angles"))) = Some fam
               /\ dkeys fam
                  = cross (name_index sub_name (sub_networks example_network))
                          (snap_index [0; 1])
               /\ forall sub sn, In sub (sub_networks example_network) -> In sn [0; 1] ->
                    mapM (fun bus => dlookup balance [KName bus; KSnap sn])
                         (sub_buses sub)
                    = Return (sub_network_balances example_network [0; 1] sub sn)
                    /\ dget fam [KName (sub_name sub); KSnap sn]
                       = Some (equals_zero
                                 (lexpr_sum
                                    (sub_network_balances example_network [0; 1] sub sn))))
           /\ assoc "power_balance" (m_cons (model (example_state "angles"))) = None).
Proof.
  assert (Hb : build_model example_network [0; 1] "angles" 0%Z
               = Return (example_state "angles")) by (vm_compute; reflexivity).
  assert (Hnd : NoDup (name_index sub_name (sub_networks example_network)))
    by distinct_names.
  split; [exact Hb|]. split; [exact Hnd|].
  exact (@balance_constraints Z Scalar_Z example_network [0; 1] "angles" 0%Z
           (example_state "angles") Hb Hnd).
Defined.
